(** * pblk-core: a shallow embedding of the host-side FTL core

    The development follows drivers/lightnvm/pblk-core.c.  C integers are
    modelled as [Z] with the conversions the C code performs written out;
    the L2P table is a list indexed by LBA; the blocks are a list indexed
    by block id (the [rblk] back-pointers of the C code are indices into
    that list); effects on the outside world (device submissions,
    bio completions, work items, log lines) are appended to a trace that
    is part of the instance state. *)

From Stdlib Require Import ZArith List Bool Lia String.
From stdpp Require Import base numbers option list.

Local Open Scope Z_scope.

(* ================================================================== *)
(** ** Machine integers *)
(* ================================================================== *)

(** Conversion to [int] (32 bits, two's complement). *)
Definition to_int (z : Z) : Z := (z + 2 ^ 31) mod 2 ^ 32 - 2 ^ 31.

(** Conversion to [unsigned long] / [u64] (64 bits). *)
Definition to_ulong (z : Z) : Z := z mod 2 ^ 64.

(** Conversion to [uint8_t]. *)
Definition to_u8 (z : Z) : Z := z mod 2 ^ 8.

(** [ADDR_EMPTY], the all-ones 64-bit value used for "no LBA / no sector". *)
Definition ADDR_EMPTY : Z := 2 ^ 64 - 1.

(* ================================================================== *)
(** ** Backpressure on the in-flight counter *)
(* ================================================================== *)

(** [atomic_cmpxchg(v, old, new)] on a counter holding [v]: the pair of
    the counter afterwards and the value returned. *)
Definition atomic_cmpxchg (v old new : Z) : Z * Z :=
  if v =? old then (new, v) else (v, v).

(** Program points of one call of [atomic_inc_below]. *)
Inductive inc_pc : Type :=
| PcRead                (* before [int cur = atomic_read(v)] *)
| PcTest (cur : Z)      (* at the head of the [for (;;)] body *)
| PcRet (ok : bool).    (* returned *)

(** One atomic access of [atomic_inc_below(v, below, inc)]: the counter
    holds [v] when the access executes. *)
Definition atomic_inc_below_step (v below inc : Z) (pc : inc_pc) : Z * inc_pc :=
  match pc with
  | PcRead => (v, PcTest v)
  | PcTest cur =>
      if below <=? cur then (v, PcRet false)
      else
        let '(v', old) := atomic_cmpxchg v cur (to_int (cur + inc)) in
        if old =? cur then (v', PcRet true) else (v', PcTest old)
  | PcRet ok => (v, PcRet ok)
  end.

(** A call runs its accesses one after the other; before each access the
    other CPUs may have changed the counter ([interf] lists what they did
    to it, in order; once the list is used up they leave it alone). *)
Fixpoint atomic_inc_below_run (fuel : nat) (interf : list (Z -> Z))
    (v below inc : Z) (pc : inc_pc) : option (Z * bool) :=
  match pc with
  | PcRet ok => Some (v, ok)
  | _ =>
      match fuel with
      | O => None
      | S fuel' =>
          let v0 := match interf with [] => v | e :: _ => e v end in
          let '(v1, pc') := atomic_inc_below_step v0 below inc pc in
          atomic_inc_below_run fuel' (tl interf) v1 below inc pc'
      end
  end.

Definition atomic_inc_below (interf : list (Z -> Z)) (v below inc : Z)
    : option (Z * bool) :=
  atomic_inc_below_run (length interf + 2) interf v below inc PcRead.

Definition WRITE_INFLIGHT_CAP : Z := 400000.

Definition __pblk_may_submit_write (interf : list (Z -> Z))
    (write_inflight nr_secs : Z) : option (Z * bool) :=
  atomic_inc_below interf write_inflight WRITE_INFLIGHT_CAP nr_secs.

(** Outcome of [pblk_may_submit_write] under a finite schedule: the caller
    got through, or is still asleep on [pblk->wait] when the schedule ends. *)
Inductive wait_res : Type :=
| Granted (write_inflight : Z) (sleeps : nat)
| Asleep (write_inflight : Z).

(** The [do { ... } while (1)] of [pblk_may_submit_write].  Each element of
    [sched] is the interference met by one attempt; an attempt that fails
    calls [io_schedule()] and the next attempt starts after the wake-up. *)
Fixpoint pblk_may_submit_write_loop (sched : list (list (Z -> Z)))
    (write_inflight nr_secs : Z) (sleeps : nat) : option wait_res :=
  match sched with
  | [] => Some (Asleep write_inflight)
  | interf :: sched' =>
      match __pblk_may_submit_write interf write_inflight nr_secs with
      | None => None
      | Some (v, true) => Some (Granted v sleeps)
      | Some (v, false) => pblk_may_submit_write_loop sched' v nr_secs (S sleeps)
      end
  end.

Definition pblk_may_submit_write (sched : list (list (Z -> Z)))
    (write_inflight nr_secs : Z) : option wait_res :=
  match sched with
  | [] => Some (Asleep write_inflight)
  | interf :: sched' =>
      match __pblk_may_submit_write interf write_inflight nr_secs with
      | None => None
      | Some (v, true) => Some (Granted v O)
      | Some (v, false) => pblk_may_submit_write_loop sched' v nr_secs O
      end
  end.

(** The counter as the CPUs see it.  A CPU is outside
    [pblk_may_submit_write], inside one of its calls of
    [atomic_inc_below] for [nr_secs] sectors (the first one, or one made
    in the [do ... while (1)] loop), or asleep in [io_schedule()] after
    an attempt in the loop has failed. *)
Inductive cpu_state : Type :=
| CpuIdle
| CpuTrying (nr_secs : Z) (in_loop : bool) (pc : inc_pc)
| CpuAsleep (nr_secs : Z).

(** The shared counter and the CPUs that admit writes. *)
Record inflight_sys : Type := { sys_counter : Z; sys_cpus : list cpu_state }.

Definition inflight_init (v : Z) (ncpus : nat) : inflight_sys :=
  {| sys_counter := v; sys_cpus := replicate ncpus CpuIdle |}.

(** What happens next; the accesses of the CPUs interleave in any
    order. *)
Inductive inflight_op : Type :=
| OpCall (cpu : nat) (nr_secs : Z)  (* the CPU enters pblk_may_submit_write *)
| OpAccess (cpu : nat)              (* the CPU makes its next atomic access *)
| OpWake (cpu : nat)                (* a sleeping CPU is woken up *)
| OpComplete (nr_valid : Z).        (* atomic_sub(c_ctx->nr_valid, &write_inflight) *)

(** Where a CPU stands once an access of [atomic_inc_below] has left it at
    [pc]: a call that returns true ends [pblk_may_submit_write]; the
    first call, when it returns false, is followed at once by the call of
    the loop; a call of the loop that returns false is followed by
    [io_schedule()]. *)
Definition cpu_after (nr_secs : Z) (in_loop : bool) (pc : inc_pc) : cpu_state :=
  match pc with
  | PcRet true => CpuIdle
  | PcRet false => if in_loop then CpuAsleep nr_secs
                   else CpuTrying nr_secs true PcRead
  | _ => CpuTrying nr_secs in_loop pc
  end.

Definition inflight_apply (s : inflight_sys) (op : inflight_op) : inflight_sys :=
  match op with
  | OpCall cpu n =>
      match sys_cpus s !! cpu with
      | Some CpuIdle =>
          {| sys_counter := sys_counter s;
             sys_cpus := <[cpu := CpuTrying n false PcRead]> (sys_cpus s) |}
      | _ => s
      end
  | OpAccess cpu =>
      match sys_cpus s !! cpu with
      | Some (CpuTrying n in_loop pc) =>
          let '(v', pc') :=
            atomic_inc_below_step (sys_counter s) WRITE_INFLIGHT_CAP n pc in
          {| sys_counter := v';
             sys_cpus := <[cpu := cpu_after n in_loop pc']> (sys_cpus s) |}
      | _ => s
      end
  | OpWake cpu =>
      match sys_cpus s !! cpu with
      | Some (CpuAsleep n) =>
          {| sys_counter := sys_counter s;
             sys_cpus := <[cpu := CpuTrying n true PcRead]> (sys_cpus s) |}
      | _ => s
      end
  | OpComplete n =>
      {| sys_counter := to_int (sys_counter s - n); sys_cpus := sys_cpus s |}
  end.

(** Every value the counter takes along a run. *)
Fixpoint write_inflight_trace (s : inflight_sys) (ops : list inflight_op) : list Z :=
  match ops with
  | [] => [sys_counter s]
  | op :: ops' => sys_counter s :: write_inflight_trace (inflight_apply s op) ops'
  end.

(** The accesses by which a CPU gets through: the counter before, the
    sectors asked for and the counter after. *)
Definition admitted (s : inflight_sys) (op : inflight_op) : option (Z * Z * Z) :=
  match op with
  | OpAccess cpu =>
      match sys_cpus s !! cpu with
      | Some (CpuTrying n _ pc) =>
          match atomic_inc_below_step (sys_counter s) WRITE_INFLIGHT_CAP n pc with
          | (v', PcRet true) => Some (sys_counter s, n, v')
          | _ => None
          end
      | _ => None
      end
  | _ => None
  end.

Fixpoint write_admissions (s : inflight_sys) (ops : list inflight_op)
    : list (Z * Z * Z) :=
  match ops with
  | [] => []
  | op :: ops' =>
      match admitted s op with
      | Some a => a :: write_admissions (inflight_apply s op) ops'
      | None => write_admissions (inflight_apply s op) ops'
      end
  end.

(** The runs considered: requests carry between 0 and [N] sectors and the
    counter does not wrap below [INT_MIN]. *)
Fixpoint inflight_ops_ok (N : Z) (s : inflight_sys) (ops : list inflight_op) : bool :=
  match ops with
  | [] => true
  | op :: ops' =>
      match op with
      | OpCall _ n => (0 <=? n) && (n <=? N)
      | OpComplete n => (0 <=? n) && (- 2 ^ 31 <=? sys_counter s - n)
      | _ => true
      end && inflight_ops_ok N (inflight_apply s op) ops'
  end.

(** Interference that leaves the counter at or above the cap. *)
Definition keeps_full (sched : list (list (Z -> Z))) : Prop :=
  forall interf e x, In interf sched -> In e interf ->
    WRITE_INFLIGHT_CAP <= x -> WRITE_INFLIGHT_CAP <= e x.

(** What every CPU of a run satisfies: its request is within bounds, and
    while it is inside [atomic_inc_below] the call has not returned. *)
Definition cpu_ok (N : Z) (c : cpu_state) : Prop :=
  match c with
  | CpuIdle => True
  | CpuTrying n _ pc => 0 <= n <= N /\ forall ok, pc <> PcRet ok
  | CpuAsleep n => 0 <= n <= N
  end.

(** The invariant of the runs: the counter is an [int] within the bound
    and every CPU is as above. *)
Definition sys_inv (N : Z) (s : inflight_sys) : Prop :=
  - 2 ^ 31 <= sys_counter s <= WRITE_INFLIGHT_CAP - 1 + N /\
  Forall (cpu_ok N) (sys_cpus s).

(** The condition [inflight_ops_ok] puts on one step. *)
Definition op_ok (N : Z) (s : inflight_sys) (op : inflight_op) : Prop :=
  match op with
  | OpCall _ n => 0 <= n <= N
  | OpComplete n => 0 <= n /\ - 2 ^ 31 <= sys_counter s - n
  | _ => True
  end.

(** Two CPUs race for the counter: both read 399990; CPU 0 wins the
    [cmpxchg] with 64 sectors; the [cmpxchg] of CPU 1 fails, it tests the
    value it got back, fails twice and sleeps until a completion has
    brought the counter down. *)
Definition ex_race : list inflight_op :=
  [OpCall 0 64; OpCall 1 8; OpAccess 0; OpAccess 1; OpAccess 0; OpAccess 1;
   OpAccess 1; OpAccess 1; OpAccess 1; OpComplete 64; OpWake 1; OpAccess 1;
   OpAccess 1].

(* ================================================================== *)
(** ** Geometry and the size of the next media write *)
(* ================================================================== *)

(** The geometry fields of [struct pblk] the core reads. *)
Record pblk_geo : Type := {
  max_write_pgs : Z;
  min_write_pgs : Z;
  nr_blk_dsecs : Z;
  sec_per_pl : Z
}.

(** The [while (1)] of [pblk_calc_secs_to_sync]; [None] when [fuel] runs
    out before the [break]. *)
Fixpoint secs_to_sync_loop (fuel : nat) (min max secs_avail secs_to_sync : Z)
    : option Z :=
  match fuel with
  | O => None
  | S fuel' =>
      let inc := to_int (secs_to_sync + min) in
      if (to_ulong inc <=? secs_avail) && (inc <=? max)
      then secs_to_sync_loop fuel' min max secs_avail (to_int (secs_to_sync + min))
      else Some secs_to_sync
  end.

(** [pblk_calc_secs_to_sync]: [secs_avail] and [secs_to_flush] are
    [unsigned long]; [max], [min] and the result are [int], converted to
    [unsigned long] where C compares or divides them with the arguments. *)
Definition pblk_calc_secs_to_sync (pblk : pblk_geo)
    (secs_avail secs_to_flush : Z) : option Z :=
  let max := max_write_pgs pblk in
  let min := min_write_pgs pblk in
  if (to_ulong max <=? secs_avail) || (to_ulong max <=? secs_to_flush) then
    Some max
  else if to_ulong min <=? secs_avail then
    if negb (secs_to_flush =? 0) then
      secs_to_sync_loop (S (Z.to_nat max)) min max secs_avail
        (to_int (to_ulong (to_ulong min * (secs_to_flush / to_ulong min))))
    else
      Some (to_int (to_ulong (to_ulong min * (secs_avail / to_ulong min))))
  else
    if negb (secs_to_flush =? 0) then Some min else Some 0.

(** The value the specification gives for the second case: the largest
    multiple of [m] that does not exceed [bound]. *)
Definition largest_multiple_le (m bound r : Z) : Prop :=
  (m | r) /\ r <= bound /\ forall r', (m | r') -> r' <= bound -> r' <= r.

(** The value as the specification words it, to be compared with what
    [pblk_calc_secs_to_sync] computes: [max] when either argument reaches
    [max]; else, when [min] sectors are available, the largest multiple of
    [min] not above [secs_avail]; else [min] when flushing; else 0. *)
Definition secs_to_sync_as_specified (pblk : pblk_geo)
    (secs_avail secs_to_flush r : Z) : Prop :=
  if (max_write_pgs pblk <=? secs_avail) || (max_write_pgs pblk <=? secs_to_flush)
  then r = max_write_pgs pblk
  else if min_write_pgs pblk <=? secs_avail
       then largest_multiple_le (min_write_pgs pblk) secs_avail r
       else if 0 <? secs_to_flush then r = min_write_pgs pblk else r = 0.

(* ================================================================== *)
(** ** Bitmaps *)
(* ================================================================== *)

(** A kernel bitmap is an array of [unsigned long]; it is modelled as the
    integer whose binary digits are its bits. *)
Definition bitmap := Z.

Definition test_bit (nr : Z) (b : bitmap) : bool := Z.testbit b nr.
Definition set_bit (nr : Z) (b : bitmap) : bitmap := Z.setbit b nr.
Definition clear_bit (nr : Z) (b : bitmap) : bitmap := Z.clearbit b nr.

(** [test_and_set_bit]: the old bit and the new bitmap. *)
Definition test_and_set_bit (nr : Z) (b : bitmap) : bool * bitmap :=
  (test_bit nr b, set_bit nr b).

Definition bitmap_zero (nbits : Z) : bitmap := 0.

Definition bitmap_full (b : bitmap) (nbits : Z) : bool :=
  Z.land b (Z.ones nbits) =? Z.ones nbits.

Definition bitmap_empty (b : bitmap) (nbits : Z) : bool :=
  Z.land b (Z.ones nbits) =? 0.

(** [bitmap_set(map, start, nr)]: sets bits [start .. start + nr - 1]. *)
Definition bitmap_set (b : bitmap) (start nr : Z) : bitmap :=
  Z.lor b (Z.shiftl (Z.ones nr) start).

Fixpoint bitmap_weight_nat (b : bitmap) (n : nat) : Z :=
  match n with
  | O => 0
  | S n' => bitmap_weight_nat b n' + (if Z.testbit b (Z.of_nat n') then 1 else 0)
  end.

(** [bitmap_weight(map, nbits)]: the number of set bits below [nbits]. *)
Definition bitmap_weight (b : bitmap) (nbits : Z) : Z :=
  bitmap_weight_nat b (Z.to_nat nbits).

Fixpoint find_next_from (want : bool) (b : bitmap) (size : Z) (n : nat) (i : Z) : Z :=
  match n with
  | O => size
  | S n' =>
      if size <=? i then size
      else if Bool.eqb (Z.testbit b i) want then i
      else find_next_from want b size n' (i + 1)
  end.

(** [find_next_bit(map, size, offset)] and friends: the first matching
    position at or after [offset], or [size] when there is none. *)
Definition find_next_bit (b : bitmap) (size offset : Z) : Z :=
  find_next_from true b size (Z.to_nat (size - offset)) offset.
Definition find_first_bit (b : bitmap) (size : Z) : Z := find_next_bit b size 0.
Definition find_next_zero_bit (b : bitmap) (size offset : Z) : Z :=
  find_next_from false b size (Z.to_nat (size - offset)) offset.
Definition find_first_zero_bit (b : bitmap) (size : Z) : Z :=
  find_next_zero_bit b size 0.

(* ================================================================== *)
(** ** Addresses *)
(* ================================================================== *)

(** A device address.  The geometry tuple [{ch, lun, pl, blk, pg, sec}] is
    kept as the two components the core uses: the block it names
    ([ch], [lun], [blk]) and the sector inside that block ([pl], [pg],
    [sec]). *)
Record gaddr : Type := { g_blk : nat; g_sec : Z }.

(** Modelled from the spec: [struct ppa_addr] is declared in the lightnvm
    headers, which are not part of the sources at hand.  Section 3 gives
    its three disjoint forms: the empty sentinel, a cacheline reference
    (a ring index, together with the read-pin bit that the L2P entry
    carries for cachelines), and a device address. *)
Inductive ppa_addr : Type :=
| PPA_EMPTY
| PPA_CACHE (line : Z) (read_cache : bool)
| PPA_DEV (g : gaddr).

Definition ppa_empty (p : ppa_addr) : bool :=
  match p with PPA_EMPTY => true | _ => false end.

Definition nvm_addr_in_cache (p : ppa_addr) : bool :=
  match p with PPA_CACHE _ _ => true | _ => false end.

Definition nvm_addr_get_read_cache (p : ppa_addr) : bool :=
  match p with PPA_CACHE _ rc => rc | _ => false end.

Definition nvm_addr_set_read_cache (p : ppa_addr) (val : bool) : ppa_addr :=
  match p with PPA_CACHE l _ => PPA_CACHE l val | _ => p end.

Definition nvm_addr_to_cacheline (p : ppa_addr) : Z :=
  match p with PPA_CACHE l _ => l | _ => 0 end.

Definition pblk_cacheline_to_ppa (line : Z) : ppa_addr := PPA_CACHE line false.

(** Modelled from the spec: [ppa_cmp_blk] (section 4.A, "same-block
    test"); an empty address is in no block. *)
Definition ppa_cmp_blk (a b : ppa_addr) : bool :=
  match a, b with
  | PPA_DEV ga, PPA_DEV gb => Nat.eqb (g_blk ga) (g_blk gb)
  | _, _ => false
  end.

(** An L2P entry, [struct pblk_addr]: the address and the back-pointer to
    the owning block ([NULL] is [None]). *)
Record pblk_addr : Type := { ppa : ppa_addr; rblk : option nat }.

Definition pblk_addr_empty : pblk_addr := {| ppa := PPA_EMPTY; rblk := None |}.

(* ================================================================== *)
(** ** Blocks *)
(* ================================================================== *)

(** [struct pblk_block] with the fields of its recovery page the core
    touches. *)
Record pblk_block : Type := {
  cur_sec : Z;
  nr_invalid_secs : Z;
  sector_bitmap : bitmap;
  sync_bitmap : bitmap;
  invalid_bitmap : bitmap;
  rlpg_nr_lbas : Z;
  rlpg_nr_padded : Z;
  rlpg_lba_list : list Z;
  blk_bad : bool
}.

Definition blk_set_alloc (b : pblk_block) (cs : Z) (sb : bitmap) : pblk_block :=
  {| cur_sec := cs; nr_invalid_secs := nr_invalid_secs b;
     sector_bitmap := sb; sync_bitmap := sync_bitmap b;
     invalid_bitmap := invalid_bitmap b; rlpg_nr_lbas := rlpg_nr_lbas b;
     rlpg_nr_padded := rlpg_nr_padded b; rlpg_lba_list := rlpg_lba_list b;
     blk_bad := blk_bad b |}.

Definition blk_set_sync (b : pblk_block) (sy : bitmap) : pblk_block :=
  {| cur_sec := cur_sec b; nr_invalid_secs := nr_invalid_secs b;
     sector_bitmap := sector_bitmap b; sync_bitmap := sy;
     invalid_bitmap := invalid_bitmap b; rlpg_nr_lbas := rlpg_nr_lbas b;
     rlpg_nr_padded := rlpg_nr_padded b; rlpg_lba_list := rlpg_lba_list b;
     blk_bad := blk_bad b |}.

Definition blk_set_invalid (b : pblk_block) (n : Z) (iv : bitmap) : pblk_block :=
  {| cur_sec := cur_sec b; nr_invalid_secs := n;
     sector_bitmap := sector_bitmap b; sync_bitmap := sync_bitmap b;
     invalid_bitmap := iv; rlpg_nr_lbas := rlpg_nr_lbas b;
     rlpg_nr_padded := rlpg_nr_padded b; rlpg_lba_list := rlpg_lba_list b;
     blk_bad := blk_bad b |}.

Definition blk_set_bad (b : pblk_block) : pblk_block :=
  {| cur_sec := cur_sec b; nr_invalid_secs := nr_invalid_secs b;
     sector_bitmap := sector_bitmap b; sync_bitmap := sync_bitmap b;
     invalid_bitmap := invalid_bitmap b; rlpg_nr_lbas := rlpg_nr_lbas b;
     rlpg_nr_padded := rlpg_nr_padded b; rlpg_lba_list := rlpg_lba_list b;
     blk_bad := true |}.

Definition blk_set_rlpg (b : pblk_block) (nl np : Z) (ll : list Z) : pblk_block :=
  {| cur_sec := cur_sec b; nr_invalid_secs := nr_invalid_secs b;
     sector_bitmap := sector_bitmap b; sync_bitmap := sync_bitmap b;
     invalid_bitmap := invalid_bitmap b; rlpg_nr_lbas := nl;
     rlpg_nr_padded := np; rlpg_lba_list := ll;
     blk_bad := blk_bad b |}.

(* ================================================================== *)
(** ** Bios, requests and the trace of outside effects *)
(* ================================================================== *)

(** Return codes of the I/O entry points ([NVM_IO_*] of the lightnvm
    header); [nvm_io_code] is the integer C tests with [if (ret)]. *)
Inductive nvm_io : Type := NVM_IO_OK | NVM_IO_REQUEUE | NVM_IO_DONE | NVM_IO_ERR.

Definition nvm_io_code (r : nvm_io) : Z :=
  match r with
  | NVM_IO_OK => 0 | NVM_IO_REQUEUE => 1 | NVM_IO_DONE => 2 | NVM_IO_ERR => 3
  end.

(** One exposed page of data. *)
Definition payload : Type := list Byte.byte.

(** A page of zeros is written as the empty payload. *)
Definition zero_page : payload := [].

Global Instance byte_eq_decision : EqDecision Byte.byte := Byte.byte_eq_dec.
Global Instance payload_eq_decision : EqDecision payload.
Proof. unfold payload. apply _. Defined.

(** The [PBLK_IOTYPE_*] bits of a request context. *)
Record io_flags : Type := {
  ft_gc : bool; ft_sync : bool; ft_close_blk : bool; ft_ref : bool
}.

Definition io_none : io_flags :=
  {| ft_gc := false; ft_sync := false; ft_close_blk := false; ft_ref := false |}.

Definition io_or_sync (f : io_flags) : io_flags :=
  {| ft_gc := ft_gc f; ft_sync := true; ft_close_blk := ft_close_blk f;
     ft_ref := ft_ref f |}.

(** [struct bio]: the iterator ([bi_sector], [bi_size], index of the
    current page), the segment count, the word [bi_rw] (its direction
    bit, its [REQ_PREFLUSH] bit and the bits that remain, as a number),
    the pages and the completion status. *)
Record bio : Type := {
  bi_sector : Z;
  bi_size : Z;
  bi_idx : Z;
  bi_vcnt : Z;
  bi_write : bool;
  bi_preflush : bool;
  bi_rw_rest : Z;
  bi_io_vec : list payload;
  bi_error : Z
}.

Definition bio_with_iter (b : bio) (sector size idx : Z) : bio :=
  {| bi_sector := sector; bi_size := size; bi_idx := idx;
     bi_vcnt := bi_vcnt b; bi_write := bi_write b;
     bi_preflush := bi_preflush b; bi_rw_rest := bi_rw_rest b;
     bi_io_vec := bi_io_vec b;
     bi_error := bi_error b |}.

Definition bio_with_vec (b : bio) (vec : list payload) : bio :=
  {| bi_sector := bi_sector b; bi_size := bi_size b; bi_idx := bi_idx b;
     bi_vcnt := bi_vcnt b; bi_write := bi_write b;
     bi_preflush := bi_preflush b; bi_rw_rest := bi_rw_rest b; bi_io_vec := vec;
     bi_error := bi_error b |}.

(** Constants of pblk.h that the sources at hand use but do not define;
    they are carried as parameters. *)
Record pblk_consts : Type := {
  PBLK_EXPOSED_PAGE_SIZE : Z;
  NR_PHY_IN_LOG : Z
}.

(** [bio_advance(bio, pages * PBLK_EXPOSED_PAGE_SIZE)]. *)
Definition bio_advance (k : pblk_consts) (b : bio) (pages : Z) : bio :=
  bio_with_iter b
    (bi_sector b + Z.shiftr (pages * PBLK_EXPOSED_PAGE_SIZE k) 9)
    (bi_size b - pages * PBLK_EXPOSED_PAGE_SIZE k)
    (bi_idx b + pages).

(** [bio_data(bio)]: the page under the iterator. *)
Definition bio_data (b : bio) : payload :=
  if bi_idx b <? 0 then [] else default [] (bi_io_vec b !! Z.to_nat (bi_idx b)).

(** A copy of one page to the place [bio_data] points to. *)
Definition bio_store (b : bio) (data : payload) : bio :=
  if bi_idx b <? 0 then b
  else bio_with_vec b (<[Z.to_nat (bi_idx b) := data]> (bi_io_vec b)).

Definition bio_has_data (b : bio) : bool := 0 <? bi_size b.

(** [bio->bi_rw == READ]: [READ] is 0, so the comparison holds when no
    bit of the word is set. *)
Definition bio_rw_is_read (b : bio) : bool :=
  negb (bi_write b) && negb (bi_preflush b) && (bi_rw_rest b =? 0).

(** [pblk_get_secs] and [pblk_get_laddr] of pblk.h. *)
Definition pblk_get_secs (k : pblk_consts) (b : bio) : Z :=
  bi_size b / PBLK_EXPOSED_PAGE_SIZE k.
Definition pblk_get_laddr (k : pblk_consts) (b : bio) : Z :=
  bi_sector b / NR_PHY_IN_LOG k.

(** The completion context of a write: a data write carries
    [struct pblk_compl_ctx], the write of a block's last page carries
    [struct pblk_compl_close_ctx]. *)
Record pblk_compl_ctx : Type := { sentry : Z; nr_valid : Z; nr_padded : Z }.

Inductive pblk_c_ctx : Type :=
| CCompl (c : pblk_compl_ctx)
| CClose (close_rblk : nat).

Record pblk_ctx : Type := { ctx_flags : io_flags; c_ctx : pblk_c_ctx }.

Record pblk_r_ctx : Type := { r_flags : io_flags; orig_bio : option bio }.

Inductive nvm_opcode : Type := NVM_OP_NONE | NVM_OP_PREAD | NVM_OP_PWRITE.

(** [NVM_RSP_ERR_FAILWRITE] of the lightnvm header. *)
Definition NVM_RSP_ERR_FAILWRITE : Z := 0x40ff.

(** The anonymous union of [struct nvm_rq] in which [ppa_addr] and
    [dma_ppa_list] share their storage: it holds the address of a
    single-sector request, or the DMA handle of the address list once
    [nvm_dev_dma_alloc] has stored it there (the core saves and restores
    the handle but never looks at its value). *)
Inductive rq_ppa_union : Type :=
| RQ_PPA_ADDR (p : ppa_addr)
| RQ_DMA_PPA_LIST.

(** What a reader of [rqd->ppa_addr] finds; [None] when the storage holds
    the DMA handle. *)
Definition rq_union_ppa (u : rq_ppa_union) : option ppa_addr :=
  match u with RQ_PPA_ADDR p => Some p | RQ_DMA_PPA_LIST => None end.

(** [struct nvm_rq] with its private area, which holds a write context or
    a read context. *)
Record nvm_rq : Type := {
  rq_opcode : nvm_opcode;
  rq_nr_ppas : Z;
  rq_ppa_addr : rq_ppa_union;
  rq_ppa_list : option (list ppa_addr);
  rq_meta_list : option (list Z);
  rq_ppa_status : bitmap;
  rq_error : Z;
  rq_sngl_suspend : bool;               (* NVM_IO_SNGL_ACCESS | NVM_IO_SUSPEND *)
  rq_bio : option bio;
  rq_w_ctx : pblk_ctx;
  rq_r_ctx : pblk_r_ctx
}.

Definition rq_with_w_ctx (r : nvm_rq) (c : pblk_ctx) : nvm_rq :=
  {| rq_opcode := rq_opcode r; rq_nr_ppas := rq_nr_ppas r;
     rq_ppa_addr := rq_ppa_addr r; rq_ppa_list := rq_ppa_list r;
     rq_meta_list := rq_meta_list r; rq_ppa_status := rq_ppa_status r;
     rq_error := rq_error r; rq_sngl_suspend := rq_sngl_suspend r;
     rq_bio := rq_bio r; rq_w_ctx := c; rq_r_ctx := rq_r_ctx r |}.

Definition rq_with_r_ctx (r : nvm_rq) (c : pblk_r_ctx) : nvm_rq :=
  {| rq_opcode := rq_opcode r; rq_nr_ppas := rq_nr_ppas r;
     rq_ppa_addr := rq_ppa_addr r; rq_ppa_list := rq_ppa_list r;
     rq_meta_list := rq_meta_list r; rq_ppa_status := rq_ppa_status r;
     rq_error := rq_error r; rq_sngl_suspend := rq_sngl_suspend r;
     rq_bio := rq_bio r; rq_w_ctx := rq_w_ctx r; rq_r_ctx := c |}.

Definition rq_with_ppas (r : nvm_rq) (a : rq_ppa_union)
    (l : option (list ppa_addr)) : nvm_rq :=
  {| rq_opcode := rq_opcode r; rq_nr_ppas := rq_nr_ppas r;
     rq_ppa_addr := a; rq_ppa_list := l;
     rq_meta_list := rq_meta_list r; rq_ppa_status := rq_ppa_status r;
     rq_error := rq_error r; rq_sngl_suspend := rq_sngl_suspend r;
     rq_bio := rq_bio r; rq_w_ctx := rq_w_ctx r; rq_r_ctx := rq_r_ctx r |}.

Definition rq_with_meta (r : nvm_rq) (m : option (list Z)) : nvm_rq :=
  {| rq_opcode := rq_opcode r; rq_nr_ppas := rq_nr_ppas r;
     rq_ppa_addr := rq_ppa_addr r; rq_ppa_list := rq_ppa_list r;
     rq_meta_list := m; rq_ppa_status := rq_ppa_status r;
     rq_error := rq_error r; rq_sngl_suspend := rq_sngl_suspend r;
     rq_bio := rq_bio r; rq_w_ctx := rq_w_ctx r; rq_r_ctx := rq_r_ctx r |}.

(** The header of a request: opcode, number of addresses, bio. *)
Definition rq_with_head (r : nvm_rq) (op : nvm_opcode) (n : Z) (b : option bio)
    : nvm_rq :=
  {| rq_opcode := op; rq_nr_ppas := n;
     rq_ppa_addr := rq_ppa_addr r; rq_ppa_list := rq_ppa_list r;
     rq_meta_list := rq_meta_list r; rq_ppa_status := rq_ppa_status r;
     rq_error := rq_error r; rq_sngl_suspend := rq_sngl_suspend r;
     rq_bio := b; rq_w_ctx := rq_w_ctx r; rq_r_ctx := rq_r_ctx r |}.

Definition rq_with_sngl_suspend (r : nvm_rq) : nvm_rq :=
  {| rq_opcode := rq_opcode r; rq_nr_ppas := rq_nr_ppas r;
     rq_ppa_addr := rq_ppa_addr r; rq_ppa_list := rq_ppa_list r;
     rq_meta_list := rq_meta_list r; rq_ppa_status := rq_ppa_status r;
     rq_error := rq_error r; rq_sngl_suspend := true;
     rq_bio := rq_bio r; rq_w_ctx := rq_w_ctx r; rq_r_ctx := rq_r_ctx r |}.

Definition rqd_zero : nvm_rq :=
  {| rq_opcode := NVM_OP_NONE; rq_nr_ppas := 0;
     rq_ppa_addr := RQ_PPA_ADDR PPA_EMPTY;
     rq_ppa_list := None; rq_meta_list := None; rq_ppa_status := 0;
     rq_error := 0; rq_sngl_suspend := false; rq_bio := None;
     rq_w_ctx := {| ctx_flags := io_none;
                    c_ctx := CCompl {| sentry := 0; nr_valid := 0; nr_padded := 0 |} |};
     rq_r_ctx := {| r_flags := io_none; orig_bio := None |} |}.

(** Work items handed to the work queues. *)
Inductive work : Type :=
| WsCloseBlk (b : nat)
| WsGcQueue (b : nat)
| WsSubmitRec (failed : list Z).

Inductive rw_dir : Type := READ | WRITE.

(** What the core does to the world around it, in the order it does it. *)
Inductive event : Type :=
| EvAllocRqd (rw : rw_dir)
| EvFreeRqd (rw : rw_dir) (rqd : nvm_rq)
| EvDmaAlloc
| EvDmaFree
| EvBioGet (b : bio)
| EvBioPut (b : option bio)
| EvBioEndio (b : bio)
| EvBioIoError (b : bio)
| EvPagesFree (n : Z)
| EvSubmitIo (rqd : nvm_rq)
| EvQueueWork (w : work)
| EvRunRecovery (b : option nat)
| EvRecovSetupRq (rqd : nvm_rq) (failed : list Z) (c_entries : Z)
| EvPutBlk (b : nat)
| EvFreeBlkMeta (b : nat)
| EvWakeUpAll
| EvWriteKick
| EvSchedule
| EvPrErr (msg : string).

(* ================================================================== *)
(** ** The write ring *)
(* ================================================================== *)

(** [struct pblk_w_ctx], the context stored with every ring entry. *)
Record pblk_w_ctx : Type := {
  w_bio : option bio;
  w_lba : Z;
  w_flags : io_flags;
  w_priv : option Z;
  w_paddr : Z;
  w_ppa : pblk_addr
}.

Definition w_ctx_with_bio (w : pblk_w_ctx) (b : option bio) : pblk_w_ctx :=
  {| w_bio := b; w_lba := w_lba w; w_flags := w_flags w; w_priv := w_priv w;
     w_paddr := w_paddr w; w_ppa := w_ppa w |}.

Definition w_ctx_with_lba (w : pblk_w_ctx) (lba : Z) : pblk_w_ctx :=
  {| w_bio := w_bio w; w_lba := lba; w_flags := w_flags w; w_priv := w_priv w;
     w_paddr := w_paddr w; w_ppa := w_ppa w |}.

Definition w_ctx_with_ppa (w : pblk_w_ctx) (paddr : Z) (a : pblk_addr) : pblk_w_ctx :=
  {| w_bio := w_bio w; w_lba := w_lba w; w_flags := w_flags w; w_priv := w_priv w;
     w_paddr := paddr; w_ppa := a |}.

Record pblk_rb_entry : Type := { e_data : payload; e_w_ctx : pblk_w_ctx }.

(** Modelled from the spec: the ring buffer lives in pblk-rb.c, which is
    not part of the sources at hand.  Sections 3 and 4.D describe it: a
    bounded array of entries and three positions [mem], [subm], [sync]
    that only advance; a position is collapsed to a slot by [wrap_pos];
    a pending flush barrier is the position it was planted at. *)
Record pblk_rb : Type := {
  rb_entries : list pblk_rb_entry;
  rb_mem : Z;
  rb_subm : Z;
  rb_sync : Z;
  rb_sync_point : option Z
}.

Definition rb_capacity (rb : pblk_rb) : Z := Z.of_nat (length (rb_entries rb)).

Definition rb_with_entries (rb : pblk_rb) (es : list pblk_rb_entry) : pblk_rb :=
  {| rb_entries := es; rb_mem := rb_mem rb; rb_subm := rb_subm rb;
     rb_sync := rb_sync rb; rb_sync_point := rb_sync_point rb |}.

Definition rb_with_mem (rb : pblk_rb) (m : Z) : pblk_rb :=
  {| rb_entries := rb_entries rb; rb_mem := m; rb_subm := rb_subm rb;
     rb_sync := rb_sync rb; rb_sync_point := rb_sync_point rb |}.

Definition rb_with_sync (rb : pblk_rb) (s : Z) : pblk_rb :=
  {| rb_entries := rb_entries rb; rb_mem := rb_mem rb; rb_subm := rb_subm rb;
     rb_sync := s; rb_sync_point := rb_sync_point rb |}.

Definition rb_with_sync_point (rb : pblk_rb) (sp : option Z) : pblk_rb :=
  {| rb_entries := rb_entries rb; rb_mem := rb_mem rb; rb_subm := rb_subm rb;
     rb_sync := rb_sync rb; rb_sync_point := sp |}.

(** Modelled from the spec: [wrap_pos(pos)] "collapses a logical position
    to its physical slot index". *)
Definition pblk_rb_wrap_pos (rb : pblk_rb) (pos : Z) : Z := pos mod rb_capacity rb.

(** Modelled from the spec: [may_write(nr_upd, nr_com, &pos)] "atomically
    reserves [nr_com] slots starting at [pos = mem], advancing [mem] by
    [nr_com], iff [mem + nr_com - sync <= capacity]".  [None] is the
    answer 0; otherwise the position and the ring afterwards. *)
Definition pblk_rb_may_write (rb : pblk_rb) (nr_upd nr_com : Z)
    : option (Z * pblk_rb) :=
  if rb_mem rb + nr_com - rb_sync rb <=? rb_capacity rb
  then Some (rb_mem rb, rb_with_mem rb (rb_mem rb + nr_com))
  else None.

(** Modelled from the spec: [write_entry(data, w_ctx, pos)] "copies
    payload and context into slot [pos]". *)
Definition pblk_rb_write_entry (rb : pblk_rb) (data : payload)
    (w_ctx : pblk_w_ctx) (pos : Z) : pblk_rb :=
  rb_with_entries rb
    (<[Z.to_nat (pblk_rb_wrap_pos rb pos) := {| e_data := data; e_w_ctx := w_ctx |}]>
       (rb_entries rb)).

(** Modelled from the spec: [w_ctx(offset)], the context of the entry at a
    position. *)
Definition pblk_rb_w_ctx (rb : pblk_rb) (pos : Z) : option pblk_w_ctx :=
  e_w_ctx <$> rb_entries rb !! Z.to_nat (pblk_rb_wrap_pos rb pos).

Definition rb_set_w_ctx (rb : pblk_rb) (pos : Z) (w : pblk_w_ctx) : pblk_rb :=
  rb_with_entries rb
    (alter (fun e => {| e_data := e_data e; e_w_ctx := w |})
       (Z.to_nat (pblk_rb_wrap_pos rb pos)) (rb_entries rb)).

(** Modelled from the spec: a cached sector is copied "from ring (by
    cacheline index) into the correct bio offset" (section 4.G).  A
    cacheline outside the ring is a wild pointer: [None]. *)
Definition pblk_rb_copy_to_bio (rb : pblk_rb) (b : bio) (line : Z) : option bio :=
  if (line <? 0) || (rb_capacity rb <=? line) then None
  else (fun e => bio_store b (e_data e)) <$> rb_entries rb !! Z.to_nat line.

(** Modelled from the spec: [sync_init] hands out the current [sync];
    [sync_advance(n)] "advances [sync] by [n] in-order and returns the new
    value". *)
Definition pblk_rb_sync_init (rb : pblk_rb) : Z := rb_sync rb.

Definition pblk_rb_sync_advance (rb : pblk_rb) (nr_entries : Z) : pblk_rb * Z :=
  (rb_with_sync rb (rb_sync rb + nr_entries), rb_sync rb + nr_entries).

Global Instance gaddr_eq_dec : EqDecision gaddr.
Proof. solve_decision. Defined.
Global Instance ppa_addr_eq_dec : EqDecision ppa_addr.
Proof. solve_decision. Defined.

(** Modelled from the spec: [sync_scan_entry(&ppa)] "locate[s] a ring
    entry by PPA"; the answer is the slot of the first entry mapped to
    that address, if any. *)
Definition pblk_rb_sync_scan_entry (rb : pblk_rb) (p : ppa_addr)
    : option (nat * pblk_rb_entry) :=
  list_find (fun e => ppa (w_ppa (e_w_ctx e)) = p) (rb_entries rb).

(** Modelled from the spec: [sync_point_set(bio)] "plants a flush-barrier
    at the current [mem]"; the bio is ended when the writer drains past
    it.  With nothing left to drain no barrier is planted and the answer
    is 0. *)
Definition pblk_rb_sync_point_set (rb : pblk_rb) (b : bio) : bool * pblk_rb :=
  if rb_mem rb =? rb_sync rb then (false, rb)
  else
    let pos := rb_mem rb - 1 in
    let rb1 :=
      match pblk_rb_w_ctx rb pos with
      | Some w => rb_set_w_ctx rb pos (w_ctx_with_bio w (Some b))
      | None => rb
      end in
    (true, rb_with_sync_point rb1 (Some pos)).

(* ================================================================== *)
(** ** The instance *)
(* ================================================================== *)

(** [struct pblk_lun]: the current block and the list of open blocks. *)
Record pblk_lun : Type := { lun_cur : option nat; open_list : list nat }.

(** [struct pblk].  [blocks] holds every [struct pblk_block], indexed by
    block id; [media] is what the device returns for a sector and
    [dev_error] the status it completes a read with;
    [alloc_script] and [submit_script] are the answers the allocators and
    [nvm_submit_io] will give, in order (success once they run out);
    [log] is the trace of outside effects. *)
Record pblk : Type := {
  consts : pblk_consts;
  geo : pblk_geo;
  pblk_nr_secs : Z;                     (* pblk->nr_secs *)
  trans_map : list pblk_addr;
  rwb : pblk_rb;
  blocks : list pblk_block;
  luns : list pblk_lun;
  write_inflight : Z;
  wait_active : bool;
  compl_list : list nvm_rq;
  emergency_gc : bool;
  media : nat -> Z -> payload;
  dev_error : Z;
  alloc_script : list bool;
  submit_script : list Z;
  log : list event
}.

Definition with_trans_map (st : pblk) (tm : list pblk_addr) : pblk :=
  {| consts := consts st; geo := geo st; pblk_nr_secs := pblk_nr_secs st; trans_map := tm;
     rwb := rwb st; blocks := blocks st; luns := luns st;
     write_inflight := write_inflight st; wait_active := wait_active st;
     compl_list := compl_list st; emergency_gc := emergency_gc st;
     media := media st; dev_error := dev_error st; alloc_script := alloc_script st;
     submit_script := submit_script st; log := log st |}.

Definition with_rwb (st : pblk) (rb : pblk_rb) : pblk :=
  {| consts := consts st; geo := geo st; pblk_nr_secs := pblk_nr_secs st;
     trans_map := trans_map st; rwb := rb; blocks := blocks st; luns := luns st;
     write_inflight := write_inflight st; wait_active := wait_active st;
     compl_list := compl_list st; emergency_gc := emergency_gc st;
     media := media st; dev_error := dev_error st; alloc_script := alloc_script st;
     submit_script := submit_script st; log := log st |}.

Definition with_blocks (st : pblk) (bs : list pblk_block) : pblk :=
  {| consts := consts st; geo := geo st; pblk_nr_secs := pblk_nr_secs st;
     trans_map := trans_map st; rwb := rwb st; blocks := bs; luns := luns st;
     write_inflight := write_inflight st; wait_active := wait_active st;
     compl_list := compl_list st; emergency_gc := emergency_gc st;
     media := media st; dev_error := dev_error st; alloc_script := alloc_script st;
     submit_script := submit_script st; log := log st |}.

Definition with_luns (st : pblk) (ls : list pblk_lun) : pblk :=
  {| consts := consts st; geo := geo st; pblk_nr_secs := pblk_nr_secs st;
     trans_map := trans_map st; rwb := rwb st; blocks := blocks st; luns := ls;
     write_inflight := write_inflight st; wait_active := wait_active st;
     compl_list := compl_list st; emergency_gc := emergency_gc st;
     media := media st; dev_error := dev_error st; alloc_script := alloc_script st;
     submit_script := submit_script st; log := log st |}.

Definition with_write_inflight (st : pblk) (v : Z) : pblk :=
  {| consts := consts st; geo := geo st; pblk_nr_secs := pblk_nr_secs st;
     trans_map := trans_map st; rwb := rwb st; blocks := blocks st;
     luns := luns st; write_inflight := v; wait_active := wait_active st;
     compl_list := compl_list st; emergency_gc := emergency_gc st;
     media := media st; dev_error := dev_error st; alloc_script := alloc_script st;
     submit_script := submit_script st; log := log st |}.

Definition with_compl_list (st : pblk) (cl : list nvm_rq) : pblk :=
  {| consts := consts st; geo := geo st; pblk_nr_secs := pblk_nr_secs st;
     trans_map := trans_map st; rwb := rwb st; blocks := blocks st;
     luns := luns st; write_inflight := write_inflight st;
     wait_active := wait_active st; compl_list := cl;
     emergency_gc := emergency_gc st; media := media st; dev_error := dev_error st;
     alloc_script := alloc_script st; submit_script := submit_script st;
     log := log st |}.

Definition with_alloc_script (st : pblk) (a : list bool) : pblk :=
  {| consts := consts st; geo := geo st; pblk_nr_secs := pblk_nr_secs st;
     trans_map := trans_map st; rwb := rwb st; blocks := blocks st;
     luns := luns st; write_inflight := write_inflight st;
     wait_active := wait_active st; compl_list := compl_list st;
     emergency_gc := emergency_gc st; media := media st; dev_error := dev_error st;
     alloc_script := a; submit_script := submit_script st; log := log st |}.

Definition with_submit_script (st : pblk) (a : list Z) : pblk :=
  {| consts := consts st; geo := geo st; pblk_nr_secs := pblk_nr_secs st;
     trans_map := trans_map st; rwb := rwb st; blocks := blocks st;
     luns := luns st; write_inflight := write_inflight st;
     wait_active := wait_active st; compl_list := compl_list st;
     emergency_gc := emergency_gc st; media := media st; dev_error := dev_error st;
     alloc_script := alloc_script st; submit_script := a; log := log st |}.

Definition with_log (st : pblk) (l : list event) : pblk :=
  {| consts := consts st; geo := geo st; pblk_nr_secs := pblk_nr_secs st;
     trans_map := trans_map st; rwb := rwb st; blocks := blocks st;
     luns := luns st; write_inflight := write_inflight st;
     wait_active := wait_active st; compl_list := compl_list st;
     emergency_gc := emergency_gc st; media := media st; dev_error := dev_error st;
     alloc_script := alloc_script st; submit_script := submit_script st;
     log := l |}.

(** Append one effect to the trace. *)
Definition emit (st : pblk) (ev : event) : pblk := with_log st (log st ++ [ev]).

(** An allocation ([mempool_alloc], [bio_alloc], [nvm_dev_dma_alloc], ...):
    whether it succeeded. *)
Definition try_alloc (st : pblk) : bool * pblk :=
  match alloc_script st with
  | [] => (true, st)
  | ok :: rest => (ok, with_alloc_script st rest)
  end.

(** [nvm_submit_io(dev, rqd)]: the request goes to the driver, which
    answers with an error code. *)
Definition nvm_submit_io (st : pblk) (rqd : nvm_rq) : Z * pblk :=
  let st1 := emit st (EvSubmitIo rqd) in
  match submit_script st1 with
  | [] => (0, st1)
  | err :: rest => (err, with_submit_script st1 rest)
  end.

Definition pblk_emergency_gc_mode (st : pblk) : bool := emergency_gc st.

(** [pblk_alloc_rqd]: a zeroed request, or [ERR_PTR(-ENOMEM)]. *)
Definition pblk_alloc_rqd (st : pblk) (rw : rw_dir) : option nvm_rq * pblk :=
  let '(ok, st1) := try_alloc st in
  if ok then (Some rqd_zero, emit st1 (EvAllocRqd rw)) else (None, st1).

Definition pblk_free_rqd (st : pblk) (rqd : nvm_rq) (rw : rw_dir) : pblk :=
  emit st (EvFreeRqd rw rqd).

(** The entry of the L2P table for an LBA; [None] outside the table. *)
Definition trans_map_get (st : pblk) (lba : Z) : option pblk_addr :=
  if (lba <? 0) || (pblk_nr_secs st <=? lba) then None
  else trans_map st !! Z.to_nat lba.

Definition trans_map_set (st : pblk) (lba : Z) (a : pblk_addr) : pblk :=
  with_trans_map st (<[Z.to_nat lba := a]> (trans_map st)).

(** Modelled from the spec: [pblk_page_invalidate] is defined in pblk.h.
    Section 4.C: invalidating a sector of the owning block is "increment
    [nr_invalid_secs], set [invalid_bitmap]".  An entry whose back-pointer
    is dangling, or whose address is not a device address, has no sector
    to invalidate: [None]. *)
Definition pblk_page_invalidate (st : pblk) (gp : pblk_addr) : option pblk :=
  match rblk gp, ppa gp with
  | Some b, PPA_DEV g =>
      match blocks st !! b with
      | Some blk =>
          let blk' := blk_set_invalid blk (nr_invalid_secs blk + 1)
                        (set_bit (g_sec g) (invalid_bitmap blk)) in
          Some (with_blocks st (<[b := blk']> (blocks st)))
      | None => None
      end
  | _, _ => None
  end.

(** Modelled from the spec: [pblk_update_map] is defined in pblk.h.
    Section 4.C, [update]: "if the current entry is in_cache and its
    read-pin is set, returns conflict.  Otherwise replaces, invalidates
    the previously owning block, and installs the new value."  The
    answer is 1 on conflict. *)
Definition pblk_update_map (st : pblk) (laddr : Z) (rb : option nat)
    (p : ppa_addr) : option (bool * pblk) :=
  gp ← trans_map_get st laddr;
  if nvm_addr_in_cache (ppa gp) && nvm_addr_get_read_cache (ppa gp)
  then Some (true, st)
  else
    st1 ← (match rblk gp with
           | Some _ => pblk_page_invalidate st gp
           | None => Some st
           end);
    Some (false, trans_map_set st1 laddr {| ppa := p; rblk := rb |}).

(* ================================================================== *)
(** ** Write completion and in-order retirement *)
(* ================================================================== *)

(** [pblk_run_blk_ws]: queue a work item for a block, unless the work
    descriptor cannot be allocated. *)
Definition pblk_run_blk_ws (st : pblk) (w : work) : pblk :=
  let '(ok, st1) := try_alloc st in
  if ok then emit st1 (EvQueueWork w)
  else emit st1 (EvPrErr "pblk: unable to queue block work.").

(** [pblk_sync_buffer]: mark sector [block_ppa] of the block as acked by
    the device; the last ack schedules [pblk_close_blk]. *)
Definition pblk_sync_buffer (st : pblk) (rb : option nat) (block_ppa : Z)
    : option pblk :=
  b ← rb;
  blk ← blocks st !! b;
  let sy := set_bit block_ppa (sync_bitmap blk) in
  let st1 := with_blocks st (<[b := blk_set_sync blk sy]> (blocks st)) in
  if bitmap_full sy (nr_blk_dsecs (geo st))
  then Some (pblk_run_blk_ws st1 (WsCloseBlk b))
  else Some st1.

(** The [for] loop of [pblk_end_w_bio] over the entries of the request. *)
Fixpoint pblk_end_w_bio_entries (n : nat) (i : Z) (st : pblk) (c : pblk_compl_ctx)
    : option pblk :=
  match n with
  | O => Some st
  | S n' =>
      w_ctx ← pblk_rb_w_ctx (rwb st) (sentry c + i);
      st1 ← pblk_sync_buffer st (rblk (w_ppa w_ctx)) (w_paddr w_ctx);
      let st2 :=
        match w_bio w_ctx with
        | Some original_bio =>
            with_rwb (emit st1 (EvBioEndio original_bio))
              (rb_set_w_ctx (rwb st1) (sentry c + i) (w_ctx_with_bio w_ctx None))
        | None => st1
        end in
      pblk_end_w_bio_entries n' (i + 1) st2 c
  end.

Definition compl_ctx_of (ctx : pblk_ctx) : option pblk_compl_ctx :=
  match c_ctx ctx with CCompl c => Some c | CClose _ => None end.

(** [pblk_end_w_bio]: retire the entries of one write request and give
    back the new [sync]. *)
Definition pblk_end_w_bio (st : pblk) (rqd : nvm_rq) (ctx : pblk_ctx)
    : option (pblk * Z) :=
  c ← compl_ctx_of ctx;
  let nr_entries := to_int (nr_valid c) in
  st1 ← pblk_end_w_bio_entries (Z.to_nat nr_entries) 0 st c;
  let '(rb, ret) := pblk_rb_sync_advance (rwb st1) nr_entries in
  let st2 := with_rwb st1 rb in
  let st3 := if 1 <? nr_entries then emit st2 EvDmaFree else st2 in
  let st4 := match rq_meta_list rqd with
             | Some _ => emit st3 EvDmaFree
             | None => st3
             end in
  let st5 := emit st4 (EvBioPut (rq_bio rqd)) in
  Some (pblk_free_rqd st5 rqd WRITE, ret).

(** [pblk_end_queued_w_bio]: [list_del] of the context at index [i] of
    [compl_list], then [pblk_end_w_bio]. *)
Definition pblk_end_queued_w_bio (st : pblk) (i : nat) (rqd : nvm_rq)
    : option (pblk * Z) :=
  pblk_end_w_bio (with_compl_list st (delete i (compl_list st))) rqd (rq_w_ctx rqd).

(** The [retry:] loop of [pblk_compl_queue]: the first queued context
    whose [sentry] is the current position is retired and the scan starts
    over; the loop ends when a scan finds none. *)
Fixpoint pblk_compl_drain (fuel : nat) (st : pblk) (pos : Z) : option (pblk * Z) :=
  match fuel with
  | O => None
  | S fuel' =>
      match list_find (fun c => sentry <$> compl_ctx_of (rq_w_ctx c) = Some pos)
                      (compl_list st) with
      | None => Some (st, pos)
      | Some (i, c) =>
          '(st1, pos1) ← pblk_end_queued_w_bio st i c;
          pblk_compl_drain fuel' st1 pos1
      end
  end.

(** [pblk_compl_queue]. *)
Definition pblk_compl_queue (st : pblk) (rqd : nvm_rq) (ctx : pblk_ctx)
    : option pblk :=
  c ← compl_ctx_of ctx;
  let st1 := with_write_inflight st (to_int (write_inflight st - nr_valid c)) in
  let st2 := if wait_active st1 then emit st1 EvWakeUpAll else st1 in
  let pos := pblk_rb_sync_init (rwb st2) in
  if sentry c =? pos then
    '(st3, pos1) ← pblk_end_w_bio st2 rqd ctx;
    fst <$> pblk_compl_drain (S (length (compl_list st3))) st3 pos1
  else
    Some (with_compl_list st2 (compl_list st2 ++ [rq_with_w_ctx rqd ctx])).

(** The sector at ring position [pos] has been mapped to a live block
    (the media writer does this before it submits the sector). *)
Definition entry_mapped (st : pblk) (pos : Z) : bool :=
  match pblk_rb_w_ctx (rwb st) pos with
  | Some w =>
      match rblk (w_ppa w) with
      | Some b => bool_decide (b < length (blocks st))%nat
      | None => false
      end
  | None => false
  end.

(** A completion context that can be retired: its sector count is a
    non-negative [int] and its sectors have been mapped. *)
Definition compl_ctx_ok (st : pblk) (r : nvm_rq) : bool :=
  match compl_ctx_of (rq_w_ctx r) with
  | Some c =>
      (0 <=? nr_valid c) && (nr_valid c <? 2 ^ 31) &&
      forallb (fun i => entry_mapped st (sentry c + Z.of_nat i))
              (seq 0 (Z.to_nat (nr_valid c)))
  | None => true
  end.

(** The write requests retired so far (freed by [pblk_end_w_bio]), oldest
    first. *)
Definition retired (l : list event) : list nvm_rq :=
  omap (fun ev => match ev with EvFreeRqd WRITE r => Some r | _ => None end) l.

(** [sync_chain p rs q]: the requests [rs] cover the ring from position
    [p] to position [q] without gap or overlap, each starting where the
    one before it ends. *)
Inductive sync_chain : Z -> list nvm_rq -> Z -> Prop :=
| sync_chain_nil p : sync_chain p [] p
| sync_chain_cons p r c rs q :
    compl_ctx_of (rq_w_ctx r) = Some c ->
    sentry c = p ->
    0 <= nr_valid c ->
    sync_chain (p + nr_valid c) rs q ->
    sync_chain p (r :: rs) q.

(* ================================================================== *)
(** ** Write failure *)
(* ================================================================== *)

(** Modelled from the spec: [pblk_run_recovery] lives in the recovery
    file, which is not part of the sources at hand.  Section 4.J:
    [run_recovery(owning_block)] "marks the block bad in the driver and
    starts data evacuation". *)
Definition pblk_run_recovery (st : pblk) (rb : option nat) : pblk :=
  let st1 := emit st (EvRunRecovery rb) in
  match rb with
  | Some b => with_blocks st1 (alter blk_set_bad b (blocks st1))
  | None => st1
  end.

(** [pblk_end_close_blk_bio]. *)
Definition pblk_end_close_blk_bio (st : pblk) (rqd : nvm_rq) (run_gc : bool)
    : option pblk :=
  match c_ctx (rq_w_ctx rqd) with
  | CClose b =>
      let st1 := if run_gc then pblk_run_blk_ws st (WsGcQueue b) else st in
      let st2 := emit st1 EvDmaFree in                (* nvm_free_rqd_ppalist *)
      let st3 := emit st2 (EvBioPut (rq_bio rqd)) in
      Some (emit st3 (EvFreeRqd WRITE rqd))           (* kfree(rqd) *)
  | CCompl _ => None
  end.

(** Modelled from the spec: [pblk_recov_setup_rq] lives in the recovery
    file.  Section 4.J, steps 3 and 4: it sets up "a new rqd that
    re-admits the failed sectors", and what is then retired through the
    completion queue is "the successful prefix", the [c_entries] sectors
    before the first failing one. *)
Definition pblk_recov_setup_rq (st : pblk) (rqd : nvm_rq) (ctx : pblk_ctx)
    (failed : list Z) (c_entries : Z) : option (Z * pblk * pblk_ctx) :=
  c ← compl_ctx_of ctx;
  let st1 := emit st (EvRecovSetupRq rqd failed c_entries) in
  let '(ok, st2) := try_alloc st1 in
  let ctx' := {| ctx_flags := ctx_flags ctx;
                 c_ctx := CCompl {| sentry := sentry c; nr_valid := c_entries;
                                    nr_padded := 0 |} |} in
  Some (if ok then 0 else -12, st2, ctx').

(** The [while] loop of [pblk_end_w_fail] over the failing bits, from the
    bit after [bit]: the ring slots put on [recovery->failed] so far,
    [prev_ppa], and the instance. *)
Fixpoint pblk_end_w_fail_scan (n : nat) (bit : Z) (st : pblk) (rqd : nvm_rq)
    (c : pblk_compl_ctx) (failed : list Z) (prev_ppa : ppa_addr)
    : option (pblk * list Z) :=
  match n with
  | O => Some (st, failed)
  | S n' =>
      let nr_ppas := to_int (rq_nr_ppas rqd) in
      let bit' := find_next_bit (rq_ppa_status rqd) nr_ppas (bit + 1) in
      if negb (bit' <? nr_ppas) then Some (st, failed)
      else if nr_valid c <? bit' then Some (st, failed)          (* goto out *)
      else
        l ← rq_ppa_list rqd;
        p ← l !! Z.to_nat bit';
        match pblk_rb_sync_scan_entry (rwb st) p with
        | None =>
            pblk_end_w_fail_scan n' bit'
              (emit st (EvPrErr "pblk: could not scan entry on write failure"))
              rqd c failed prev_ppa
        | Some (slot, entry) =>
            let failed' := failed ++ [Z.of_nat slot] in
            if ppa_cmp_blk p prev_ppa
            then pblk_end_w_fail_scan n' bit' st rqd c failed' prev_ppa
            else pblk_end_w_fail_scan n' bit'
                   (pblk_run_recovery st (rblk (w_ppa (e_w_ctx entry))))
                   rqd c failed' p
        end
  end.

(** [pblk_end_w_fail]. *)
Definition pblk_end_w_fail (st : pblk) (rqd : nvm_rq) : option pblk :=
  let ctx := rq_w_ctx rqd in
  let nr_ppas := to_int (rq_nr_ppas rqd) in
  if ft_close_blk (ctx_flags ctx) then
    match c_ctx ctx with
    | CClose b =>
        pblk_end_close_blk_bio (pblk_run_recovery st (Some b)) rqd false
    | CCompl _ => None
    end
  else if nr_ppas =? 1 then Some st
  else
    let '(ok, st1) := try_alloc st in
    if negb ok then
      Some (emit st1 (EvPrErr "pblk: could not allocate recovery context"))
    else
      c ← compl_ctx_of ctx;
      let c_entries := find_first_bit (rq_ppa_status rqd) nr_ppas in
      '(st2, failed) ← pblk_end_w_fail_scan (Z.to_nat nr_ppas) (-1) st1 rqd c []
                         PPA_EMPTY;
      '(ret, st3, ctx') ← pblk_recov_setup_rq st2 rqd ctx failed c_entries;
      let st4 := if ret =? 0 then st3
                 else emit st3 (EvPrErr "pblk: could not recover from write failure") in
      let st5 := emit st4 (EvQueueWork (WsSubmitRec failed)) in
      pblk_compl_queue st5 rqd ctx'.

(** [pblk_end_io_write]. *)
Definition pblk_end_io_write (st : pblk) (rqd : nvm_rq) : option pblk :=
  if rq_error rqd =? NVM_RSP_ERR_FAILWRITE then pblk_end_w_fail st rqd
  else
    let ctx := rq_w_ctx rqd in
    if ft_sync (ctx_flags ctx) then Some st
    else if ft_close_blk (ctx_flags ctx) then pblk_end_close_blk_bio st rqd true
    else pblk_compl_queue st rqd ctx.

(** [pblk_end_io_read]. *)
Definition pblk_end_io_read (st : pblk) (rqd : nvm_rq) (nr_secs : Z) : option pblk :=
  let r_ctx := rq_r_ctx rqd in
  if ft_sync (r_flags r_ctx) then Some st
  else
    b ← rq_bio rqd;
    let st1 := if 1 <? nr_secs then emit st EvDmaFree else st in
    let st2 := match rq_meta_list rqd with
               | Some _ => emit st1 EvDmaFree
               | None => st1
               end in
    let st3 := if negb (bi_error b =? 0)
               then emit st2 (EvPrErr "pblk: read I/O failed") else st2 in
    let st4 := emit st3 (EvBioPut (Some b)) in
    let st5 := match orig_bio r_ctx with
               | Some ob => emit (emit st4 (EvBioEndio ob)) (EvBioPut (Some ob))
               | None => st4
               end in
    Some (pblk_free_rqd st5 rqd READ).

(** [pblk_end_io]: the completion callback the driver invokes. *)
Definition pblk_end_io (st : pblk) (rqd : nvm_rq) : option pblk :=
  b ← rq_bio rqd;
  let nr_secs := to_u8 (rq_nr_ppas rqd) in
  if bio_rw_is_read b then pblk_end_io_read st rqd nr_secs
  else pblk_end_io_write st rqd.

(* ================================================================== *)
(** ** The read path *)
(* ================================================================== *)

(** [PBLK_MAX_REQ_ADDRS] of pblk.h ("Max 64 ppas per request"). *)
Definition PBLK_MAX_REQ_ADDRS : nat := 64.

Definition pblk_read_from_cache (st : pblk) (b : bio) (p : ppa_addr) : option bio :=
  pblk_rb_copy_to_bio (rwb st) b (nvm_addr_to_cacheline p).

Definition pblk_try_read_from_cache (st : pblk) (b : bio) (p : ppa_addr)
    : option (bool * bio) :=
  if negb (nvm_addr_in_cache p) then Some (false, b)
  else b' ← pblk_read_from_cache st b p; Some (true, b').

(** [pblk_read_rq]: the single-sector read.  The answer is the instance,
    the bio, the request, the read bitmap and the return code. *)
Definition pblk_read_rq (st : pblk) (b : bio) (rqd : nvm_rq) (laddr : Z)
    (read_bitmap : bitmap) : option (pblk * bio * nvm_rq * bitmap * nvm_io) :=
  if laddr =? ADDR_EMPTY then
    Some (st, b, rqd, set_bit 0 read_bitmap, NVM_IO_DONE)
  else
    gp ← trans_map_get st laddr;
    let p := ppa gp in
    let '(st1, cache_read_state, lookup_cache) :=
      if nvm_addr_in_cache p
      then (trans_map_set st laddr
              {| ppa := nvm_addr_set_read_cache (ppa gp) true; rblk := rblk gp |},
            nvm_addr_get_read_cache (ppa gp), true)
      else (st, false, false) in
    '(b1, rqd1, bm1) ←
      (if ppa_empty p then Some (b, rqd, set_bit 0 read_bitmap)
       else
         '(hit, b') ← pblk_try_read_from_cache st1 b p;
         if (hit : bool) then Some (b', rqd, set_bit 0 read_bitmap)
         else Some (b', rq_with_ppas rqd (RQ_PPA_ADDR p) (rq_ppa_list rqd),
                    read_bitmap));
    (* unlock: *)
    st2 ← (if lookup_cache then
             gp' ← trans_map_get st1 laddr;
             if nvm_addr_in_cache p
             then Some (trans_map_set st1 laddr
                          {| ppa := nvm_addr_set_read_cache (ppa gp') false;
                             rblk := rblk gp' |})
             else Some st1
           else Some st1);
    Some (st2, b1, rqd1, bm1, NVM_IO_OK).

(** [pblk_lock_read] on the entry of [lba]: the answer and the updated
    instance and saved states. *)
Definition pblk_lock_read (st : pblk) (lba : Z) (gp : pblk_addr)
    (cache_read_state : list bool) (off : Z) : bool * pblk * list bool :=
  if nvm_addr_in_cache (ppa gp) then
    (true,
     trans_map_set st lba
       {| ppa := nvm_addr_set_read_cache (ppa gp) true; rblk := rblk gp |},
     <[Z.to_nat off := nvm_addr_get_read_cache (ppa gp)]> cache_read_state)
  else (false, st, cache_read_state).

(** The loop of [pblk_setup_seq_reads].  [ppas] and [cache_read_state]
    are the caller's arrays of [PBLK_MAX_REQ_ADDRS] elements; requests do
    not carry more sectors than that. *)
Fixpoint pblk_setup_seq_reads_loop (n : nat) (i : Z) (st : pblk)
    (ppas : list ppa_addr) (cache_read_state : list bool) (locked : bool)
    (bladdr : Z) : option (bool * pblk * list ppa_addr * list bool) :=
  match n with
  | O => Some (locked, st, ppas, cache_read_state)
  | S n' =>
      gp ← trans_map_get st (bladdr + i);
      let ppas' := <[Z.to_nat i := ppa gp]> ppas in
      let '(locked', st', crs') := pblk_lock_read st (bladdr + i) gp cache_read_state i in
      pblk_setup_seq_reads_loop n' (i + 1) st' ppas' crs' locked' bladdr
  end.

Definition pblk_setup_seq_reads (st : pblk) (ppas : list ppa_addr)
    (cache_read_state : list bool) (bladdr nr_secs : Z)
    : option (bool * pblk * list ppa_addr * list bool) :=
  pblk_setup_seq_reads_loop (Z.to_nat nr_secs) 0 st ppas cache_read_state false bladdr.

(** The loop of [pblk_setup_rand_reads]. *)
Fixpoint pblk_setup_rand_reads_loop (n : nat) (i : Z) (st : pblk)
    (ppas : list ppa_addr) (cache_read_state : list bool) (locked : bool)
    (lba_list : list Z) : option (bool * pblk * list ppa_addr * list bool) :=
  match n with
  | O => Some (locked, st, ppas, cache_read_state)
  | S n' =>
      lba ← lba_list !! Z.to_nat i;
      if lba =? ADDR_EMPTY then
        pblk_setup_rand_reads_loop n' (i + 1) st ppas cache_read_state locked lba_list
      else
        gp ← trans_map_get st lba;
        let ppas' := <[Z.to_nat i := ppa gp]> ppas in
        let '(locked', st', crs') := pblk_lock_read st lba gp cache_read_state i in
        pblk_setup_rand_reads_loop n' (i + 1) st' ppas' crs' locked' lba_list
  end.

Definition pblk_setup_rand_reads (st : pblk) (ppas : list ppa_addr)
    (cache_read_state : list bool) (lba_list : list Z) (nr_secs : Z)
    : option (bool * pblk * list ppa_addr * list bool) :=
  pblk_setup_rand_reads_loop (Z.to_nat nr_secs) 0 st ppas cache_read_state false lba_list.

(** [pblk_unlock_read] on the entry of [lba]. *)
Definition pblk_unlock_read (st : pblk) (lba : Z) (gp : pblk_addr) (off : Z) : pblk :=
  if nvm_addr_in_cache (ppa gp)
  then trans_map_set st lba
         {| ppa := nvm_addr_set_read_cache (ppa gp) false; rblk := rblk gp |}
  else st.

Fixpoint pblk_unlock_seq_reads_loop (n : nat) (i : Z) (st : pblk) (bladdr : Z)
    : option pblk :=
  match n with
  | O => Some st
  | S n' =>
      gp ← trans_map_get st (bladdr + i);
      pblk_unlock_seq_reads_loop n' (i + 1) (pblk_unlock_read st (bladdr + i) gp i) bladdr
  end.

Definition pblk_unlock_seq_reads (st : pblk) (ppas : list ppa_addr)
    (cache_read_state : list bool) (bladdr nr_secs : Z) : option pblk :=
  pblk_unlock_seq_reads_loop (Z.to_nat nr_secs) 0 st bladdr.

Fixpoint pblk_unlock_rand_reads_loop (n : nat) (i : Z) (st : pblk)
    (lba_list : list Z) : option pblk :=
  match n with
  | O => Some st
  | S n' =>
      lba ← lba_list !! Z.to_nat i;
      if lba =? ADDR_EMPTY then pblk_unlock_rand_reads_loop n' (i + 1) st lba_list
      else
        gp ← trans_map_get st lba;
        pblk_unlock_rand_reads_loop n' (i + 1) (pblk_unlock_read st lba gp i) lba_list
  end.

Definition pblk_unlock_rand_reads (st : pblk) (ppas : list ppa_addr)
    (cache_read_state : list bool) (lba_list : list Z) (nr_secs : Z) : option pblk :=
  pblk_unlock_rand_reads_loop (Z.to_nat nr_secs) 0 st lba_list.

(** [rqd->ppa_list[j] = p]; a request without a list has nowhere to store. *)
Definition rq_ppa_list_set (rqd : nvm_rq) (j : Z) (p : ppa_addr) : option nvm_rq :=
  l ← rq_ppa_list rqd;
  Some (rq_with_ppas rqd (rq_ppa_addr rqd) (Some (<[Z.to_nat j := p]> l))).

(** The state threaded through the classification loops: the bio, the
    request, the read bitmap and the locals [advanced_bio], [j],
    [valid_secs]. *)
Record read_loop : Type := {
  rl_bio : bio;
  rl_rqd : nvm_rq;
  rl_bitmap : bitmap;
  rl_advanced_bio : bool;
  rl_j : Z;
  rl_valid_secs : Z
}.

(** The body shared by both classification loops once an address is known
    not to be empty: serve it from the ring or put it on the device list.
    [bit] is the read-bitmap position of the sector. *)
Definition read_classify (st : pblk) (rl : read_loop) (p : ppa_addr) (bit : Z)
    : option read_loop :=
  '(b1, rqd1, bm1, adv1, j1) ←
    (if nvm_addr_in_cache p then
       let bm := set_bit bit (rl_bitmap rl) in
       let b0 := if rl_advanced_bio rl then rl_bio rl
                 else bio_advance (consts st) (rl_bio rl) bit in
       b' ← pblk_read_from_cache st b0 p;
       Some (b', rl_rqd rl, bm, true, rl_j rl)
     else
       rqd' ← rq_ppa_list_set (rl_rqd rl) (rl_j rl) p;
       Some (rl_bio rl, rqd', rl_bitmap rl, rl_advanced_bio rl, rl_j rl + 1));
  Some {| rl_bio := if (adv1 : bool) then bio_advance (consts st) b1 1 else b1;
          rl_rqd := rqd1; rl_bitmap := bm1; rl_advanced_bio := adv1;
          rl_j := j1; rl_valid_secs := rl_valid_secs rl + 1 |}.

(** The classification loop of [read_ppalist_rq_list]. *)
Fixpoint read_ppalist_rq_list_loop (n : nat) (i : Z) (st : pblk)
    (ppas : list ppa_addr) (lba_list : list Z) (rl : read_loop)
    : option read_loop :=
  match n with
  | O => Some rl
  | S n' =>
      lba ← lba_list !! Z.to_nat i;
      if lba =? ADDR_EMPTY then
        read_ppalist_rq_list_loop n' (i + 1) st ppas lba_list rl
      else
        p ← ppas !! Z.to_nat i;
        if ppa_empty p then
          read_ppalist_rq_list_loop n' (i + 1) st ppas lba_list rl
        else if negb ((0 <=? lba) && (lba <? pblk_nr_secs st)) then None   (* BUG_ON *)
        else
          rl' ← read_classify st rl p (rl_valid_secs rl);
          read_ppalist_rq_list_loop n' (i + 1) st ppas lba_list rl'
  end.

(** [read_ppalist_rq_list]: the GC-list shape.  The answer carries the
    number of valid sectors. *)
Definition read_ppalist_rq_list (st : pblk) (b : bio) (rqd : nvm_rq)
    (lba_list : list Z) (nr_secs : Z) (read_bitmap : bitmap)
    : option (pblk * bio * nvm_rq * bitmap * Z) :=
  '(locked, st1, ppas, cache_read_state) ←
    pblk_setup_rand_reads st (replicate PBLK_MAX_REQ_ADDRS PPA_EMPTY)
      (replicate PBLK_MAX_REQ_ADDRS false) lba_list nr_secs;
  rl ← read_ppalist_rq_list_loop (Z.to_nat nr_secs) 0 st1 ppas lba_list
         {| rl_bio := b; rl_rqd := rqd; rl_bitmap := read_bitmap;
            rl_advanced_bio := false; rl_j := 0; rl_valid_secs := 0 |};
  st2 ← (if (locked : bool)
         then pblk_unlock_rand_reads st1 ppas cache_read_state lba_list nr_secs
         else Some st1);
  Some (st2, rl_bio rl, rl_rqd rl, rl_bitmap rl, rl_valid_secs rl).

(** The classification loop of [pblk_read_ppalist_rq]. *)
Fixpoint pblk_read_ppalist_rq_loop (n : nat) (i : Z) (st : pblk)
    (ppas : list ppa_addr) (rl : read_loop) : option read_loop :=
  match n with
  | O => Some rl
  | S n' =>
      p ← ppas !! Z.to_nat i;
      if ppa_empty p then
        pblk_read_ppalist_rq_loop n' (i + 1) st ppas
          {| rl_bio := rl_bio rl; rl_rqd := rl_rqd rl;
             rl_bitmap := set_bit i (rl_bitmap rl);
             rl_advanced_bio := rl_advanced_bio rl; rl_j := rl_j rl;
             rl_valid_secs := rl_valid_secs rl |}
      else
        rl' ← read_classify st rl p i;
        pblk_read_ppalist_rq_loop n' (i + 1) st ppas rl'
  end.

(** [pblk_read_ppalist_rq]: the sequential shape. *)
Definition pblk_read_ppalist_rq (st : pblk) (b : bio) (rqd : nvm_rq)
    (nr_secs : Z) (read_bitmap : bitmap)
    : option (pblk * bio * nvm_rq * bitmap * nvm_io) :=
  let laddr := pblk_get_laddr (consts st) b in
  if negb ((0 <=? laddr) && (laddr + nr_secs <? pblk_nr_secs st)) then None   (* BUG_ON *)
  else
    '(locked, st1, ppas, cache_read_state) ←
      pblk_setup_seq_reads st (replicate PBLK_MAX_REQ_ADDRS PPA_EMPTY)
        (replicate PBLK_MAX_REQ_ADDRS false) laddr nr_secs;
    rl ← pblk_read_ppalist_rq_loop (Z.to_nat nr_secs) 0 st1 ppas
           {| rl_bio := b; rl_rqd := rqd; rl_bitmap := read_bitmap;
              rl_advanced_bio := false; rl_j := 0; rl_valid_secs := 0 |};
    st2 ← (if (locked : bool)
           then pblk_unlock_seq_reads st1 ppas cache_read_state laddr nr_secs
           else Some st1);
    Some (st2, rl_bio rl, rl_rqd rl, rl_bitmap rl, NVM_IO_OK).

(** [pblk_submit_read_io]. *)
Definition pblk_submit_read_io (st : pblk) (b : option bio) (rqd : nvm_rq)
    : pblk * nvm_rq * nvm_io :=
  let rqd1 := rq_with_sngl_suspend rqd in
  let '(err, st1) := nvm_submit_io st rqd1 in
  if negb (err =? 0) then
    (emit (emit st1 (EvPrErr "pblk: I/O submission failed")) (EvBioPut b),
     rqd1, NVM_IO_ERR)
  else (st1, rqd1, NVM_IO_OK).

(** [pblk_bio_free_pages]. *)
Definition pblk_bio_free_pages (st : pblk) (b : bio) (off nr_pages : Z)
    : pblk * bio :=
  (emit st (EvPagesFree nr_pages), bio_advance (consts st) b off).

(** A page added at the end of a bio by [bio_add_pc_page]. *)
Definition bio_add_pc_page (k : pblk_consts) (b : bio) (page : payload) : bio :=
  {| bi_sector := bi_sector b; bi_size := bi_size b + PBLK_EXPOSED_PAGE_SIZE k;
     bi_idx := bi_idx b; bi_vcnt := bi_vcnt b + 1; bi_write := bi_write b;
     bi_preflush := bi_preflush b; bi_rw_rest := bi_rw_rest b;
     bi_io_vec := bi_io_vec b ++ [page];
     bi_error := bi_error b |}.

(** [pblk_bio_add_pages]: the bio and the return value (0 or -1). *)
Fixpoint pblk_bio_add_pages_loop (n : nat) (i : Z) (st : pblk) (b : bio)
    : pblk * bio * Z :=
  match n with
  | O => (st, b, 0)
  | S n' =>
      let '(ok, st1) := try_alloc st in
      if negb ok then
        let '(st2, b') :=
          pblk_bio_free_pages
            (emit st1 (EvPrErr "pblk: could not alloc read page")) b 0 (i - 1) in
        (st2, b', -1)
      else pblk_bio_add_pages_loop n' (i + 1) st1 (bio_add_pc_page (consts st) b zero_page)
  end.

Definition pblk_bio_add_pages (st : pblk) (b : bio) (nr_pages : Z) : pblk * bio * Z :=
  pblk_bio_add_pages_loop (Z.to_nat nr_pages) 0 st b.

(** What the device puts in the pages of a read it completes. *)
Definition dev_read (st : pblk) (p : ppa_addr) : payload :=
  match p with PPA_DEV g => media st (g_blk g) (g_sec g) | _ => [] end.

(** The [do ... while (hole < nr_secs)] of [pblk_fill_partial_read_bio]. *)
Fixpoint fill_holes (n : nat) (i hole : Z) (read_bitmap : bitmap) (nr_secs : Z)
    (new_bio b : bio) : bio :=
  match n with
  | O => b
  | S n' =>
      let src := default [] (bi_io_vec new_bio !! Z.to_nat i) in
      let b' := bio_with_vec b (<[Z.to_nat hole := src]> (bi_io_vec b)) in
      let hole' := find_next_zero_bit read_bitmap nr_secs (hole + 1) in
      if hole' <? nr_secs then fill_holes n' (i + 1) hole' read_bitmap nr_secs new_bio b'
      else b'
  end.

(** [pblk_fill_partial_read_bio].  The read of the holes is synchronous:
    a submission the driver refuses is never completed, and the caller
    waits for ever ([None]). *)
Definition pblk_fill_partial_read_bio (st : pblk) (b : bio) (read_bitmap : bitmap)
    (rqd : nvm_rq) (nr_secs8 : Z) : option (pblk * bio * nvm_io) :=
  let nr_secs := to_u8 nr_secs8 in
  let r_ctx := rq_r_ctx rqd in
  let nr_holes := to_int (nr_secs - bitmap_weight read_bitmap nr_secs) in
  let '(ok, st1) := try_alloc st in                        (* bio_alloc *)
  if negb ok then
    Some (emit st1 (EvPrErr "pblk: could not alloc read bio"), b, NVM_IO_ERR)
  else
    let new_bio0 :=
      {| bi_sector := 0; bi_size := 0; bi_idx := 0; bi_vcnt := 0;
         bi_write := false; bi_preflush := false; bi_rw_rest := 0; bi_io_vec := [];
         bi_error := 0 |} in
    let '(st2, new_bio, rc) := pblk_bio_add_pages st1 new_bio0 nr_holes in
    let fail (st' : pblk) (rqd' : nvm_rq) (nb : bio) :=
      let '(st3, b') := pblk_bio_free_pages st' b 0 (bi_vcnt nb) in
      st4 ← pblk_end_io (emit st3 (EvBioEndio nb)) rqd';
      Some (st4, b', NVM_IO_ERR) in
    if negb (rc =? 0) then fail (emit st2 (EvBioPut (Some b))) rqd new_bio
    else if negb (nr_holes =? bi_vcnt new_bio) then
      fail (emit st2 (EvPrErr "pblk: malformed bio")) rqd new_bio
    else
      let flags := r_flags r_ctx in
      let rqd1 :=
        rq_with_head
          (rq_with_r_ctx rqd {| r_flags := io_or_sync flags; orig_bio := orig_bio r_ctx |})
          (rq_opcode rqd) nr_holes (Some new_bio) in
      let demote := (1 <? nr_secs) && (nr_holes =? 1) in
      let ppa_ptr := rq_ppa_list rqd1 in
      let dma_ppa_list := rq_ppa_addr rqd1 in
      rqd2 ← (if demote then
                l ← rq_ppa_list rqd1; p ← l !! O;
                Some (rq_with_ppas rqd1 (RQ_PPA_ADDR p) (rq_ppa_list rqd1))
              else Some rqd1);
      let '(st3, rqd3, ret) := pblk_submit_read_io st2 (Some new_bio) rqd2 in
      match ret with
      | NVM_IO_OK =>
          (* wait_for_completion_io: the device fills the pages; a request
             of one address whose union holds the DMA handle sends the
             device to an address this model does not follow *)
          ppas ← (if 1 <? rq_nr_ppas rqd3
                  then Some (take (Z.to_nat nr_holes) (default [] (rq_ppa_list rqd3)))
                  else p ← rq_union_ppa (rq_ppa_addr rqd3); Some [p]);
          let new_bio1 :=
            {| bi_sector := 0; bi_size := bi_size new_bio; bi_idx := 0;
               bi_vcnt := bi_vcnt new_bio; bi_write := false; bi_preflush := false;
               bi_rw_rest := 0;
               bi_io_vec := map (dev_read st3) ppas; bi_error := dev_error st3 |} in
          let st4 := if negb (bi_error b =? 0)
                     then emit st3 (EvPrErr "pblk: partial sync read failed") else st3 in
          let rqd4 := if demote then rq_with_ppas rqd3 dma_ppa_list ppa_ptr
                      else rqd3 in
          if negb (bi_error new_bio1 =? 0) then fail st4 rqd4 new_bio1
          else
            let b1 := fill_holes (Z.to_nat nr_secs) 0
                        (find_first_zero_bit read_bitmap nr_secs)
                        read_bitmap nr_secs new_bio1 b in
            let st5 := emit (emit st4 (EvPagesFree nr_holes)) (EvBioPut (Some new_bio1)) in
            let rqd5 :=
              rq_with_head
                (rq_with_r_ctx rqd4 {| r_flags := flags; orig_bio := orig_bio r_ctx |})
                (rq_opcode rqd4) nr_secs (Some b1) in
            st6 ← pblk_end_io (emit st5 (EvBioEndio b1)) rqd5;
            Some (st6, b1, NVM_IO_OK)
      | _ => None
      end.

(** [__pblk_submit_read]. *)
Definition __pblk_submit_read (st : pblk) (rqd : nvm_rq) (b : bio)
    (read_bitmap : bitmap) (flags : io_flags) (nr_secs : Z) (clone_read : bool)
    : option (pblk * bio * nvm_io) :=
  let fail_ppa_free (st' : pblk) (ret : nvm_io) :=
    let st'' := if (1 <? nr_secs) && negb (ft_gc flags) then emit st' EvDmaFree
                else st' in
    (st'', b, ret) in
  if bitmap_empty read_bitmap nr_secs then
    let '(cloned, st1, int_bio, rqd1) :=
      if clone_read then
        let '(ok, st1) := try_alloc st in                  (* bio_clone_bioset *)
        if ok then
          (true, st1, Some b,
           rq_with_r_ctx (rq_with_head rqd (rq_opcode rqd) (rq_nr_ppas rqd) (Some b))
             {| r_flags := r_flags (rq_r_ctx rqd); orig_bio := Some b |})
        else (false, emit st1 (EvPrErr "pblk: could not clone read bio"), None, rqd)
      else (true, st, None, rqd) in
    if negb cloned then Some (fail_ppa_free st1 NVM_IO_OK)
    else
      let '(st2, rqd2, ret) := pblk_submit_read_io st1 int_bio rqd1 in
      match ret with
      | NVM_IO_OK => Some (st2, b, NVM_IO_OK)
      | _ =>
          let st3 := emit st2 (EvPrErr "pblk: read IO submission failed") in
          let st4 := match int_bio with
                     | Some _ => emit st3 (EvBioPut int_bio)
                     | None => st3
                     end in
          Some (fail_ppa_free st4 ret)
      end
  else
    '(st1, b1, ret) ← pblk_fill_partial_read_bio st b read_bitmap rqd nr_secs;
    match ret with
    | NVM_IO_OK => Some (st1, b1, NVM_IO_OK)
    | _ =>
        let '(st2, _, r) :=
          fail_ppa_free (emit st1 (EvPrErr "pblk: failed to perform partial read")) ret in
        Some (st2, b1, r)
    end.

(** [pblk_submit_read]: the read entry point of the block layer. *)
Definition pblk_submit_read (st : pblk) (b : bio) (flags : io_flags)
    : option (pblk * bio * nvm_io) :=
  let nr_secs := to_int (pblk_get_secs (consts st) b) in
  if negb (nr_secs =? bi_vcnt b) then Some (st, b, NVM_IO_ERR)
  else
    let read_bitmap := bitmap_zero nr_secs in
    match pblk_alloc_rqd st READ with
    | (None, st1) =>
        Some (emit (emit st1 (EvPrErr "pblk: not able to alloc rqd")) (EvBioIoError b),
              b, NVM_IO_ERR)
    | (Some rqd, st1) =>
        let fail_rqd_free (st' : pblk) (rqd' : nvm_rq) (b' : bio) (ret : nvm_io) :=
          Some (pblk_free_rqd st' rqd' READ, b', ret) in
        '(go, st2, b2, rqd2, bm2, ret) ←
          (if 1 <? nr_secs then
             let '(ok, st2) := try_alloc st1 in            (* nvm_dev_dma_alloc *)
             if negb ok then
               Some (false,
                     emit st2 (EvPrErr "pblk: not able to allocate ppa list"),
                     b, rqd, read_bitmap, NVM_IO_ERR)
             else
               let rqd1 := rq_with_ppas rqd RQ_DMA_PPA_LIST
                             (Some (replicate PBLK_MAX_REQ_ADDRS PPA_EMPTY)) in
               '(st3, b3, rqd3, bm3, _) ←
                 pblk_read_ppalist_rq (emit st2 EvDmaAlloc) b rqd1 nr_secs read_bitmap;
               Some (true, st3, b3, rqd3, bm3, NVM_IO_ERR)
           else
             let laddr := pblk_get_laddr (consts st) b in
             '(st3, b3, rqd3, bm3, ret) ← pblk_read_rq st1 b rqd laddr read_bitmap;
             Some (nvm_io_code ret =? 0, st3, b3, rqd3, bm3, ret));
        if negb (go : bool) then fail_rqd_free st2 rqd2 b2 ret
        else
          let rqd3 :=
            rq_with_r_ctx (rq_with_head rqd2 NVM_OP_PREAD nr_secs (Some b2))
              {| r_flags := flags; orig_bio := orig_bio (rq_r_ctx rqd2) |} in
          let st3 := emit st2 (EvBioGet b2) in
          if bitmap_full bm2 nr_secs then
            st4 ← pblk_end_io (emit st3 (EvBioEndio b2)) rqd3;
            Some (st4, b2, NVM_IO_OK)
          else __pblk_submit_read st3 rqd3 b2 bm2 flags nr_secs true
    end.

(* ================================================================== *)
(** ** Write admission *)
(* ================================================================== *)

(** What the other CPUs do to the instance while this one yields or
    spins: one state transformer per occasion, in order.  A loop that is
    still waiting when the list is used up has not returned ([None]). *)
Definition env : Type := list (pblk -> pblk).

(** The [try:] loop of [pblk_write_to_cache]: update the map, yielding
    with [schedule()] while the entry is pinned by a reader. *)
Fixpoint pblk_update_map_retry (sched : env) (st : pblk) (laddr : Z)
    (p : ppa_addr) {struct sched} : option (pblk * env) :=
  match pblk_update_map st laddr None p with
  | None => None
  | Some (false, st1) => Some (st1, sched)
  | Some (true, st1) =>
      match sched with
      | [] => None
      | e :: sched' => pblk_update_map_retry sched' (e (emit st1 EvSchedule)) laddr p
      end
  end.

(** The [for] loop of [pblk_write_to_cache] over the sectors of the bio. *)
Fixpoint pblk_write_to_cache_loop (n : nat) (i : Z) (sched : env) (st : pblk)
    (b : bio) (w_ctx : pblk_w_ctx) (laddr pos : Z) : option (pblk * bio * env) :=
  match n with
  | O => Some (st, b, sched)
  | S n' =>
      let w := w_ctx_with_lba w_ctx (laddr + i) in
      let data := bio_data b in
      let st1 := with_rwb st (pblk_rb_write_entry (rwb st) data w (pos + i)) in
      let p := pblk_cacheline_to_ppa (pblk_rb_wrap_pos (rwb st1) (pos + i)) in
      '(st2, sched') ← pblk_update_map_retry sched st1 (laddr + i) p;
      pblk_write_to_cache_loop n' (i + 1) sched' st2 (bio_advance (consts st) b 1)
        w_ctx laddr pos
  end.

(** [pblk_write_to_cache]. *)
Definition pblk_write_to_cache (sched : env) (st : pblk) (b : bio)
    (flags : io_flags) (nr_entries : Z) : option (pblk * bio * nvm_io * env) :=
  let laddr := pblk_get_laddr (consts st) b in
  let ctx_bio := if bi_preflush b then Some b else None in
  let ret := match ctx_bio with Some _ => NVM_IO_OK | None => NVM_IO_DONE end in
  match pblk_rb_may_write (rwb st) nr_entries nr_entries with
  | None => Some (st, b, NVM_IO_REQUEUE, sched)
  | Some (pos, rb) =>
      let w_ctx := {| w_bio := ctx_bio; w_lba := 0; w_flags := flags;
                      w_priv := None; w_paddr := 0; w_ppa := pblk_addr_empty |} in
      '(st1, b1, sched') ←
        pblk_write_to_cache_loop (Z.to_nat nr_entries) 0 sched (with_rwb st rb) b
          w_ctx laddr pos;
      Some (st1, b1, ret, sched')
  end.

(** [pblk_may_submit_write] on the instance: each failed attempt sleeps
    until the other CPUs have acted. *)
Fixpoint pblk_may_submit_write_st (sched : env) (st : pblk) (nr_secs : Z)
    {struct sched} : option (pblk * env) :=
  match __pblk_may_submit_write [] (write_inflight st) nr_secs with
  | None => None
  | Some (v, true) => Some (with_write_inflight st v, sched)
  | Some (v, false) =>
      match sched with
      | [] => None
      | e :: sched' => pblk_may_submit_write_st sched' (e st) nr_secs
      end
  end.

(** [pblk_write_kick] of pblk.h: wake the media writer. *)
Definition pblk_write_kick (st : pblk) : pblk := emit st EvWriteKick.

(** The [retry:] loop of [pblk_buffer_write].  Between two rounds the
    other CPUs act. *)
Fixpoint pblk_buffer_write_retry (fuel : nat) (sched : env) (st : pblk) (b : bio)
    (flags : io_flags) (nr_secs : Z) : option (pblk * bio * nvm_io * env) :=
  match fuel with
  | O => None
  | S fuel' =>
      if pblk_emergency_gc_mode st then Some (st, b, NVM_IO_REQUEUE, sched)
      else
        '(st1, b1, ret, sched1) ← pblk_write_to_cache sched st b flags nr_secs;
        match ret with
        | NVM_IO_REQUEUE =>
            match sched1 with
            | [] => None
            | e :: sched2 => pblk_buffer_write_retry fuel' sched2 (e st1) b1 flags nr_secs
            end
        | _ => Some (st1, b1, ret, sched1)
        end
  end.

(** [pblk_buffer_write]: the write entry point of the block layer. *)
Definition pblk_buffer_write (sched : env) (st : pblk) (b : bio) (flags : io_flags)
    : option (pblk * bio * nvm_io) :=
  let nr_secs := to_u8 (pblk_get_secs (consts st) b) in
  if bi_preflush b && negb (bio_has_data b) then
    let '(planted, rb) := pblk_rb_sync_point_set (rwb st) b in
    let ret := if planted then NVM_IO_OK else NVM_IO_DONE in
    Some (pblk_write_kick (with_rwb st rb), b, ret)
  else
    '(st1, b1, ret, sched1) ←
      pblk_buffer_write_retry (S (length sched)) sched st b flags nr_secs;
    match ret with
    | NVM_IO_REQUEUE => Some (st1, b1, NVM_IO_REQUEUE)
    | _ =>
        '(st2, _) ← pblk_may_submit_write_st sched1 st1 nr_secs;
        let st3 := if bi_preflush b then pblk_write_kick st2 else st2 in
        Some (st3, b1, ret)
    end.

(* ================================================================== *)
(** ** Discard *)
(* ================================================================== *)

(** The loop of [pblk_invalidate_range], from LBA [i]. *)
Fixpoint pblk_invalidate_range_loop (n : nat) (i : Z) (st : pblk) : option pblk :=
  match n with
  | O => Some st
  | S n' =>
      gp ← trans_map_get st i;
      st1 ← (match rblk gp with
             | Some _ => pblk_page_invalidate st gp
             | None => Some st
             end);
      pblk_invalidate_range_loop n' (i + 1) (trans_map_set st1 i pblk_addr_empty)
  end.

Definition pblk_invalidate_range (st : pblk) (slba nr_secs : Z) : option pblk :=
  pblk_invalidate_range_loop (Z.to_nat nr_secs) slba st.

(** [pblk_discard].  [bi_size] is an [unsigned int], so the sector count
    fits the [unsigned int] parameter of [pblk_invalidate_range]. *)
Definition pblk_discard (st : pblk) (b : bio) : option pblk :=
  let slba := bi_sector b / NR_PHY_IN_LOG (consts st) in
  let nr_secs := bi_size b / PBLK_EXPOSED_PAGE_SIZE (consts st) in
  pblk_invalidate_range st slba nr_secs.

(** An L2P entry the discard path can process: without back-pointer, or
    with a back-pointer to a live block and a device address. *)
Definition l2p_entry_ok (st : pblk) (gp : pblk_addr) : bool :=
  match rblk gp with
  | None => true
  | Some b =>
      match ppa gp, blocks st !! b with
      | PPA_DEV _, Some _ => true
      | _, _ => false
      end
  end.

(** The range [slba .. slba + n - 1] lies inside the L2P table and its
    entries are well formed. *)
Definition discard_range_ok (st : pblk) (slba n : Z) : bool :=
  (0 <=? slba) && (0 <=? n) && (slba + n <=? pblk_nr_secs st) &&
  (pblk_nr_secs st <=? Z.of_nat (length (trans_map st))) &&
  (pblk_nr_secs st <=? ADDR_EMPTY) &&
  forallb (fun k => match trans_map st !! k with
                    | Some gp => l2p_entry_ok st gp
                    | None => false
                    end)
          (seq (Z.to_nat slba) (Z.to_nat n)).

(* ================================================================== *)
(** ** Mapping a page and padding open blocks *)
(* ================================================================== *)

(** Modelled from the spec: [block_is_full] is defined in pblk.h.
    Section 3: [cur_sec <= nr_blk_dsecs], and the current block is
    replaced "when [cur] becomes full": no data sector is left. *)
Definition block_is_full (st : pblk) (blk : pblk_block) : bool :=
  nr_blk_dsecs (geo st) <=? cur_sec blk.

(** [pblk_next_base_sec]: take [nr_secs] sectors at [cur_sec]. *)
Definition pblk_next_base_sec (blk : pblk_block) (nr_secs : Z) : Z * pblk_block :=
  (cur_sec blk,
   blk_set_alloc blk (cur_sec blk + nr_secs)
     (bitmap_set (sector_bitmap blk) (cur_sec blk) nr_secs)).

(** [pblk_alloc_page]: the first sector of a fresh page, or [ADDR_EMPTY]. *)
Definition pblk_alloc_page (st : pblk) (blk : pblk_block) : Z * pblk_block :=
  if block_is_full st blk then (ADDR_EMPTY, blk)
  else pblk_next_base_sec blk (min_write_pgs (geo st)).

(** [pblk_page_pad_invalidate] on block [b]. *)
Definition pblk_page_pad_invalidate (st : pblk) (b : nat) (a : Z) : option pblk :=
  blk ← blocks st !! b;
  let blk1 := blk_set_invalid blk (nr_invalid_secs blk + 1)
                (set_bit a (invalid_bitmap blk)) in
  let sy := set_bit a (sync_bitmap blk1) in
  let st1 := with_blocks st (<[b := blk_set_sync blk1 sy]> (blocks st)) in
  if bitmap_full sy (nr_blk_dsecs (geo st))
  then Some (pblk_run_blk_ws st1 (WsCloseBlk b))
  else Some st1.

(** Where [pblk_map_page] stores the addresses: [&rqd->ppa_addr], or
    [&rqd->ppa_list[off]]; the metadata goes to [&meta[off]]. *)
Inductive ppa_dst : Type := DstAddr | DstList (off : Z).

Definition rq_store_ppa (rqd : nvm_rq) (dst : ppa_dst) (i : Z) (p : ppa_addr)
    : option nvm_rq :=
  match dst with
  | DstAddr => Some (rq_with_ppas rqd (RQ_PPA_ADDR p) (rq_ppa_list rqd))
  | DstList off => rq_ppa_list_set rqd (off + i) p
  end.

Definition rq_store_meta (rqd : nvm_rq) (dst : ppa_dst) (i lba : Z) : option nvm_rq :=
  m ← rq_meta_list rqd;
  let off := match dst with DstAddr => 0 | DstList off => off end in
  Some (rq_with_meta rqd (Some (<[Z.to_nat (off + i) := lba]> m))).

(** The [for] loop of [pblk_map_page]; the second component of the answer
    is the return value. *)
Fixpoint pblk_map_page_loop (n : nat) (i paddr : Z) (st : pblk) (b : nat)
    (sentry : Z) (rqd : nvm_rq) (dst : ppa_dst) (nr_secs valid_secs : Z)
    : option (pblk * nvm_rq * Z) :=
  match n with
  | O => Some (st, rqd, 0)
  | S n' =>
      if paddr =? ADDR_EMPTY then
        Some (emit st (EvPrErr "pblk: corrupted l2p mapping"), rqd, -22)
      else
        let p := PPA_DEV {| g_blk := b; g_sec := paddr |} in
        rqd1 ← rq_store_ppa rqd dst i p;
        '(st2, rqd2) ←
          (if i <? valid_secs then
             w_ctx ← pblk_rb_w_ctx (rwb st) (sentry + i);
             let w := w_ctx_with_ppa w_ctx paddr {| ppa := p; rblk := Some b |} in
             let st1 := with_rwb st (rb_set_w_ctx (rwb st) (sentry + i) w) in
             rqd2 ← rq_store_meta rqd1 dst i (w_lba w_ctx);
             blk ← blocks st1 !! b;
             let blk' := blk_set_rlpg blk (rlpg_nr_lbas blk + 1) (rlpg_nr_padded blk)
                           (<[Z.to_nat paddr := w_lba w_ctx]> (rlpg_lba_list blk)) in
             Some (with_blocks st1 (<[b := blk']> (blocks st1)), rqd2)
           else
             rqd2 ← rq_store_meta rqd1 dst i ADDR_EMPTY;
             blk ← blocks st !! b;
             let blk' := blk_set_rlpg blk (rlpg_nr_lbas blk) (rlpg_nr_padded blk)
                           (<[Z.to_nat paddr := ADDR_EMPTY]> (rlpg_lba_list blk)) in
             st1 ← pblk_page_pad_invalidate
                     (with_blocks st (<[b := blk']> (blocks st))) b paddr;
             blk1 ← blocks st1 !! b;
             let blk1' := blk_set_rlpg blk1 (rlpg_nr_lbas blk1) (rlpg_nr_padded blk1 + 1)
                            (rlpg_lba_list blk1) in
             Some (with_blocks st1 (<[b := blk1']> (blocks st1)), rqd2));
        pblk_map_page_loop n' (i + 1) (to_ulong (paddr + 1)) st2 b sentry rqd2 dst
          nr_secs valid_secs
  end.

(** [pblk_map_page] on block [b]. *)
Definition pblk_map_page (st : pblk) (b : nat) (sentry : Z) (rqd : nvm_rq)
    (dst : ppa_dst) (nr_secs valid_secs : Z) : option (pblk * nvm_rq * Z) :=
  blk ← blocks st !! b;
  let '(paddr, blk') := pblk_alloc_page st blk in
  let st1 := with_blocks st (<[b := blk']> (blocks st)) in
  pblk_map_page_loop (Z.to_nat nr_secs) 0 paddr st1 b sentry rqd dst nr_secs valid_secs.

(** [pblk_alloc_w_rq]: the request and the return value. *)
Definition pblk_alloc_w_rq (st : pblk) (rqd : nvm_rq) (nr_secs : Z)
    : pblk * nvm_rq * Z :=
  let rqd1 := rq_with_head rqd NVM_OP_PWRITE nr_secs (rq_bio rqd) in
  let '(ok, st1) := try_alloc st in
  if negb ok then
    (emit st1 (EvPrErr "pblk: not able to allocate metadata list"), rqd1, -12)
  else
    let rqd2 := rq_with_meta rqd1 (Some (replicate PBLK_MAX_REQ_ADDRS 0)) in
    let st2 := emit st1 EvDmaAlloc in
    if nr_secs =? 1 then (st2, rqd2, 0)
    else
      let '(ok2, st3) := try_alloc st2 in
      if negb ok2 then
        (emit (emit st3 EvDmaFree) (EvPrErr "pblk: not able to allocate ppa list"),
         rqd2, -12)
      else
        (emit st3 EvDmaAlloc,
         rq_with_ppas rqd2 RQ_DMA_PPA_LIST
           (Some (replicate PBLK_MAX_REQ_ADDRS PPA_EMPTY)),
         0).

(** The [for (i = 0; i < nr_secs; i += min)] of [pblk_setup_pad_rq]; a
    page that cannot be mapped is a [BUG_ON(1)]. *)
Fixpoint pblk_setup_pad_rq_loop (n : nat) (i : Z) (st : pblk) (b : nat)
    (rqd : nvm_rq) (c : pblk_compl_ctx) (nr_secs : Z) : option (pblk * nvm_rq) :=
  match n with
  | O => if i <? nr_secs then None else Some (st, rqd)
  | S n' =>
      if negb (i <? nr_secs) then Some (st, rqd)
      else
        let min := min_write_pgs (geo st) in
        '(st1, rqd1, ret) ← pblk_map_page st b (sentry c + i) rqd (DstList i) min 0;
        if negb (ret =? 0) then None
        else pblk_setup_pad_rq_loop n' (i + min) st1 b rqd1 c nr_secs
  end.

(** [pblk_setup_pad_rq]. *)
Definition pblk_setup_pad_rq (st : pblk) (b : nat) (rqd : nvm_rq)
    : option (pblk * nvm_rq * Z) :=
  c ← compl_ctx_of (rq_w_ctx rqd);
  let nr_secs := nr_valid c + nr_padded c in
  let '(st1, rqd1, ret) := pblk_alloc_w_rq st rqd nr_secs in
  if negb (ret =? 0) then Some (st1, rqd1, ret)
  else if nr_secs =? 1 then
    if negb (sec_per_pl (geo st) =? 1) then None             (* BUG_ON *)
    else if negb (nr_padded c =? 0) then None                (* BUG_ON *)
    else
      '(st2, rqd2, ret2) ← pblk_map_page st1 b (sentry c) rqd1 DstAddr 1 0;
      if negb (ret2 =? 0) then None else Some (st2, rqd2, ret2)
  else
    '(st2, rqd2) ← pblk_setup_pad_rq_loop (Z.to_nat nr_secs) 0 st1 b rqd1 c nr_secs;
    Some (st2, rqd2, 0).

(** [pblk_end_w_pad]. *)
Definition pblk_end_w_pad (st : pblk) (rqd : nvm_rq) : option pblk :=
  c ← compl_ctx_of (rq_w_ctx rqd);
  if negb (nr_valid c =? 0) then None                        (* BUG_ON *)
  else
    let st1 := if 1 <? nr_padded c then emit st EvDmaFree else st in
    Some (pblk_free_rqd (emit st1 (EvBioPut (rq_bio rqd))) rqd WRITE).

(** The [do ... while (nr_free_secs > 0)] of [pblk_pad_blk].  The pad
    bio maps [nr_secs] sectors of the zeroed buffer; the device sector
    size is taken to be the exposed page size. *)
Fixpoint pblk_pad_blk_loop (fuel : nat) (st : pblk) (b : nat) (nr_free_secs : Z)
    : option pblk :=
  match fuel with
  | O => None
  | S fuel' =>
      let max := max_write_pgs (geo st) in
      let nr_secs := if max <? nr_free_secs then max else nr_free_secs in
      match pblk_alloc_rqd st WRITE with
      | (None, st1) => Some (emit st1 (EvPrErr "pblk: could not alloc write req."))
      | (Some rqd, st1) =>
          let '(ok, st2) := try_alloc st1 in                (* bio_map_kern *)
          if negb ok then
            Some (pblk_free_rqd
                    (emit st2 (EvPrErr "pblk: could not alloc tear down bio")) rqd WRITE)
          else
            let pad_bio :=
              {| bi_sector := 0; bi_size := nr_secs * PBLK_EXPOSED_PAGE_SIZE (consts st);
                 bi_idx := 0; bi_vcnt := nr_secs; bi_write := true;
                 bi_preflush := false; bi_rw_rest := 0;
                 bi_io_vec := replicate (Z.to_nat nr_secs) zero_page;
                 bi_error := 0 |} in
            let rqd1 :=
              rq_with_w_ctx (rq_with_head rqd (rq_opcode rqd) (rq_nr_ppas rqd) (Some pad_bio))
                {| ctx_flags := io_or_sync io_none;
                   c_ctx := CCompl {| sentry := 0; nr_valid := 0;
                                      nr_padded := nr_secs |} |} in
            let free_bio (st' : pblk) (rqd' : nvm_rq) :=
              Some (pblk_free_rqd (emit st' (EvBioPut (Some pad_bio))) rqd' WRITE) in
            '(st3, rqd3, ret) ← pblk_setup_pad_rq st2 b rqd1;
            if negb (ret =? 0) then
              free_bio (emit st3 (EvPrErr "pblk: could not setup tear down req.")) rqd3
            else
              let '(err, st4) := nvm_submit_io st3 rqd3 in
              if negb (err =? 0) then
                free_bio (emit st4 (EvPrErr "pblk: I/O submission failed")) rqd3
              else
                (* wait_for_completion_io *)
                st5 ← pblk_end_w_pad st4 rqd3;
                let nr_free_secs' := to_int (nr_free_secs - nr_secs) in
                if 0 <? nr_free_secs' then pblk_pad_blk_loop fuel' st5 b nr_free_secs'
                else Some st5
      end
  end.

(** [pblk_pad_blk]. *)
Definition pblk_pad_blk (st : pblk) (b : nat) (nr_free_secs : Z) : option pblk :=
  let '(ok, st1) := try_alloc st in                          (* kzalloc(pad_data) *)
  if negb ok then Some st1
  else pblk_pad_blk_loop (S (Z.to_nat nr_free_secs)) st1 b nr_free_secs.

(** [pblk_nr_free_secs]. *)
Definition pblk_nr_free_secs (st : pblk) (blk : pblk_block) : Z :=
  to_ulong (nr_blk_dsecs (geo st)
            - bitmap_weight (sector_bitmap blk) (nr_blk_dsecs (geo st))).

(** [pblk_put_blk_unlocked]; the [list_del] is done by the caller, which
    owns the list the block is on. *)
Definition pblk_put_blk_unlocked (st : pblk) (b : nat) : pblk :=
  emit (emit st (EvPutBlk b)) (EvFreeBlkMeta b).

(** The [list_for_each_entry_safe] of [pblk_pad_open_blks] over the blocks
    cut from a LUN's open list; [kept] are the blocks still on the local
    list. *)
Fixpoint pblk_pad_open_blks_list (l : list nat) (st : pblk) (kept : list nat)
    : option (pblk * list nat) :=
  match l with
  | [] => Some (st, kept)
  | b :: l' =>
      blk ← blocks st !! b;
      let nr_free_secs := to_int (pblk_nr_free_secs st blk) in
      let md := to_ulong nr_free_secs mod (min_write_pgs (geo st) mod 2 ^ 32) in
      if negb (md =? 0) then
        pblk_pad_open_blks_list l' (emit st (EvPrErr "pblk: corrupted block")) (kept ++ [b])
      else if nr_free_secs =? nr_blk_dsecs (geo st) then
        pblk_pad_open_blks_list l' (pblk_put_blk_unlocked st b) kept
      else
        st1 ← pblk_pad_blk st b nr_free_secs;
        pblk_pad_open_blks_list l' st1 (kept ++ [b])
  end.

(** The first [pblk_for_each_lun] of [pblk_pad_open_blks], from LUN [i]. *)
Fixpoint pblk_pad_open_blks_luns (n : nat) (i : nat) (st : pblk) : option pblk :=
  match n with
  | O => Some st
  | S n' =>
      rlun ← luns st !! i;
      let cut := open_list rlun in
      let st1 := with_luns st (<[i := {| lun_cur := lun_cur rlun; open_list := [] |}]> (luns st)) in
      '(st2, kept) ← pblk_pad_open_blks_list cut st1 [];
      rlun2 ← luns st2 !! i;
      let st3 := with_luns st2
                   (<[i := {| lun_cur := lun_cur rlun2;
                              open_list := kept ++ open_list rlun2 |}]> (luns st2)) in
      pblk_pad_open_blks_luns n' (S i) st3
  end.

(** The [retry:] loop of the second [pblk_for_each_lun] on LUN [i]: spin
    until its open list is empty; the blocks leave the list when the close
    work of the other CPUs runs. *)
Fixpoint pblk_pad_open_blks_wait_lun (sched : env) (st : pblk) (i : nat)
    {struct sched} : option (pblk * env) :=
  match open_list <$> luns st !! i with
  | None => None
  | Some [] => Some (st, sched)
  | Some (_ :: _) =>
      match sched with
      | [] => None
      | e :: sched' => pblk_pad_open_blks_wait_lun sched' (e (emit st EvSchedule)) i
      end
  end.

Fixpoint pblk_pad_open_blks_wait (n : nat) (i : nat) (sched : env) (st : pblk)
    : option pblk :=
  match n with
  | O => Some st
  | S n' =>
      '(st1, sched1) ← pblk_pad_open_blks_wait_lun sched st i;
      pblk_pad_open_blks_wait n' (S i) sched1 st1
  end.

(** [pblk_pad_open_blks]. *)
Definition pblk_pad_open_blks (sched : env) (st : pblk) : option pblk :=
  st1 ← pblk_pad_open_blks_luns (length (luns st)) O st;
  pblk_pad_open_blks_wait (length (luns st1)) O sched st1.

(* ================================================================== *)
(** ** A small instance for the examples *)
(* ================================================================== *)

Definition ex_consts : pblk_consts :=
  {| PBLK_EXPOSED_PAGE_SIZE := 4096; NR_PHY_IN_LOG := 8 |}.

Definition ex_geo : pblk_geo :=
  {| max_write_pgs := 8; min_write_pgs := 2; nr_blk_dsecs := 16; sec_per_pl := 2 |}.

Definition ex_w_ctx : pblk_w_ctx :=
  {| w_bio := None; w_lba := 0; w_flags := io_none; w_priv := None;
     w_paddr := 0; w_ppa := pblk_addr_empty |}.

Definition ex_entry (data : payload) : pblk_rb_entry :=
  {| e_data := data; e_w_ctx := ex_w_ctx |}.

Definition ex_block : pblk_block :=
  {| cur_sec := 0; nr_invalid_secs := 0; sector_bitmap := 0; sync_bitmap := 0;
     invalid_bitmap := 0; rlpg_nr_lbas := 0; rlpg_nr_padded := 0;
     rlpg_lba_list := replicate 16 0; blk_bad := false |}.

(** Sixteen LBAs, none mapped; a ring of four slots, empty; two erased
    blocks of sixteen data sectors on one LUN; nothing in flight. *)
Definition ex_pblk : pblk :=
  {| consts := ex_consts; geo := ex_geo; pblk_nr_secs := 16;
     trans_map := replicate 16 pblk_addr_empty;
     rwb := {| rb_entries := replicate 4 (ex_entry []); rb_mem := 0; rb_subm := 0;
               rb_sync := 0; rb_sync_point := None |};
     blocks := [ex_block; ex_block];
     luns := [{| lun_cur := Some O; open_list := [O; 1%nat] |}];
     write_inflight := 0; wait_active := false; compl_list := [];
     emergency_gc := false; media := fun _ _ => []; dev_error := 0;
     alloc_script := []; submit_script := []; log := [] |}.

(** A bio of [n] sectors starting at LBA [lba], with the given pages. *)
Definition ex_bio (write : bool) (lba n : Z) (pages : list payload) : bio :=
  {| bi_sector := lba * 8; bi_size := n * 4096; bi_idx := 0; bi_vcnt := n;
     bi_write := write; bi_preflush := false; bi_rw_rest := 0; bi_io_vec := pages;
     bi_error := 0 |}.

(** The same instance with all four ring slots taken. *)
Definition ex_pblk_full : pblk :=
  with_rwb ex_pblk (rb_with_mem (rwb ex_pblk) 4).

(** Another CPU retires two ring entries. *)
Definition ex_retire_two (st : pblk) : pblk :=
  with_rwb st (rb_with_sync (rwb st) (rb_sync (rwb st) + 2)).

(** The instance after some writes: LBAs 3, 4 and 6 are still in the ring
    (slots 0, 1, 2), LBA 3 being pinned by a read in progress on another
    CPU; LBA 7 is on the device, in sector 0 of block 0. *)
Definition ex_pblk_cached : pblk :=
  with_rwb
    (with_trans_map ex_pblk
       (<[3%nat := {| ppa := PPA_CACHE 0 true; rblk := None |}]>
        (<[4%nat := {| ppa := PPA_CACHE 1 false; rblk := None |}]>
         (<[6%nat := {| ppa := PPA_CACHE 2 false; rblk := None |}]>
          (<[7%nat := {| ppa := PPA_DEV {| g_blk := O; g_sec := 0 |};
                         rblk := Some O |}]>
           (trans_map ex_pblk))))))
    {| rb_entries := [ex_entry [Byte.x01]; ex_entry [Byte.x02];
                      ex_entry [Byte.x03]; ex_entry []];
       rb_mem := 3; rb_subm := 0; rb_sync := 0; rb_sync_point := None |}.

(** A read request with its address list allocated. *)
Definition ex_read_rqd : nvm_rq :=
  rq_with_ppas rqd_zero RQ_DMA_PPA_LIST
    (Some (replicate PBLK_MAX_REQ_ADDRS PPA_EMPTY)).

(** A failed single-sector write: [ppa_status] has bit 0 set. *)
Definition ex_failed_rqd : nvm_rq :=
  {| rq_opcode := NVM_OP_PWRITE; rq_nr_ppas := 1;
     rq_ppa_addr := RQ_PPA_ADDR (PPA_DEV {| g_blk := O; g_sec := 0 |});
     rq_ppa_list := None; rq_meta_list := Some [7]; rq_ppa_status := 1;
     rq_error := NVM_RSP_ERR_FAILWRITE; rq_sngl_suspend := false;
     rq_bio := Some (ex_bio true 0 1 [[Byte.x01]]);
     rq_w_ctx := {| ctx_flags := io_none;
                    c_ctx := CCompl {| sentry := 0; nr_valid := 1; nr_padded := 0 |} |};
     rq_r_ctx := {| r_flags := io_none; orig_bio := None |} |}.

(** A ring entry whose sector the media writer has mapped to sector
    [paddr] of block 0. *)
Definition ex_mapped_entry (lba paddr : Z) : pblk_rb_entry :=
  {| e_data := [Byte.x01];
     e_w_ctx := {| w_bio := None; w_lba := lba; w_flags := io_none; w_priv := None;
                   w_paddr := paddr;
                   w_ppa := {| ppa := PPA_DEV {| g_blk := O; g_sec := paddr |};
                               rblk := Some O |} |} |}.

(** A submitted data write covering [n] ring entries from [sentry]. *)
Definition ex_write_rqd (s n : Z) : nvm_rq :=
  {| rq_opcode := NVM_OP_PWRITE; rq_nr_ppas := n;
     rq_ppa_addr := RQ_PPA_ADDR PPA_EMPTY;
     rq_ppa_list := None; rq_meta_list := None; rq_ppa_status := 0;
     rq_error := 0; rq_sngl_suspend := false; rq_bio := None;
     rq_w_ctx := {| ctx_flags := io_none;
                    c_ctx := CCompl {| sentry := s; nr_valid := n; nr_padded := 0 |} |};
     rq_r_ctx := {| r_flags := io_none; orig_bio := None |} |}.

(** Four sectors written and submitted in three requests (ring positions
    0, 1-2 and 3); the device has completed the last two, which wait on
    the completion list, newest first. *)
Definition ex_pblk_inflight : pblk :=
  with_compl_list
    (with_write_inflight
       (with_rwb ex_pblk
          {| rb_entries := [ex_mapped_entry 10 0; ex_mapped_entry 11 1;
                            ex_mapped_entry 12 2; ex_mapped_entry 13 3];
             rb_mem := 4; rb_subm := 4; rb_sync := 0; rb_sync_point := None |})
       4)
    [ex_write_rqd 3 1; ex_write_rqd 1 2].

(** The pad requests handed to the driver, oldest first. *)
Definition submits (l : list event) : list nvm_rq :=
  omap (fun ev => match ev with EvSubmitIo r => Some r | _ => None end) l.

(** Three open blocks on the LUN at teardown: block 0 has all its sixteen
    data sectors allocated, block 1 none, block 2 the first twelve. *)
Definition ex_pblk_teardown : pblk :=
  with_luns
    (with_blocks ex_pblk
       [blk_set_alloc ex_block 16 (Z.ones 16); ex_block;
        blk_set_alloc ex_block 12 (Z.ones 12)])
    [{| lun_cur := Some 2%nat; open_list := [O; 1%nat; 2%nat] |}].



(** What a retirement step may change: the trace grows (without a new
    retired request), allocations are consumed, blocks are updated in
    place, ring contexts lose their flush bio. *)
Definition retire_frame (st st' : pblk) : Prop :=
  compl_list st' = compl_list st /\
  rb_sync (rwb st') = rb_sync (rwb st) /\
  retired (log st') = retired (log st) /\
  geo st' = geo st /\
  forall pos, entry_mapped st' pos = entry_mapped st pos.

(** What the padding of block [b] relies on and maintains: allocations
    and submissions succeed, the block exists and [cs] of its sectors are
    allocated. *)
Definition pad_state (st : pblk) (b : nat) (cs : Z) : Prop :=
  alloc_script st = [] /\ submit_script st = [] /\
  exists blk, blocks st !! b = Some blk /\ cur_sec blk = cs.

(** A step that submits nothing and leaves the geometry alone. *)
Definition pad_step (st st' : pblk) : Prop :=
  geo st' = geo st /\ consts st' = consts st /\
  submits (log st') = submits (log st).

(** What mapping pages may change in a request: its address and metadata
    lists, which stay allocated. *)
Definition rq_frame (rqd rqd' : nvm_rq) : Prop :=
  rq_w_ctx rqd' = rq_w_ctx rqd /\ rq_nr_ppas rqd' = rq_nr_ppas rqd /\
  rq_bio rqd' = rq_bio rqd /\
  is_Some (rq_ppa_list rqd') /\ is_Some (rq_meta_list rqd').

(* ================================================================== *)
(** ** Reading the trace *)
(* ================================================================== *)

(** The number of events of a trace that satisfy [f]. *)
Fixpoint count_ev (f : event -> bool) (l : list event) : Z :=
  match l with
  | [] => 0
  | ev :: l' => (if f ev then 1 else 0) + count_ev f l'
  end.

Definition is_dma_alloc (ev : event) : bool :=
  match ev with EvDmaAlloc => true | _ => false end.

Definition is_dma_free (ev : event) : bool :=
  match ev with EvDmaFree => true | _ => false end.

(** DMA buffers obtained with [nvm_dev_dma_alloc] and given back with
    [nvm_dev_dma_free] (or [nvm_free_rqd_ppalist]) so far. *)
Definition dma_allocs (st : pblk) : Z := count_ev is_dma_alloc (log st).
Definition dma_frees (st : pblk) : Z := count_ev is_dma_free (log st).

(** A predicate on events that only DMA events can satisfy. *)
Definition dma_only (f : event -> bool) : Prop :=
  forall ev, f ev = true -> ev = EvDmaAlloc \/ ev = EvDmaFree.

(** A step during which no event satisfying [f] is added to the trace. *)
Definition quiet (f : event -> bool) (st st' : pblk) : Prop :=
  count_ev f (log st') = count_ev f (log st).

(* ================================================================== *)
(** ** Choosing a LUN *)
(* ================================================================== *)

(** [get_next_lun]: [atomic_inc_return(&pblk->next_lun)] and the index
    [next % pblk->nr_luns] of the LUN chosen ([%] truncates towards zero;
    [nr_luns] is a field of pblk.h, taken as the parameter it is). *)
Definition get_next_lun (next_lun nr_luns : Z) : Z * Z :=
  let next := to_int (next_lun + 1) in
  (next, Z.rem next nr_luns).

(** The [pblk_for_each_lun] of [pblk_get_lun_rr]: [free] lists
    [rlun->parent->nr_free_blocks] for every LUN, [i] is the index of the
    LUN under the cursor and [max_free] the index of the best one so far. *)
Fixpoint pblk_get_lun_rr_loop (free : list Z) (rest : list Z) (i max_free : nat) : nat :=
  match rest with
  | [] => max_free
  | f :: rest' =>
      if default 0 (free !! max_free) <? f
      then pblk_get_lun_rr_loop free rest' (S i) i
      else pblk_get_lun_rr_loop free rest' (S i) max_free
  end.

(** [pblk_get_lun_rr]: the new value of [next_lun] and the index of the
    LUN returned. *)
Definition pblk_get_lun_rr (next_lun : Z) (free : list Z) (is_gc : bool) : Z * Z :=
  if negb is_gc then get_next_lun next_lun (Z.of_nat (length free))
  else (next_lun, Z.of_nat (pblk_get_lun_rr_loop free free O O)).

(** The LUNs chosen by [k] successive user writes. *)
Fixpoint lun_sequence (k : nat) (next_lun : Z) (free : list Z) : list Z :=
  match k with
  | O => []
  | S k' =>
      let '(next, i) := pblk_get_lun_rr next_lun free false in
      i :: lun_sequence k' next free
  end.

(* ================================================================== *)
(** ** Reading the result of a classification *)
(* ================================================================== *)

(** The address names a sector on the device. *)
Definition ppa_on_dev (p : ppa_addr) : bool :=
  match p with PPA_DEV _ => true | _ => false end.

(** The device addresses of a list of addresses, in order. *)
Definition dev_ppas (ppas : list ppa_addr) : list ppa_addr :=
  List.filter ppa_on_dev ppas.

(** Two L2P tables that differ at most in the read pins of their
    cacheline entries. *)
Definition l2p_upto_pin (T T' : list pblk_addr) : Prop :=
  length T' = length T /\
  forall k gp, T !! k = Some gp ->
    exists gp', T' !! k = Some gp' /\ rblk gp' = rblk gp /\
                nvm_addr_set_read_cache (ppa gp') false
                = nvm_addr_set_read_cache (ppa gp) false.

(* ================================================================== *)
(** ** The block pool *)
(* ================================================================== *)

(** [struct pblk_prov_queue]: the blocks provisioned for one LUN, oldest
    first, and the counter kept beside the list. *)
Record pblk_prov_queue : Type := { q_list : list nat; q_nr_elems : Z }.

(** [struct pblk_prov] with the fields the write path touches: one queue
    per LUN and the bitmap of the LUNs whose queue is provisioned. *)
Record pblk_prov : Type := {
  prov_nr_luns : Z;
  prov_queues : list pblk_prov_queue;
  prov_bitmap : bitmap
}.

(** [pblk_block_pool_should_kick]. *)
Definition pblk_block_pool_should_kick (pool : pblk_prov) : bool :=
  negb (bitmap_full (prov_bitmap pool) (prov_nr_luns pool)).

(** [pblk_block_pool_get] for the LUN at index [rlun], whose parent has
    id [bit]: the block taken, if any, the pool and the instance.  The
    queue is found by the id of the parent; an id without a queue, or a
    counter that promises a block the list does not hold, is a wild
    pointer ([None]).  [list_move_tail] takes the block off the queue
    and puts it at the end of the LUN's open list. *)
Definition pblk_block_pool_get (pool : pblk_prov) (st : pblk) (rlun : nat) (bit : Z)
    : option (option nat * pblk_prov * pblk) :=
  if bit <? 0 then None
  else
    queue ← prov_queues pool !! Z.to_nat bit;
    if q_nr_elems queue =? 0 then Some (None, pool, st)
    else
      match q_list queue with
      | [] => None
      | rblk :: rest =>
          let nr_elems_dec := to_int (q_nr_elems queue - 1) in
          let bm := if nr_elems_dec <? 2 then clear_bit bit (prov_bitmap pool)
                    else prov_bitmap pool in
          let pool' :=
            {| prov_nr_luns := prov_nr_luns pool;
               prov_queues := <[Z.to_nat bit := {| q_list := rest;
                                                   q_nr_elems := nr_elems_dec |}]>
                                (prov_queues pool);
               prov_bitmap := bm |} in
          lun ← luns st !! rlun;
          Some (Some rblk, pool',
                with_luns st (<[rlun := {| lun_cur := lun_cur lun;
                                           open_list := open_list lun ++ [rblk] |}]>
                                (luns st)))
      end.

(** [pblk_set_lun_cur]. *)
Definition pblk_set_lun_cur (st : pblk) (rlun : nat) (rblk : nat) : option pblk :=
  lun ← luns st !! rlun;
  Some (with_luns st (<[rlun := {| lun_cur := Some rblk; open_list := open_list lun |}]>
                        (luns st))).

(** [pblk_replace_blk]: the answer (1 when the LUN has a new current
    block), the pool and the instance. *)
Definition pblk_replace_blk (pool : pblk_prov) (st : pblk) (rlun : nat) (bit : Z)
    : option (bool * pblk_prov * pblk) :=
  '(rblk, pool1, st1) ← pblk_block_pool_get pool st rlun bit;
  match rblk with
  | None => Some (false, pool1, emit st1 (EvPrErr "NO PREALLOC BLOCK"))
  | Some r =>
      st2 ← pblk_set_lun_cur st1 rlun r;
      Some (true, pool1, st2)
  end.

(* ================================================================== *)
(** ** Mapping the pages of a write *)
(* ================================================================== *)

(** What the write thread works on when it maps a page: the instance,
    the block pool, the round-robin counter [next_lun] and, of the parent
    [struct nvm_lun] of every LUN, the [id] and the count
    [nr_free_blocks]. *)
Record pblk_wr : Type := {
  wr_pblk : pblk;
  wr_pool : pblk_prov;
  wr_next_lun : Z;
  wr_lun_id : list Z;
  wr_free : list Z
}.

Definition wr_with_pblk (w : pblk_wr) (st : pblk) : pblk_wr :=
  {| wr_pblk := st; wr_pool := wr_pool w; wr_next_lun := wr_next_lun w;
     wr_lun_id := wr_lun_id w; wr_free := wr_free w |}.

Definition wr_with_pool (w : pblk_wr) (pool : pblk_prov) : pblk_wr :=
  {| wr_pblk := wr_pblk w; wr_pool := pool; wr_next_lun := wr_next_lun w;
     wr_lun_id := wr_lun_id w; wr_free := wr_free w |}.

Definition wr_with_next_lun (w : pblk_wr) (next : Z) : pblk_wr :=
  {| wr_pblk := wr_pblk w; wr_pool := wr_pool w; wr_next_lun := next;
     wr_lun_id := wr_lun_id w; wr_free := wr_free w |}.

(** What the other CPUs (the provisioning work above all) do while the
    write thread yields. *)
Definition wr_env : Type := list (pblk_wr -> pblk_wr).

(** The [try_lun:] / [try_cur:] loop of [pblk_map_rr_page] on the LUN at
    index [rlun].  A LUN without a current block is a null pointer
    ([None]); [block_is_bad] of pblk.h reads the bad flag of the block.
    [fuel] bounds the number of rounds. *)
Fixpoint pblk_map_rr_page_loop (fuel : nat) (sched : wr_env) (w : pblk_wr)
    (rlun : nat) (sentry : Z) (rqd : nvm_rq) (dst : ppa_dst)
    (nr_secs valid_secs : Z) : option (pblk_wr * nvm_rq * Z * wr_env) :=
  match fuel with
  | O => None
  | S fuel' =>
      let st := wr_pblk w in
      lun ← luns st !! rlun;
      rblk ← lun_cur lun;
      blk ← blocks st !! rblk;
      let replace :=
        bit ← wr_lun_id w !! rlun;
        '(ok, pool1, st1) ← pblk_replace_blk (wr_pool w) st rlun bit;
        if (ok : bool) then
          pblk_map_rr_page_loop fuel' sched (wr_with_pool (wr_with_pblk w st1) pool1)
            rlun sentry rqd dst nr_secs valid_secs
        else
          match sched with
          | [] => None
          | e :: sched' =>
              pblk_map_rr_page_loop fuel' sched'
                (e (wr_with_pool (wr_with_pblk w (emit st1 EvSchedule)) pool1))
                rlun sentry rqd dst nr_secs valid_secs
          end in
      if block_is_full st blk then replace
      else if blk_bad blk then replace
      else
        '(st1, rqd1, ret) ← pblk_map_page st rblk sentry rqd dst nr_secs valid_secs;
        Some (wr_with_pblk w st1, rqd1, ret, sched)
  end.

(** [pblk_map_rr_page].  The number of LUNs is the length of [wr_free];
    a negative counter gives a negative index, which is outside the
    array of LUNs ([None]). *)
Definition pblk_map_rr_page (fuel : nat) (sched : wr_env) (w : pblk_wr)
    (sentry : Z) (rqd : nvm_rq) (dst : ppa_dst) (nr_secs valid_secs : Z)
    : option (pblk_wr * nvm_rq * Z * wr_env) :=
  let gen_emergency_gc := pblk_emergency_gc_mode (wr_pblk w) in
  let '(next, i) := pblk_get_lun_rr (wr_next_lun w) (wr_free w) gen_emergency_gc in
  if i <? 0 then None
  else
    pblk_map_rr_page_loop fuel sched (wr_with_next_lun w next) (Z.to_nat i)
      sentry rqd dst nr_secs valid_secs.

(** [pblk_setup_w_single]. *)
Definition pblk_setup_w_single (fuel : nat) (sched : wr_env) (w : pblk_wr)
    (rqd : nvm_rq) (c : pblk_compl_ctx) : option (pblk_wr * nvm_rq * Z * wr_env) :=
  if negb (sec_per_pl (geo (wr_pblk w)) =? 1) then None       (* BUG_ON *)
  else pblk_map_rr_page fuel sched w (sentry c) rqd DstAddr 1 1.

(** [pblk_setup_w_multi]. *)
Definition pblk_setup_w_multi (fuel : nat) (sched : wr_env) (w : pblk_wr)
    (rqd : nvm_rq) (c : pblk_compl_ctx) (valid_secs off : Z)
    : option (pblk_wr * nvm_rq * Z * wr_env) :=
  let min := min_write_pgs (geo (wr_pblk w)) in
  pblk_map_rr_page fuel sched w (sentry c + off) rqd (DstList off) min valid_secs.

(** The [for (i = 0; i < nr_secs; i += min)] of [pblk_setup_w_rq]; [n]
    bounds the number of pages. *)
Fixpoint pblk_setup_w_rq_loop (n : nat) (i : Z) (fuel : nat) (sched : wr_env)
    (w : pblk_wr) (rqd : nvm_rq) (c : pblk_compl_ctx) (nr_secs : Z)
    : option (pblk_wr * nvm_rq * Z * wr_env) :=
  match n with
  | O => if i <? nr_secs then None else Some (w, rqd, 0, sched)
  | S n' =>
      if negb (i <? nr_secs) then Some (w, rqd, 0, sched)
      else
        let min := min_write_pgs (geo (wr_pblk w)) in
        let valid_secs := nr_valid c in
        let setup_secs := if valid_secs <? i + min then valid_secs mod min else min in
        '(w1, rqd1, ret, sched1) ← pblk_setup_w_multi fuel sched w rqd c setup_secs i;
        if negb (ret =? 0) then Some (w1, rqd1, ret, sched1)
        else pblk_setup_w_rq_loop n' (i + min) fuel sched1 w1 rqd1 c nr_secs
  end.

(** [pblk_setup_w_rq]. *)
Definition pblk_setup_w_rq (fuel : nat) (sched : wr_env) (w : pblk_wr) (rqd : nvm_rq)
    : option (pblk_wr * nvm_rq * Z * wr_env) :=
  c ← compl_ctx_of (rq_w_ctx rqd);
  let valid_secs := nr_valid c in
  let padded_secs := nr_padded c in
  let nr_secs := valid_secs + padded_secs in
  let '(st1, rqd1, ret) := pblk_alloc_w_rq (wr_pblk w) rqd nr_secs in
  let w1 := wr_with_pblk w st1 in
  if negb (ret =? 0) then Some (w1, rqd1, ret, sched)
  else if nr_secs =? 1 then
    if negb (padded_secs =? 0) then None                     (* BUG_ON *)
    else pblk_setup_w_single fuel sched w1 rqd1 c
  else pblk_setup_w_rq_loop (Z.to_nat nr_secs) 0 fuel sched w1 rqd1 c nr_secs.

(** The write thread on the small instance: block 0, the current block
    of the only LUN, is full; block 1 waits in the pool. *)
Definition ex_wr_full : pblk_wr :=
  {| wr_pblk :=
       with_rwb
         (with_luns
            (with_blocks ex_pblk [blk_set_alloc ex_block 16 (Z.ones 16); ex_block])
            [{| lun_cur := Some O; open_list := [O] |}])
         {| rb_entries := [ex_entry [Byte.x01]; ex_entry [Byte.x02];
                           ex_entry [Byte.x03]; ex_entry []];
            rb_mem := 3; rb_subm := 0; rb_sync := 0; rb_sync_point := None |};
     wr_pool := {| prov_nr_luns := 1;
                   prov_queues := [{| q_list := [1%nat]; q_nr_elems := 1 |}];
                   prov_bitmap := 1 |};
     wr_next_lun := 0;
     wr_lun_id := [0];
     wr_free := [1] |}.

(** A write request of two sectors with its lists allocated. *)
Definition ex_map_rqd : nvm_rq :=
  rq_with_meta ex_read_rqd (Some (replicate PBLK_MAX_REQ_ADDRS 0)).

(** The LUN at index [rlun] cannot take a page: its current block is full
    or bad and the queue of its parent is empty. *)
Definition lun_starved (w : pblk_wr) (rlun : nat) : Prop :=
  exists lun b blk bit q,
    luns (wr_pblk w) !! rlun = Some lun /\ lun_cur lun = Some b /\
    blocks (wr_pblk w) !! b = Some blk /\
    block_is_full (wr_pblk w) blk || blk_bad blk = true /\
    wr_lun_id w !! rlun = Some bit /\ 0 <= bit /\
    prov_queues (wr_pool w) !! Z.to_nat bit = Some q /\ q_nr_elems q = 0.

(** The current block of the LUN at index [i]: its id and its state. *)
Definition lun_cur_blk (st : pblk) (i : nat) : option (nat * pblk_block) :=
  lun ← luns st !! i;
  b ← lun_cur lun;
  blk ← blocks st !! b;
  Some (b, blk).

(** What mapping a page of valid sectors in block [b] leaves alone: the
    LUNs, the geometry, the GC mode, the allocation answers, the L2P
    table, the size of the ring and every other block. *)
Definition map_frame (b : nat) (st st' : pblk) : Prop :=
  luns st' = luns st /\ geo st' = geo st /\
  emergency_gc st' = emergency_gc st /\ alloc_script st' = alloc_script st /\
  trans_map st' = trans_map st /\
  rb_capacity (rwb st') = rb_capacity (rwb st) /\
  length (blocks st') = length (blocks st) /\
  forall b', b' <> b -> blocks st' !! b' = blocks st !! b'.

(** The write thread on an instance with two LUNs: block 0 is the current
    block of LUN 0, block 1 that of LUN 1; both are fresh. *)
Definition ex_wr_two : pblk_wr :=
  {| wr_pblk :=
       with_rwb
         (with_luns ex_pblk
            [{| lun_cur := Some O; open_list := [O] |};
             {| lun_cur := Some 1%nat; open_list := [1%nat] |}])
         {| rb_entries := [ex_entry [Byte.x01]; ex_entry [Byte.x02];
                           ex_entry [Byte.x03]; ex_entry [Byte.x04]];
            rb_mem := 4; rb_subm := 4; rb_sync := 0; rb_sync_point := None |};
     wr_pool := {| prov_nr_luns := 2;
                   prov_queues := [{| q_list := []; q_nr_elems := 0 |};
                                   {| q_list := []; q_nr_elems := 0 |}];
                   prov_bitmap := 0 |};
     wr_next_lun := 0;
     wr_lun_id := [0; 1];
     wr_free := [1; 1] |}.

(** A write request for the four sectors at ring position 0. *)
Definition ex_w_rqd : nvm_rq :=
  rq_with_w_ctx rqd_zero
    {| ctx_flags := io_none;
       c_ctx := CCompl {| sentry := 0; nr_valid := 4; nr_padded := 0 |} |}.

(* ================================================================== *)
(** ** Reading a list of LBAs *)
(* ================================================================== *)

(** [pblk_submit_read_list]: the read entry point of the garbage
    collector.  The request belongs to the caller and is part of the
    answer; [valid_secs] keeps its initial value 1 on the single-sector
    path. *)
Definition pblk_submit_read_list (st : pblk) (b : bio) (rqd : nvm_rq)
    (lba_list : list Z) (nr_secs nr_rec_secs : Z) (flags : io_flags)
    : option (pblk * bio * nvm_rq * nvm_io) :=
  if negb (nr_rec_secs =? bi_vcnt b) then Some (st, b, rqd, NVM_IO_ERR)
  else
    let read_bitmap := bitmap_zero nr_secs in
    '(go, st2, b2, rqd2, bm2, valid_secs, ret) ←
      (if 1 <? nr_rec_secs then
         let '(ok, st1) := try_alloc st in                 (* nvm_dev_dma_alloc *)
         if negb ok then
           Some (false,
                 emit st1 (EvPrErr "pblk: not able to allocate ppa list"),
                 b, rq_with_ppas rqd (rq_ppa_addr rqd) None, read_bitmap, 1,
                 NVM_IO_ERR)
         else
           let rqd1 := rq_with_ppas rqd RQ_DMA_PPA_LIST
                         (Some (replicate PBLK_MAX_REQ_ADDRS PPA_EMPTY)) in
           '(st3, b3, rqd3, bm3, valid_secs) ←
             read_ppalist_rq_list (emit st1 EvDmaAlloc) b rqd1 lba_list nr_secs
               read_bitmap;
           Some (true, st3, b3, rqd3, bm3, valid_secs, NVM_IO_OK)
       else
         laddr ← lba_list !! O;
         '(st3, b3, rqd3, bm3, ret) ← pblk_read_rq st b rqd laddr read_bitmap;
         Some (nvm_io_code ret =? 0, st3, b3, rqd3, bm3, 1, ret));
    if negb (go : bool) then Some (st2, b2, rqd2, ret)
    else
      let rqd3 :=
        rq_with_r_ctx (rq_with_head rqd2 NVM_OP_PREAD valid_secs (Some b2))
          {| r_flags := flags; orig_bio := orig_bio (rq_r_ctx rqd2) |} in
      if bitmap_full bm2 valid_secs then
        Some (emit st2 (EvBioEndio b2), b2, rqd3, NVM_IO_OK)
      else
        '(st4, b4, ret4) ← __pblk_submit_read st2 rqd3 b2 bm2 flags valid_secs false;
        Some (st4, b4, rqd3, ret4).

(** The instance with LBAs 7 and 8 on the device, in sectors 0 and 1 of
    block 0. *)
Definition ex_pblk_on_dev : pblk :=
  with_trans_map ex_pblk
    (<[7%nat := {| ppa := PPA_DEV {| g_blk := O; g_sec := 0 |}; rblk := Some O |}]>
     (<[8%nat := {| ppa := PPA_DEV {| g_blk := O; g_sec := 1 |}; rblk := Some O |}]>
      (trans_map ex_pblk))).

(* ================================================================== *)
(** ** Writing a list of LBAs to the ring *)
(* ================================================================== *)

(** [pblk_setup_write_to_cache]: reserve [nr_com] slots of the ring; the
    answer 0 is [None].  The assignment to the parameter [ctx_bio] does
    not reach the caller. *)
Definition pblk_setup_write_to_cache (st : pblk) (b : bio) (nr_upd nr_com : Z)
    : option (Z * pblk) :=
  match pblk_rb_may_write (rwb st) nr_upd nr_com with
  | None => None
  | Some (pos, rb) => Some (pos, with_rwb st rb)
  end.

(** The [for] loop of [pblk_write_list_to_cache]; [kref] is the reference
    count of the buffer the pages belong to.  The yield of the [retry:]
    loop ([io_schedule()]) is recorded like [schedule()]. *)
Fixpoint pblk_write_list_to_cache_loop (n : nat) (i valid_secs : Z) (sched : env)
    (st : pblk) (b : bio) (w_ctx : pblk_w_ctx) (lba_list : list Z) (pos kref : Z)
    : option (pblk * bio * env * Z * Z) :=
  match n with
  | O => Some (st, b, sched, valid_secs, kref)
  | S n' =>
      lba ← lba_list !! Z.to_nat i;
      if lba =? ADDR_EMPTY then
        pblk_write_list_to_cache_loop n' (i + 1) valid_secs sched st b w_ctx lba_list
          pos kref
      else
        let w := w_ctx_with_lba w_ctx lba in
        let data := bio_data b in
        let st1 := with_rwb st (pblk_rb_write_entry (rwb st) data w (pos + valid_secs)) in
        let p := pblk_cacheline_to_ppa (pblk_rb_wrap_pos (rwb st1) (pos + valid_secs)) in
        '(st2, sched') ← pblk_update_map_retry sched st1 lba p;
        pblk_write_list_to_cache_loop n' (i + 1) (valid_secs + 1) sched' st2
          (bio_advance (consts st) b 1) w_ctx lba_list pos (kref + 1)
  end.

(** [pblk_write_list_to_cache]: the write entry point of the garbage
    collector.  The answer is -1 when the ring has no room, 0
    ([NVM_IO_OK]) otherwise; [ref_buf] names the reference-counted
    buffer, [kref] is its count. *)
Definition pblk_write_list_to_cache (sched : env) (st : pblk) (b : bio)
    (lba_list : list Z) (ref_buf kref : Z) (nr_secs nr_rec_secs : Z)
    (flags : io_flags) : option (pblk * bio * Z * Z) :=
  if negb (bio_has_data b) || negb (nr_rec_secs =? bi_vcnt b) then None   (* BUG_ON *)
  else
    match pblk_setup_write_to_cache st b nr_secs nr_rec_secs with
    | None => Some (st, b, kref, -1)
    | Some (pos, st1) =>
        let w_ctx := {| w_bio := None; w_lba := 0; w_flags := flags;
                        w_priv := Some ref_buf; w_paddr := 0;
                        w_ppa := pblk_addr_empty |} in
        '(st2, b2, sched2, valid_secs, kref2) ←
          pblk_write_list_to_cache_loop (Z.to_nat nr_secs) 0 0 sched st1 b w_ctx
            lba_list pos kref;
        '(st3, _) ← pblk_may_submit_write_st sched2 st2 nr_rec_secs;
        Some (st3, b2, kref2, 0)
    end.

(** The number of sectors that the recovery pages of all blocks record as
    valid ([rlpg->nr_lbas]). *)
Definition total_nr_lbas (st : pblk) : Z :=
  foldr (fun blk acc => rlpg_nr_lbas blk + acc) 0 (blocks st).

(** The sum, over the pages that the loop of [pblk_setup_w_rq] visits from
    offset [i] on, of the number of valid sectors it passes to
    [pblk_setup_w_multi]. *)
Fixpoint setup_secs_total (n : nat) (i min valid_secs nr_secs : Z) : Z :=
  match n with
  | O => 0
  | S n' =>
      if negb (i <? nr_secs) then 0
      else (if valid_secs <? i + min then valid_secs mod min else min)
           + setup_secs_total n' (i + min) min valid_secs nr_secs
  end.

(** A step of the other CPUs that maps no sector and leaves the geometry
    alone. *)
Definition keeps_nr_lbas (e : pblk_wr -> pblk_wr) : Prop :=
  forall w, total_nr_lbas (wr_pblk (e w)) = total_nr_lbas (wr_pblk w) /\
            geo (wr_pblk (e w)) = geo (wr_pblk w).

(** A write request of one valid sector and three sectors of padding. *)
Definition ex_w_rqd_padded : nvm_rq :=
  rq_with_w_ctx rqd_zero
    {| ctx_flags := io_none;
       c_ctx := CCompl {| sentry := 0; nr_valid := 1; nr_padded := 3 |} |}.

(** The instance of [ex_pblk_cached] with LBA 5 on the device too, in
    sector 1 of block 0. *)
Definition ex_pblk_discard : pblk :=
  with_trans_map ex_pblk_cached
    (<[5%nat := {| ppa := PPA_DEV {| g_blk := O; g_sec := 1 |}; rblk := Some O |}]>
       (trans_map ex_pblk_cached)).

(* ================================================================== *)
(** * Theorems *)
(* ================================================================== *)


(* ------------------------------------------------------------------ *)
(** ** Integer conversions *)
(* ------------------------------------------------------------------ *)

Lemma to_int_id z : - 2 ^ 31 <= z < 2 ^ 31 -> to_int z = z.
Proof.
  intros Hz. unfold to_int.
  rewrite Z.mod_small by lia. lia.
Qed.

Lemma to_ulong_id z : 0 <= z < 2 ^ 64 -> to_ulong z = z.
Proof. intros Hz. unfold to_ulong. now rewrite Z.mod_small. Qed.

(* ------------------------------------------------------------------ *)
(** ** pblk_calc_secs_to_sync *)
(* ------------------------------------------------------------------ *)

Lemma mul_div_le_self m a : 0 < m -> 0 <= a -> 0 <= m * (a / m) <= a.
Proof.
  intros Hm Ha. split.
  - apply Z.mul_nonneg_nonneg; [lia | apply Z.div_pos; lia].
  - apply Z.mul_div_le; lia.
Qed.

Lemma largest_multiple_le_floor m a :
  0 < m -> 0 <= a -> largest_multiple_le m a (m * (a / m)).
Proof.
  intros Hm Ha. repeat split.
  - exists (a / m). lia.
  - apply Z.mul_div_le; lia.
  - intros r' [k ->] Hle.
    assert (k <= a / m) by (apply Z.div_le_lower_bound; lia).
    nia.
Qed.

Lemma largest_multiple_le_unique m a r1 r2 :
  largest_multiple_le m a r1 -> largest_multiple_le m a r2 -> r1 = r2.
Proof.
  intros (D1 & L1 & M1) (D2 & L2 & M2).
  specialize (M1 _ D2 L2). specialize (M2 _ D1 L1). lia.
Qed.

(** The loop stops at the first multiple of [min] whose successor would
    pass [secs_avail]; it never needs more than [secs_avail] rounds. *)
Lemma secs_to_sync_loop_value fuel min max avail k :
  0 < min -> 0 <= k -> 0 <= avail < max ->
  max + min < 2 ^ 31 -> min * k < max ->
  1 + Z.max 0 (avail - min * k) <= Z.of_nat fuel ->
  secs_to_sync_loop fuel min max avail (min * k)
  = Some (Z.max (min * k) (min * (avail / min))).
Proof.
  revert k. induction fuel as [|fuel IH]; intros k Hmin Hk Hav Hmax Hs Hfuel.
  - lia.
  - cbn [secs_to_sync_loop].
    assert (0 <= min * k) by nia.
    rewrite (to_int_id (min * k + min)) by lia.
    rewrite (to_ulong_id (min * k + min)) by lia.
    destruct (Z.leb_spec (min * k + min) avail) as [Hle | Hgt]; cbn [andb].
    + assert (Hin : (min * k + min <=? max) = true) by (apply Z.leb_le; lia).
      rewrite Hin.
      replace (min * k + min) with (min * (k + 1)) by lia.
      rewrite IH by nia.
      f_equal.
      assert (k + 1 <= avail / min) by (apply Z.div_le_lower_bound; lia).
      nia.
    + f_equal.
      assert (avail / min < k + 1) by (apply Z.div_lt_upper_bound; lia).
      nia.
Qed.

(** What the code returns, case by case, for a sane geometry. *)
Lemma pblk_calc_secs_to_sync_cases pblk avail flush :
  0 < min_write_pgs pblk -> 0 < max_write_pgs pblk ->
  max_write_pgs pblk + min_write_pgs pblk < 2 ^ 31 ->
  0 <= avail < 2 ^ 64 -> 0 <= flush < 2 ^ 64 ->
  pblk_calc_secs_to_sync pblk avail flush =
  Some (if (max_write_pgs pblk <=? avail) || (max_write_pgs pblk <=? flush)
        then max_write_pgs pblk
        else if min_write_pgs pblk <=? avail
             then if 0 <? flush
                  then Z.max (min_write_pgs pblk * (flush / min_write_pgs pblk))
                             (min_write_pgs pblk * (avail / min_write_pgs pblk))
                  else min_write_pgs pblk * (avail / min_write_pgs pblk)
             else if 0 <? flush then min_write_pgs pblk else 0).
Proof.
  intros Hmin Hmax Hsum Hav Hfl. unfold pblk_calc_secs_to_sync.
  set (mx := max_write_pgs pblk) in *. set (mn := min_write_pgs pblk) in *.
  rewrite (to_ulong_id mx), (to_ulong_id mn) by lia.
  destruct ((mx <=? avail) || (mx <=? flush)) eqn:Hbig; [reflexivity|].
  apply orb_false_iff in Hbig as [H1 H2].
  apply Z.leb_gt in H1, H2.
  destruct (Z.leb_spec mn avail) as [Hge | Hlt].
  - pose proof (mul_div_le_self mn avail Hmin (proj1 Hav)) as Ha.
    pose proof (mul_div_le_self mn flush Hmin (proj1 Hfl)) as Hf.
    destruct (Z.eqb_spec flush 0) as [-> | Hnz]; cbn [negb].
    + rewrite to_ulong_id, to_int_id by lia. reflexivity.
    + assert (Hpos : (0 <? flush) = true) by (apply Z.ltb_lt; lia).
      rewrite Hpos.
      rewrite to_ulong_id, to_int_id by lia.
      apply secs_to_sync_loop_value; lia.
  - destruct (Z.eqb_spec flush 0) as [-> | Hnz]; cbn [negb]; [reflexivity|].
    assert (Hpos : (0 <? flush) = true) by (apply Z.ltb_lt; lia).
    now rewrite Hpos.
Qed.

(** C4 (as amended).  For a geometry with [0 < min], [0 < max] and
    [max + min] representable as an [int], and 64-bit arguments,
    [pblk_calc_secs_to_sync] returns: [max] if [secs_avail >= max] or
    [secs_to_flush >= max]; otherwise, if [secs_avail >= min]: without a
    flush the largest multiple of [min] not above [secs_avail]; with a
    flush the larger of that value and [secs_to_flush] rounded down to a
    multiple of [min] (so it is the largest multiple not above
    [secs_avail] exactly when the rounded flush count does not pass
    [secs_avail]); otherwise [min] if [secs_to_flush > 0]; otherwise 0. *)
Theorem pblk_calc_secs_to_sync_amended pblk avail flush :
  0 < min_write_pgs pblk -> 0 < max_write_pgs pblk ->
  max_write_pgs pblk + min_write_pgs pblk < 2 ^ 31 ->
  0 <= avail < 2 ^ 64 -> 0 <= flush < 2 ^ 64 ->
  let max := max_write_pgs pblk in
  let min := min_write_pgs pblk in
  exists r,
    pblk_calc_secs_to_sync pblk avail flush = Some r /\
    (max <= avail \/ max <= flush -> r = max) /\
    (avail < max -> flush < max -> min <= avail -> flush = 0 ->
       largest_multiple_le min avail r) /\
    (avail < max -> flush < max -> min <= avail -> 0 < flush ->
       r = Z.max (min * (flush / min)) (min * (avail / min)) /\
       (min * (flush / min) <= avail -> largest_multiple_le min avail r)) /\
    (avail < max -> flush < max -> avail < min -> 0 < flush -> r = min) /\
    (avail < max -> flush < max -> avail < min -> flush = 0 -> r = 0).
Proof.
  intros Hmin Hmax Hsum Hav Hfl mx mn.
  eexists. split; [apply pblk_calc_secs_to_sync_cases; assumption|].
  fold mx mn.
  assert (Hm0 : (mx <=? 0) = false) by (apply Z.leb_gt; lia).
  refine (conj _ (conj _ (conj _ (conj _ _)))).
  - intros Hbig.
    assert (Hb : (mx <=? avail) || (mx <=? flush) = true).
    { apply orb_true_iff. destruct Hbig; [left | right]; now apply Z.leb_le. }
    now rewrite Hb.
  - intros H1 H2 H3 ->.
    apply Z.leb_gt in H1. apply Z.leb_le in H3.
    rewrite H1, Hm0, H3. cbn.
    apply largest_multiple_le_floor; lia.
  - intros H1 H2 H3 H4.
    apply Z.leb_gt in H1, H2. apply Z.leb_le in H3. apply Z.ltb_lt in H4.
    rewrite H1, H2, H3, H4. cbn [orb].
    split; [reflexivity|].
    intros Hfit.
    pose proof (largest_multiple_le_floor mn avail Hmin (proj1 Hav)) as Hfloor.
    destruct Hfloor as (Hdiv & Hle & Hbest).
    rewrite Z.max_r by (apply Hbest; [exists (flush / mn); lia | exact Hfit]).
    repeat split; assumption.
  - intros H1 H2 H3 H4.
    apply Z.leb_gt in H1, H2, H3. apply Z.ltb_lt in H4.
    now rewrite H1, H2, H3, H4.
  - intros H1 H2 H3 ->.
    apply Z.leb_gt in H1, H3.
    now rewrite H1, Hm0, H3.
Qed.

Lemma pblk_calc_secs_to_sync_amended_witness :
  let pblk := {| max_write_pgs := 64; min_write_pgs := 4;
                 nr_blk_dsecs := 256; sec_per_pl := 4 |} in
  exists r,
    pblk_calc_secs_to_sync pblk 9 6 = Some r /\
    (64 <= 9 \/ 64 <= 6 -> r = 64) /\
    (9 < 64 -> 6 < 64 -> 4 <= 9 -> 6 = 0 -> largest_multiple_le 4 9 r) /\
    (9 < 64 -> 6 < 64 -> 4 <= 9 -> 0 < 6 ->
       r = Z.max (4 * (6 / 4)) (4 * (9 / 4)) /\
       (4 * (6 / 4) <= 9 -> largest_multiple_le 4 9 r)) /\
    (9 < 64 -> 6 < 64 -> 9 < 4 -> 0 < 6 -> r = 4) /\
    (9 < 64 -> 6 < 64 -> 9 < 4 -> 6 = 0 -> r = 0).
Proof.
  intros pblk.
  apply (pblk_calc_secs_to_sync_amended pblk 9 6); cbn; lia.
Defined.

(** C4 (as stated) fails: with [min = 4], [max = 64], 5 sectors available
    and 11 to flush the code returns 8, which is above [secs_avail] and so
    is not the largest multiple of [min] below it. *)
Lemma pblk_calc_secs_to_sync_counterexample :
  let pblk := {| max_write_pgs := 64; min_write_pgs := 4;
                 nr_blk_dsecs := 256; sec_per_pl := 4 |} in
  pblk_calc_secs_to_sync pblk 5 11 = Some 8 /\
  ~ secs_to_sync_as_specified pblk 5 11 8.
Proof.
  split; [reflexivity|].
  unfold secs_to_sync_as_specified; cbn.
  intros (_ & Hle & _). lia.
Qed.

(* ------------------------------------------------------------------ *)
(** ** The in-flight counter *)
(* ------------------------------------------------------------------ *)

(** The only write [atomic_inc_below] ever makes to the counter is the
    successful [atomic_cmpxchg], and it is made from a value below
    [below]. *)
Lemma atomic_inc_below_step_effect v below inc pc v' pc' :
  atomic_inc_below_step v below inc pc = (v', pc') ->
  (v' = v /\ (pc' = PcRet true -> pc = PcRet true)) \/
  (v < below /\ v' = to_int (v + inc) /\ pc' = PcRet true).
Proof.
  destruct pc as [|cur|ok]; cbn.
  - intros [= <- <-]. left. split; [reflexivity | discriminate].
  - destruct (Z.leb_spec below cur) as [Hge | Hlt].
    + intros [= <- <-]. left. split; [reflexivity | discriminate].
    + unfold atomic_cmpxchg.
      destruct (Z.eqb_spec v cur) as [-> | Hne].
      * rewrite Z.eqb_refl. intros [= <- <-]. right. auto.
      * destruct (Z.eqb_spec v cur); [contradiction|].
        intros [= <- <-]. left. split; [reflexivity | discriminate].
  - intros [= <- <-]. left. auto.
Qed.

Lemma atomic_inc_below_run_ret fuel interf v below inc ok :
  atomic_inc_below_run fuel interf v below inc (PcRet ok) = Some (v, ok).
Proof. destruct fuel; reflexivity. Qed.

(** With the other CPUs quiet, two accesses settle the call. *)
Lemma atomic_inc_below_run_quiet fuel v below inc pc :
  (2 <= fuel)%nat ->
  exists r, atomic_inc_below_run fuel [] v below inc pc = Some r.
Proof.
  intros Hf. destruct fuel as [|[|fuel]]; [lia | lia |].
  destruct pc as [|cur|ok]; [| |cbn; eauto].
  - cbn [atomic_inc_below_run atomic_inc_below_step tl].
    destruct (below <=? v).
    + rewrite atomic_inc_below_run_ret. eauto.
    + unfold atomic_cmpxchg. rewrite !Z.eqb_refl.
      rewrite atomic_inc_below_run_ret. eauto.
  - cbn [atomic_inc_below_run atomic_inc_below_step tl].
    destruct (below <=? cur); [cbn; eauto|].
    unfold atomic_cmpxchg.
    destruct (Z.eqb_spec v cur) as [-> | Hne].
    + rewrite Z.eqb_refl. cbn. eauto.
    + destruct (Z.eqb_spec v cur); [contradiction|].
      cbn [atomic_inc_below_run atomic_inc_below_step tl].
      destruct (below <=? v); [rewrite atomic_inc_below_run_ret; eauto|].
      unfold atomic_cmpxchg. rewrite !Z.eqb_refl.
      rewrite atomic_inc_below_run_ret. eauto.
Qed.

(** [atomic_inc_below] returns whatever the other CPUs do meanwhile. *)
Lemma atomic_inc_below_run_total interf : forall fuel v below inc pc,
  (length interf + 2 <= fuel)%nat ->
  exists r, atomic_inc_below_run fuel interf v below inc pc = Some r.
Proof.
  induction interf as [|e interf IH]; intros fuel v below inc pc Hf.
  - now apply atomic_inc_below_run_quiet.
  - destruct fuel as [|fuel]; [cbn in Hf; lia|].
    destruct pc as [|cur|ok]; cbn [atomic_inc_below_run tl]; [| |eauto].
    + destruct (atomic_inc_below_step (e v) below inc PcRead) as [v1 pc'].
      apply IH. cbn in Hf. lia.
    + destruct (atomic_inc_below_step (e v) below inc (PcTest cur)) as [v1 pc'].
      apply IH. cbn in Hf. lia.
Qed.

(** The effect of one undisturbed attempt. *)
Lemma __pblk_may_submit_write_quiet v n :
  __pblk_may_submit_write [] v n =
  Some (if WRITE_INFLIGHT_CAP <=? v then (v, false) else (to_int (v + n), true)).
Proof.
  unfold __pblk_may_submit_write, atomic_inc_below. cbn.
  destruct (WRITE_INFLIGHT_CAP <=? v); [reflexivity|].
  unfold atomic_cmpxchg. rewrite !Z.eqb_refl. reflexivity.
Qed.

Lemma inflight_init_inv N v ncpus :
  - 2 ^ 31 <= v <= WRITE_INFLIGHT_CAP - 1 + N -> sys_inv N (inflight_init v ncpus).
Proof.
  intros Hv. split; [exact Hv|]. cbn. apply Forall_replicate. exact I.
Qed.

Lemma cpu_after_ok N n in_loop pc :
  0 <= n <= N -> cpu_ok N (cpu_after n in_loop pc).
Proof.
  intros Hn. destruct pc as [|cur|[|]]; cbn; [| |exact I|destruct in_loop; cbn].
  - split; [exact Hn | discriminate].
  - split; [exact Hn | discriminate].
  - exact Hn.
  - split; [exact Hn | discriminate].
Qed.

(** One access of a CPU that is inside [atomic_inc_below]: the counter
    keeps its value, or the CPU gets through and the counter, which was
    below the cap, grows by the sectors asked for. *)
Lemma inflight_access N v n pc v' pc' :
  0 <= N < 2 ^ 31 - WRITE_INFLIGHT_CAP ->
  - 2 ^ 31 <= v -> 0 <= n <= N -> (forall ok, pc <> PcRet ok) ->
  atomic_inc_below_step v WRITE_INFLIGHT_CAP n pc = (v', pc') ->
  (v' = v /\ pc' <> PcRet true) \/
  (v < WRITE_INFLIGHT_CAP /\ v' = v + n /\ pc' = PcRet true).
Proof.
  intros HN Hv Hn Hpc Hs.
  apply atomic_inc_below_step_effect in Hs as [[-> Hk] | (Hlt & -> & ->)].
  - left. split; [reflexivity|]. intros ->. exact (Hpc true (Hk eq_refl)).
  - right. unfold WRITE_INFLIGHT_CAP in *. rewrite to_int_id by lia. auto.
Qed.

Lemma inflight_apply_inv N s op :
  0 <= N < 2 ^ 31 - WRITE_INFLIGHT_CAP ->
  sys_inv N s -> op_ok N s op -> sys_inv N (inflight_apply s op).
Proof.
  intros HN [Hv Hc] Hop. destruct op as [cpu n|cpu|cpu|n]; cbn [inflight_apply].
  - destruct (sys_cpus s !! cpu) as [[| |]|] eqn:Hl; try (split; assumption).
    split; [exact Hv|]. cbn [sys_cpus]. apply Forall_insert; [exact Hc|].
    cbn. split; [exact Hop | discriminate].
  - destruct (sys_cpus s !! cpu) as [[|n in_loop pc|]|] eqn:Hl; try (split; assumption).
    destruct (Forall_lookup_1 _ _ _ _ Hc Hl) as [Hn Hpc].
    destruct (atomic_inc_below_step (sys_counter s) WRITE_INFLIGHT_CAP n pc)
      as [v' pc'] eqn:Hs.
    apply (inflight_access N) in Hs as [[-> _] | (Hlt & -> & _)];
      try assumption; try lia.
    + split; [exact Hv|]. cbn [sys_cpus].
      apply Forall_insert; [exact Hc | now apply cpu_after_ok].
    + split; [cbn [sys_counter]; unfold WRITE_INFLIGHT_CAP in *; lia|].
      cbn [sys_cpus]. apply Forall_insert; [exact Hc | now apply cpu_after_ok].
  - destruct (sys_cpus s !! cpu) as [[| |n]|] eqn:Hl; try (split; assumption).
    pose proof (Forall_lookup_1 _ _ _ _ Hc Hl) as Hn. cbn in Hn.
    split; [exact Hv|]. cbn [sys_cpus]. apply Forall_insert; [exact Hc|].
    cbn. split; [exact Hn | discriminate].
  - destruct Hop as [Hn Hlow]. split; [|exact Hc]. cbn [sys_counter].
    unfold WRITE_INFLIGHT_CAP in *. rewrite to_int_id by lia. lia.
Qed.

Lemma inflight_ops_ok_cons N s op ops :
  inflight_ops_ok N s (op :: ops) = true ->
  op_ok N s op /\ inflight_ops_ok N (inflight_apply s op) ops = true.
Proof.
  cbn [inflight_ops_ok]. intros Hok. apply andb_true_iff in Hok as [Hop Hok].
  split; [|exact Hok].
  destruct op as [cpu n|cpu|cpu|n]; cbn; try exact I.
  - apply andb_true_iff in Hop as [H0 H1]. apply Z.leb_le in H0, H1. lia.
  - apply andb_true_iff in Hop as [H0 H1]. apply Z.leb_le in H0, H1. lia.
Qed.

(** The bound holds at every point of every interleaving. *)
Lemma write_inflight_trace_bound N ops : forall s,
  0 <= N < 2 ^ 31 - WRITE_INFLIGHT_CAP ->
  sys_inv N s -> inflight_ops_ok N s ops = true ->
  Forall (fun w => w <= WRITE_INFLIGHT_CAP - 1 + N) (write_inflight_trace s ops).
Proof.
  induction ops as [|op ops IH]; intros s HN Hinv Hok; cbn [write_inflight_trace].
  - constructor; [apply Hinv | constructor].
  - apply inflight_ops_ok_cons in Hok as [Hop Hok].
    constructor; [apply Hinv|].
    apply IH; [exact HN | now apply inflight_apply_inv | exact Hok].
Qed.

(** A CPU gets through only by a [cmpxchg] made while the counter was
    below the cap, and that access adds exactly the sectors asked for. *)
Lemma write_admissions_ok N ops : forall s,
  0 <= N < 2 ^ 31 - WRITE_INFLIGHT_CAP ->
  sys_inv N s -> inflight_ops_ok N s ops = true ->
  Forall (fun a => a.1.1 < WRITE_INFLIGHT_CAP /\ a.2 = a.1.1 + a.1.2)
    (write_admissions s ops).
Proof.
  induction ops as [|op ops IH]; intros s HN Hinv Hok; cbn [write_admissions].
  - constructor.
  - apply inflight_ops_ok_cons in Hok as [Hop Hok].
    pose proof (inflight_apply_inv N s op HN Hinv Hop) as Hinv'.
    specialize (IH _ HN Hinv' Hok).
    destruct (admitted s op) as [[[v n] v']|] eqn:Ha; [|exact IH].
    constructor; [|exact IH].
    destruct op as [cpu m|cpu|cpu|m]; cbn [admitted] in Ha; try discriminate.
    destruct (sys_cpus s !! cpu) as [[|m in_loop pc|]|] eqn:Hl; try discriminate.
    destruct Hinv as [Hv Hc].
    destruct (Forall_lookup_1 _ _ _ _ Hc Hl) as [Hn Hpc].
    destruct (atomic_inc_below_step (sys_counter s) WRITE_INFLIGHT_CAP m pc)
      as [w pc'] eqn:Hs.
    apply (inflight_access N) in Hs as [[-> Hne] | (Hlt & -> & ->)];
      try assumption; try lia.
    + destruct pc' as [| |[|]]; try discriminate. contradiction.
    + injection Ha as <- <- <-. split; [exact Hlt | reflexivity].
Qed.

(** An attempt made while the counter is, and stays, at or above the cap
    fails and leaves it there. *)
Lemma __pblk_may_submit_write_full interf v n :
  WRITE_INFLIGHT_CAP <= v ->
  (forall e x, In e interf -> WRITE_INFLIGHT_CAP <= x -> WRITE_INFLIGHT_CAP <= e x) ->
  exists v', __pblk_may_submit_write interf v n = Some (v', false) /\
             WRITE_INFLIGHT_CAP <= v'.
Proof.
  intros Hv Hk. unfold __pblk_may_submit_write, atomic_inc_below.
  destruct interf as [|e1 [|e2 rest]].
  - cbn [length Nat.add atomic_inc_below_run atomic_inc_below_step tl].
    apply Z.leb_le in Hv as Hb. rewrite Hb. eauto.
  - assert (H1 : WRITE_INFLIGHT_CAP <= e1 v) by (apply Hk; [left; reflexivity | exact Hv]).
    cbn [length Nat.add atomic_inc_below_run atomic_inc_below_step tl].
    apply Z.leb_le in H1 as Hb. rewrite Hb. eauto.
  - assert (H1 : WRITE_INFLIGHT_CAP <= e1 v) by (apply Hk; [left; reflexivity | exact Hv]).
    assert (H2 : WRITE_INFLIGHT_CAP <= e2 (e1 v))
      by (apply Hk; [right; left; reflexivity | exact H1]).
    cbn [length Nat.add atomic_inc_below_run atomic_inc_below_step tl].
    apply Z.leb_le in H1 as Hb. rewrite Hb.
    rewrite atomic_inc_below_run_ret. eauto.
Qed.

Lemma pblk_may_submit_write_loop_asleep sched : forall v n s,
  WRITE_INFLIGHT_CAP <= v -> keeps_full sched ->
  exists v', pblk_may_submit_write_loop sched v n s = Some (Asleep v') /\
             WRITE_INFLIGHT_CAP <= v'.
Proof.
  induction sched as [|interf sched IH]; intros v n s Hv Hk.
  - exists v. split; [reflexivity | exact Hv].
  - cbn [pblk_may_submit_write_loop].
    destruct (__pblk_may_submit_write_full interf v n Hv) as (v1 & -> & Hv1).
    { intros e x He. apply (Hk interf); [left; reflexivity | exact He]. }
    apply IH; [exact Hv1|].
    intros i e x Hi. apply Hk. right. exact Hi.
Qed.

Lemma pblk_may_submit_write_loop_quiet k : forall v n s,
  WRITE_INFLIGHT_CAP <= v ->
  pblk_may_submit_write_loop (repeat [] k) v n s = Some (Asleep v).
Proof.
  induction k as [|k IH]; intros v n s Hv; [reflexivity|].
  cbn [repeat pblk_may_submit_write_loop].
  rewrite __pblk_may_submit_write_quiet.
  apply Z.leb_le in Hv as Hb. rewrite Hb. apply IH, Hv.
Qed.

(** C2 (as amended).  Whatever the number of CPUs and however their
    atomic accesses interleave, along every run whose requests carry at
    most [N] sectors the shared counter [write_inflight] stays at or
    below [399999 + N] at every point, also when a [cmpxchg] loses a race
    and is retried.  A CPU gets through only by a [cmpxchg] made while
    the counter was below 400000, and that access adds exactly its
    [nr_secs]: the test does not look at [write_inflight + nr_secs].  A
    writer that finds the counter at 400000 or above sleeps on the
    waitqueue for as long as the counter stays there (with the counter
    left alone it sleeps on that very value); one that finds it below,
    undisturbed, is let through at once.  Every attempt returns. *)
Theorem write_inflight_backpressure N ncpus v0 ops :
  0 <= N < 2 ^ 31 - WRITE_INFLIGHT_CAP ->
  - 2 ^ 31 <= v0 <= WRITE_INFLIGHT_CAP - 1 + N ->
  inflight_ops_ok N (inflight_init v0 ncpus) ops = true ->
  Forall (fun w => w <= WRITE_INFLIGHT_CAP - 1 + N)
    (write_inflight_trace (inflight_init v0 ncpus) ops) /\
  Forall (fun a => a.1.1 < WRITE_INFLIGHT_CAP /\ a.2 = a.1.1 + a.1.2)
    (write_admissions (inflight_init v0 ncpus) ops) /\
  (forall sched v n, WRITE_INFLIGHT_CAP <= v -> keeps_full sched ->
     exists v', pblk_may_submit_write sched v n = Some (Asleep v') /\
                WRITE_INFLIGHT_CAP <= v') /\
  (forall v n k, WRITE_INFLIGHT_CAP <= v ->
     pblk_may_submit_write (repeat [] k) v n = Some (Asleep v)) /\
  (forall v n sched, - 2 ^ 31 <= v < WRITE_INFLIGHT_CAP -> 0 <= n <= N ->
     pblk_may_submit_write ([] :: sched) v n = Some (Granted (v + n) O)) /\
  (forall interf v n, exists r, __pblk_may_submit_write interf v n = Some r).
Proof.
  intros HN Hv Hok.
  pose proof (inflight_init_inv N v0 ncpus Hv) as Hinv.
  refine (conj _ (conj _ (conj _ (conj _ (conj _ _))))).
  - now apply write_inflight_trace_bound.
  - now apply (write_admissions_ok N).
  - intros [|interf sched] v n Hcap Hk.
    + exists v. split; [reflexivity | exact Hcap].
    + cbn [pblk_may_submit_write].
      destruct (__pblk_may_submit_write_full interf v n Hcap) as (v1 & -> & Hv1).
      { intros e x He. apply (Hk interf); [left; reflexivity | exact He]. }
      apply pblk_may_submit_write_loop_asleep; [exact Hv1|].
      intros i e x Hi. apply Hk. right. exact Hi.
  - intros v n [|k] Hcap; [reflexivity|].
    cbn [repeat pblk_may_submit_write].
    rewrite __pblk_may_submit_write_quiet.
    apply Z.leb_le in Hcap as Hb. rewrite Hb.
    now apply pblk_may_submit_write_loop_quiet.
  - intros v n sched Hlt Hn. cbn [pblk_may_submit_write].
    rewrite __pblk_may_submit_write_quiet.
    destruct (Z.leb_spec WRITE_INFLIGHT_CAP v) as [Hge | _]; [lia|].
    unfold WRITE_INFLIGHT_CAP in *. rewrite to_int_id by lia. reflexivity.
  - intros interf v n. unfold __pblk_may_submit_write, atomic_inc_below.
    apply atomic_inc_below_run_total. reflexivity.
Qed.


Lemma write_inflight_backpressure_witness :
  Forall (fun w => w <= WRITE_INFLIGHT_CAP - 1 + 255)
    (write_inflight_trace (inflight_init 399990 2) ex_race) /\
  Forall (fun a => a.1.1 < WRITE_INFLIGHT_CAP /\ a.2 = a.1.1 + a.1.2)
    (write_admissions (inflight_init 399990 2) ex_race) /\
  (forall sched v n, WRITE_INFLIGHT_CAP <= v -> keeps_full sched ->
     exists v', pblk_may_submit_write sched v n = Some (Asleep v') /\
                WRITE_INFLIGHT_CAP <= v') /\
  (forall v n k, WRITE_INFLIGHT_CAP <= v ->
     pblk_may_submit_write (repeat [] k) v n = Some (Asleep v)) /\
  (forall v n sched, - 2 ^ 31 <= v < WRITE_INFLIGHT_CAP -> 0 <= n <= 255 ->
     pblk_may_submit_write ([] :: sched) v n = Some (Granted (v + n) O)) /\
  (forall interf v n, exists r, __pblk_may_submit_write interf v n = Some r).
Proof.
  apply (write_inflight_backpressure 255 2 399990 ex_race).
  - unfold WRITE_INFLIGHT_CAP. lia.
  - unfold WRITE_INFLIGHT_CAP. lia.
  - vm_compute. reflexivity.
Defined.

Example ex_race_trace :
  write_inflight_trace (inflight_init 399990 2) ex_race
  = [399990; 399990; 399990; 399990; 399990; 400054; 400054; 400054; 400054;
     400054; 399990; 399990; 399990; 399998] /\
  write_admissions (inflight_init 399990 2) ex_race
  = [(399990, 64, 400054); (399990, 8, 399998)].
Proof. vm_compute. split; reflexivity. Qed.

(** C2 (as stated) fails: with 399999 sectors in flight a writer of 8
    sectors is let through although [399999 + 8 > 400000], and the
    counter then reads 400007. *)
Lemma write_inflight_cap_counterexample :
  399999 + 8 > WRITE_INFLIGHT_CAP /\
  pblk_may_submit_write [[]] 399999 8 = Some (Granted 400007 O) /\
  In 400007 (write_inflight_trace (inflight_init 399999 1)
               [OpCall 0 8; OpAccess 0; OpAccess 0]) /\
  ~ 400007 <= WRITE_INFLIGHT_CAP.
Proof.
  unfold WRITE_INFLIGHT_CAP.
  split; [lia|]. split; [reflexivity|]. split; [|lia].
  vm_compute. auto 10.
Qed.

(* ------------------------------------------------------------------ *)
(** ** Reads *)
(* ------------------------------------------------------------------ *)

(** C10.  A read bio whose sector count [pblk_get_secs(bio)] differs from
    its segment count [bi_vcnt] is answered [NVM_IO_ERR] at once: the
    instance is left as it was (no request allocated, the L2P table
    neither read nor written, nothing added to the trace: the bio is
    neither completed nor errored), whatever the table holds. *)
Theorem pblk_submit_read_vcnt_mismatch st b flags :
  0 <= bi_size b < 2 ^ 32 ->
  2 <= PBLK_EXPOSED_PAGE_SIZE (consts st) ->
  pblk_get_secs (consts st) b <> bi_vcnt b ->
  pblk_submit_read st b flags = Some (st, b, NVM_IO_ERR) /\
  forall tm,
    pblk_submit_read (with_trans_map st tm) b flags
    = Some (with_trans_map st tm, b, NVM_IO_ERR).
Proof.
  intros Hsz Hpg Hne.
  assert (Hint : to_int (pblk_get_secs (consts st) b) = pblk_get_secs (consts st) b).
  { apply to_int_id. unfold pblk_get_secs. split.
    - assert (0 <= bi_size b / PBLK_EXPOSED_PAGE_SIZE (consts st))
        by (apply Z.div_pos; lia). lia.
    - apply Z.div_lt_upper_bound; lia. }
  assert (Hgo : forall st', consts st' = consts st ->
            pblk_submit_read st' b flags = Some (st', b, NVM_IO_ERR)).
  { intros st' Hc. unfold pblk_submit_read. rewrite Hc, Hint.
    destruct (Z.eqb_spec (pblk_get_secs (consts st) b) (bi_vcnt b)); [contradiction|].
    reflexivity. }
  split; [now apply Hgo|].
  intros tm. now apply Hgo.
Qed.

Lemma pblk_submit_read_vcnt_mismatch_witness :
  let b := {| bi_sector := 0; bi_size := 8192; bi_idx := 0; bi_vcnt := 1;
              bi_write := false; bi_preflush := false; bi_rw_rest := 0; bi_io_vec := [[]];
              bi_error := 0 |} in
  pblk_submit_read ex_pblk b io_none = Some (ex_pblk, b, NVM_IO_ERR) /\
  forall tm,
    pblk_submit_read (with_trans_map ex_pblk tm) b io_none
    = Some (with_trans_map ex_pblk tm, b, NVM_IO_ERR).
Proof.
  intros b.
  apply (pblk_submit_read_vcnt_mismatch ex_pblk b io_none); cbn; [lia | lia | discriminate].
Defined.

(* ------------------------------------------------------------------ *)
(** ** Write admission *)
(* ------------------------------------------------------------------ *)

Lemma pblk_write_to_cache_requeue sched st b flags n :
  pblk_rb_may_write (rwb st) n n = None ->
  pblk_write_to_cache sched st b flags n = Some (st, b, NVM_IO_REQUEUE, sched).
Proof. intros H. unfold pblk_write_to_cache. now rewrite H. Qed.

(** [pblk_write_to_cache] answers [NVM_IO_REQUEUE] only when the ring had
    no room. *)
Lemma pblk_write_to_cache_requeue_inv sched st b flags n st' b' sched' :
  pblk_write_to_cache sched st b flags n = Some (st', b', NVM_IO_REQUEUE, sched') ->
  st' = st /\ b' = b /\ sched' = sched.
Proof.
  unfold pblk_write_to_cache.
  destruct (pblk_rb_may_write (rwb st) n n) as [[pos rb]|].
  - destruct (pblk_write_to_cache_loop _ _ _ _ _ _ _ _) as [[[st1 b1] s1]|]; cbn;
      [|discriminate].
    destruct (bi_preflush b); intros [=].
  - intros [= <- <- <-]. auto.
Qed.

(** The retry loop of [pblk_buffer_write] leaves with [NVM_IO_REQUEUE]
    only through the emergency-GC gate. *)
Lemma pblk_buffer_write_retry_requeue fuel :
  forall sched st b flags n st' b' sched',
  pblk_buffer_write_retry fuel sched st b flags n
  = Some (st', b', NVM_IO_REQUEUE, sched') ->
  pblk_emergency_gc_mode st' = true.
Proof.
  induction fuel as [|fuel IH]; intros sched st b flags n st' b' sched' H;
    [discriminate|].
  cbn [pblk_buffer_write_retry] in H.
  destruct (pblk_emergency_gc_mode st) eqn:Hgc.
  - injection H as <- <- <-. exact Hgc.
  - destruct (pblk_write_to_cache sched st b flags n) as [[[[st1 b1] ret] s1]|];
      cbn in H; [|discriminate].
    destruct ret; try (injection H as <- <- ?; discriminate).
    destruct s1 as [|e s2]; [discriminate|].
    eapply IH, H.
Qed.

(** With nobody else acting, a full ring keeps [pblk_buffer_write] in its
    retry loop. *)
Lemma pblk_buffer_write_retry_spins fuel st b flags n :
  pblk_emergency_gc_mode st = false ->
  pblk_rb_may_write (rwb st) n n = None ->
  pblk_buffer_write_retry fuel [] st b flags n = None.
Proof.
  intros Hgc Hfull. destruct fuel as [|fuel]; [reflexivity|].
  cbn [pblk_buffer_write_retry]. rewrite Hgc.
  rewrite pblk_write_to_cache_requeue by assumption. reflexivity.
Qed.

(** C7 (as amended).  When the write ring cannot take [nr_secs] more
    slots ([pblk_rb_may_write] fails), [pblk_write_to_cache] returns
    [NVM_IO_REQUEUE] to [pblk_buffer_write] and leaves the ring, the map
    and everything else as they were.  [pblk_buffer_write] does not hand
    that answer to its caller: it tries again itself, so that with nobody
    freeing slots it does not return, and the only [NVM_IO_REQUEUE] it
    ever returns is the one of the emergency-GC gate. *)
Theorem pblk_buffer_write_requeue sched st b flags :
  pblk_rb_may_write (rwb st) (to_u8 (pblk_get_secs (consts st) b))
    (to_u8 (pblk_get_secs (consts st) b)) = None ->
  bi_preflush b && negb (bio_has_data b) = false ->
  pblk_write_to_cache sched st b flags (to_u8 (pblk_get_secs (consts st) b))
  = Some (st, b, NVM_IO_REQUEUE, sched) /\
  (forall st' b', pblk_buffer_write sched st b flags = Some (st', b', NVM_IO_REQUEUE) ->
     pblk_emergency_gc_mode st' = true) /\
  (pblk_emergency_gc_mode st = true ->
     pblk_buffer_write sched st b flags = Some (st, b, NVM_IO_REQUEUE)) /\
  (pblk_emergency_gc_mode st = false ->
     pblk_buffer_write [] st b flags = None).
Proof.
  intros Hfull Hdata. refine (conj _ (conj _ (conj _ _))).
  - now apply pblk_write_to_cache_requeue.
  - intros st' b' H. unfold pblk_buffer_write in H. rewrite Hdata in H.
    destruct (pblk_buffer_write_retry _ _ _ _ _ _) as [[[[st1 b1] ret] s1]|] eqn:Hr;
      cbn in H; [|discriminate].
    destruct ret.
    + destruct (pblk_may_submit_write_st s1 st1 _) as [[st2 s2]|]; cbn in H;
        [injection H as ? ? ?; discriminate | discriminate].
    + injection H as <- <-. eapply pblk_buffer_write_retry_requeue, Hr.
    + destruct (pblk_may_submit_write_st s1 st1 _) as [[st2 s2]|]; cbn in H;
        [injection H as ? ? ?; discriminate | discriminate].
    + destruct (pblk_may_submit_write_st s1 st1 _) as [[st2 s2]|]; cbn in H;
        [injection H as ? ? ?; discriminate | discriminate].
  - intros Hgc. unfold pblk_buffer_write. rewrite Hdata.
    cbn [pblk_buffer_write_retry]. rewrite Hgc. reflexivity.
  - intros Hgc. unfold pblk_buffer_write. rewrite Hdata.
    rewrite pblk_buffer_write_retry_spins by assumption. reflexivity.
Qed.

Lemma pblk_buffer_write_requeue_witness :
  let b := ex_bio true 5 1 [[Byte.x2a]] in
  pblk_write_to_cache [] ex_pblk_full b io_none
    (to_u8 (pblk_get_secs (consts ex_pblk_full) b))
  = Some (ex_pblk_full, b, NVM_IO_REQUEUE, []) /\
  (forall st' b', pblk_buffer_write [] ex_pblk_full b io_none
                  = Some (st', b', NVM_IO_REQUEUE) ->
     pblk_emergency_gc_mode st' = true) /\
  (pblk_emergency_gc_mode ex_pblk_full = true ->
     pblk_buffer_write [] ex_pblk_full b io_none
     = Some (ex_pblk_full, b, NVM_IO_REQUEUE)) /\
  (pblk_emergency_gc_mode ex_pblk_full = false ->
     pblk_buffer_write [] ex_pblk_full b io_none = None).
Proof.
  intros b.
  apply (pblk_buffer_write_requeue [] ex_pblk_full b io_none); reflexivity.
Defined.

(** C7 (as stated) fails: with the ring full and no emergency GC,
    [pblk_buffer_write] does not return [NVM_IO_REQUEUE]; it stays in its
    retry loop, and as soon as another CPU has retired entries the same
    call admits the write (the L2P entry of LBA 5 points into the ring)
    and returns [NVM_IO_DONE]. *)
Lemma pblk_buffer_write_requeue_counterexample :
  let b := ex_bio true 5 1 [[Byte.x2a]] in
  pblk_rb_may_write (rwb ex_pblk_full) 1 1 = None /\
  pblk_buffer_write [] ex_pblk_full b io_none = None /\
  match pblk_buffer_write [ex_retire_two] ex_pblk_full b io_none with
  | Some (st', _, NVM_IO_DONE) =>
      ppa <$> trans_map st' !! 5%nat = Some (PPA_CACHE 0 false) /\
      e_data <$> rb_entries (rwb st') !! 0%nat = Some [Byte.x2a]
  | _ => False
  end.
Proof.
  split; [reflexivity|]. split; [reflexivity|].
  vm_compute. split; reflexivity.
Qed.

(* ------------------------------------------------------------------ *)
(** ** Write failure *)
(* ------------------------------------------------------------------ *)

(** C5, the failing case.  A failed write of a single sector that is not
    the last page of a block is dropped by [pblk_end_w_fail] before any
    recovery: no ring entry is looked up, no block is marked bad, nothing
    is re-queued and the request is not passed to the completion queue
    (the instance, its trace included, is unchanged). *)
Theorem pblk_end_io_write_fail_single st rqd :
  rq_error rqd = NVM_RSP_ERR_FAILWRITE ->
  ft_close_blk (ctx_flags (rq_w_ctx rqd)) = false ->
  to_int (rq_nr_ppas rqd) = 1 ->
  pblk_end_io_write st rqd = Some st.
Proof.
  intros Herr Hclose Hn. unfold pblk_end_io_write, pblk_end_w_fail.
  rewrite Herr, Z.eqb_refl, Hclose, Hn. reflexivity.
Qed.

Lemma pblk_end_io_write_fail_single_witness :
  pblk_end_io_write ex_pblk_cached ex_failed_rqd = Some ex_pblk_cached.
Proof.
  apply (pblk_end_io_write_fail_single ex_pblk_cached ex_failed_rqd); reflexivity.
Defined.

(* ------------------------------------------------------------------ *)
(** ** Read pins *)
(* ------------------------------------------------------------------ *)

(** Inside the table, the entry of an LBA is the list element. *)
Lemma trans_map_get_in st lba :
  0 <= lba < pblk_nr_secs st ->
  trans_map_get st lba = trans_map st !! Z.to_nat lba.
Proof.
  intros H. unfold trans_map_get.
  destruct (Z.ltb_spec lba 0); [lia|].
  destruct (Z.leb_spec (pblk_nr_secs st) lba); [lia|]. reflexivity.
Qed.

(** Whatever the pin was before, [pblk_unlock_read] leaves it clear; the
    saved [cache_read_state] is not consulted. *)
Lemma pblk_unlock_read_clears st lba gp (off : Z) :
  0 <= lba -> (Z.to_nat lba < length (trans_map st))%nat ->
  nvm_addr_in_cache (ppa gp) = true ->
  (fun e => nvm_addr_get_read_cache (ppa e)) <$>
    trans_map (pblk_unlock_read st lba gp off) !! Z.to_nat lba = Some false.
Proof.
  intros Hl Hlen Hc. unfold pblk_unlock_read. rewrite Hc. cbn.
  rewrite list_lookup_insert_eq by assumption. cbn.
  destruct (ppa gp); cbn in *; congruence.
Qed.

(** The single-sector read of a cached LBA whose pin another reader holds
    returns the data and leaves the pin clear, for every instance. *)
Lemma pblk_read_rq_clears_pin st b rqd lba bm line rb e :
  lba <> ADDR_EMPTY -> 0 <= lba < pblk_nr_secs st ->
  trans_map st !! Z.to_nat lba = Some {| ppa := PPA_CACHE line true; rblk := rb |} ->
  0 <= line -> rb_entries (rwb st) !! Z.to_nat line = Some e ->
  exists st',
    pblk_read_rq st b rqd lba bm
    = Some (st', bio_store b (e_data e), rqd, set_bit 0 bm, NVM_IO_OK) /\
    trans_map st' !! Z.to_nat lba = Some {| ppa := PPA_CACHE line false; rblk := rb |}.
Proof.
  intros Hne Hl Hget Hline He.
  assert (Hlen : (Z.to_nat lba < length (trans_map st))%nat)
    by (eapply lookup_lt_Some; exact Hget).
  assert (Hcap : line < rb_capacity (rwb st)).
  { unfold rb_capacity. apply lookup_lt_Some in He. lia. }
  unfold pblk_read_rq.
  destruct (Z.eqb_spec lba ADDR_EMPTY); [contradiction|].
  rewrite trans_map_get_in by exact Hl. rewrite Hget.
  cbn [mbind option_bind ppa rblk nvm_addr_in_cache ppa_empty
       nvm_addr_set_read_cache nvm_addr_get_read_cache].
  unfold pblk_try_read_from_cache, pblk_read_from_cache, pblk_rb_copy_to_bio.
  cbn [nvm_addr_in_cache negb nvm_addr_to_cacheline trans_map_set rwb with_trans_map].
  destruct (Z.ltb_spec line 0); [lia|].
  destruct (Z.leb_spec (rb_capacity (rwb st)) line); [lia|].
  cbn [orb]. rewrite He.
  cbn [fmap option_fmap option_map mbind option_bind].
  rewrite trans_map_get_in by (cbn; exact Hl).
  unfold trans_map_set. cbn [trans_map with_trans_map].
  rewrite list_lookup_insert_eq by exact Hlen.
  cbn [mbind option_bind ppa rblk nvm_addr_set_read_cache].
  eexists. split; [reflexivity|].
  cbn [trans_map with_trans_map].
  apply list_lookup_insert_eq. now rewrite length_insert.
Qed.

(** C6, the failing cases.  On an instance where LBA 3 is in the ring and
    already pinned by another reader: a GC-list read of LBAs 3 and 4, a
    sequential read of LBAs 3 and 4 and a single-sector read of LBA 3
    each return with the pin of LBA 3 cleared instead of restored.  And a
    GC-list read of LBAs 6 and 7, where 6 is in the ring (not pinned) and
    7 on the device, returns with the pin it set on LBA 6 still set. *)
Theorem read_unlock_does_not_restore :
  ppa <$> trans_map ex_pblk_cached !! 3%nat = Some (PPA_CACHE 0 true) /\
  match read_ppalist_rq_list ex_pblk_cached (ex_bio false 0 2 [[]; []]) ex_read_rqd
          [3; 4] 2 0 with
  | Some (st', b', _, bm, valid_secs) =>
      ppa <$> trans_map st' !! 3%nat = Some (PPA_CACHE 0 false) /\
      bi_io_vec b' = [[Byte.x01]; [Byte.x02]] /\ bm = 3 /\ valid_secs = 2
  | None => False
  end /\
  match pblk_read_ppalist_rq ex_pblk_cached (ex_bio false 3 2 [[]; []]) ex_read_rqd
          2 0 with
  | Some (st', b', _, bm, _) =>
      ppa <$> trans_map st' !! 3%nat = Some (PPA_CACHE 0 false) /\
      bi_io_vec b' = [[Byte.x01]; [Byte.x02]] /\ bm = 3
  | None => False
  end /\
  match pblk_read_rq ex_pblk_cached (ex_bio false 3 1 [[]]) rqd_zero 3 0 with
  | Some (st', b', _, bm, _) =>
      ppa <$> trans_map st' !! 3%nat = Some (PPA_CACHE 0 false) /\
      bi_io_vec b' = [[Byte.x01]] /\ bm = 1
  | None => False
  end /\
  ppa <$> trans_map ex_pblk_cached !! 6%nat = Some (PPA_CACHE 2 false) /\
  match read_ppalist_rq_list ex_pblk_cached (ex_bio false 0 2 [[]; []]) ex_read_rqd
          [6; 7] 2 0 with
  | Some (st', _, _, _, _) =>
      ppa <$> trans_map st' !! 6%nat = Some (PPA_CACHE 2 true)
  | None => False
  end.
Proof. vm_compute. repeat split. Qed.

(* ------------------------------------------------------------------ *)
(** ** Discard *)
(* ------------------------------------------------------------------ *)

Lemma with_trans_map_same st : with_trans_map st (trans_map st) = st.
Proof. destruct st; reflexivity. Qed.

Lemma pblk_page_invalidate_frame st gp st' :
  pblk_page_invalidate st gp = Some st' ->
  trans_map st' = trans_map st /\ pblk_nr_secs st' = pblk_nr_secs st /\
  length (blocks st') = length (blocks st) /\ consts st' = consts st.
Proof.
  unfold pblk_page_invalidate.
  destruct (rblk gp) as [b|]; [|discriminate].
  destruct (ppa gp) as [| |g]; try discriminate.
  destruct (blocks st !! b) as [blk|]; [|discriminate].
  intros [= <-]. cbn. rewrite length_insert. auto.
Qed.

Lemma l2p_entry_ok_blocks st st' gp :
  length (blocks st') = length (blocks st) ->
  l2p_entry_ok st' gp = l2p_entry_ok st gp.
Proof.
  intros Hlen. unfold l2p_entry_ok.
  destruct (rblk gp) as [b|]; [|reflexivity].
  destruct (ppa gp); try reflexivity.
  destruct (blocks st !! b) eqn:H1, (blocks st' !! b) eqn:H2; try reflexivity.
  - apply lookup_ge_None in H2. apply lookup_lt_Some in H1. lia.
  - apply lookup_ge_None in H1. apply lookup_lt_Some in H2. lia.
Qed.

(** One round of the loop of [pblk_invalidate_range] on a well-formed
    entry. *)
Lemma pblk_invalidate_step st gp :
  l2p_entry_ok st gp = true ->
  exists st1,
    match rblk gp with
    | Some _ => pblk_page_invalidate st gp
    | None => Some st
    end = Some st1 /\
    trans_map st1 = trans_map st /\ pblk_nr_secs st1 = pblk_nr_secs st /\
    length (blocks st1) = length (blocks st) /\ consts st1 = consts st.
Proof.
  unfold l2p_entry_ok. intros Hok.
  destruct (rblk gp) as [b|] eqn:Hr; [|eauto 10].
  destruct (ppa gp) as [| |g] eqn:Hp; try discriminate.
  destruct (blocks st !! b) as [blk|] eqn:Hb; [|discriminate].
  assert (Hinv : exists st1, pblk_page_invalidate st gp = Some st1).
  { unfold pblk_page_invalidate. rewrite Hr, Hp, Hb. eauto. }
  destruct Hinv as [st1 H1]. exists st1. split; [exact H1|].
  now apply pblk_page_invalidate_frame in H1.
Qed.

(** The first pass: every entry of the range ends up empty, the entries
    below the range are untouched. *)
Lemma pblk_invalidate_range_loop_ok n : forall i st,
  0 <= i -> i + Z.of_nat n <= pblk_nr_secs st ->
  pblk_nr_secs st <= Z.of_nat (length (trans_map st)) ->
  (forall k, i <= k < i + Z.of_nat n ->
     exists gp, trans_map st !! Z.to_nat k = Some gp /\ l2p_entry_ok st gp = true) ->
  exists st1,
    pblk_invalidate_range_loop n i st = Some st1 /\
    pblk_nr_secs st1 = pblk_nr_secs st /\ consts st1 = consts st /\
    length (trans_map st1) = length (trans_map st) /\
    (forall k, i <= k < i + Z.of_nat n ->
       trans_map st1 !! Z.to_nat k = Some pblk_addr_empty) /\
    (forall k, (k < Z.to_nat i)%nat -> trans_map st1 !! k = trans_map st !! k).
Proof.
  induction n as [|n IH]; intros i st Hi Hhi Hlen Hent.
  - exists st. cbn. repeat split; try reflexivity. intros k Hk. lia.
  - cbn [pblk_invalidate_range_loop].
    destruct (Hent i) as (gp & Hgp & Hok); [lia|].
    rewrite trans_map_get_in by lia. rewrite Hgp. cbn.
    destruct (pblk_invalidate_step st gp Hok) as (st1 & -> & Htm & Hns & Hbl & Hc).
    cbn.
    set (st2 := trans_map_set st1 i pblk_addr_empty).
    assert (Htm2 : trans_map st2 = <[Z.to_nat i := pblk_addr_empty]> (trans_map st))
      by (unfold st2, trans_map_set; cbn; now rewrite Htm).
    destruct (IH (i + 1) st2) as (st3 & Hrun & Hns3 & Hc3 & Hlen3 & Hemp & Hlow).
    + lia.
    + unfold st2; cbn. lia.
    + rewrite Htm2, length_insert. unfold st2; cbn. lia.
    + intros k Hk. destruct (Hent k) as (gp' & Hgp' & Hok'); [lia|].
      exists gp'. split.
      * rewrite Htm2, list_lookup_insert_ne by lia. exact Hgp'.
      * rewrite <- Hok'. apply l2p_entry_ok_blocks. unfold st2; cbn. exact Hbl.
    + exists st3. split; [exact Hrun|].
      split; [rewrite Hns3; unfold st2; cbn; exact Hns|].
      split; [rewrite Hc3; unfold st2; cbn; exact Hc|].
      split; [rewrite Hlen3, Htm2, length_insert; reflexivity|].
      split.
      * intros k Hk. destruct (Z.eq_dec k i) as [-> | Hne].
        -- rewrite Hlow by lia. rewrite Htm2.
           apply list_lookup_insert_eq. lia.
        -- apply Hemp. lia.
      * intros k Hk. rewrite Hlow by lia.
        rewrite Htm2. apply list_lookup_insert_ne. lia.
Qed.

(** The second pass: on a range whose entries are all empty the loop
    changes nothing. *)
Lemma pblk_invalidate_range_loop_empty n : forall i st,
  0 <= i -> i + Z.of_nat n <= pblk_nr_secs st ->
  (forall k, i <= k < i + Z.of_nat n ->
     trans_map st !! Z.to_nat k = Some pblk_addr_empty) ->
  pblk_invalidate_range_loop n i st = Some st.
Proof.
  induction n as [|n IH]; intros i st Hi Hhi Hemp; [reflexivity|].
  cbn [pblk_invalidate_range_loop].
  rewrite trans_map_get_in by lia. rewrite Hemp by lia. cbn.
  assert (Hsame : trans_map_set st i pblk_addr_empty = st).
  { unfold trans_map_set. rewrite list_insert_id by (apply Hemp; lia).
    apply with_trans_map_same. }
  rewrite Hsame. apply IH; [lia | lia |].
  intros k Hk. apply Hemp. lia.
Qed.

(** A single-sector read of an unmapped LBA copies nothing, asks the
    device for nothing and marks the sector as served. *)
Lemma pblk_read_rq_empty st b rqd lba bm :
  lba <> ADDR_EMPTY ->
  trans_map_get st lba = Some pblk_addr_empty ->
  pblk_read_rq st b rqd lba bm = Some (st, b, rqd, set_bit 0 bm, NVM_IO_OK).
Proof.
  intros Hne Hget. unfold pblk_read_rq.
  destruct (Z.eqb_spec lba ADDR_EMPTY); [contradiction|].
  rewrite Hget. reflexivity.
Qed.

(** The sector of LBA 7 is invalidated once, by the first discard. *)
Example pblk_discard_twice_ex :
  let b := ex_bio true 2 7 [] in
  match pblk_discard ex_pblk_cached b with
  | Some st1 =>
      (fun blk => (nr_invalid_secs blk, invalid_bitmap blk)) <$> blocks st1 !! O
        = Some (1, 1) /\
      trans_map st1 = replicate 16 pblk_addr_empty /\
      match pblk_discard st1 b with
      | Some st2 =>
          (fun blk => (nr_invalid_secs blk, invalid_bitmap blk)) <$> blocks st2 !! O
            = Some (1, 1) /\
          trans_map st2 = replicate 16 pblk_addr_empty
      | None => False
      end
  | None => False
  end.
Proof. vm_compute. repeat split. Qed.

(* ------------------------------------------------------------------ *)
(** ** In-order retirement *)
(* ------------------------------------------------------------------ *)

Lemma retired_app l1 l2 : retired (l1 ++ l2) = retired l1 ++ retired l2.
Proof. apply omap_app. Qed.

Lemma retire_frame_refl st : retire_frame st st.
Proof. repeat split. Qed.

Lemma retire_frame_trans st1 st2 st3 :
  retire_frame st1 st2 -> retire_frame st2 st3 -> retire_frame st1 st3.
Proof.
  intros (A1 & B1 & C1 & D1 & E1) (A2 & B2 & C2 & D2 & E2).
  repeat split; try congruence; intros pos; now rewrite E2, E1.
Qed.

Lemma retire_frame_emit st ev :
  (forall r, ev <> EvFreeRqd WRITE r) -> retire_frame st (emit st ev).
Proof.
  intros Hev. repeat split. cbn. rewrite retired_app. cbn.
  destruct ev as [| [] r | | | | | | | | | | | | | | | | |]; cbn;
    try apply app_nil_r.
  exfalso. now apply (Hev r).
Qed.

Lemma retire_frame_try_alloc st : retire_frame st (snd (try_alloc st)).
Proof. unfold try_alloc. destruct (alloc_script st); repeat split. Qed.

Lemma retire_frame_run_blk_ws st w : retire_frame st (pblk_run_blk_ws st w).
Proof.
  unfold pblk_run_blk_ws.
  pose proof (retire_frame_try_alloc st) as H.
  destruct (try_alloc st) as [ok st1]. cbn in H.
  destruct ok; (eapply retire_frame_trans; [exact H|]);
    apply retire_frame_emit; discriminate.
Qed.

Lemma retire_frame_blocks st bs :
  length bs = length (blocks st) -> retire_frame st (with_blocks st bs).
Proof.
  intros Hlen. repeat split. intros pos. unfold entry_mapped. cbn.
  now rewrite Hlen.
Qed.

(** Clearing the flush bio of a ring context keeps its mapping. *)
Lemma retire_frame_clear_bio st pos w :
  pblk_rb_w_ctx (rwb st) pos = Some w ->
  retire_frame st (with_rwb st (rb_set_w_ctx (rwb st) pos (w_ctx_with_bio w None))).
Proof.
  intros Hw. repeat split. intros q. unfold entry_mapped. cbn.
  unfold pblk_rb_w_ctx, rb_set_w_ctx, pblk_rb_wrap_pos, rb_capacity in *. cbn.
  rewrite length_alter.
  set (n := Z.of_nat (length (rb_entries (rwb st)))) in *.
  destruct (Nat.eq_dec (Z.to_nat (pos mod n)) (Z.to_nat (q mod n))) as [Heq | Hne].
  - rewrite <- Heq. rewrite list_lookup_alter_eq.
    destruct (rb_entries (rwb st) !! Z.to_nat (pos mod n)) as [e|]; [|reflexivity].
    cbn in *. injection Hw as <-. reflexivity.
  - now rewrite list_lookup_alter_ne.
Qed.

Lemma rwb_run_blk_ws st w : rwb (pblk_run_blk_ws st w) = rwb st.
Proof.
  unfold pblk_run_blk_ws, try_alloc.
  destruct (alloc_script st) as [|[] ?]; reflexivity.
Qed.

Lemma pblk_sync_buffer_ok st b block_ppa :
  (b < length (blocks st))%nat ->
  exists st', pblk_sync_buffer st (Some b) block_ppa = Some st' /\
              retire_frame st st' /\ rwb st' = rwb st.
Proof.
  intros Hb. unfold pblk_sync_buffer. cbn.
  destruct (lookup_lt_is_Some_2 _ _ Hb) as [blk ->]. cbn.
  set (st1 := with_blocks st _).
  assert (F1 : retire_frame st st1)
    by (apply retire_frame_blocks; now rewrite length_insert).
  destruct (bitmap_full _ _).
  - eexists. split; [reflexivity|]. split.
    + eapply retire_frame_trans; [exact F1 | apply retire_frame_run_blk_ws].
    + now rewrite rwb_run_blk_ws.
  - eexists. split; [reflexivity|]. split; [exact F1 | reflexivity].
Qed.

Lemma pblk_end_w_bio_entries_ok n : forall i st c,
  (forall k, (k < n)%nat -> entry_mapped st (sentry c + (i + Z.of_nat k)) = true) ->
  exists st', pblk_end_w_bio_entries n i st c = Some st' /\ retire_frame st st'.
Proof.
  induction n as [|n IH]; intros i st c Hmap.
  - exists st. split; [reflexivity | apply retire_frame_refl].
  - cbn [pblk_end_w_bio_entries].
    pose proof (Hmap O ltac:(lia)) as H0. rewrite Z.add_0_r in H0.
    unfold entry_mapped in H0.
    destruct (pblk_rb_w_ctx (rwb st) (sentry c + i)) as [w|] eqn:Hw; [|discriminate].
    destruct (rblk (w_ppa w)) as [b|] eqn:Hb; [|discriminate].
    apply bool_decide_eq_true in H0.
    cbn. rewrite Hb.
    destruct (pblk_sync_buffer_ok st b (w_paddr w) H0) as (st1 & -> & F1 & Hrb). cbn.
    set (st2 := match w_bio w with Some _ => _ | None => st1 end).
    assert (F2 : retire_frame st st2).
    { unfold st2. destruct (w_bio w) as [ob|]; [|exact F1].
      eapply retire_frame_trans; [exact F1|].
      eapply retire_frame_trans;
        [apply (retire_frame_emit st1 (EvBioEndio ob)); discriminate|].
      apply (retire_frame_clear_bio (emit st1 (EvBioEndio ob))).
      cbn. rewrite Hrb. exact Hw. }
    destruct (IH (i + 1) st2 c) as (st3 & Hrun & F3).
    + intros k Hk. destruct F2 as (_ & _ & _ & _ & E). rewrite E.
      replace (i + 1 + Z.of_nat k) with (i + Z.of_nat (S k)) by lia.
      apply Hmap. lia.
    + exists st3. split; [exact Hrun|]. eapply retire_frame_trans; eassumption.
Qed.

(** Retiring one request: [sync] moves past its sectors, the request is
    freed, the queue and the mapping of the ring are untouched. *)
Lemma pblk_end_w_bio_ok st rqd ctx c :
  compl_ctx_of ctx = Some c ->
  0 <= nr_valid c < 2 ^ 31 ->
  (forall k, (k < Z.to_nat (nr_valid c))%nat ->
     entry_mapped st (sentry c + Z.of_nat k) = true) ->
  exists st',
    pblk_end_w_bio st rqd ctx = Some (st', rb_sync (rwb st) + nr_valid c) /\
    compl_list st' = compl_list st /\
    rb_sync (rwb st') = rb_sync (rwb st) + nr_valid c /\
    retired (log st') = retired (log st) ++ [rqd] /\
    forall pos, entry_mapped st' pos = entry_mapped st pos.
Proof.
  intros Hc Hn Hmap. unfold pblk_end_w_bio. rewrite Hc. cbn.
  rewrite to_int_id by lia.
  destruct (pblk_end_w_bio_entries_ok (Z.to_nat (nr_valid c)) 0 st c)
    as (st1 & -> & (Hcl & Hsy & Hre & _ & Hem)).
  { intros k Hk. rewrite Z.add_0_l. now apply Hmap. }
  cbn. rewrite Hsy.
  eexists. split; [reflexivity|].
  destruct (1 <? nr_valid c), (rq_meta_list rqd); cbn;
    rewrite ?retired_app; cbn; rewrite ?app_nil_r, Hre;
    (split; [exact Hcl|]); (split; [reflexivity|]); (split; [reflexivity|]);
    intros pos; rewrite <- Hem; reflexivity.
Qed.

Lemma forallb_pointwise {A} (f g : A -> bool) l :
  (forall x, f x = g x) -> forallb f l = forallb g l.
Proof. intros E. induction l as [|x l IH]; cbn; [reflexivity|]. now rewrite E, IH. Qed.

Lemma compl_ctx_ok_frame st st' r :
  (forall pos, entry_mapped st' pos = entry_mapped st pos) ->
  compl_ctx_ok st' r = compl_ctx_ok st r.
Proof.
  intros E. unfold compl_ctx_ok.
  destruct (compl_ctx_of (rq_w_ctx r)) as [c|]; [|reflexivity].
  f_equal. apply forallb_pointwise. intros i. apply E.
Qed.

Lemma compl_ctx_ok_inv st r c :
  compl_ctx_ok st r = true -> compl_ctx_of (rq_w_ctx r) = Some c ->
  0 <= nr_valid c < 2 ^ 31 /\
  forall k, (k < Z.to_nat (nr_valid c))%nat ->
    entry_mapped st (sentry c + Z.of_nat k) = true.
Proof.
  unfold compl_ctx_ok. intros Hok Hc. rewrite Hc in Hok.
  apply andb_true_iff in Hok as [Hb Hall].
  apply andb_true_iff in Hb as [H0 H1].
  apply Z.leb_le in H0. apply Z.ltb_lt in H1. split; [lia|].
  intros k Hk. rewrite forallb_forall in Hall. apply Hall, in_seq. lia.
Qed.

(** The drain loop: it returns, and what it retires is a chain starting
    at the position it was entered with; no context left on the queue
    starts at the final position. *)
Lemma pblk_compl_drain_ok fuel : forall st,
  (length (compl_list st) < fuel)%nat ->
  Forall (fun r => compl_ctx_ok st r = true) (compl_list st) ->
  exists st' drained,
    pblk_compl_drain fuel st (rb_sync (rwb st)) = Some (st', rb_sync (rwb st')) /\
    sync_chain (rb_sync (rwb st)) drained (rb_sync (rwb st')) /\
    rb_sync (rwb st) <= rb_sync (rwb st') /\
    retired (log st') = retired (log st) ++ drained /\
    compl_list st ≡ₚ drained ++ compl_list st' /\
    Forall (fun r => sentry <$> compl_ctx_of (rq_w_ctx r) <> Some (rb_sync (rwb st')))
           (compl_list st').
Proof.
  induction fuel as [|fuel IH]; intros st Hlen Hok; [lia|].
  cbn [pblk_compl_drain].
  destruct (list_find _ (compl_list st)) as [[i r]|] eqn:Hfind.
  - apply list_find_Some in Hfind as (Hir & Hsent & _).
    destruct (compl_ctx_of (rq_w_ctx r)) as [c|] eqn:Hc; [|discriminate].
    cbn in Hsent. injection Hsent as Hsent.
    assert (Hrok : compl_ctx_ok st r = true).
    { rewrite Forall_forall in Hok. apply Hok. eapply list_elem_of_lookup_2, Hir. }
    destruct (compl_ctx_ok_inv st r c Hrok Hc) as [Hn Hmap].
    unfold pblk_end_queued_w_bio.
    set (st0 := with_compl_list st (delete i (compl_list st))).
    destruct (pblk_end_w_bio_ok st0 r (rq_w_ctx r) c Hc Hn) as
      (st1 & Hrun & Hcl & Hsy & Hre & Hem); [exact Hmap|].
    rewrite Hrun. cbn.
    assert (Hdel : (length (delete i (compl_list st)) < length (compl_list st))%nat).
    { rewrite length_delete by eauto. apply lookup_lt_Some in Hir. lia. }
    assert (Hsy' : rb_sync (rwb st1) = rb_sync (rwb st) + nr_valid c) by exact Hsy.
    rewrite <- Hsy'.
    destruct (IH st1) as (st' & drained & Hdr & Hch & Hle & Hret & Hperm & Hnone).
    + rewrite Hcl. unfold st0; cbn. lia.
    + rewrite Hcl. unfold st0; cbn.
      apply Forall_forall. intros x Hx.
      rewrite (compl_ctx_ok_frame st0 st1 x Hem).
      rewrite Forall_forall in Hok. apply Hok.
      eapply list_elem_of_delete_inv, Hx.
    + exists st', (r :: drained). split; [exact Hdr|].
      split.
      { econstructor; [exact Hc | exact Hsent | lia |].
        rewrite <- Hsy'. exact Hch. }
      split; [lia|].
      split; [rewrite Hret, Hre; unfold st0; cbn; now rewrite <- app_assoc|].
      split; [|exact Hnone].
      rewrite (delete_Permutation _ _ _ Hir). cbn. constructor.
      rewrite Hcl in Hperm. exact Hperm.
  - exists st, []. split; [reflexivity|].
    split; [constructor|]. split; [lia|].
    split; [now rewrite app_nil_r|]. split; [reflexivity|].
    apply list_find_None in Hfind. exact Hfind.
Qed.

(** C3.  For a write completion whose sectors have been mapped,
    [pblk_compl_queue] returns and never moves [sync] backwards.  If the
    completing context does not start at [sync], it is appended to
    [compl_list] and [sync] and the retired requests are unchanged.  If
    it starts at [sync], it is retired first and then queued contexts are
    retired in turn, each starting exactly where the one before ended
    ([sync_chain]); they leave [compl_list], and the loop stops only when
    no queued context starts at the final [sync]. *)
Theorem pblk_compl_queue_in_order st rqd ctx c :
  compl_ctx_of ctx = Some c ->
  compl_ctx_ok st (rq_with_w_ctx rqd ctx) = true ->
  forallb (compl_ctx_ok st) (compl_list st) = true ->
  exists st',
    pblk_compl_queue st rqd ctx = Some st' /\
    rb_sync (rwb st) <= rb_sync (rwb st') /\
    (sentry c <> rb_sync (rwb st) ->
       compl_list st' = compl_list st ++ [rq_with_w_ctx rqd ctx] /\
       rb_sync (rwb st') = rb_sync (rwb st) /\
       retired (log st') = retired (log st)) /\
    (sentry c = rb_sync (rwb st) ->
       exists drained,
         sync_chain (rb_sync (rwb st) + nr_valid c) drained (rb_sync (rwb st')) /\
         retired (log st') = retired (log st) ++ rqd :: drained /\
         compl_list st ≡ₚ drained ++ compl_list st' /\
         Forall (fun r => sentry <$> compl_ctx_of (rq_w_ctx r)
                          <> Some (rb_sync (rwb st')))
                (compl_list st')).
Proof.
  intros Hc Hnew Hq.
  destruct (compl_ctx_ok_inv st _ c Hnew Hc) as [Hn Hmap].
  assert (Hq' : Forall (fun r => compl_ctx_ok st r = true) (compl_list st)).
  { apply Forall_forall. intros x Hx.
    rewrite forallb_forall in Hq. apply Hq. now apply list_elem_of_In. }
  clear Hq.
  unfold pblk_compl_queue. rewrite Hc. cbn [mbind option_bind].
  set (st1 := with_write_inflight st _).
  set (st2 := if wait_active st1 then emit st1 EvWakeUpAll else st1).
  assert (F2 : retire_frame st st2).
  { unfold st2. destruct (wait_active st1).
    - eapply retire_frame_trans; [|apply retire_frame_emit; discriminate].
      repeat split.
    - repeat split. }
  destruct F2 as (Hcl2 & Hsy2 & Hre2 & _ & Hem2).
  unfold pblk_rb_sync_init. rewrite Hsy2.
  destruct (Z.eqb_spec (sentry c) (rb_sync (rwb st))) as [Heq | Hne].
  - destruct (pblk_end_w_bio_ok st2 rqd ctx c Hc Hn) as
      (st3 & Hrun & Hcl3 & Hsy3 & Hre3 & Hem3).
    { intros k Hk. rewrite Hem2. now apply Hmap. }
    rewrite Hrun. cbn [mbind option_bind].
    destruct (pblk_compl_drain_ok (S (length (compl_list st3))) st3) as
      (st' & drained & Hdr & Hch & Hle & Hret & Hperm & Hnone); [lia | |].
    { rewrite Hcl3, Hcl2. eapply Forall_impl; [exact Hq'|].
      intros x Hx. cbn in Hx.
      rewrite (compl_ctx_ok_frame st2 st3 x Hem3), (compl_ctx_ok_frame st st2 x Hem2).
      exact Hx. }
    rewrite Hsy3 in Hdr at 1. rewrite Hdr. cbn [fmap option_fmap option_map fst].
    exists st'. split; [reflexivity|].
    rewrite Hsy3, Hsy2 in Hle, Hch.
    split; [lia|]. split; [intros Hne; contradiction|].
    intros _. exists drained.
    split; [exact Hch|].
    split; [rewrite Hret, Hre3, Hre2, <- app_assoc; reflexivity|].
    split; [rewrite <- Hcl2, <- Hcl3; exact Hperm | exact Hnone].
  - eexists. split; [reflexivity|].
    cbn [compl_list rwb log with_compl_list].
    rewrite Hsy2, Hcl2, Hre2.
    split; [lia|]. split; [auto|]. intros Heq. contradiction.
Qed.

Lemma pblk_compl_queue_in_order_witness :
  let st := ex_pblk_inflight in
  let rqd := ex_write_rqd 0 1 in
  exists st',
    pblk_compl_queue st rqd (rq_w_ctx rqd) = Some st' /\
    rb_sync (rwb st) <= rb_sync (rwb st') /\
    (0 <> rb_sync (rwb st) ->
       compl_list st' = compl_list st ++ [rq_with_w_ctx rqd (rq_w_ctx rqd)] /\
       rb_sync (rwb st') = rb_sync (rwb st) /\
       retired (log st') = retired (log st)) /\
    (0 = rb_sync (rwb st) ->
       exists drained,
         sync_chain (rb_sync (rwb st) + 1) drained (rb_sync (rwb st')) /\
         retired (log st') = retired (log st) ++ rqd :: drained /\
         compl_list st ≡ₚ drained ++ compl_list st' /\
         Forall (fun r => sentry <$> compl_ctx_of (rq_w_ctx r)
                          <> Some (rb_sync (rwb st')))
                (compl_list st')).
Proof.
  intros st rqd.
  apply (pblk_compl_queue_in_order st rqd (rq_w_ctx rqd)
           {| sentry := 0; nr_valid := 1; nr_padded := 0 |});
    vm_compute; reflexivity.
Defined.

(** The completion of the first request retires all three, in admission
    order, and [sync] ends at 4; a completion that is not next in line is
    queued. *)
Example pblk_compl_queue_ex :
  match pblk_compl_queue ex_pblk_inflight (ex_write_rqd 0 1) (rq_w_ctx (ex_write_rqd 0 1)) with
  | Some st' =>
      retired (log st') = [ex_write_rqd 0 1; ex_write_rqd 1 2; ex_write_rqd 3 1] /\
      rb_sync (rwb st') = 4 /\ compl_list st' = [] /\ write_inflight st' = 3 /\
      sync_bitmap <$> blocks st' !! O = Some 15
  | None => False
  end /\
  match pblk_compl_queue (with_compl_list ex_pblk_inflight []) (ex_write_rqd 3 1)
          (rq_w_ctx (ex_write_rqd 3 1)) with
  | Some st' =>
      retired (log st') = [] /\ rb_sync (rwb st') = 0 /\
      compl_list st' = [ex_write_rqd 3 1]
  | None => False
  end.
Proof. vm_compute. repeat split. Qed.

(* ------------------------------------------------------------------ *)
(** ** Padding open blocks *)
(* ------------------------------------------------------------------ *)

Lemma submits_app l1 l2 : submits (l1 ++ l2) = submits l1 ++ submits l2.
Proof. apply omap_app. Qed.

Lemma try_alloc_nil st : alloc_script st = [] -> try_alloc st = (true, st).
Proof. intros H. unfold try_alloc. now rewrite H. Qed.

Lemma pad_step_refl st : pad_step st st.
Proof. repeat split. Qed.

Lemma pad_step_trans st1 st2 st3 :
  pad_step st1 st2 -> pad_step st2 st3 -> pad_step st1 st3.
Proof. intros (A1 & B1 & C1) (A2 & B2 & C2). repeat split; congruence. Qed.

Lemma pad_emit st b cs ev :
  pad_state st b cs -> (forall r, ev <> EvSubmitIo r) ->
  pad_state (emit st ev) b cs /\ pad_step st (emit st ev).
Proof.
  intros (Ha & Hs & Hb) Hev. split; [repeat split; assumption|].
  repeat split. cbn. rewrite submits_app. cbn.
  destruct ev; cbn; try apply app_nil_r.
  exfalso. eapply Hev. reflexivity.
Qed.

Lemma pad_run_blk_ws st b cs w :
  pad_state st b cs ->
  pad_state (pblk_run_blk_ws st w) b cs /\ pad_step st (pblk_run_blk_ws st w).
Proof.
  intros Hst. unfold pblk_run_blk_ws.
  rewrite try_alloc_nil by apply Hst.
  apply pad_emit; [exact Hst | discriminate].
Qed.

Lemma pad_set_block st b cs blk' :
  pad_state st b cs ->
  pad_state (with_blocks st (<[b := blk']> (blocks st))) b (cur_sec blk') /\
  pad_step st (with_blocks st (<[b := blk']> (blocks st))).
Proof.
  intros (Ha & Hs & blk & Hb & Hcs). split; [|repeat split].
  repeat split; try assumption. exists blk'. split; [|reflexivity].
  cbn. apply list_lookup_insert_eq. eapply lookup_lt_Some, Hb.
Qed.

Lemma pblk_page_pad_invalidate_ok st b cs a :
  pad_state st b cs ->
  exists st', pblk_page_pad_invalidate st b a = Some st' /\
              pad_state st' b cs /\ pad_step st st'.
Proof.
  intros Hst. pose proof Hst as (Ha & Hs & blk & Hb & Hcs).
  unfold pblk_page_pad_invalidate. rewrite Hb. cbn [mbind option_bind].
  set (blk2 := blk_set_sync _ _).
  destruct (pad_set_block st b cs blk2 Hst) as [S1 T1].
  change (cur_sec blk2) with (cur_sec blk) in S1. rewrite Hcs in S1.
  destruct (bitmap_full _ _).
  - eexists. split; [reflexivity|].
    destruct (pad_run_blk_ws _ b cs (WsCloseBlk b) S1) as [S2 T2].
    split; [exact S2 | exact (pad_step_trans _ _ _ T1 T2)].
  - eexists. split; [reflexivity|]. split; assumption.
Qed.

Lemma rq_frame_refl rqd :
  is_Some (rq_ppa_list rqd) -> is_Some (rq_meta_list rqd) -> rq_frame rqd rqd.
Proof. repeat split; assumption. Qed.

Lemma rq_frame_trans r1 r2 r3 : rq_frame r1 r2 -> rq_frame r2 r3 -> rq_frame r1 r3.
Proof.
  intros (A1 & B1 & C1 & D1 & E1) (A2 & B2 & C2 & D2 & E2).
  repeat split; try congruence; assumption.
Qed.

(** The inner loop of [pblk_map_page] on padding sectors. *)
Lemma pblk_map_page_loop_pad b cs sentry off nr n : forall i paddr st rqd,
  pad_state st b cs ->
  is_Some (rq_ppa_list rqd) -> is_Some (rq_meta_list rqd) ->
  0 <= i -> 0 <= paddr -> paddr + Z.of_nat n < 2 ^ 64 - 1 ->
  exists st' rqd',
    pblk_map_page_loop n i paddr st b sentry rqd (DstList off) nr 0
    = Some (st', rqd', 0) /\
    pad_state st' b cs /\ pad_step st st' /\ rq_frame rqd rqd'.
Proof.
  induction n as [|n IH]; intros i paddr st rqd Hst Hl Hm Hi Hp Hlim.
  - exists st, rqd. split; [reflexivity|].
    split; [exact Hst|]. split; [apply pad_step_refl | now apply rq_frame_refl].
  - cbn [pblk_map_page_loop].
    destruct (Z.eqb_spec paddr ADDR_EMPTY) as [He | _];
      [unfold ADDR_EMPTY in He; lia|].
    destruct Hl as [l Hl]. destruct Hm as [m Hm].
    unfold rq_store_ppa, rq_ppa_list_set. rewrite Hl. cbn [mbind option_bind].
    destruct (Z.ltb_spec i 0) as [|_]; [lia|].
    unfold rq_store_meta. cbn [rq_meta_list rq_with_ppas]. rewrite Hm.
    cbn [mbind option_bind].
    pose proof Hst as (Ha & Hs & blk & Hb & Hcs). rewrite Hb.
    cbn [mbind option_bind].
    set (blk1 := blk_set_rlpg blk _ _ _).
    destruct (pad_set_block st b cs blk1 Hst) as [S1 T1].
    change (cur_sec blk1) with (cur_sec blk) in S1. rewrite Hcs in S1.
    destruct (pblk_page_pad_invalidate_ok _ b cs paddr S1) as (st2 & -> & S2 & T2).
    cbn [mbind option_bind].
    pose proof S2 as (_ & _ & blk2 & Hb2 & Hcs2). rewrite Hb2.
    cbn [mbind option_bind].
    set (blk3 := blk_set_rlpg blk2 _ _ _).
    destruct (pad_set_block st2 b cs blk3 S2) as [S3 T3].
    change (cur_sec blk3) with (cur_sec blk2) in S3. rewrite Hcs2 in S3.
    rewrite to_ulong_id by lia.
    set (rqd2 := rq_with_meta _ _).
    destruct (IH (i + 1) (paddr + 1) _ rqd2 S3) as (st' & rqd' & Hrun & S4 & T4 & F4);
      try lia; try (unfold rqd2; cbn; eauto).
    exists st', rqd'. split; [exact Hrun|]. split; [exact S4|].
    split.
    + eapply pad_step_trans; [exact T1|].
      eapply pad_step_trans; [exact T2|].
      eapply pad_step_trans; [exact T3 | exact T4].
    + eapply rq_frame_trans; [|exact F4].
      unfold rqd2. repeat split; cbn; eauto.
Qed.

(** Mapping one page of padding: [min_write_pgs] more sectors of the
    block are allocated. *)
Lemma pblk_map_page_pad st b cs sentry off rqd :
  pad_state st b cs ->
  is_Some (rq_ppa_list rqd) -> is_Some (rq_meta_list rqd) ->
  0 <= cs < nr_blk_dsecs (geo st) -> nr_blk_dsecs (geo st) < 2 ^ 31 ->
  0 < min_write_pgs (geo st) < 2 ^ 31 ->
  exists st' rqd',
    pblk_map_page st b sentry rqd (DstList off) (min_write_pgs (geo st)) 0
    = Some (st', rqd', 0) /\
    pad_state st' b (cs + min_write_pgs (geo st)) /\ pad_step st st' /\
    rq_frame rqd rqd'.
Proof.
  intros Hst Hl Hm Hcs HD Hmin.
  pose proof Hst as (Ha & Hs & blk & Hb & Hcur).
  unfold pblk_map_page. rewrite Hb. cbn [mbind option_bind].
  unfold pblk_alloc_page, block_is_full. rewrite Hcur.
  destruct (Z.leb_spec (nr_blk_dsecs (geo st)) cs) as [|_]; [lia|].
  unfold pblk_next_base_sec. rewrite Hcur.
  set (blk1 := blk_set_alloc _ _ _).
  destruct (pad_set_block st b cs blk1 Hst) as [S1 T1].
  change (cur_sec blk1) with (cs + min_write_pgs (geo st)) in S1.
  destruct (pblk_map_page_loop_pad b (cs + min_write_pgs (geo st)) sentry off
              (min_write_pgs (geo st)) (Z.to_nat (min_write_pgs (geo st)))
              0 cs _ rqd S1 Hl Hm) as (st' & rqd' & Hrun & S2 & T2 & F2); try lia.
  exists st', rqd'. split; [exact Hrun|]. split; [exact S2|].
  split; [exact (pad_step_trans _ _ _ T1 T2) | exact F2].
Qed.

(** The page loop of [pblk_setup_pad_rq]: [nr_secs] sectors, a multiple
    of [min_write_pgs], are mapped page by page. *)
Lemma pblk_setup_pad_rq_loop_pad g b c cs0 q fuel : forall k st rqd,
  geo st = g ->
  pad_state st b (cs0 + min_write_pgs g * k) ->
  is_Some (rq_ppa_list rqd) -> is_Some (rq_meta_list rqd) ->
  0 < min_write_pgs g < 2 ^ 31 -> nr_blk_dsecs g < 2 ^ 31 ->
  0 <= cs0 -> 0 <= k <= q -> cs0 + min_write_pgs g * q <= nr_blk_dsecs g ->
  (Z.to_nat (q - k) <= fuel)%nat ->
  exists st' rqd',
    pblk_setup_pad_rq_loop fuel (min_write_pgs g * k) st b rqd c (min_write_pgs g * q)
    = Some (st', rqd') /\
    pad_state st' b (cs0 + min_write_pgs g * q) /\ pad_step st st' /\
    rq_frame rqd rqd'.
Proof.
  induction fuel as [|fuel IH]; intros k st rqd Hg Hst Hl Hm Hmin HD Hcs Hk Hfit Hfuel.
  - assert (k = q) by lia. subst k. cbn.
    destruct (Z.ltb_spec (min_write_pgs g * q) (min_write_pgs g * q)); [lia|].
    exists st, rqd. split; [reflexivity|]. split; [exact Hst|].
    split; [apply pad_step_refl | now apply rq_frame_refl].
  - cbn [pblk_setup_pad_rq_loop].
    destruct (Z.ltb_spec (min_write_pgs g * k) (min_write_pgs g * q)) as [Hlt | Hge];
      cbn [negb].
    + assert (k < q) by nia.
      rewrite Hg.
      destruct (pblk_map_page_pad st b (cs0 + min_write_pgs g * k)
                  (sentry c + min_write_pgs g * k) (min_write_pgs g * k) rqd Hst Hl Hm)
        as (st1 & rqd1 & Hrun & S1 & T1 & F1); rewrite ?Hg; try nia.
      rewrite Hg in Hrun. rewrite Hrun. cbn [mbind option_bind negb Z.eqb].
      replace (min_write_pgs g * k + min_write_pgs g) with (min_write_pgs g * (k + 1))
        by lia.
      rewrite Hg in S1.
      replace (cs0 + min_write_pgs g * k + min_write_pgs g)
        with (cs0 + min_write_pgs g * (k + 1)) in S1 by lia.
      destruct (IH (k + 1) st1 rqd1) as (st' & rqd' & Hrun2 & S2 & T2 & F2);
        try assumption; try lia.
      * destruct T1 as (Hg1 & _). congruence.
      * apply F1.
      * apply F1.
      * exists st', rqd'. split; [exact Hrun2|]. split; [exact S2|].
        split; [exact (pad_step_trans _ _ _ T1 T2) | exact (rq_frame_trans _ _ _ F1 F2)].
    + assert (k = q) by nia. subst k.
      exists st, rqd. split; [reflexivity|]. split; [exact Hst|].
      split; [apply pad_step_refl | now apply rq_frame_refl].
Qed.

(** [pblk_setup_pad_rq] on a batch of [n = min * q] padding sectors,
    [n <> 1]. *)
Lemma pblk_setup_pad_rq_pad st b cs0 q rqd fl :
  rq_w_ctx rqd = {| ctx_flags := fl;
                    c_ctx := CCompl {| sentry := 0; nr_valid := 0;
                                       nr_padded := min_write_pgs (geo st) * q |} |} ->
  pad_state st b cs0 ->
  0 < min_write_pgs (geo st) < 2 ^ 31 -> nr_blk_dsecs (geo st) < 2 ^ 31 ->
  0 <= cs0 -> 0 <= q -> min_write_pgs (geo st) * q <> 1 ->
  cs0 + min_write_pgs (geo st) * q <= nr_blk_dsecs (geo st) ->
  exists st' rqd',
    pblk_setup_pad_rq st b rqd = Some (st', rqd', 0) /\
    pad_state st' b (cs0 + min_write_pgs (geo st) * q) /\ pad_step st st' /\
    rq_w_ctx rqd' = rq_w_ctx rqd /\
    rq_nr_ppas rqd' = min_write_pgs (geo st) * q /\
    rq_bio rqd' = rq_bio rqd.
Proof.
  intros Hctx Hst Hmin HD Hcs Hq Hne Hfit.
  pose proof Hst as (Ha & Hs & blk & Hb & Hcur).
  unfold pblk_setup_pad_rq, compl_ctx_of. rewrite Hctx.
  cbn [c_ctx mbind option_bind nr_valid nr_padded sentry]. rewrite Z.add_0_l.
  set (n := min_write_pgs (geo st) * q) in *.
  unfold pblk_alloc_w_rq. rewrite try_alloc_nil by exact Ha.
  cbn [negb].
  destruct (Z.eqb_spec n 1) as [|_]; [contradiction|].
  set (st1 := emit st EvDmaAlloc).
  assert (S1 : pad_state st1 b cs0 /\ pad_step st st1)
    by (apply pad_emit; [exact Hst | discriminate]).
  destruct S1 as [S1 T1].
  rewrite try_alloc_nil by apply S1. cbn [negb].
  set (st2 := emit st1 EvDmaAlloc).
  assert (S2 : pad_state st2 b cs0 /\ pad_step st1 st2)
    by (apply pad_emit; [exact S1 | discriminate]).
  destruct S2 as [S2 T2].
  cbn [negb Z.eqb].
  set (rqd1 := rq_with_ppas _ _ _).
  destruct (pblk_setup_pad_rq_loop_pad (geo st) b
              {| sentry := 0; nr_valid := 0; nr_padded := n |} cs0 q (Z.to_nat n)
              0 st2 rqd1) as (st' & rqd' & Hrun & S3 & T3 & F3);
    try assumption; try lia; try reflexivity.
  - rewrite Z.mul_0_r, Z.add_0_r. exact S2.
  - unfold rqd1. cbn. eauto.
  - unfold rqd1. cbn. eauto.
  - unfold n. nia.
  - rewrite Z.mul_0_r in Hrun. fold n in Hrun, S3. rewrite Hrun.
    cbn [mbind option_bind].
    exists st', rqd'. split; [reflexivity|]. split; [exact S3|].
    split; [exact (pad_step_trans _ _ _ (pad_step_trans _ _ _ T1 T2) T3)|].
    destruct F3 as (A & B & C & _).
    rewrite A, B, C. unfold rqd1. cbn. auto.
Qed.








(** The whole first loop on the three open blocks of the example: only
    block 2 is padded with sectors (one batch of four), and block 1 has
    left the open list. *)
Example pblk_pad_open_blks_ex :
  match pblk_pad_open_blks_luns 1 O ex_pblk_teardown with
  | Some st' =>
      map rq_nr_ppas (submits (log st')) = [0; 4] /\
      open_list <$> luns st' !! O = Some [O; 2%nat] /\
      map cur_sec (blocks st') = [16; 0; 16] /\
      map rlpg_nr_padded (blocks st') = [0; 0; 4]
  | None => False
  end.
Proof. vm_compute. repeat split. Qed.

(* ------------------------------------------------------------------ *)
(** ** A write followed by reads *)
(* ------------------------------------------------------------------ *)

(** Scenario S1, first half: a one-sector write to LBA 5 is admitted; the
    L2P entry then points to ring slot 0, and a read of LBA 5 is served
    from the ring with the payload written, the pin being released.  (The
    second half of the scenario, the read from the device once the sector
    has left the ring, runs through the ring-buffer code that moves the
    L2P entry to the device address.) *)
Example write_then_cached_read :
  let b := ex_bio true 5 1 [[Byte.x41]] in
  match pblk_buffer_write [] ex_pblk b io_none with
  | Some (st1, _, ret) =>
      ret = NVM_IO_DONE /\ write_inflight st1 = 1 /\
      trans_map st1 !! 5%nat = Some {| ppa := PPA_CACHE 0 false; rblk := None |} /\
      match pblk_submit_read st1 (ex_bio false 5 1 [[]]) io_none with
      | Some (st2, rb, ret2) =>
          ret2 = NVM_IO_OK /\ bi_io_vec rb = [[Byte.x41]] /\
          submits (log st2) = [] /\ trans_map st2 = trans_map st1
      | None => False
      end
  | None => False
  end.
Proof. vm_compute. repeat split. Qed.

(* ================================================================== *)
(** * Further properties of the code *)
(* ================================================================== *)

(* ------------------------------------------------------------------ *)
(** ** The size of a media write *)
(* ------------------------------------------------------------------ *)

(** X1.  Page granularity.  When [min_write_pgs] divides
    [max_write_pgs], the number of sectors [pblk_calc_secs_to_sync] asks
    the writer to send is a multiple of [min_write_pgs] between 0 and
    [max_write_pgs], whatever the ring holds. *)
Theorem pblk_calc_secs_to_sync_page_multiple pblk avail flush :
  0 < min_write_pgs pblk -> 0 < max_write_pgs pblk ->
  (min_write_pgs pblk | max_write_pgs pblk) ->
  max_write_pgs pblk + min_write_pgs pblk < 2 ^ 31 ->
  0 <= avail < 2 ^ 64 -> 0 <= flush < 2 ^ 64 ->
  exists r,
    pblk_calc_secs_to_sync pblk avail flush = Some r /\
    0 <= r <= max_write_pgs pblk /\ (min_write_pgs pblk | r).
Proof.
  intros Hmin Hmax Hdiv Hsum Hav Hfl.
  rewrite pblk_calc_secs_to_sync_cases by assumption.
  set (mx := max_write_pgs pblk) in *. set (mn := min_write_pgs pblk) in *.
  eexists. split; [reflexivity|].
  pose proof (mul_div_le_self mn avail Hmin (proj1 Hav)) as Ha.
  pose proof (mul_div_le_self mn flush Hmin (proj1 Hfl)) as Hf.
  assert (Da : (mn | mn * (avail / mn))) by (exists (avail / mn); lia).
  assert (Df : (mn | mn * (flush / mn))) by (exists (flush / mn); lia).
  destruct ((mx <=? avail) || (mx <=? flush)) eqn:Hbig.
  - split; [lia | exact Hdiv].
  - apply orb_false_iff in Hbig as [H1 H2]. apply Z.leb_gt in H1, H2.
    destruct (mn <=? avail); destruct (0 <? flush).
    + split; [lia|]. destruct (Z.max_spec (mn * (flush / mn)) (mn * (avail / mn)))
        as [[_ ->] | [_ ->]]; assumption.
    + split; [lia | exact Da].
    + split; [|apply Z.divide_refl].
      destruct Hdiv as [k Hk]. assert (1 <= k) by nia. nia.
    + split; [lia | apply Z.divide_0_r].
Qed.

Lemma pblk_calc_secs_to_sync_page_multiple_witness :
  let pblk := {| max_write_pgs := 64; min_write_pgs := 4;
                 nr_blk_dsecs := 256; sec_per_pl := 4 |} in
  exists r,
    pblk_calc_secs_to_sync pblk 5 11 = Some r /\
    0 <= r <= 64 /\ (4 | r).
Proof.
  intros pblk.
  apply (pblk_calc_secs_to_sync_page_multiple pblk 5 11); cbn; try lia.
  exists 16. reflexivity.
Defined.

(** X2.  A pending flush always makes progress, and nothing is padded
    without one.  With sectors to flush the result is at least
    [min_write_pgs], so the [BUG_ON(!secs_to_sync && secs_to_flush)] of
    the function cannot fire; with no flush pending the result never
    exceeds the sectors available, and it is 0 exactly when fewer than
    [min_write_pgs] sectors are available. *)
Theorem pblk_calc_secs_to_sync_flush_progress pblk avail flush :
  0 < min_write_pgs pblk -> min_write_pgs pblk <= max_write_pgs pblk ->
  max_write_pgs pblk + min_write_pgs pblk < 2 ^ 31 ->
  0 <= avail < 2 ^ 64 -> 0 <= flush < 2 ^ 64 ->
  exists r,
    pblk_calc_secs_to_sync pblk avail flush = Some r /\
    (0 < flush -> min_write_pgs pblk <= r) /\
    (flush = 0 -> r <= avail /\ (r = 0 <-> avail < min_write_pgs pblk)).
Proof.
  intros Hmin Hle Hsum Hav Hfl.
  rewrite pblk_calc_secs_to_sync_cases by (assumption || lia).
  set (mx := max_write_pgs pblk) in *. set (mn := min_write_pgs pblk) in *.
  eexists. split; [reflexivity|].
  pose proof (mul_div_le_self mn avail Hmin (proj1 Hav)) as Ha.
  assert (Hq : mn <= avail -> mn <= mn * (avail / mn)).
  { intros H. assert (1 <= avail / mn) by (apply Z.div_le_lower_bound; lia). nia. }
  split.
  - intros Hpos. apply Z.ltb_lt in Hpos as Hb. rewrite Hb.
    destruct ((mx <=? avail) || (mx <=? flush)); [lia|].
    destruct (Z.leb_spec mn avail); [|lia].
    specialize (Hq ltac:(assumption)). lia.
  - intros ->. cbn [Z.ltb Z.compare].
    assert (Hm0 : (mx <=? 0) = false) by (apply Z.leb_gt; lia).
    rewrite Hm0, orb_false_r.
    destruct (Z.leb_spec mx avail).
    + split; [lia|]. split; lia.
    + destruct (Z.leb_spec mn avail).
      * specialize (Hq ltac:(assumption)). split; [lia|]. split; lia.
      * split; [lia|]. split; [lia | reflexivity].
Qed.

Lemma pblk_calc_secs_to_sync_flush_progress_witness :
  let pblk := {| max_write_pgs := 64; min_write_pgs := 4;
                 nr_blk_dsecs := 256; sec_per_pl := 4 |} in
  exists r,
    pblk_calc_secs_to_sync pblk 2 1 = Some r /\
    (0 < 1 -> 4 <= r) /\
    (1 = 0 -> r <= 2 /\ (r = 0 <-> 2 < 4)).
Proof.
  intros pblk.
  apply (pblk_calc_secs_to_sync_flush_progress pblk 2 1); cbn; lia.
Defined.

(* ------------------------------------------------------------------ *)
(** ** Completion and the in-flight counter *)
(* ------------------------------------------------------------------ *)

Lemma write_inflight_run_blk_ws st w :
  write_inflight (pblk_run_blk_ws st w) = write_inflight st.
Proof.
  unfold pblk_run_blk_ws, try_alloc.
  destruct (alloc_script st) as [|[] rest]; reflexivity.
Qed.

Lemma write_inflight_sync_buffer st rb a st' :
  pblk_sync_buffer st rb a = Some st' -> write_inflight st' = write_inflight st.
Proof.
  unfold pblk_sync_buffer.
  destruct rb as [b|]; [|discriminate]. cbn [mbind option_bind].
  destruct (blocks st !! b) as [blk|]; [|discriminate]. cbn [mbind option_bind].
  destruct (bitmap_full _ _); intros [= <-];
    [rewrite write_inflight_run_blk_ws|]; reflexivity.
Qed.

Lemma write_inflight_end_w_bio_entries n : forall i st c st',
  pblk_end_w_bio_entries n i st c = Some st' -> write_inflight st' = write_inflight st.
Proof.
  induction n as [|n IH]; intros i st c st' H; cbn [pblk_end_w_bio_entries] in H.
  - now injection H as <-.
  - destruct (pblk_rb_w_ctx (rwb st) (sentry c + i)) as [w|]; [|discriminate].
    cbn [mbind option_bind] in H.
    destruct (pblk_sync_buffer st (rblk (w_ppa w)) (w_paddr w)) as [st1|] eqn:Hs;
      [|discriminate].
    cbn [mbind option_bind] in H.
    apply write_inflight_sync_buffer in Hs.
    apply IH in H. rewrite H.
    destruct (w_bio w); cbn; exact Hs.
Qed.

Lemma write_inflight_end_w_bio st rqd ctx st' pos :
  pblk_end_w_bio st rqd ctx = Some (st', pos) -> write_inflight st' = write_inflight st.
Proof.
  unfold pblk_end_w_bio.
  destruct (compl_ctx_of ctx) as [c|]; [|discriminate]. cbn [mbind option_bind].
  destruct (pblk_end_w_bio_entries _ 0 st c) as [st1|] eqn:He; [|discriminate].
  cbn [mbind option_bind]. apply write_inflight_end_w_bio_entries in He.
  unfold pblk_rb_sync_advance.
  intros [= <- _].
  destruct (1 <? to_int (nr_valid c)); destruct (rq_meta_list rqd); cbn; exact He.
Qed.

Lemma write_inflight_compl_drain fuel : forall st pos st' pos',
  pblk_compl_drain fuel st pos = Some (st', pos') -> write_inflight st' = write_inflight st.
Proof.
  induction fuel as [|fuel IH]; intros st pos st' pos' H; [discriminate|].
  cbn [pblk_compl_drain] in H.
  destruct (list_find _ (compl_list st)) as [[i r]|].
  - destruct (pblk_end_queued_w_bio st i r) as [[st1 pos1]|] eqn:Hq; [|discriminate].
    cbn [mbind option_bind] in H.
    apply IH in H. rewrite H.
    unfold pblk_end_queued_w_bio in Hq. now apply write_inflight_end_w_bio in Hq.
  - now injection H as <- _.
Qed.

(** X3.  Every completed write gives its [nr_valid] sectors back to
    [write_inflight] exactly once: the counter drops by the [nr_valid] of
    the completing request whether that request is retired now or parked
    on [compl_list], and the parked requests that the same call retires
    do not change it again. *)
Theorem pblk_compl_queue_write_inflight st rqd ctx c :
  compl_ctx_of ctx = Some c ->
  compl_ctx_ok st (rq_with_w_ctx rqd ctx) = true ->
  forallb (compl_ctx_ok st) (compl_list st) = true ->
  exists st',
    pblk_compl_queue st rqd ctx = Some st' /\
    write_inflight st' = to_int (write_inflight st - nr_valid c).
Proof.
  intros Hc Hnew Hq.
  destruct (compl_ctx_ok_inv st _ c Hnew Hc) as [Hn Hmap].
  assert (Hq' : Forall (fun r => compl_ctx_ok st r = true) (compl_list st)).
  { apply Forall_forall. intros x Hx.
    rewrite forallb_forall in Hq. apply Hq. now apply list_elem_of_In. }
  clear Hq.
  unfold pblk_compl_queue. rewrite Hc. cbn [mbind option_bind].
  set (st1 := with_write_inflight st _).
  set (st2 := if wait_active st1 then emit st1 EvWakeUpAll else st1).
  assert (F2 : retire_frame st st2 /\
               write_inflight st2 = to_int (write_inflight st - nr_valid c)).
  { unfold st2. destruct (wait_active st1); split; try reflexivity.
    - eapply retire_frame_trans; [|apply retire_frame_emit; discriminate].
      repeat split.
    - repeat split. }
  destruct F2 as ((Hcl2 & Hsy2 & Hre2 & _ & Hem2) & Hw2).
  destruct (sentry c =? pblk_rb_sync_init (rwb st2)).
  - destruct (pblk_end_w_bio_ok st2 rqd ctx c Hc Hn) as
      (st3 & Hrun & Hcl3 & Hsy3 & Hre3 & Hem3).
    { intros k Hk. rewrite Hem2. now apply Hmap. }
    rewrite Hrun. cbn [mbind option_bind].
    destruct (pblk_compl_drain_ok (S (length (compl_list st3))) st3) as
      (st' & drained & Hdr & _); [lia | |].
    { rewrite Hcl3, Hcl2. eapply Forall_impl; [exact Hq'|].
      intros x Hx. cbn in Hx.
      rewrite (compl_ctx_ok_frame st2 st3 x Hem3), (compl_ctx_ok_frame st st2 x Hem2).
      exact Hx. }
    rewrite Hsy3 in Hdr at 1. rewrite Hdr. cbn [fmap option_fmap option_map fst].
    exists st'. split; [reflexivity|].
    apply write_inflight_compl_drain in Hdr.
    apply write_inflight_end_w_bio in Hrun. congruence.
  - eexists. split; [reflexivity|]. exact Hw2.
Qed.

Lemma pblk_compl_queue_write_inflight_witness :
  exists st',
    pblk_compl_queue ex_pblk_inflight (ex_write_rqd 0 1) (rq_w_ctx (ex_write_rqd 0 1))
    = Some st' /\
    write_inflight st' = to_int (write_inflight ex_pblk_inflight - 1).
Proof.
  apply (pblk_compl_queue_write_inflight ex_pblk_inflight (ex_write_rqd 0 1)
           (rq_w_ctx (ex_write_rqd 0 1))
           {| sentry := 0; nr_valid := 1; nr_padded := 0 |});
    vm_compute; reflexivity.
Defined.

(* ------------------------------------------------------------------ *)
(** ** DMA buffers of write requests *)
(* ------------------------------------------------------------------ *)

Lemma count_ev_app f l1 l2 : count_ev f (l1 ++ l2) = count_ev f l1 + count_ev f l2.
Proof. induction l1 as [|ev l1 IH]; cbn; [reflexivity | rewrite IH; lia]. Qed.

Lemma count_ev_emit f st ev :
  count_ev f (log (emit st ev)) = count_ev f (log st) + (if f ev then 1 else 0).
Proof. cbn. rewrite count_ev_app. cbn. lia. Qed.

Lemma dma_only_alloc : dma_only is_dma_alloc.
Proof. intros [] H; try discriminate; auto. Qed.

Lemma dma_only_free : dma_only is_dma_free.
Proof. intros [] H; try discriminate; auto. Qed.

Lemma quiet_refl f st : quiet f st st.
Proof. reflexivity. Qed.

Lemma quiet_trans f st1 st2 st3 : quiet f st1 st2 -> quiet f st2 st3 -> quiet f st1 st3.
Proof. unfold quiet. congruence. Qed.

Lemma quiet_emit f st ev :
  dma_only f -> ev <> EvDmaAlloc -> ev <> EvDmaFree -> quiet f st (emit st ev).
Proof.
  intros Hf H1 H2. unfold quiet. rewrite count_ev_emit.
  destruct (f ev) eqn:E; [|lia]. destruct (Hf _ E); contradiction.
Qed.

Lemma quiet_try_alloc f st : quiet f st (snd (try_alloc st)).
Proof. unfold try_alloc. destruct (alloc_script st); reflexivity. Qed.

Lemma quiet_run_blk_ws f st w : dma_only f -> quiet f st (pblk_run_blk_ws st w).
Proof.
  intros Hf. unfold pblk_run_blk_ws.
  pose proof (quiet_try_alloc f st) as H.
  destruct (try_alloc st) as [ok st1]. cbn in H.
  destruct ok; (eapply quiet_trans; [exact H|]); apply quiet_emit;
    auto; discriminate.
Qed.

Lemma quiet_sync_buffer f st rb a st' :
  dma_only f -> pblk_sync_buffer st rb a = Some st' -> quiet f st st'.
Proof.
  intros Hf. unfold pblk_sync_buffer.
  destruct rb as [b|]; [|discriminate]. cbn [mbind option_bind].
  destruct (blocks st !! b) as [blk|]; [|discriminate]. cbn [mbind option_bind].
  destruct (bitmap_full _ _); intros [= <-]; [|reflexivity].
  eapply quiet_trans; [|apply quiet_run_blk_ws, Hf]. reflexivity.
Qed.

Lemma quiet_end_w_bio_entries f n : forall i st c st',
  dma_only f -> pblk_end_w_bio_entries n i st c = Some st' -> quiet f st st'.
Proof.
  induction n as [|n IH]; intros i st c st' Hf H; cbn [pblk_end_w_bio_entries] in H.
  - injection H as <-. reflexivity.
  - destruct (pblk_rb_w_ctx (rwb st) (sentry c + i)) as [w|]; [|discriminate].
    cbn [mbind option_bind] in H.
    destruct (pblk_sync_buffer st (rblk (w_ppa w)) (w_paddr w)) as [st1|] eqn:Hs;
      [|discriminate].
    cbn [mbind option_bind] in H.
    apply (quiet_sync_buffer f) in Hs; [|exact Hf].
    apply IH in H; [|exact Hf].
    eapply quiet_trans; [exact Hs|]. eapply quiet_trans; [|exact H].
    destruct (w_bio w) as [ob|]; [|reflexivity].
    unfold quiet. cbn [log with_rwb]. apply (quiet_emit f st1 (EvBioEndio ob) Hf);
      discriminate.
Qed.

(** What [pblk_end_w_bio] gives back: the address list when more than one
    sector was valid, the metadata list when the request has one. *)
Lemma pblk_end_w_bio_dma_frees st rqd ctx c st' pos :
  compl_ctx_of ctx = Some c ->
  pblk_end_w_bio st rqd ctx = Some (st', pos) ->
  dma_frees st' = dma_frees st
                  + (if 1 <? to_int (nr_valid c) then 1 else 0)
                  + (match rq_meta_list rqd with Some _ => 1 | None => 0 end).
Proof.
  intros Hc. unfold pblk_end_w_bio. rewrite Hc. cbn [mbind option_bind].
  destruct (pblk_end_w_bio_entries _ 0 st c) as [st1|] eqn:He; [|discriminate].
  cbn [mbind option_bind].
  apply (quiet_end_w_bio_entries is_dma_free) in He; [|exact dma_only_free].
  unfold pblk_rb_sync_advance. intros [= <- _].
  unfold dma_frees, pblk_free_rqd. unfold quiet in He.
  destruct (1 <? to_int (nr_valid c)); destruct (rq_meta_list rqd);
    rewrite !count_ev_emit; cbn [log with_rwb is_dma_free];
    rewrite ?count_ev_emit; cbn [log with_rwb is_dma_free]; lia.
Qed.

(** What [pblk_alloc_w_rq] obtains when it succeeds: the metadata list,
    and the address list unless the request has exactly one sector. *)
Lemma pblk_alloc_w_rq_dma_allocs st rqd nr_secs st' rqd' :
  pblk_alloc_w_rq st rqd nr_secs = (st', rqd', 0) ->
  dma_allocs st' = dma_allocs st + (if nr_secs =? 1 then 1 else 2) /\
  dma_frees st' = dma_frees st /\
  is_Some (rq_meta_list rqd') /\ rq_nr_ppas rqd' = nr_secs /\
  rq_w_ctx rqd' = rq_w_ctx rqd.
Proof.
  unfold pblk_alloc_w_rq, dma_allocs, dma_frees.
  pose proof (quiet_try_alloc is_dma_alloc st) as Qa.
  pose proof (quiet_try_alloc is_dma_free st) as Qf.
  destruct (try_alloc st) as [ok st1]. cbn [snd] in Qa, Qf. unfold quiet in Qa, Qf.
  destruct ok; cbn [negb]; [|intros [=]].
  destruct (nr_secs =? 1).
  - intros [= <- <-]. rewrite !count_ev_emit. cbn. split; [lia|]. split; [lia|].
    split; [eauto | split; reflexivity].
  - pose proof (quiet_try_alloc is_dma_alloc (emit st1 EvDmaAlloc)) as Qa2.
    pose proof (quiet_try_alloc is_dma_free (emit st1 EvDmaAlloc)) as Qf2.
    destruct (try_alloc (emit st1 EvDmaAlloc)) as [ok2 st3].
    cbn [snd] in Qa2, Qf2. unfold quiet in Qa2, Qf2.
    rewrite count_ev_emit in Qa2, Qf2. cbn in Qa2, Qf2.
    destruct ok2; cbn [negb]; [|intros [=]].
    intros [= <- <-]. rewrite !count_ev_emit. cbn. split; [lia|]. split; [lia|].
    split; [eauto | split; reflexivity].
Qed.

(** X4.  DMA buffers of a data write.  [pblk_alloc_w_rq] obtains the
    address list unless the request has exactly one sector
    ([nr_valid + nr_padded]), but [pblk_end_w_bio] gives it back only when
    more than one sector was valid.  So a completed write with two or
    more valid sectors, or with a single sector and no padding, gives
    back every buffer it obtained, while a write of one valid sector with
    padding obtains two buffers and gives back one: its address list
    stays allocated. *)
Theorem pblk_end_w_bio_dma_balance st rqd ctx c st1 rqd1 st2 :
  compl_ctx_of ctx = Some c ->
  0 <= nr_valid c < 2 ^ 31 -> 0 <= nr_padded c ->
  pblk_alloc_w_rq st rqd (nr_valid c + nr_padded c) = (st1, rqd1, 0) ->
  (forall k, (k < Z.to_nat (nr_valid c))%nat ->
     entry_mapped st2 (sentry c + Z.of_nat k) = true) ->
  exists st3,
    pblk_end_w_bio st2 rqd1 ctx = Some (st3, rb_sync (rwb st2) + nr_valid c) /\
    (2 <= nr_valid c ->
       dma_allocs st1 = dma_allocs st + 2 /\ dma_frees st3 = dma_frees st2 + 2) /\
    (nr_valid c = 1 -> nr_padded c = 0 ->
       dma_allocs st1 = dma_allocs st + 1 /\ dma_frees st3 = dma_frees st2 + 1) /\
    (nr_valid c <= 1 -> nr_valid c + nr_padded c <> 1 ->
       dma_allocs st1 = dma_allocs st + 2 /\ dma_frees st3 = dma_frees st2 + 1).
Proof.
  intros Hc Hv Hp Hal Hmap.
  destruct (pblk_end_w_bio_ok st2 rqd1 ctx c Hc Hv Hmap) as (st3 & Hrun & _).
  exists st3. split; [exact Hrun|].
  apply (pblk_end_w_bio_dma_frees _ _ _ c) in Hrun; [|exact Hc].
  apply pblk_alloc_w_rq_dma_allocs in Hal as (Ha & _ & [m Hm] & _).
  rewrite Hm, to_int_id in Hrun by lia.
  refine (conj _ (conj _ _)).
  - intros H2. destruct (Z.eqb_spec (nr_valid c + nr_padded c) 1); [lia|].
    destruct (Z.ltb_spec 1 (nr_valid c)); lia.
  - intros H1 H0. destruct (Z.eqb_spec (nr_valid c + nr_padded c) 1); [|lia].
    destruct (Z.ltb_spec 1 (nr_valid c)); lia.
  - intros H1 Hne. destruct (Z.eqb_spec (nr_valid c + nr_padded c) 1); [lia|].
    destruct (Z.ltb_spec 1 (nr_valid c)); lia.
Qed.

Lemma pblk_end_w_bio_dma_balance_witness :
  let c := {| sentry := 0; nr_valid := 1; nr_padded := 1 |} in
  let ctx := {| ctx_flags := io_none; c_ctx := CCompl c |} in
  let rqd := rq_with_w_ctx rqd_zero ctx in
  let st1 := fst (fst (pblk_alloc_w_rq ex_pblk rqd 2)) in
  let rqd1 := snd (fst (pblk_alloc_w_rq ex_pblk rqd 2)) in
  let st2 := ex_pblk_inflight in
  exists st3,
    pblk_end_w_bio st2 rqd1 ctx = Some (st3, rb_sync (rwb st2) + 1) /\
    (2 <= 1 ->
       dma_allocs st1 = dma_allocs ex_pblk + 2 /\ dma_frees st3 = dma_frees st2 + 2) /\
    (1 = 1 -> 1 = 0 ->
       dma_allocs st1 = dma_allocs ex_pblk + 1 /\ dma_frees st3 = dma_frees st2 + 1) /\
    (1 <= 1 -> 1 + 1 <> 1 ->
       dma_allocs st1 = dma_allocs ex_pblk + 2 /\ dma_frees st3 = dma_frees st2 + 1).
Proof.
  intros c ctx rqd st1 rqd1 st2.
  apply (pblk_end_w_bio_dma_balance ex_pblk rqd ctx c st1 rqd1 st2);
    try reflexivity; try (cbn; lia).
  intros k Hk. destruct k as [|k]; [reflexivity | cbn in Hk; lia].
Defined.

Lemma quiet_page_pad_invalidate f st b a st' :
  dma_only f -> pblk_page_pad_invalidate st b a = Some st' -> quiet f st st'.
Proof.
  intros Hf. unfold pblk_page_pad_invalidate.
  destruct (blocks st !! b) as [blk|]; [|discriminate]. cbn [mbind option_bind].
  destruct (bitmap_full _ _); intros [= <-]; [|reflexivity].
  eapply quiet_trans; [|apply quiet_run_blk_ws, Hf]. reflexivity.
Qed.

Lemma quiet_map_page_loop f n : forall i paddr st b sentry rqd dst nr v st' rqd' ret,
  dma_only f ->
  pblk_map_page_loop n i paddr st b sentry rqd dst nr v = Some (st', rqd', ret) ->
  quiet f st st'.
Proof.
  induction n as [|n IH]; intros i paddr st b sentry rqd dst nr v st' rqd' ret Hf H;
    cbn [pblk_map_page_loop] in H.
  - injection H as <- _ _. reflexivity.
  - destruct (paddr =? ADDR_EMPTY).
    { injection H as <- _ _. apply quiet_emit; auto; discriminate. }
    destruct (rq_store_ppa rqd dst i _) as [rqd1|]; [|discriminate].
    cbn [mbind option_bind] in H.
    match type of H with
    | (?m ≫= _) = _ => destruct m as [[st2 rqd2]|] eqn:Hm; [|discriminate]
    end.
    cbn [mbind option_bind] in H.
    apply IH in H; [|exact Hf]. eapply quiet_trans; [|exact H]. clear H.
    destruct (i <? v).
    + destruct (pblk_rb_w_ctx (rwb st) (sentry + i)) as [w|]; [|discriminate].
      cbn [mbind option_bind] in Hm.
      destruct (rq_store_meta rqd1 dst i (w_lba w)); [|discriminate].
      cbn [mbind option_bind] in Hm.
      match type of Hm with
      | (?m ≫= _) = _ => destruct m; [|discriminate]
      end.
      cbn [mbind option_bind] in Hm. injection Hm as <- _. reflexivity.
    + destruct (rq_store_meta rqd1 dst i ADDR_EMPTY); [|discriminate].
      cbn [mbind option_bind] in Hm.
      destruct (blocks st !! b) as [blk|]; [|discriminate].
      cbn [mbind option_bind] in Hm.
      match type of Hm with
      | (?m ≫= _) = _ => destruct m as [st1|] eqn:Hp; [|discriminate]
      end.
      cbn [mbind option_bind] in Hm.
      apply (quiet_page_pad_invalidate f) in Hp; [|exact Hf].
      destruct (blocks st1 !! b); [|discriminate].
      cbn [mbind option_bind] in Hm. injection Hm as <- _.
      exact Hp.
Qed.

Lemma quiet_map_page f st b sentry rqd dst nr v st' rqd' ret :
  dma_only f ->
  pblk_map_page st b sentry rqd dst nr v = Some (st', rqd', ret) -> quiet f st st'.
Proof.
  intros Hf. unfold pblk_map_page.
  destruct (blocks st !! b) as [blk|]; [|discriminate]. cbn [mbind option_bind].
  destruct (pblk_alloc_page st blk) as [paddr blk'].
  intros H. apply (quiet_map_page_loop f) in H; [|exact Hf]. exact H.
Qed.

Lemma quiet_setup_pad_rq_loop f n : forall i st b rqd c nr st' rqd',
  dma_only f ->
  pblk_setup_pad_rq_loop n i st b rqd c nr = Some (st', rqd') -> quiet f st st'.
Proof.
  induction n as [|n IH]; intros i st b rqd c nr st' rqd' Hf H;
    cbn [pblk_setup_pad_rq_loop] in H.
  - destruct (i <? nr); [discriminate|]. injection H as <- _. reflexivity.
  - destruct (i <? nr); cbn [negb] in H; [|injection H as <- _; reflexivity].
    destruct (pblk_map_page st b _ rqd _ _ 0) as [[[st1 rqd1] ret]|] eqn:Hm;
      [|discriminate].
    cbn [mbind option_bind] in H.
    destruct (ret =? 0); cbn [negb] in H; [|discriminate].
    apply IH in H; [|exact Hf].
    apply (quiet_map_page f) in Hm; [|exact Hf].
    eapply quiet_trans; eassumption.
Qed.

(** A pad request that has been set up holds two DMA buffers when it has
    more than one sector. *)
Lemma pblk_setup_pad_rq_dma_allocs st b rqd c st' rqd' :
  compl_ctx_of (rq_w_ctx rqd) = Some c ->
  nr_valid c + nr_padded c <> 1 ->
  pblk_setup_pad_rq st b rqd = Some (st', rqd', 0) ->
  dma_allocs st' = dma_allocs st + 2 /\ dma_frees st' = dma_frees st.
Proof.
  intros Hc Hne. unfold pblk_setup_pad_rq. rewrite Hc. cbn [mbind option_bind].
  destruct (pblk_alloc_w_rq st rqd _) as [[st1 rqd1] ret] eqn:Ha.
  destruct (Z.eqb_spec ret 0) as [-> | Hr]; cbn [negb];
    [|intros [= _ _ E]; congruence].
  apply pblk_alloc_w_rq_dma_allocs in Ha as (A & F & _).
  destruct (Z.eqb_spec (nr_valid c + nr_padded c) 1); [contradiction|].
  destruct (pblk_setup_pad_rq_loop _ 0 st1 b rqd1 c _) as [[st2 rqd2]|] eqn:Hl;
    [|discriminate].
  cbn [mbind option_bind]. intros [= <- _].
  pose proof (quiet_setup_pad_rq_loop is_dma_alloc _ _ _ _ _ _ _ _ _ dma_only_alloc Hl) as Qa.
  pose proof (quiet_setup_pad_rq_loop is_dma_free _ _ _ _ _ _ _ _ _ dma_only_free Hl) as Qf.
  unfold quiet in Qa, Qf. unfold dma_allocs, dma_frees in *. lia.
Qed.

(** X5.  DMA buffers of a pad request.  A pad request of two or more
    sectors that [pblk_setup_pad_rq] has set up holds two DMA buffers, the
    metadata list and the address list; [pblk_end_w_pad], which completes
    it, gives back one.  The metadata list of a pad request is never
    freed. *)
Theorem pblk_end_w_pad_dma_balance st b cs0 q rqd fl :
  rq_w_ctx rqd = {| ctx_flags := fl;
                    c_ctx := CCompl {| sentry := 0; nr_valid := 0;
                                       nr_padded := min_write_pgs (geo st) * q |} |} ->
  pad_state st b cs0 ->
  0 < min_write_pgs (geo st) < 2 ^ 31 -> nr_blk_dsecs (geo st) < 2 ^ 31 ->
  0 <= cs0 -> 2 <= min_write_pgs (geo st) * q ->
  cs0 + min_write_pgs (geo st) * q <= nr_blk_dsecs (geo st) ->
  exists st1 rqd1,
    pblk_setup_pad_rq st b rqd = Some (st1, rqd1, 0) /\
    dma_allocs st1 = dma_allocs st + 2 /\ dma_frees st1 = dma_frees st /\
    forall st2, exists st3,
      pblk_end_w_pad st2 rqd1 = Some st3 /\ dma_frees st3 = dma_frees st2 + 1.
Proof.
  intros Hctx Hst Hmin HD Hcs Hq Hfit.
  destruct (pblk_setup_pad_rq_pad st b cs0 q rqd fl Hctx Hst Hmin HD Hcs)
    as (st1 & rqd1 & Hrun & _ & _ & Hw & _ & _); [nia | lia | exact Hfit |].
  exists st1, rqd1. split; [exact Hrun|].
  assert (Hc : compl_ctx_of (rq_w_ctx rqd)
               = Some {| sentry := 0; nr_valid := 0;
                         nr_padded := min_write_pgs (geo st) * q |})
    by (rewrite Hctx; reflexivity).
  destruct (pblk_setup_pad_rq_dma_allocs _ _ _ _ _ _ Hc ltac:(cbn; lia) Hrun) as [A F].
  split; [exact A|]. split; [exact F|].
  intros st2. unfold pblk_end_w_pad. rewrite Hw, Hc. cbn [mbind option_bind nr_valid nr_padded].
  cbn [Z.eqb negb].
  destruct (Z.ltb_spec 1 (min_write_pgs (geo st) * q)); [|lia].
  eexists. split; [reflexivity|].
  unfold dma_frees, pblk_free_rqd. rewrite !count_ev_emit. cbn. lia.
Qed.

Lemma pblk_end_w_pad_dma_balance_witness :
  let st := ex_pblk_teardown in
  let rqd := rq_with_w_ctx rqd_zero
               {| ctx_flags := io_or_sync io_none;
                  c_ctx := CCompl {| sentry := 0; nr_valid := 0;
                                     nr_padded := min_write_pgs (geo st) * 2 |} |} in
  exists st1 rqd1,
    pblk_setup_pad_rq st 2%nat rqd = Some (st1, rqd1, 0) /\
    dma_allocs st1 = dma_allocs st + 2 /\ dma_frees st1 = dma_frees st /\
    forall st2, exists st3,
      pblk_end_w_pad st2 rqd1 = Some st3 /\ dma_frees st3 = dma_frees st2 + 1.
Proof.
  intros st rqd.
  apply (pblk_end_w_pad_dma_balance st 2%nat 12 2 rqd (io_or_sync io_none));
    try reflexivity; try (cbn; lia).
  repeat split. eexists. split; reflexivity.
Defined.

(* ------------------------------------------------------------------ *)
(** ** Single-sector reads *)
(* ------------------------------------------------------------------ *)

Lemma pblk_alloc_rqd_ok st rw :
  alloc_script st = [] -> pblk_alloc_rqd st rw = (Some rqd_zero, emit st (EvAllocRqd rw)).
Proof. intros H. unfold pblk_alloc_rqd. now rewrite try_alloc_nil. Qed.

(** The completion of a read request whose context is not marked
    synchronous and that went to no device. *)
Lemma pblk_end_io_read_one st b flags :
  bio_rw_is_read b = true -> ft_sync flags = false -> bi_error b = 0 ->
  pblk_end_io st
    (rq_with_r_ctx (rq_with_head rqd_zero NVM_OP_PREAD 1 (Some b))
       {| r_flags := flags; orig_bio := None |})
  = Some (pblk_free_rqd (emit st (EvBioPut (Some b)))
            (rq_with_r_ctx (rq_with_head rqd_zero NVM_OP_PREAD 1 (Some b))
               {| r_flags := flags; orig_bio := None |}) READ).
Proof.
  intros Hw Hs He. unfold pblk_end_io, pblk_end_io_read.
  cbn [rq_bio rq_with_r_ctx rq_with_head mbind option_bind rq_nr_ppas
       rq_r_ctx r_flags orig_bio rq_meta_list rqd_zero].
  rewrite Hw, Hs, He. reflexivity.
Qed.

(** [pblk_submit_read] on a bio of one sector, once the request has been
    allocated. *)
Lemma pblk_submit_read_single st st1 b flags :
  try_alloc st = (true, st1) ->
  pblk_get_secs (consts st) b = 1 -> bi_vcnt b = 1 ->
  pblk_submit_read st b flags =
  '(st3, b3, rqd3, bm3, ret) ←
     pblk_read_rq (emit st1 (EvAllocRqd READ)) b rqd_zero
       (pblk_get_laddr (consts st) b) 0;
  if nvm_io_code ret =? 0 then
    let rqd' := rq_with_r_ctx (rq_with_head rqd3 NVM_OP_PREAD 1 (Some b3))
                  {| r_flags := flags; orig_bio := orig_bio (rq_r_ctx rqd3) |} in
    let st4 := emit st3 (EvBioGet b3) in
    if bitmap_full bm3 1 then
      st5 ← pblk_end_io (emit st4 (EvBioEndio b3)) rqd'; Some (st5, b3, NVM_IO_OK)
    else __pblk_submit_read st4 rqd' b3 bm3 flags 1 true
  else Some (pblk_free_rqd st3 rqd3 READ, b3, ret).
Proof.
  intros Ha Hn Hv. unfold pblk_submit_read. rewrite Hn, Hv.
  change (to_int 1) with 1.
  change (negb (1 =? 1)) with false. change (1 <? 1) with false. cbv iota.
  unfold pblk_alloc_rqd. rewrite Ha. unfold bitmap_zero.
  destruct (pblk_read_rq _ b rqd_zero _ 0) as [[[[[st3 b3] rqd3] bm3] ret]|];
    [|reflexivity].
  cbn [mbind option_bind].
  destruct (nvm_io_code ret =? 0); reflexivity.
Qed.

(** X6.  A read of one sector that was never written (or was discarded),
    with a bio whose [bi_rw] is exactly [READ], does not reach the
    device: no request is submitted, the L2P table is not changed,
    nothing is copied into the bio, and the bio is completed exactly once
    before the request is freed. *)
Theorem pblk_submit_read_unmapped st b flags :
  alloc_script st = [] ->
  pblk_get_secs (consts st) b = 1 -> bi_vcnt b = 1 ->
  pblk_get_laddr (consts st) b <> ADDR_EMPTY ->
  trans_map_get st (pblk_get_laddr (consts st) b) = Some pblk_addr_empty ->
  bio_rw_is_read b = true -> ft_sync flags = false -> bi_error b = 0 ->
  exists st' r,
    pblk_submit_read st b flags = Some (st', b, NVM_IO_OK) /\
    log st' = log st ++ [EvAllocRqd READ; EvBioGet b; EvBioEndio b;
                         EvBioPut (Some b); EvFreeRqd READ r] /\
    trans_map st' = trans_map st /\ blocks st' = blocks st /\ rwb st' = rwb st.
Proof.
  intros Ha Hn Hv Hl Hget Hw Hs He.
  rewrite (pblk_submit_read_single st st) by (try apply try_alloc_nil; assumption).
  rewrite (pblk_read_rq_empty (emit st (EvAllocRqd READ))) by assumption.
  cbn [mbind option_bind nvm_io_code]. change (0 =? 0) with true. cbv iota zeta.
  change (bitmap_full (set_bit 0 0) 1) with true. cbv iota.
  change (orig_bio (rq_r_ctx rqd_zero)) with (@None bio).
  rewrite pblk_end_io_read_one by assumption.
  cbn [mbind option_bind].
  eexists _, _. split; [reflexivity|].
  cbn. rewrite <- !app_assoc. cbn. repeat split.
Qed.

Lemma pblk_submit_read_unmapped_witness :
  let b := ex_bio false 5 1 [[]] in
  exists st' r,
    pblk_submit_read ex_pblk b io_none = Some (st', b, NVM_IO_OK) /\
    log st' = log ex_pblk ++ [EvAllocRqd READ; EvBioGet b; EvBioEndio b;
                              EvBioPut (Some b); EvFreeRqd READ r] /\
    trans_map st' = trans_map ex_pblk /\ blocks st' = blocks ex_pblk /\
    rwb st' = rwb ex_pblk.
Proof.
  intros b.
  apply (pblk_submit_read_unmapped ex_pblk b io_none); try reflexivity.
  vm_compute. discriminate.
Defined.

Lemma bio_store_fields b d :
  bi_write (bio_store b d) = bi_write b /\ bi_error (bio_store b d) = bi_error b /\
  bi_vcnt (bio_store b d) = bi_vcnt b /\ bi_size (bio_store b d) = bi_size b.
Proof. unfold bio_store. destruct (bi_idx b <? 0); repeat split. Qed.

Lemma bio_store_rw b d : bio_rw_is_read (bio_store b d) = bio_rw_is_read b.
Proof. unfold bio_store. destruct (bi_idx b <? 0); reflexivity. Qed.

(** The single-sector read of an LBA that is in the ring: the data of
    the ring entry is copied to the bio, nothing is asked of the device,
    and the pin the read took is released. *)
Lemma pblk_read_rq_cached st b rqd lba bm line pin rb e :
  lba <> ADDR_EMPTY -> 0 <= lba < pblk_nr_secs st ->
  trans_map st !! Z.to_nat lba = Some {| ppa := PPA_CACHE line pin; rblk := rb |} ->
  0 <= line -> rb_entries (rwb st) !! Z.to_nat line = Some e ->
  pblk_read_rq st b rqd lba bm
  = Some (with_trans_map st
            (<[Z.to_nat lba := {| ppa := PPA_CACHE line false; rblk := rb |}]> (trans_map st)),
          bio_store b (e_data e), rqd, set_bit 0 bm, NVM_IO_OK).
Proof.
  intros Hne Hl Hget Hline He.
  assert (Hlen : (Z.to_nat lba < length (trans_map st))%nat)
    by (eapply lookup_lt_Some; exact Hget).
  assert (Hcap : line < rb_capacity (rwb st)).
  { unfold rb_capacity. apply lookup_lt_Some in He. lia. }
  unfold pblk_read_rq.
  destruct (Z.eqb_spec lba ADDR_EMPTY); [contradiction|].
  rewrite trans_map_get_in by exact Hl. rewrite Hget.
  cbn [mbind option_bind ppa rblk nvm_addr_in_cache ppa_empty
       nvm_addr_set_read_cache nvm_addr_get_read_cache].
  unfold pblk_try_read_from_cache, pblk_read_from_cache, pblk_rb_copy_to_bio.
  cbn [nvm_addr_in_cache negb nvm_addr_to_cacheline trans_map_set rwb with_trans_map].
  destruct (Z.ltb_spec line 0); [lia|].
  destruct (Z.leb_spec (rb_capacity (rwb st)) line); [lia|].
  cbn [orb]. rewrite He.
  cbn [fmap option_fmap option_map mbind option_bind].
  rewrite trans_map_get_in by (cbn; exact Hl).
  unfold trans_map_set. cbn [trans_map with_trans_map].
  rewrite list_lookup_insert_eq by exact Hlen.
  cbn [mbind option_bind ppa rblk nvm_addr_set_read_cache].
  rewrite list_insert_insert_eq. reflexivity.
Qed.

(** [pblk_submit_read] on one sector that is in the ring. *)
Lemma pblk_submit_read_cached_run st b flags line pin rb e :
  alloc_script st = [] ->
  pblk_get_secs (consts st) b = 1 -> bi_vcnt b = 1 ->
  pblk_get_laddr (consts st) b <> ADDR_EMPTY ->
  0 <= pblk_get_laddr (consts st) b < pblk_nr_secs st ->
  trans_map st !! Z.to_nat (pblk_get_laddr (consts st) b)
  = Some {| ppa := PPA_CACHE line pin; rblk := rb |} ->
  0 <= line -> rb_entries (rwb st) !! Z.to_nat line = Some e ->
  bio_rw_is_read b = true -> ft_sync flags = false -> bi_error b = 0 ->
  exists st' r,
    pblk_submit_read st b flags = Some (st', bio_store b (e_data e), NVM_IO_OK) /\
    log st' = log st ++ [EvAllocRqd READ; EvBioGet (bio_store b (e_data e));
                         EvBioEndio (bio_store b (e_data e));
                         EvBioPut (Some (bio_store b (e_data e))); EvFreeRqd READ r] /\
    trans_map st'
    = <[Z.to_nat (pblk_get_laddr (consts st) b)
        := {| ppa := PPA_CACHE line false; rblk := rb |}]> (trans_map st) /\
    blocks st' = blocks st /\ rwb st' = rwb st.
Proof.
  intros Ha Hn Hv Hl Hin Hget Hline He Hw Hs Herr.
  rewrite (pblk_submit_read_single st st) by (try apply try_alloc_nil; assumption).
  rewrite (pblk_read_rq_cached (emit st (EvAllocRqd READ)) _ _ _ _ line pin rb e)
    by assumption.
  cbn [mbind option_bind nvm_io_code]. change (0 =? 0) with true. cbv iota zeta.
  change (bitmap_full (set_bit 0 0) 1) with true. cbv iota.
  change (orig_bio (rq_r_ctx rqd_zero)) with (@None bio).
  destruct (bio_store_fields b (e_data e)) as (F1 & F2 & _).
  rewrite pblk_end_io_read_one by (rewrite ?bio_store_rw; congruence).
  cbn [mbind option_bind].
  eexists _, _. split; [reflexivity|].
  cbn. rewrite <- !app_assoc. cbn. repeat split.
Qed.

(** X7.  A read of one sector that is still in the write ring, with a
    bio whose [bi_rw] is exactly [READ], is served from the ring: the bio
    receives the data of the ring entry the L2P entry points to, no
    request goes to the device, the bio is completed once, and afterwards
    the read pin of the L2P entry is clear. *)
Theorem pblk_submit_read_cached st b flags line pin rb e :
  alloc_script st = [] ->
  pblk_get_secs (consts st) b = 1 -> bi_vcnt b = 1 ->
  pblk_get_laddr (consts st) b <> ADDR_EMPTY ->
  0 <= pblk_get_laddr (consts st) b < pblk_nr_secs st ->
  trans_map st !! Z.to_nat (pblk_get_laddr (consts st) b)
  = Some {| ppa := PPA_CACHE line pin; rblk := rb |} ->
  0 <= line -> rb_entries (rwb st) !! Z.to_nat line = Some e ->
  bio_rw_is_read b = true -> ft_sync flags = false -> bi_error b = 0 ->
  exists st' r,
    pblk_submit_read st b flags = Some (st', bio_store b (e_data e), NVM_IO_OK) /\
    log st' = log st ++ [EvAllocRqd READ; EvBioGet (bio_store b (e_data e));
                         EvBioEndio (bio_store b (e_data e));
                         EvBioPut (Some (bio_store b (e_data e))); EvFreeRqd READ r] /\
    trans_map st'
    = <[Z.to_nat (pblk_get_laddr (consts st) b)
        := {| ppa := PPA_CACHE line false; rblk := rb |}]> (trans_map st) /\
    blocks st' = blocks st /\ rwb st' = rwb st.
Proof. apply pblk_submit_read_cached_run. Qed.

Lemma pblk_submit_read_cached_witness :
  let st := ex_pblk_cached in
  let b := ex_bio false 4 1 [[]] in
  let b' := bio_store b [Byte.x02] in
  exists st' r,
    pblk_submit_read st b io_none = Some (st', b', NVM_IO_OK) /\
    log st' = log st ++ [EvAllocRqd READ; EvBioGet b'; EvBioEndio b';
                         EvBioPut (Some b'); EvFreeRqd READ r] /\
    trans_map st'
    = <[4%nat := {| ppa := PPA_CACHE 1 false; rblk := None |}]> (trans_map st) /\
    blocks st' = blocks st /\ rwb st' = rwb st.
Proof.
  intros st b b'.
  apply (pblk_submit_read_cached st b io_none 1 false None (ex_entry [Byte.x02]));
    try reflexivity; try (vm_compute; intuition discriminate).
Defined.

(** The single-sector read of an LBA that is on the device only records
    the address in the request. *)
Lemma pblk_read_rq_device st b rqd lba bm g rb :
  lba <> ADDR_EMPTY ->
  trans_map_get st lba = Some {| ppa := PPA_DEV g; rblk := rb |} ->
  pblk_read_rq st b rqd lba bm
  = Some (st, b, rq_with_ppas rqd (RQ_PPA_ADDR (PPA_DEV g)) (rq_ppa_list rqd), bm,
          NVM_IO_OK).
Proof.
  intros Hne Hget. unfold pblk_read_rq.
  destruct (Z.eqb_spec lba ADDR_EMPTY); [contradiction|].
  rewrite Hget. reflexivity.
Qed.

(** X8.  A read of one sector that is on the device is handed to the
    driver as a single [NVM_OP_PREAD] request of one address, the one the
    L2P entry holds; the request remembers the caller's bio, which this
    layer does not complete (the completion callback will), and the L2P
    table is not changed. *)
Theorem pblk_submit_read_device st b flags g rb :
  alloc_script st = [] -> submit_script st = [] ->
  pblk_get_secs (consts st) b = 1 -> bi_vcnt b = 1 ->
  pblk_get_laddr (consts st) b <> ADDR_EMPTY ->
  trans_map_get st (pblk_get_laddr (consts st) b)
  = Some {| ppa := PPA_DEV g; rblk := rb |} ->
  exists st' r,
    pblk_submit_read st b flags = Some (st', b, NVM_IO_OK) /\
    log st' = log st ++ [EvAllocRqd READ; EvBioGet b; EvSubmitIo r] /\
    rq_opcode r = NVM_OP_PREAD /\ rq_nr_ppas r = 1 /\
    rq_ppa_addr r = RQ_PPA_ADDR (PPA_DEV g) /\
    rq_bio r = Some b /\ orig_bio (rq_r_ctx r) = Some b /\
    trans_map st' = trans_map st /\ blocks st' = blocks st /\ rwb st' = rwb st.
Proof.
  intros Ha Hsub Hn Hv Hl Hget.
  rewrite (pblk_submit_read_single st st) by (try apply try_alloc_nil; assumption).
  rewrite (pblk_read_rq_device (emit st (EvAllocRqd READ)) _ _ _ _ g rb) by assumption.
  cbn [mbind option_bind nvm_io_code]. change (0 =? 0) with true. cbv iota zeta.
  change (bitmap_full 0 1) with false. cbv iota.
  unfold __pblk_submit_read. change (bitmap_empty 0 1) with true. cbv iota.
  rewrite try_alloc_nil by exact Ha.
  unfold pblk_submit_read_io, nvm_submit_io.
  cbn [submit_script emit with_log]. rewrite Hsub.
  change (negb (0 =? 0)) with false. cbv iota.
  eexists _, _. split; [reflexivity|].
  cbn. rewrite <- !app_assoc. cbn. repeat split.
Qed.

Lemma pblk_submit_read_device_witness :
  let st := ex_pblk_cached in
  let b := ex_bio false 7 1 [[]] in
  exists st' r,
    pblk_submit_read st b io_none = Some (st', b, NVM_IO_OK) /\
    log st' = log st ++ [EvAllocRqd READ; EvBioGet b; EvSubmitIo r] /\
    rq_opcode r = NVM_OP_PREAD /\ rq_nr_ppas r = 1 /\
    rq_ppa_addr r = RQ_PPA_ADDR (PPA_DEV {| g_blk := O; g_sec := 0 |}) /\
    rq_bio r = Some b /\ orig_bio (rq_r_ctx r) = Some b /\
    trans_map st' = trans_map st /\ blocks st' = blocks st /\ rwb st' = rwb st.
Proof.
  intros st b.
  apply (pblk_submit_read_device st b io_none {| g_blk := O; g_sec := 0 |} (Some O));
    try reflexivity.
  vm_compute. discriminate.
Defined.

(** X10.  When the driver refuses the read request, [pblk_submit_read]
    answers [NVM_IO_ERR]; on that path the cloned bio is released twice
    (once by [pblk_submit_read_io], once by [__pblk_submit_read]), the
    request is not freed and the caller's bio is not completed. *)
Theorem pblk_submit_read_submit_failure st b flags g rb err rest :
  alloc_script st = [] -> submit_script st = err :: rest -> err <> 0 ->
  pblk_get_secs (consts st) b = 1 -> bi_vcnt b = 1 ->
  pblk_get_laddr (consts st) b <> ADDR_EMPTY ->
  trans_map_get st (pblk_get_laddr (consts st) b)
  = Some {| ppa := PPA_DEV g; rblk := rb |} ->
  exists st' r,
    pblk_submit_read st b flags = Some (st', b, NVM_IO_ERR) /\
    log st' = log st ++ [EvAllocRqd READ; EvBioGet b; EvSubmitIo r;
                         EvPrErr "pblk: I/O submission failed"; EvBioPut (Some b);
                         EvPrErr "pblk: read IO submission failed"; EvBioPut (Some b)].
Proof.
  intros Ha Hsub Herr Hn Hv Hl Hget.
  rewrite (pblk_submit_read_single st st) by (try apply try_alloc_nil; assumption).
  rewrite (pblk_read_rq_device (emit st (EvAllocRqd READ)) _ _ _ _ g rb) by assumption.
  cbn [mbind option_bind nvm_io_code]. change (0 =? 0) with true. cbv iota zeta.
  change (bitmap_full 0 1) with false. cbv iota.
  unfold __pblk_submit_read. change (bitmap_empty 0 1) with true. cbv iota.
  rewrite try_alloc_nil by exact Ha.
  unfold pblk_submit_read_io, nvm_submit_io.
  cbn [submit_script emit with_log]. rewrite Hsub.
  destruct (Z.eqb_spec err 0) as [|_]; [contradiction|]. cbn [negb].
  change (1 <? 1) with false. cbn [andb].
  eexists _, _. split; [reflexivity|].
  cbn. rewrite <- !app_assoc. reflexivity.
Qed.

Lemma pblk_submit_read_submit_failure_witness :
  let st := with_submit_script ex_pblk_cached [-5] in
  let b := ex_bio false 7 1 [[]] in
  exists st' r,
    pblk_submit_read st b io_none = Some (st', b, NVM_IO_ERR) /\
    log st' = log st ++ [EvAllocRqd READ; EvBioGet b; EvSubmitIo r;
                         EvPrErr "pblk: I/O submission failed"; EvBioPut (Some b);
                         EvPrErr "pblk: read IO submission failed"; EvBioPut (Some b)].
Proof.
  intros st b.
  apply (pblk_submit_read_submit_failure st b io_none {| g_blk := O; g_sec := 0 |}
           (Some O) (-5) []); try reflexivity; try discriminate.
Defined.

(* ------------------------------------------------------------------ *)
(** ** Multi-sector reads *)
(* ------------------------------------------------------------------ *)

(** X11.  The range check of the multi-sector read is strict:
    [BUG_ON(!(laddr >= 0 && laddr + nr_secs < pblk->nr_secs))].  A read
    of two or more sectors whose last sector is the last LBA of the
    instance (or lies beyond it) stops the kernel, once the request and
    its address list have been allocated. *)
Theorem pblk_submit_read_last_lba st b flags :
  alloc_script st = [] ->
  2 <= pblk_get_secs (consts st) b < 2 ^ 31 ->
  bi_vcnt b = pblk_get_secs (consts st) b ->
  pblk_nr_secs st <= pblk_get_laddr (consts st) b + pblk_get_secs (consts st) b ->
  pblk_submit_read st b flags = None.
Proof.
  intros Ha Hn Hv Hend. unfold pblk_submit_read.
  rewrite to_int_id by lia. rewrite Hv, Z.eqb_refl. cbn [negb].
  rewrite pblk_alloc_rqd_ok by exact Ha.
  destruct (Z.ltb_spec 1 (pblk_get_secs (consts st) b)); [|lia].
  rewrite try_alloc_nil by exact Ha. cbn [negb].
  unfold pblk_read_ppalist_rq.
  cbn [consts emit with_log pblk_nr_secs].
  destruct (Z.ltb_spec (pblk_get_laddr (consts st) b + pblk_get_secs (consts st) b)
              (pblk_nr_secs st)); [lia|].
  rewrite andb_false_r. reflexivity.
Qed.

Lemma pblk_submit_read_last_lba_witness :
  pblk_submit_read ex_pblk (ex_bio false 14 2 [[]; []]) io_none = None.
Proof.
  apply (pblk_submit_read_last_lba ex_pblk (ex_bio false 14 2 [[]; []]) io_none);
    try reflexivity; vm_compute; intuition discriminate.
Defined.

(* ------------------------------------------------------------------ *)
(** ** Admission of writes *)
(* ------------------------------------------------------------------ *)

Lemma with_rwb_same st : with_rwb st (rwb st) = st.
Proof. destruct st; reflexivity. Qed.

Lemma with_write_inflight_same st : with_write_inflight st (write_inflight st) = st.
Proof. destruct st; reflexivity. Qed.

Lemma rb_with_mem_same rb : rb_with_mem rb (rb_mem rb) = rb.
Proof. destruct rb; reflexivity. Qed.

(** Below the cap the writer is let through at the first attempt. *)
Lemma pblk_may_submit_write_st_granted sched st n :
  write_inflight st < WRITE_INFLIGHT_CAP ->
  pblk_may_submit_write_st sched st n
  = Some (with_write_inflight st (to_int (write_inflight st + n)), sched).
Proof.
  intros H.
  destruct sched; cbn [pblk_may_submit_write_st];
    rewrite __pblk_may_submit_write_quiet;
    (destruct (Z.leb_spec WRITE_INFLIGHT_CAP (write_inflight st)); [lia|]);
    reflexivity.
Qed.

(** X12.  [pblk_buffer_write] keeps the sector count of the bio in a
    [uint8_t].  A write bio whose sector count is a multiple of 256 is
    therefore admitted as a write of 0 sectors: nothing is copied to the
    ring, the L2P table and the in-flight counter are left as they were,
    and the caller is told [NVM_IO_DONE]. *)
Theorem pblk_buffer_write_u8_truncation sched st b flags :
  0 < pblk_get_secs (consts st) b ->
  pblk_get_secs (consts st) b mod 256 = 0 ->
  bi_preflush b = false ->
  pblk_emergency_gc_mode st = false ->
  rb_mem (rwb st) - rb_sync (rwb st) <= rb_capacity (rwb st) ->
  - 2 ^ 31 <= write_inflight st < WRITE_INFLIGHT_CAP ->
  pblk_buffer_write sched st b flags = Some (st, b, NVM_IO_DONE).
Proof.
  intros Hpos Hmod Hfl Hgc Hring Hwi.
  unfold pblk_buffer_write. rewrite Hfl. cbn [andb].
  unfold to_u8. change (2 ^ 8) with 256. rewrite Hmod.
  cbn [pblk_buffer_write_retry]. rewrite Hgc.
  unfold pblk_write_to_cache, pblk_rb_may_write. rewrite Hfl.
  rewrite !Z.add_0_r.
  destruct (Z.leb_spec (rb_mem (rwb st) - rb_sync (rwb st)) (rb_capacity (rwb st)));
    [|lia].
  rewrite rb_with_mem_same, with_rwb_same.
  change (Z.to_nat 0) with O. cbn [pblk_write_to_cache_loop mbind option_bind].
  rewrite pblk_may_submit_write_st_granted by exact (proj2 Hwi).
  cbn [mbind option_bind]. unfold WRITE_INFLIGHT_CAP in *.
  rewrite Z.add_0_r, to_int_id by lia.
  now rewrite with_write_inflight_same.
Qed.

Lemma pblk_buffer_write_u8_truncation_witness :
  let b := ex_bio true 0 256 (replicate 256 [Byte.x41]) in
  pblk_buffer_write [] ex_pblk b io_none = Some (ex_pblk, b, NVM_IO_DONE).
Proof.
  intros b.
  apply (pblk_buffer_write_u8_truncation [] ex_pblk b io_none);
    try reflexivity; vm_compute; intuition discriminate.
Defined.

Lemma with_blocks_same st : with_blocks st (blocks st) = st.
Proof. destruct st; reflexivity. Qed.

(** [pblk_update_map] on an entry that no reader has pinned: the entry is
    replaced, after the sector it named has been invalidated in its
    block. *)
Lemma pblk_update_map_ok st l rb p gp :
  trans_map_get st l = Some gp ->
  nvm_addr_in_cache (ppa gp) && nvm_addr_get_read_cache (ppa gp) = false ->
  l2p_entry_ok st gp = true ->
  exists bs,
    pblk_update_map st l rb p
    = Some (false, trans_map_set (with_blocks st bs) l {| ppa := p; rblk := rb |}).
Proof.
  intros Hget Hpin Hok. unfold pblk_update_map. rewrite Hget.
  cbn [mbind option_bind]. rewrite Hpin.
  unfold l2p_entry_ok in Hok. unfold pblk_page_invalidate.
  destruct (rblk gp) as [b|].
  - destruct (ppa gp) as [| |g]; try discriminate.
    destruct (blocks st !! b) as [blk|]; [|discriminate].
    cbn [mbind option_bind]. eexists. reflexivity.
  - cbn [mbind option_bind]. exists (blocks st). now rewrite with_blocks_same.
Qed.

Lemma pblk_update_map_retry_ok sched st l p st1 :
  pblk_update_map st l None p = Some (false, st1) ->
  pblk_update_map_retry sched st l p = Some (st1, sched).
Proof. intros H. destruct sched; cbn [pblk_update_map_retry]; now rewrite H. Qed.

(** The admission of a one-sector write whose L2P entry is not pinned:
    the page goes to the ring slot of position [mem], the L2P entry points
    to that slot, [mem] and the in-flight counter advance by one. *)
Lemma pblk_buffer_write_single sched st b flags gp :
  pblk_get_secs (consts st) b = 1 -> bi_preflush b = false ->
  pblk_emergency_gc_mode st = false ->
  rb_mem (rwb st) + 1 - rb_sync (rwb st) <= rb_capacity (rwb st) ->
  - 2 ^ 31 <= write_inflight st < WRITE_INFLIGHT_CAP - 1 ->
  trans_map_get st (pblk_get_laddr (consts st) b) = Some gp ->
  nvm_addr_in_cache (ppa gp) && nvm_addr_get_read_cache (ppa gp) = false ->
  l2p_entry_ok st gp = true ->
  exists st1,
    pblk_buffer_write sched st b flags
    = Some (st1, bio_advance (consts st) b 1, NVM_IO_DONE) /\
    trans_map st1
    = <[Z.to_nat (pblk_get_laddr (consts st) b)
        := {| ppa := PPA_CACHE (pblk_rb_wrap_pos (rwb st) (rb_mem (rwb st))) false;
              rblk := None |}]> (trans_map st) /\
    rb_entries (rwb st1)
    = <[Z.to_nat (pblk_rb_wrap_pos (rwb st) (rb_mem (rwb st)))
        := {| e_data := bio_data b;
              e_w_ctx := {| w_bio := None; w_lba := pblk_get_laddr (consts st) b;
                            w_flags := flags; w_priv := None; w_paddr := 0;
                            w_ppa := pblk_addr_empty |} |}]> (rb_entries (rwb st)) /\
    rb_mem (rwb st1) = rb_mem (rwb st) + 1 /\ rb_sync (rwb st1) = rb_sync (rwb st) /\
    write_inflight st1 = write_inflight st + 1 /\
    log st1 = log st /\ alloc_script st1 = alloc_script st /\
    submit_script st1 = submit_script st /\
    consts st1 = consts st /\ pblk_nr_secs st1 = pblk_nr_secs st.
Proof.
  intros Hn Hfl Hgc Hring Hwi Hget Hpin Hok.
  unfold pblk_buffer_write. rewrite Hfl. cbn [andb].
  rewrite Hn. change (to_u8 1) with 1.
  cbn [pblk_buffer_write_retry]. rewrite Hgc.
  unfold pblk_write_to_cache, pblk_rb_may_write. rewrite Hfl.
  destruct (Z.leb_spec (rb_mem (rwb st) + 1 - rb_sync (rwb st)) (rb_capacity (rwb st)));
    [|lia].
  change (Z.to_nat 1) with 1%nat. cbn [pblk_write_to_cache_loop].
  rewrite !Z.add_0_r.
  set (st1 := with_rwb (with_rwb st _) _).
  destruct (pblk_update_map_ok st1 (pblk_get_laddr (consts st) b) None
              (pblk_cacheline_to_ppa
                 (pblk_rb_wrap_pos (rwb st1) (rb_mem (rwb st)))) gp)
    as [bs Hup]; [exact Hget | exact Hpin | exact Hok |].
  rewrite (pblk_update_map_retry_ok _ _ _ _ _ Hup).
  cbn [mbind option_bind].
  rewrite pblk_may_submit_write_st_granted by (cbn; lia).
  cbn [mbind option_bind].
  eexists. split; [reflexivity|].
  subst st1. unfold WRITE_INFLIGHT_CAP in *.
  cbn [write_inflight trans_map trans_map_set with_trans_map with_blocks with_rwb
       with_write_inflight rwb rb_entries rb_mem rb_sync pblk_rb_write_entry
       rb_with_entries rb_with_mem log alloc_script submit_script consts pblk_nr_secs].
  rewrite to_int_id by lia.
  unfold pblk_cacheline_to_ppa, pblk_rb_wrap_pos, rb_capacity, pblk_rb_write_entry,
    w_ctx_with_lba.
  cbn [rb_entries rb_with_entries rb_with_mem w_bio w_flags w_priv w_paddr w_ppa].
  rewrite ?length_insert.
  repeat split.
Qed.

(** X13.  Round trip through the ring.  Once [pblk_buffer_write] has
    admitted a one-sector write, a one-sector read of the same LBA (with
    a bio whose [bi_rw] is exactly [READ]) returns the page that was
    written: it is copied from the ring slot the L2P entry now points to,
    and the device is not asked. *)
Theorem pblk_buffer_write_then_read sched st bw br wflags rflags gp :
  alloc_script st = [] ->
  pblk_get_secs (consts st) bw = 1 -> bi_preflush bw = false ->
  pblk_emergency_gc_mode st = false ->
  rb_sync (rwb st) <= rb_mem (rwb st) ->
  rb_mem (rwb st) + 1 - rb_sync (rwb st) <= rb_capacity (rwb st) ->
  - 2 ^ 31 <= write_inflight st < WRITE_INFLIGHT_CAP - 1 ->
  pblk_get_laddr (consts st) bw <> ADDR_EMPTY ->
  0 <= pblk_get_laddr (consts st) bw < pblk_nr_secs st ->
  trans_map st !! Z.to_nat (pblk_get_laddr (consts st) bw) = Some gp ->
  nvm_addr_in_cache (ppa gp) && nvm_addr_get_read_cache (ppa gp) = false ->
  l2p_entry_ok st gp = true ->
  pblk_get_secs (consts st) br = 1 -> bi_vcnt br = 1 ->
  pblk_get_laddr (consts st) br = pblk_get_laddr (consts st) bw ->
  bio_rw_is_read br = true -> ft_sync rflags = false -> bi_error br = 0 ->
  exists st1 st2 r,
    pblk_buffer_write sched st bw wflags
    = Some (st1, bio_advance (consts st) bw 1, NVM_IO_DONE) /\
    pblk_submit_read st1 br rflags
    = Some (st2, bio_store br (bio_data bw), NVM_IO_OK) /\
    log st2 = log st ++ [EvAllocRqd READ; EvBioGet (bio_store br (bio_data bw));
                         EvBioEndio (bio_store br (bio_data bw));
                         EvBioPut (Some (bio_store br (bio_data bw)));
                         EvFreeRqd READ r].
Proof.
  intros Ha Hn Hfl Hgc Hsm Hring Hwi Hne Hin Hgp Hpin Hok Hrn Hrv Hrl Hrw Hrs Hre.
  assert (Hlen : (Z.to_nat (pblk_get_laddr (consts st) bw) < length (trans_map st))%nat)
    by (eapply lookup_lt_Some; exact Hgp).
  destruct (pblk_buffer_write_single sched st bw wflags gp)
    as (st1 & Hrun & Htm & Hent & _ & _ & _ & Hlog & Hal & _ & Hco & Hns);
    try assumption.
  { rewrite trans_map_get_in by exact Hin. exact Hgp. }
  assert (Hcap : 0 < rb_capacity (rwb st)) by lia.
  pose proof (Z.mod_pos_bound (rb_mem (rwb st)) (rb_capacity (rwb st)) Hcap) as Hslot.
  destruct (pblk_submit_read_cached_run st1 br rflags
              (pblk_rb_wrap_pos (rwb st) (rb_mem (rwb st))) false None
              {| e_data := bio_data bw;
                 e_w_ctx := {| w_bio := None; w_lba := pblk_get_laddr (consts st) bw;
                               w_flags := wflags; w_priv := None; w_paddr := 0;
                               w_ppa := pblk_addr_empty |} |})
    as (st2 & r & Hread & Hlog2 & _); rewrite ?Hco, ?Hns, ?Hrl; try assumption;
    try congruence.
  - rewrite Htm. now apply list_lookup_insert_eq.
  - unfold pblk_rb_wrap_pos. lia.
  - rewrite Hent. apply list_lookup_insert_eq.
    unfold pblk_rb_wrap_pos, rb_capacity in *. lia.
  - exists st1, st2, r. split; [exact Hrun|]. split; [exact Hread|].
    rewrite Hlog2, Hlog. reflexivity.
Qed.

Lemma pblk_buffer_write_then_read_witness :
  let bw := ex_bio true 5 1 [[Byte.x41]] in
  let br := ex_bio false 5 1 [[]] in
  exists st1 st2 r,
    pblk_buffer_write [] ex_pblk bw io_none
    = Some (st1, bio_advance (consts ex_pblk) bw 1, NVM_IO_DONE) /\
    pblk_submit_read st1 br io_none
    = Some (st2, bio_store br (bio_data bw), NVM_IO_OK) /\
    log st2 = log ex_pblk ++ [EvAllocRqd READ; EvBioGet (bio_store br (bio_data bw));
                              EvBioEndio (bio_store br (bio_data bw));
                              EvBioPut (Some (bio_store br (bio_data bw)));
                              EvFreeRqd READ r].
Proof.
  intros bw br.
  apply (pblk_buffer_write_then_read [] ex_pblk bw br io_none io_none pblk_addr_empty);
    try reflexivity; vm_compute; intuition discriminate.
Defined.

(** [pblk_update_map] on an entry that a reader has pinned reports the
    conflict and changes nothing. *)
Lemma pblk_update_map_pinned st l rb p line rb0 :
  trans_map_get st l = Some {| ppa := PPA_CACHE line true; rblk := rb0 |} ->
  pblk_update_map st l rb p = Some (true, st).
Proof. intros H. unfold pblk_update_map. rewrite H. reflexivity. Qed.

(** X14.  A write to an LBA whose ring entry a reader has pinned cannot
    update the L2P entry: [pblk_write_to_cache] calls [schedule()] and
    tries again.  If nobody releases the pin the call never returns; once
    the reader's [pblk_unlock_read] has run, the write is admitted and the
    L2P entry points to the new ring slot. *)
Theorem pblk_buffer_write_pinned st b flags line :
  pblk_get_secs (consts st) b = 1 -> bi_preflush b = false ->
  pblk_emergency_gc_mode st = false ->
  rb_mem (rwb st) + 1 - rb_sync (rwb st) <= rb_capacity (rwb st) ->
  - 2 ^ 31 <= write_inflight st < WRITE_INFLIGHT_CAP - 1 ->
  0 <= pblk_get_laddr (consts st) b < pblk_nr_secs st ->
  trans_map st !! Z.to_nat (pblk_get_laddr (consts st) b)
  = Some {| ppa := PPA_CACHE line true; rblk := None |} ->
  pblk_buffer_write [] st b flags = None /\
  exists st1,
    pblk_buffer_write
      [fun s => pblk_unlock_read s (pblk_get_laddr (consts st) b)
                  {| ppa := PPA_CACHE line true; rblk := None |} 0]
      st b flags
    = Some (st1, bio_advance (consts st) b 1, NVM_IO_DONE) /\
    trans_map st1 !! Z.to_nat (pblk_get_laddr (consts st) b)
    = Some {| ppa := PPA_CACHE (pblk_rb_wrap_pos (rwb st) (rb_mem (rwb st))) false;
              rblk := None |} /\
    log st1 = log st ++ [EvSchedule].
Proof.
  intros Hn Hfl Hgc Hring Hwi Hin Hgp.
  assert (Hlen : (Z.to_nat (pblk_get_laddr (consts st) b) < length (trans_map st))%nat)
    by (eapply lookup_lt_Some; exact Hgp).
  set (l := pblk_get_laddr (consts st) b) in *.
  assert (Hstart : forall sched,
    pblk_buffer_write sched st b flags =
    (pblk_update_map_retry sched
       (with_rwb (with_rwb st (rb_with_mem (rwb st) (rb_mem (rwb st) + 1)))
          (pblk_rb_write_entry (rb_with_mem (rwb st) (rb_mem (rwb st) + 1)) (bio_data b)
             {| w_bio := None; w_lba := l; w_flags := flags; w_priv := None;
                w_paddr := 0; w_ppa := pblk_addr_empty |} (rb_mem (rwb st))))
       l (PPA_CACHE (pblk_rb_wrap_pos (rwb st) (rb_mem (rwb st))) false)
     ≫= fun '(st2, sched') =>
          '(st3, _) ← pblk_may_submit_write_st sched' st2 1;
          Some (st3, bio_advance (consts st) b 1, NVM_IO_DONE))).
  { intros sched. unfold pblk_buffer_write. rewrite Hfl. cbn [andb].
    rewrite Hn. change (to_u8 1) with 1.
    cbn [pblk_buffer_write_retry]. rewrite Hgc.
    unfold pblk_write_to_cache, pblk_rb_may_write. rewrite Hfl.
    destruct (Z.leb_spec (rb_mem (rwb st) + 1 - rb_sync (rwb st))
                (rb_capacity (rwb st))); [|lia].
    change (Z.to_nat 1) with 1%nat. cbn [pblk_write_to_cache_loop].
    fold l. rewrite !Z.add_0_r.
    unfold pblk_cacheline_to_ppa, pblk_rb_wrap_pos, rb_capacity, pblk_rb_write_entry,
      w_ctx_with_lba.
    cbn [rwb with_rwb rb_entries rb_with_entries rb_with_mem
         w_bio w_flags w_priv w_paddr w_ppa].
    rewrite ?length_insert.
    match goal with
    | |- context [pblk_update_map_retry sched ?s l ?p] =>
        destruct (pblk_update_map_retry sched s l p) as [[st2 sched']|]
    end; [|reflexivity].
    cbn [mbind option_bind].
    destruct (pblk_may_submit_write_st sched' st2 1) as [[st3 s3]|]; reflexivity. }
  split.
  - rewrite Hstart. cbn [pblk_update_map_retry].
    erewrite pblk_update_map_pinned; [reflexivity|].
    rewrite trans_map_get_in by exact Hin. exact Hgp.
  - rewrite Hstart. cbn [pblk_update_map_retry].
    erewrite pblk_update_map_pinned
      by (rewrite trans_map_get_in by exact Hin; exact Hgp).
    unfold pblk_unlock_read. cbn [ppa rblk nvm_addr_in_cache nvm_addr_set_read_cache].
    match goal with
    | |- context [pblk_update_map ?s l None ?p] =>
        destruct (pblk_update_map_ok s l None p
                    {| ppa := PPA_CACHE line false; rblk := None |}) as [bs Hup]
    end.
    { rewrite trans_map_get_in by (cbn; exact Hin).
      unfold trans_map_set. cbn [trans_map with_trans_map emit with_log with_rwb].
      now apply list_lookup_insert_eq. }
    { reflexivity. }
    { reflexivity. }
    rewrite Hup. cbn [mbind option_bind].
    rewrite pblk_may_submit_write_st_granted by (cbn; lia).
    cbn [mbind option_bind].
    eexists. split; [reflexivity|].
    unfold trans_map_set.
    cbn [trans_map with_trans_map with_write_inflight with_blocks emit with_log with_rwb log].
    split; [|reflexivity].
    apply list_lookup_insert_eq. now rewrite length_insert.
Qed.

Lemma pblk_buffer_write_pinned_witness :
  let st := ex_pblk_cached in
  let b := ex_bio true 3 1 [[Byte.x41]] in
  pblk_buffer_write [] st b io_none = None /\
  exists st1,
    pblk_buffer_write
      [fun s => pblk_unlock_read s (pblk_get_laddr (consts st) b)
                  {| ppa := PPA_CACHE 0 true; rblk := None |} 0]
      st b io_none
    = Some (st1, bio_advance (consts st) b 1, NVM_IO_DONE) /\
    trans_map st1 !! Z.to_nat (pblk_get_laddr (consts st) b)
    = Some {| ppa := PPA_CACHE (pblk_rb_wrap_pos (rwb st) (rb_mem (rwb st))) false;
              rblk := None |} /\
    log st1 = log st ++ [EvSchedule].
Proof.
  intros st b.
  apply (pblk_buffer_write_pinned st b io_none 0);
    try reflexivity; vm_compute; intuition discriminate.
Defined.

(* ------------------------------------------------------------------ *)
(** ** Sector allocation inside a block *)
(* ------------------------------------------------------------------ *)

Lemma testbit_ones c i : 0 <= c -> Z.testbit (Z.ones c) i = (0 <=? i) && (i <? c).
Proof.
  intros Hc. destruct (Z.leb_spec 0 i) as [Hi | Hi]; cbn [andb].
  - destruct (Z.ltb_spec i c).
    + apply Z.ones_spec_low. lia.
    + apply Z.ones_spec_high. lia.
  - apply Z.testbit_neg_r. lia.
Qed.

Lemma bitmap_set_ones c n :
  0 <= c -> 0 <= n -> bitmap_set (Z.ones c) c n = Z.ones (c + n).
Proof.
  intros Hc Hn. unfold bitmap_set. apply Z.bits_inj'. intros i Hi.
  rewrite Z.lor_spec, Z.shiftl_spec by exact Hi.
  rewrite !testbit_ones by lia.
  destruct (Z.leb_spec 0 i); [|lia].
  destruct (Z.ltb_spec i c); destruct (Z.ltb_spec i (c + n));
    destruct (Z.leb_spec 0 (i - c)); destruct (Z.ltb_spec (i - c) n);
    cbn; try reflexivity; lia.
Qed.

Lemma bitmap_weight_nat_ones c : forall n,
  0 <= c -> bitmap_weight_nat (Z.ones c) n = Z.min c (Z.of_nat n).
Proof.
  intros n Hc. induction n as [|n IH]; cbn [bitmap_weight_nat]; [lia|].
  rewrite IH, testbit_ones by exact Hc.
  destruct (Z.leb_spec 0 (Z.of_nat n)); [|lia].
  destruct (Z.ltb_spec (Z.of_nat n) c); cbn [andb]; lia.
Qed.

Lemma bitmap_weight_ones c N : 0 <= c <= N -> bitmap_weight (Z.ones c) N = c.
Proof.
  intros H. unfold bitmap_weight. rewrite bitmap_weight_nat_ones by lia. lia.
Qed.

(** X15.  The allocator keeps the allocated sectors of a block a prefix.
    If the sectors allocated so far are exactly those below [cur_sec] (as
    in a fresh block, where both are 0), [pblk_next_base_sec] hands out
    the old [cur_sec], the allocated sectors are again exactly those
    below the new [cur_sec], and the free-sector count that
    [pblk_nr_free_secs] reads off the bitmap is [nr_blk_dsecs - cur_sec]. *)
Theorem pblk_next_base_sec_prefix st blk n :
  0 <= cur_sec blk -> 0 <= n ->
  cur_sec blk + n <= nr_blk_dsecs (geo st) -> nr_blk_dsecs (geo st) < 2 ^ 64 ->
  sector_bitmap blk = Z.ones (cur_sec blk) ->
  fst (pblk_next_base_sec blk n) = cur_sec blk /\
  cur_sec (snd (pblk_next_base_sec blk n)) = cur_sec blk + n /\
  sector_bitmap (snd (pblk_next_base_sec blk n)) = Z.ones (cur_sec blk + n) /\
  pblk_nr_free_secs st blk = nr_blk_dsecs (geo st) - cur_sec blk /\
  pblk_nr_free_secs st (snd (pblk_next_base_sec blk n))
  = pblk_nr_free_secs st blk - n.
Proof.
  intros Hc Hn Hfit HN Hbm. unfold pblk_next_base_sec. cbn [fst snd blk_set_alloc cur_sec sector_bitmap].
  rewrite Hbm, bitmap_set_ones by assumption.
  unfold pblk_nr_free_secs. cbn [sector_bitmap blk_set_alloc]. rewrite Hbm.
  rewrite !bitmap_weight_ones by lia.
  rewrite !to_ulong_id by lia.
  repeat split; lia.
Qed.

Lemma pblk_next_base_sec_prefix_witness :
  let blk := blk_set_alloc ex_block 12 (Z.ones 12) in
  fst (pblk_next_base_sec blk 2) = cur_sec blk /\
  cur_sec (snd (pblk_next_base_sec blk 2)) = cur_sec blk + 2 /\
  sector_bitmap (snd (pblk_next_base_sec blk 2)) = Z.ones (cur_sec blk + 2) /\
  pblk_nr_free_secs ex_pblk blk = nr_blk_dsecs (geo ex_pblk) - cur_sec blk /\
  pblk_nr_free_secs ex_pblk (snd (pblk_next_base_sec blk 2))
  = pblk_nr_free_secs ex_pblk blk - 2.
Proof.
  intros blk.
  apply (pblk_next_base_sec_prefix ex_pblk blk 2); try reflexivity; cbn; lia.
Defined.

(* ------------------------------------------------------------------ *)
(** ** Choosing a LUN *)
(* ------------------------------------------------------------------ *)

Lemma lun_sequence_spec free : forall k next_lun,
  free <> [] -> -1 <= next_lun -> next_lun + Z.of_nat k < 2 ^ 31 ->
  lun_sequence k next_lun free
  = map (fun j => (next_lun + 1 + Z.of_nat j) mod Z.of_nat (length free)) (seq 0 k).
Proof.
  intros k. induction k as [|k IH]; intros next_lun Hne Hlo Hhi; [reflexivity|].
  assert (Hn : 0 < Z.of_nat (length free)) by (destruct free; [contradiction | cbn; lia]).
  cbn [lun_sequence pblk_get_lun_rr get_next_lun negb].
  rewrite to_int_id by lia.
  rewrite IH by (assumption || lia).
  cbn [seq map]. f_equal.
  - rewrite Z.rem_mod_nonneg by lia. f_equal. lia.
  - rewrite <- seq_shift, map_map. apply map_ext. intros j. f_equal. lia.
Qed.

(** X16.  User writes take the LUNs in turn.  As long as the counter
    [next_lun] does not overflow, the LUNs chosen by [nr_luns] successive
    calls of [pblk_get_lun_rr] (not in GC mode) are pairwise different
    and every LUN is among them: the call that follows counter value
    [next_lun] chooses LUN [(next_lun + 1) mod nr_luns]. *)
Theorem pblk_get_lun_rr_round_robin free next_lun :
  free <> [] -> -1 <= next_lun -> next_lun + Z.of_nat (length free) < 2 ^ 31 ->
  snd (pblk_get_lun_rr next_lun free false)
  = (next_lun + 1) mod Z.of_nat (length free) /\
  NoDup (lun_sequence (length free) next_lun free) /\
  forall i, 0 <= i < Z.of_nat (length free) ->
    i ∈ lun_sequence (length free) next_lun free.
Proof.
  intros Hne Hlo Hhi.
  assert (Hn : 0 < Z.of_nat (length free)) by (destruct free; [contradiction | cbn; lia]).
  set (n := Z.of_nat (length free)) in *.
  split.
  { cbn [pblk_get_lun_rr get_next_lun negb snd]. rewrite to_int_id by lia.
    apply Z.rem_mod_nonneg; lia. }
  rewrite lun_sequence_spec by assumption. fold n.
  split.
  - apply NoDup_fmap_2_strong; [|apply NoDup_seq].
    intros j1 j2 H1 H2 Heq.
    apply elem_of_seq in H1, H2.
    assert (E : (next_lun + 1 + Z.of_nat j1 - (next_lun + 1 + Z.of_nat j2)) mod n = 0).
    { rewrite Zminus_mod, Heq, Z.sub_diag. apply Z.mod_0_l. lia. }
    replace (next_lun + 1 + Z.of_nat j1 - (next_lun + 1 + Z.of_nat j2))
      with (Z.of_nat j1 - Z.of_nat j2) in E by lia.
    apply Z.mod_divide in E; [|lia]. destruct E as [q Hq].
    assert (q = 0) by nia. lia.
  - intros i Hi. apply list_elem_of_fmap.
    exists (Z.to_nat ((i - (next_lun + 1)) mod n)).
    pose proof (Z.mod_pos_bound (i - (next_lun + 1)) n Hn) as Hb.
    split; [|apply elem_of_seq; lia].
    rewrite Z2Nat.id by lia.
    rewrite Zplus_mod_idemp_r.
    replace (next_lun + 1 + (i - (next_lun + 1))) with i by lia.
    symmetry. apply Z.mod_small. exact Hi.
Qed.

Lemma pblk_get_lun_rr_round_robin_witness :
  snd (pblk_get_lun_rr 6 [3; 0; 5; 5] false) = (6 + 1) mod 4 /\
  NoDup (lun_sequence 4 6 [3; 0; 5; 5]) /\
  forall i, 0 <= i < 4 -> i ∈ lun_sequence 4 6 [3; 0; 5; 5].
Proof.
  apply (pblk_get_lun_rr_round_robin [3; 0; 5; 5] 6); [discriminate | lia | cbn; lia].
Defined.

Lemma pblk_get_lun_rr_loop_max free : forall rest i m,
  (i + length rest = length free)%nat -> (m < i \/ (free <> [] /\ m = O))%nat ->
  (forall j, (j < i)%nat -> default 0 (free !! j) <= default 0 (free !! m)) ->
  (forall j, (j < m)%nat -> default 0 (free !! j) < default 0 (free !! m)) ->
  drop i free = rest ->
  let r := pblk_get_lun_rr_loop free rest i m in
  (r < length free)%nat /\
  (forall j, (j < length free)%nat -> default 0 (free !! j) <= default 0 (free !! r)) /\
  (forall j, (j < r)%nat -> default 0 (free !! j) < default 0 (free !! r)).
Proof.
  induction rest as [|f rest IH]; intros i m Hlen Hm Hle Hlt Hdrop r.
  - subst r. cbn [pblk_get_lun_rr_loop]. cbn in Hlen.
    split; [|split].
    + destruct Hm as [Hm | [Hne ->]]; [lia|]. destruct free; [contradiction | cbn; lia].
    + intros j Hj. apply Hle. lia.
    + exact Hlt.
  - assert (Hi : free !! i = Some f).
    { rewrite <- (Nat.add_0_r i), <- lookup_drop, Hdrop. reflexivity. }
    assert (Hdrop' : drop (S i) free = rest).
    { rewrite <- (Nat.add_1_r i), <- drop_drop, Hdrop. reflexivity. }
    subst r. cbn [pblk_get_lun_rr_loop].
    destruct (Z.ltb_spec (default 0 (free !! m)) f) as [Hbig | Hsmall].
    + apply IH; [cbn in Hlen; lia | left; lia | | | exact Hdrop'].
      * intros j Hj. rewrite Hi. change (default 0 (Some f)) with f.
        destruct (Nat.eq_dec j i) as [-> | Hne]; [rewrite Hi; cbn; lia|].
        specialize (Hle j ltac:(lia)). lia.
      * intros j Hj. rewrite Hi. change (default 0 (Some f)) with f.
        specialize (Hle j Hj). lia.
    + apply IH; [cbn in Hlen; lia | | | exact Hlt | exact Hdrop'].
      * destruct Hm as [Hm | Hm]; [left; lia | right; exact Hm].
      * intros j Hj.
        destruct (Nat.eq_dec j i) as [-> | Hne]; [rewrite Hi; cbn; lia|].
        apply Hle. lia.
Qed.

(** X17.  In GC mode [pblk_get_lun_rr] returns the LUN with the most free
    blocks, the first such LUN when several tie, and leaves the
    round-robin counter alone. *)
Theorem pblk_get_lun_rr_gc_max free next_lun :
  free <> [] ->
  let r := snd (pblk_get_lun_rr next_lun free true) in
  fst (pblk_get_lun_rr next_lun free true) = next_lun /\
  0 <= r < Z.of_nat (length free) /\
  (forall j, (j < length free)%nat ->
     default 0 (free !! j) <= default 0 (free !! Z.to_nat r)) /\
  (forall j, (j < Z.to_nat r)%nat ->
     default 0 (free !! j) < default 0 (free !! Z.to_nat r)).
Proof.
  intros Hne r. subst r. cbn [pblk_get_lun_rr negb fst snd].
  destruct (pblk_get_lun_rr_loop_max free free O O) as (H1 & H2 & H3);
    [reflexivity | right; auto | intros j Hj; lia | intros j Hj; lia | reflexivity |].
  rewrite Nat2Z.id. split; [reflexivity|]. split; [lia|]. split; assumption.
Qed.

Lemma pblk_get_lun_rr_gc_max_witness :
  let free := [3; 0; 5; 5] in
  let r := snd (pblk_get_lun_rr 6 free true) in
  fst (pblk_get_lun_rr 6 free true) = 6 /\
  0 <= r < Z.of_nat (length free) /\
  (forall j, (j < length free)%nat ->
     default 0 (free !! j) <= default 0 (free !! Z.to_nat r)) /\
  (forall j, (j < Z.to_nat r)%nat ->
     default 0 (free !! j) < default 0 (free !! Z.to_nat r)).
Proof.
  intros free. apply (pblk_get_lun_rr_gc_max free 6). discriminate.
Defined.

(* ------------------------------------------------------------------ *)
(** ** Classification of a multi-sector read *)
(* ------------------------------------------------------------------ *)

Lemma rq_with_ppas_same r l :
  rq_ppa_list r = Some l -> rq_with_ppas r (rq_ppa_addr r) (Some l) = r.
Proof. destruct r; cbn. now intros ->. Qed.

Lemma rq_with_ppas_twice r a1 l1 a2 l2 :
  rq_with_ppas (rq_with_ppas r a1 l1) a2 l2 = rq_with_ppas r a2 l2.
Proof. reflexivity. Qed.

(** The classification loop of [pblk_read_ppalist_rq] over the addresses
    [ppas[i .. i + n)]: the device addresses among them are appended to
    the request's list in order, and the read bitmap gets the bit of
    every other sector. *)
Lemma pblk_read_ppalist_rq_loop_classify st ppas : forall n i rl l jn,
  (i + n <= length ppas)%nat ->
  rq_ppa_list (rl_rqd rl) = Some l -> rl_j rl = Z.of_nat jn ->
  (forall k line pin, ppas !! k = Some (PPA_CACHE line pin) ->
     0 <= line < rb_capacity (rwb st)) ->
  exists rl',
    pblk_read_ppalist_rq_loop n (Z.of_nat i) st ppas rl = Some rl' /\
    rl_rqd rl'
    = rq_with_ppas (rl_rqd rl) (rq_ppa_addr (rl_rqd rl))
        (Some (list_inserts jn (dev_ppas (take n (drop i ppas))) l)) /\
    rl_j rl' = Z.of_nat (jn + length (dev_ppas (take n (drop i ppas)))) /\
    forall k : nat,
      Z.testbit (rl_bitmap rl') (Z.of_nat k)
      = Z.testbit (rl_bitmap rl) (Z.of_nat k)
        || (bool_decide (i <= k < i + n)%nat
            && negb (ppa_on_dev (default PPA_EMPTY (ppas !! k)))).
Proof.
  induction n as [|n IH]; intros i rl l jn Hlen Hl Hj Hline.
  - exists rl. split; [reflexivity|]. cbn [take dev_ppas List.filter list_inserts length].
    rewrite Nat.add_0_r. split; [symmetry; now apply rq_with_ppas_same|].
    split; [exact Hj|]. intros k.
    rewrite bool_decide_eq_false_2 by lia. now rewrite orb_false_r.
  - destruct (lookup_lt_is_Some_2 ppas i ltac:(lia)) as [p Hp].
    rewrite (drop_S _ _ _ Hp). cbn [take].
    cbn [pblk_read_ppalist_rq_loop]. rewrite Nat2Z.id, Hp. cbn [mbind option_bind].
    replace (Z.of_nat i + 1) with (Z.of_nat (S i)) by lia.
    destruct p as [|line pin|g].
    + cbn [ppa_empty dev_ppas List.filter ppa_on_dev].
      destruct (IH (S i)
                  {| rl_bio := rl_bio rl; rl_rqd := rl_rqd rl;
                     rl_bitmap := set_bit (Z.of_nat i) (rl_bitmap rl);
                     rl_advanced_bio := rl_advanced_bio rl; rl_j := rl_j rl;
                     rl_valid_secs := rl_valid_secs rl |} l jn)
        as (rl' & Hrun & Hrq & Hj' & Hbits); [lia | exact Hl | exact Hj | exact Hline |].
      exists rl'. split; [exact Hrun|]. split; [exact Hrq|]. split; [exact Hj'|].
      intros k. rewrite Hbits. cbn [rl_bitmap]. unfold set_bit.
      destruct (Nat.eq_dec k i) as [-> | Hne].
      * rewrite Z.setbit_eq by lia. rewrite Hp. cbn.
        rewrite bool_decide_eq_true_2 by lia. now rewrite orb_true_r.
      * rewrite Z.setbit_neq by lia.
        destruct (decide (S i <= k < S i + n)%nat).
        -- rewrite !bool_decide_eq_true_2 by lia. reflexivity.
        -- rewrite !bool_decide_eq_false_2 by lia. reflexivity.
    + cbn [ppa_empty dev_ppas List.filter ppa_on_dev].
      unfold read_classify. cbn [nvm_addr_in_cache].
      unfold pblk_read_from_cache, pblk_rb_copy_to_bio. cbn [nvm_addr_to_cacheline].
      specialize (Hline i line pin Hp) as Hl0.
      destruct (Z.ltb_spec line 0); [lia|].
      destruct (Z.leb_spec (rb_capacity (rwb st)) line); [lia|]. cbn [orb].
      destruct (lookup_lt_is_Some_2 (rb_entries (rwb st)) (Z.to_nat line)) as [e He].
      { unfold rb_capacity in *. lia. }
      rewrite He. cbn [fmap option_fmap option_map mbind option_bind].
      match goal with
      | |- context [pblk_read_ppalist_rq_loop n _ st ppas ?r] =>
          destruct (IH (S i) r l jn)
            as (rl' & Hrun & Hrq & Hj' & Hbits);
            [lia | exact Hl | exact Hj | exact Hline |]
      end.
      exists rl'. split; [exact Hrun|]. split; [exact Hrq|]. split; [exact Hj'|].
      intros k. rewrite Hbits. cbn [rl_bitmap]. unfold set_bit.
      destruct (Nat.eq_dec k i) as [-> | Hne].
      * rewrite Z.setbit_eq by lia. rewrite Hp. cbn.
        rewrite bool_decide_eq_true_2 by lia. now rewrite orb_true_r.
      * rewrite Z.setbit_neq by lia.
        destruct (decide (S i <= k < S i + n)%nat).
        -- rewrite !bool_decide_eq_true_2 by lia. reflexivity.
        -- rewrite !bool_decide_eq_false_2 by lia. reflexivity.
    + cbn [ppa_empty dev_ppas List.filter ppa_on_dev].
      unfold read_classify. cbn [nvm_addr_in_cache].
      unfold rq_ppa_list_set. rewrite Hl. cbn [mbind option_bind].
      match goal with
      | |- context [pblk_read_ppalist_rq_loop n _ st ppas ?r] =>
          destruct (IH (S i) r (<[jn := PPA_DEV g]> l) (S jn))
            as (rl' & Hrun & Hrq & Hj' & Hbits);
            [lia | cbn; rewrite Hj, Nat2Z.id; reflexivity | cbn; lia | exact Hline |]
      end.
      exists rl'. split; [exact Hrun|].
      split; [|split].
      * rewrite Hrq. cbn [rl_rqd rq_ppa_addr rq_with_ppas list_inserts].
        rewrite rq_with_ppas_twice.
        now rewrite list_insert_inserts_lt by lia.
      * rewrite Hj'. unfold dev_ppas. cbn [length]. lia.
      * intros k. rewrite Hbits. cbn [rl_bitmap].
        destruct (Nat.eq_dec k i) as [-> | Hne].
        -- rewrite Hp. cbn. now rewrite !andb_false_r.
        -- destruct (decide (S i <= k < S i + n)%nat).
           ++ rewrite !bool_decide_eq_true_2 by lia. reflexivity.
           ++ rewrite !bool_decide_eq_false_2 by lia. reflexivity.
Qed.

Lemma l2p_upto_pin_refl T : l2p_upto_pin T T.
Proof. split; [reflexivity|]. intros k gp H. exists gp. auto. Qed.

Lemma l2p_upto_pin_trans T1 T2 T3 :
  l2p_upto_pin T1 T2 -> l2p_upto_pin T2 T3 -> l2p_upto_pin T1 T3.
Proof.
  intros [L1 H1] [L2 H2]. split; [congruence|].
  intros k gp Hk. destruct (H1 k gp Hk) as (gp2 & Hk2 & R2 & P2).
  destruct (H2 k gp2 Hk2) as (gp3 & Hk3 & R3 & P3).
  exists gp3. split; [exact Hk3|]. split; congruence.
Qed.

(** Setting or clearing the pin of one entry. *)
Lemma l2p_upto_pin_set T k gp val :
  T !! k = Some gp ->
  l2p_upto_pin T (<[k := {| ppa := nvm_addr_set_read_cache (ppa gp) val;
                            rblk := rblk gp |}]> T).
Proof.
  intros Hk. split; [apply length_insert|].
  intros j gpj Hj. destruct (Nat.eq_dec j k) as [-> | Hne].
  - rewrite list_lookup_insert_eq by (eapply lookup_lt_Some; exact Hk).
    eexists. split; [reflexivity|]. cbn [ppa rblk].
    assert (gpj = gp) by congruence. subst gpj.
    split; [reflexivity|]. destruct (ppa gp); reflexivity.
  - rewrite list_lookup_insert_ne by congruence. exists gpj. auto.
Qed.

(** The loop of [pblk_setup_seq_reads]: [ppas] receives the addresses of
    the L2P entries, the entries that are in the ring get pinned. *)
Lemma pblk_setup_seq_reads_loop_ok T0 bl : forall n i st ppas crs locked,
  0 <= bl -> (Z.to_nat bl + i + n <= length T0)%nat ->
  bl + Z.of_nat (i + n) <= pblk_nr_secs st ->
  (forall k, (Z.to_nat bl + i <= k)%nat -> trans_map st !! k = T0 !! k) ->
  l2p_upto_pin T0 (trans_map st) ->
  exists locked' st' crs',
    pblk_setup_seq_reads_loop n (Z.of_nat i) st ppas crs locked bl
    = Some (locked', st',
            list_inserts i (ppa <$> take n (drop (Z.to_nat bl + i) T0)) ppas, crs') /\
    l2p_upto_pin T0 (trans_map st') /\ st' = with_trans_map st (trans_map st').
Proof.
  induction n as [|n IH]; intros i st ppas crs locked Hbl Hlen Hns Hsame Hpin.
  - exists locked, st, crs. cbn [pblk_setup_seq_reads_loop take fmap list_fmap list_inserts].
    split; [reflexivity|]. split; [exact Hpin | now rewrite with_trans_map_same].
  - destruct (lookup_lt_is_Some_2 T0 (Z.to_nat bl + i) ltac:(lia)) as [gp Hgp].
    rewrite (drop_S _ _ _ Hgp). cbn [take fmap list_fmap list_inserts].
    cbn [pblk_setup_seq_reads_loop].
    assert (Hget : trans_map_get st (bl + Z.of_nat i) = Some gp).
    { rewrite trans_map_get_in by lia.
      replace (Z.to_nat (bl + Z.of_nat i)) with (Z.to_nat bl + i)%nat by lia.
      rewrite Hsame by lia. exact Hgp. }
    rewrite Hget. cbn [mbind option_bind]. rewrite Nat2Z.id.
    replace (Z.of_nat i + 1) with (Z.of_nat (S i)) by lia.
    unfold pblk_lock_read.
    assert (Hk : trans_map st !! (Z.to_nat bl + i)%nat = Some gp)
      by (rewrite Hsame by lia; exact Hgp).
    destruct (nvm_addr_in_cache (ppa gp)).
    + match goal with
      | |- context [pblk_setup_seq_reads_loop n _ ?s ?pp ?cc ?ll bl] =>
          destruct (IH (S i) s pp cc ll) as (locked' & st' & crs' & Hrun & Hp' & Hst');
            [exact Hbl | lia | cbn; lia | | |]
      end.
      * intros k Hk'. unfold trans_map_set. cbn [trans_map with_trans_map].
        rewrite list_lookup_insert_ne by lia. apply Hsame. lia.
      * unfold trans_map_set. cbn [trans_map with_trans_map].
        eapply l2p_upto_pin_trans; [exact Hpin|].
        replace (Z.to_nat (bl + Z.of_nat i)) with (Z.to_nat bl + i)%nat by lia.
        now apply l2p_upto_pin_set.
      * exists locked', st', crs'.
        replace (Z.to_nat bl + S i)%nat with (S (Z.to_nat bl + i)) in Hrun by lia.
        rewrite Hrun. rewrite list_insert_inserts_lt by lia.
        split; [reflexivity|]. split; [exact Hp'|].
        rewrite Hst' at 1. reflexivity.
    + destruct (IH (S i) st (<[i := ppa gp]> ppas) crs false)
        as (locked' & st' & crs' & Hrun & Hp' & Hst');
        [exact Hbl | lia | lia | | exact Hpin |].
      * intros k Hk'. apply Hsame. lia.
      * exists locked', st', crs'.
        replace (Z.to_nat bl + S i)%nat with (S (Z.to_nat bl + i)) in Hrun by lia.
        rewrite Hrun. rewrite list_insert_inserts_lt by lia.
        split; [reflexivity|]. split; [exact Hp' | exact Hst'].
Qed.

(** The loop of [pblk_unlock_seq_reads] changes pins only. *)
Lemma pblk_unlock_seq_reads_loop_ok bl : forall n i st,
  0 <= bl -> (Z.to_nat bl + i + n <= length (trans_map st))%nat ->
  bl + Z.of_nat (i + n) <= pblk_nr_secs st ->
  exists st',
    pblk_unlock_seq_reads_loop n (Z.of_nat i) st bl = Some st' /\
    l2p_upto_pin (trans_map st) (trans_map st') /\
    st' = with_trans_map st (trans_map st').
Proof.
  induction n as [|n IH]; intros i st Hbl Hlen Hns.
  - exists st. split; [reflexivity|].
    split; [apply l2p_upto_pin_refl | now rewrite with_trans_map_same].
  - destruct (lookup_lt_is_Some_2 (trans_map st) (Z.to_nat bl + i) ltac:(lia)) as [gp Hgp].
    cbn [pblk_unlock_seq_reads_loop].
    rewrite trans_map_get_in by lia.
    replace (Z.to_nat (bl + Z.of_nat i)) with (Z.to_nat bl + i)%nat by lia.
    rewrite Hgp. cbn [mbind option_bind].
    replace (Z.of_nat i + 1) with (Z.of_nat (S i)) by lia.
    unfold pblk_unlock_read.
    destruct (nvm_addr_in_cache (ppa gp)).
    + match goal with
      | |- context [pblk_unlock_seq_reads_loop n _ ?s bl] =>
          destruct (IH (S i) s) as (st' & Hrun & Hp' & Hst');
            [exact Hbl | unfold trans_map_set; cbn; rewrite length_insert; lia
            | cbn; lia |]
      end.
      exists st'. split; [exact Hrun|]. split.
      * eapply l2p_upto_pin_trans; [|exact Hp'].
        unfold trans_map_set. cbn [trans_map with_trans_map].
        replace (Z.to_nat (bl + Z.of_nat i)) with (Z.to_nat bl + i)%nat by lia.
        now apply l2p_upto_pin_set.
      * rewrite Hst' at 1. reflexivity.
    + destruct (IH (S i) st) as (st' & Hrun & Hp' & Hst'); [exact Hbl | lia | lia |].
      exists st'. auto.
Qed.

(** X18.  What the classification of a sequential multi-sector read
    hands to the rest of the read path.  Let [gps] be the L2P entries of
    the sectors read.  The request's address list receives the device
    addresses among them, in order, from index 0; the read bitmap has the
    bit of a sector set exactly when the sector needs no device read (its
    entry is empty or points into the ring); and the L2P table is changed
    at most in its read pins. *)
Theorem pblk_read_ppalist_rq_classify st b rqd l N :
  let laddr := pblk_get_laddr (consts st) b in
  let gps := take N (drop (Z.to_nat laddr) (trans_map st)) in
  0 <= laddr -> (N <= PBLK_MAX_REQ_ADDRS)%nat ->
  laddr + Z.of_nat N < pblk_nr_secs st ->
  pblk_nr_secs st <= Z.of_nat (length (trans_map st)) ->
  rq_ppa_list rqd = Some l ->
  (forall gp line pin, gp ∈ gps -> ppa gp = PPA_CACHE line pin ->
     0 <= line < rb_capacity (rwb st)) ->
  exists st' b' bm,
    pblk_read_ppalist_rq st b rqd (Z.of_nat N) 0
    = Some (st', b',
            rq_with_ppas rqd (rq_ppa_addr rqd)
              (Some (list_inserts 0 (dev_ppas (ppa <$> gps)) l)),
            bm, NVM_IO_OK) /\
    (forall k gp, gps !! k = Some gp ->
       Z.testbit bm (Z.of_nat k) = negb (ppa_on_dev (ppa gp))) /\
    l2p_upto_pin (trans_map st) (trans_map st') /\
    st' = with_trans_map st (trans_map st').
Proof.
  intros laddr gps Hl HN Hend Hns Hrq Hline.
  assert (Hgl : length gps = N).
  { unfold gps. rewrite length_take, length_drop. lia. }
  unfold pblk_read_ppalist_rq. fold laddr.
  destruct (Z.leb_spec 0 laddr); [|lia].
  destruct (Z.ltb_spec (laddr + Z.of_nat N) (pblk_nr_secs st)); [|lia].
  cbn [andb negb]. unfold pblk_setup_seq_reads. rewrite Nat2Z.id.
  destruct (pblk_setup_seq_reads_loop_ok (trans_map st) laddr N O st
              (replicate PBLK_MAX_REQ_ADDRS PPA_EMPTY)
              (replicate PBLK_MAX_REQ_ADDRS false) false)
    as (locked & st1 & crs & Hsetup & Hpin1 & Hst1);
    [lia | lia | lia | reflexivity | apply l2p_upto_pin_refl |].
  change (Z.of_nat 0) with 0 in Hsetup. rewrite Hsetup. cbn [mbind option_bind].
  rewrite Nat.add_0_r. fold gps.
  set (ppas := list_inserts 0 (ppa <$> gps) (replicate PBLK_MAX_REQ_ADDRS PPA_EMPTY)).
  assert (Hppas : ppas = (ppa <$> gps) ++ replicate (PBLK_MAX_REQ_ADDRS - N) PPA_EMPTY).
  { unfold ppas.
    replace PBLK_MAX_REQ_ADDRS with (N + (PBLK_MAX_REQ_ADDRS - N))%nat at 1 by lia.
    rewrite replicate_add. apply list_inserts_0_r.
    now rewrite length_fmap, length_replicate. }
  assert (Htake : take N (drop 0 ppas) = ppa <$> gps).
  { rewrite Hppas, drop_0. apply take_app_length'. now rewrite length_fmap. }
  assert (Hcap : rb_capacity (rwb st1) = rb_capacity (rwb st)) by (rewrite Hst1; reflexivity).
  destruct (pblk_read_ppalist_rq_loop_classify st1 ppas N O
              {| rl_bio := b; rl_rqd := rqd; rl_bitmap := 0; rl_advanced_bio := false;
                 rl_j := 0; rl_valid_secs := 0 |} l O)
    as (rl & Hloop & Hrqd & _ & Hbits).
  { rewrite Hppas, length_app, length_fmap, length_replicate. lia. }
  { exact Hrq. }
  { reflexivity. }
  { intros k line pin Hk. rewrite Hcap. rewrite Hppas in Hk.
    apply lookup_app_Some in Hk as [Hk | [_ Hk]].
    - apply list_lookup_fmap_Some in Hk as (gp & Heq & Hgp).
      eapply Hline; [eapply list_elem_of_lookup_2; exact Hgp | symmetry; exact Heq].
    - apply lookup_replicate in Hk as [Hk _]. discriminate. }
  change (Z.of_nat 0) with 0 in Hloop. rewrite Hloop. cbn [mbind option_bind].
  rewrite Htake in Hrqd. cbn [rl_rqd] in Hrqd.
  assert (Hbm : forall k gp, gps !! k = Some gp ->
            Z.testbit (rl_bitmap rl) (Z.of_nat k) = negb (ppa_on_dev (ppa gp))).
  { intros k gp Hk. rewrite Hbits. cbn [rl_bitmap]. rewrite Z.bits_0. cbn [orb].
    assert (k < N)%nat by (rewrite <- Hgl; eapply lookup_lt_Some; exact Hk).
    rewrite bool_decide_eq_true_2 by lia. cbn [andb].
    rewrite Hppas, lookup_app_l by (rewrite length_fmap; lia).
    rewrite list_lookup_fmap, Hk. reflexivity. }
  destruct locked.
  - unfold pblk_unlock_seq_reads. rewrite Nat2Z.id.
    destruct (pblk_unlock_seq_reads_loop_ok laddr N O st1) as (st2 & Hun & Hpin2 & Hst2).
    { lia. }
    { destruct Hpin1 as [Hlen1 _]. rewrite Hlen1. lia. }
    { rewrite Hst1. cbn. lia. }
    change (Z.of_nat 0) with 0 in Hun. rewrite Hun. cbn [mbind option_bind].
    exists st2, (rl_bio rl), (rl_bitmap rl). rewrite Hrqd.
    split; [reflexivity|]. split; [exact Hbm|].
    split; [eapply l2p_upto_pin_trans; eassumption|].
    rewrite Hst2 at 1. rewrite Hst1. reflexivity.
  - cbn [mbind option_bind].
    exists st1, (rl_bio rl), (rl_bitmap rl). rewrite Hrqd.
    split; [reflexivity|]. split; [exact Hbm|]. split; assumption.
Qed.

Lemma pblk_read_ppalist_rq_classify_witness :
  let st := ex_pblk_cached in
  let b := ex_bio false 6 2 [[]; []] in
  let l := replicate PBLK_MAX_REQ_ADDRS PPA_EMPTY in
  let gps := take 2 (drop 6 (trans_map st)) in
  exists st' b' bm,
    pblk_read_ppalist_rq st b ex_read_rqd 2 0
    = Some (st', b',
            rq_with_ppas ex_read_rqd (rq_ppa_addr ex_read_rqd)
              (Some (list_inserts 0 (dev_ppas (ppa <$> gps)) l)),
            bm, NVM_IO_OK) /\
    (forall k gp, gps !! k = Some gp ->
       Z.testbit bm (Z.of_nat k) = negb (ppa_on_dev (ppa gp))) /\
    l2p_upto_pin (trans_map st) (trans_map st') /\
    st' = with_trans_map st (trans_map st').
Proof.
  intros st b l gps.
  apply (pblk_read_ppalist_rq_classify st b ex_read_rqd l 2);
    try reflexivity; try (vm_compute; intuition discriminate).
  - unfold PBLK_MAX_REQ_ADDRS. lia.
  - intros gp line pin Hin Hp. vm_compute in Hin.
    apply elem_of_cons in Hin as [-> | Hin].
    + injection Hp as <- _. vm_compute. intuition discriminate.
    + apply elem_of_cons in Hin as [-> | Hin]; [discriminate Hp|].
      apply elem_of_nil in Hin. contradiction.
Defined.

(** X19.  An unmapped sector after a cached one shifts the data that
    follows.  The classification loop advances the bio after every sector
    it handles, but leaves the loop early ([continue]) for an unmapped
    sector.  In a three-sector read whose first and third sectors are in
    the ring and whose second sector is unmapped, the data of the third
    sector is therefore copied into the page of the second, the page of
    the third is left as it was, and all three sectors are marked served. *)
Theorem pblk_read_ppalist_rq_shifted st b rqd la pa ra ea r1 lb pb rb eb p0 p1 p2 :
  let laddr := pblk_get_laddr (consts st) b in
  0 <= laddr -> laddr + 3 < pblk_nr_secs st ->
  pblk_nr_secs st <= Z.of_nat (length (trans_map st)) ->
  take 3 (drop (Z.to_nat laddr) (trans_map st))
  = [ {| ppa := PPA_CACHE la pa; rblk := ra |};
      {| ppa := PPA_EMPTY; rblk := r1 |};
      {| ppa := PPA_CACHE lb pb; rblk := rb |} ] ->
  0 <= la -> rb_entries (rwb st) !! Z.to_nat la = Some ea ->
  0 <= lb -> rb_entries (rwb st) !! Z.to_nat lb = Some eb ->
  bi_idx b = 0 -> bi_io_vec b = [p0; p1; p2] ->
  exists st' b',
    pblk_read_ppalist_rq st b rqd 3 0 = Some (st', b', rqd, 7, NVM_IO_OK) /\
    bi_io_vec b' = [e_data ea; e_data eb; p2].
Proof.
  intros laddr Hl Hend Hns Hgps Hla Hea Hlb Heb Hidx Hvec.
  unfold pblk_read_ppalist_rq. fold laddr.
  destruct (Z.leb_spec 0 laddr); [|lia].
  destruct (Z.ltb_spec (laddr + 3) (pblk_nr_secs st)); [|lia].
  cbn [andb negb]. unfold pblk_setup_seq_reads. change (Z.to_nat 3) with 3%nat.
  destruct (pblk_setup_seq_reads_loop_ok (trans_map st) laddr 3 O st
              (replicate PBLK_MAX_REQ_ADDRS PPA_EMPTY)
              (replicate PBLK_MAX_REQ_ADDRS false) false)
    as (locked & st1 & crs & Hsetup & Hpin1 & Hst1);
    [lia | lia | lia | reflexivity | apply l2p_upto_pin_refl |].
  change (Z.of_nat 0) with 0 in Hsetup. rewrite Hsetup. cbn [mbind option_bind].
  rewrite Nat.add_0_r, Hgps. cbn [fmap list_fmap ppa].
  assert (Hrwb : rwb st1 = rwb st) by (rewrite Hst1; reflexivity).
  assert (Hca : (Z.to_nat la < length (rb_entries (rwb st)))%nat)
    by (eapply lookup_lt_Some; exact Hea).
  assert (Hcb : (Z.to_nat lb < length (rb_entries (rwb st)))%nat)
    by (eapply lookup_lt_Some; exact Heb).
  assert (Hloop :
    pblk_read_ppalist_rq_loop 3 0 st1
      (list_inserts 0 [PPA_CACHE la pa; PPA_EMPTY; PPA_CACHE lb pb]
         (replicate PBLK_MAX_REQ_ADDRS PPA_EMPTY))
      {| rl_bio := b; rl_rqd := rqd; rl_bitmap := 0; rl_advanced_bio := false;
         rl_j := 0; rl_valid_secs := 0 |}
    = Some {| rl_bio := bio_advance (consts st1)
                          (bio_store (bio_advance (consts st1)
                              (bio_store (bio_advance (consts st1) b 0) (e_data ea)) 1)
                             (e_data eb)) 1;
              rl_rqd := rqd; rl_bitmap := 7; rl_advanced_bio := true;
              rl_j := 0; rl_valid_secs := 2 |}).
  { set (ppas := list_inserts 0 _ _).
    assert (Hp0 : ppas !! O = Some (PPA_CACHE la pa)) by reflexivity.
    assert (Hp1 : ppas !! 1%nat = Some PPA_EMPTY) by reflexivity.
    assert (Hp2 : ppas !! 2%nat = Some (PPA_CACHE lb pb)) by reflexivity.
    clearbody ppas.
    cbn [pblk_read_ppalist_rq_loop].
    change (Z.to_nat 0) with O. change (Z.to_nat (0 + 1)) with 1%nat.
    change (Z.to_nat (0 + 1 + 1)) with 2%nat.
    rewrite Hp0, Hp1, Hp2.
    cbn [mbind option_bind ppa_empty].
    unfold read_classify. cbn [nvm_addr_in_cache rl_advanced_bio rl_bio rl_rqd rl_bitmap
                               rl_j rl_valid_secs].
    unfold pblk_read_from_cache, pblk_rb_copy_to_bio. cbn [nvm_addr_to_cacheline].
    rewrite Hrwb. unfold rb_capacity.
    destruct (Z.ltb_spec la 0); [lia|]. destruct (Z.ltb_spec lb 0); [lia|].
    destruct (Z.leb_spec (Z.of_nat (length (rb_entries (rwb st)))) la); [lia|].
    destruct (Z.leb_spec (Z.of_nat (length (rb_entries (rwb st)))) lb); [lia|].
    cbn [orb]. rewrite Hea, Heb.
    cbn [fmap option_fmap option_map mbind option_bind ppa_empty
         rl_advanced_bio rl_bio rl_rqd rl_bitmap rl_j rl_valid_secs].
    reflexivity. }
  rewrite Hloop. cbn [mbind option_bind rl_bio rl_rqd rl_bitmap].
  assert (Hb' : bi_io_vec
                  (bio_advance (consts st1)
                     (bio_store (bio_advance (consts st1)
                        (bio_store (bio_advance (consts st1) b 0) (e_data ea)) 1)
                        (e_data eb)) 1)
                = [e_data ea; e_data eb; p2]).
  { unfold bio_advance, bio_store. cbn [bi_idx bio_with_iter bio_with_vec bi_io_vec].
    rewrite Hidx, Hvec. reflexivity. }
  destruct locked.
  - unfold pblk_unlock_seq_reads.
    destruct (pblk_unlock_seq_reads_loop_ok laddr 3 O st1) as (st2 & Hun & _).
    { lia. }
    { destruct Hpin1 as [Hlen1 _]. rewrite Hlen1. lia. }
    { rewrite Hst1. cbn. lia. }
    change (Z.of_nat 0) with 0 in Hun. change (Z.to_nat 3) with 3%nat. rewrite Hun.
    cbn [mbind option_bind]. eexists _, _. split; [reflexivity | exact Hb'].
  - cbn [mbind option_bind]. eexists _, _. split; [reflexivity | exact Hb'].
Qed.

Lemma pblk_read_ppalist_rq_shifted_witness :
  exists st' b',
    pblk_read_ppalist_rq ex_pblk_cached
      (ex_bio false 4 3 [[Byte.x0a]; [Byte.x0b]; [Byte.x0c]]) ex_read_rqd 3 0
    = Some (st', b', ex_read_rqd, 7, NVM_IO_OK) /\
    bi_io_vec b' = [[Byte.x02]; [Byte.x03]; [Byte.x0c]].
Proof.
  apply (pblk_read_ppalist_rq_shifted ex_pblk_cached
           (ex_bio false 4 3 [[Byte.x0a]; [Byte.x0b]; [Byte.x0c]]) ex_read_rqd
           1 false None (ex_entry [Byte.x02]) None
           2 false None (ex_entry [Byte.x03])
           [Byte.x0a] [Byte.x0b] [Byte.x0c]);
    try reflexivity; vm_compute; intuition discriminate.
Defined.

(** The pins after the loop of [pblk_setup_seq_reads]: every entry of the
    range that is in the ring is pinned, nothing else changes, and the
    answer [locked] is what [pblk_lock_read] said of the last sector. *)
Lemma pblk_setup_seq_reads_loop_pins bl :
  forall n i st ppas crs locked locked' st' ppas' crs',
  0 <= bl -> bl + Z.of_nat (i + n) <= pblk_nr_secs st ->
  pblk_setup_seq_reads_loop n (Z.of_nat i) st ppas crs locked bl
  = Some (locked', st', ppas', crs') ->
  (forall k, ~ (Z.to_nat bl + i <= k < Z.to_nat bl + i + n)%nat ->
     trans_map st' !! k = trans_map st !! k) /\
  (forall k gp, (Z.to_nat bl + i <= k < Z.to_nat bl + i + n)%nat ->
     trans_map st !! k = Some gp ->
     trans_map st' !! k
     = Some (if nvm_addr_in_cache (ppa gp)
             then {| ppa := nvm_addr_set_read_cache (ppa gp) true; rblk := rblk gp |}
             else gp)) /\
  (forall gl, (0 < n)%nat ->
     trans_map st !! (Z.to_nat bl + i + n - 1)%nat = Some gl ->
     locked' = nvm_addr_in_cache (ppa gl)).
Proof.
  induction n as [|n IH]; intros i st ppas crs locked locked' st' ppas' crs' Hbl Hns Hrun.
  - cbn [pblk_setup_seq_reads_loop] in Hrun. injection Hrun as <- <- <- <-.
    split; [reflexivity|]. split; [intros; lia | intros; lia].
  - cbn [pblk_setup_seq_reads_loop] in Hrun.
    rewrite trans_map_get_in in Hrun by lia.
    replace (Z.to_nat (bl + Z.of_nat i)) with (Z.to_nat bl + i)%nat in Hrun by lia.
    destruct (trans_map st !! (Z.to_nat bl + i)%nat) as [gp|] eqn:Hgp;
      [|discriminate Hrun].
    cbn [mbind option_bind] in Hrun.
    replace (Z.of_nat i + 1) with (Z.of_nat (S i)) in Hrun by lia.
    unfold pblk_lock_read in Hrun.
    assert (Hlt : (Z.to_nat bl + i < length (trans_map st))%nat)
      by (eapply lookup_lt_Some; exact Hgp).
    destruct (nvm_addr_in_cache (ppa gp)) eqn:Hc.
    + pose proof Hrun as Hrun0.
      apply IH in Hrun as (Hout & Hin & Hlast); [|exact Hbl | cbn; lia].
      unfold trans_map_set in Hout, Hin, Hlast.
      cbn [trans_map with_trans_map] in Hout, Hin, Hlast.
      replace (Z.to_nat (bl + Z.of_nat i)) with (Z.to_nat bl + i)%nat
        in Hout, Hin, Hlast by lia.
      split; [|split].
      * intros k Hk. rewrite Hout by lia. apply list_lookup_insert_ne. lia.
      * intros k g Hk Hg. destruct (Nat.eq_dec k (Z.to_nat bl + i)%nat) as [-> | Hne].
        -- rewrite Hout by lia. rewrite list_lookup_insert_eq by exact Hlt.
           assert (g = gp) by congruence. subst g. now rewrite Hc.
        -- apply Hin; [lia|]. rewrite list_lookup_insert_ne by lia. exact Hg.
      * intros gl _ Hgl. destruct n as [|n].
        -- cbn [pblk_setup_seq_reads_loop] in Hrun0. injection Hrun0 as <- _ _ _.
           replace (Z.to_nat bl + i + 1 - 1)%nat with (Z.to_nat bl + i)%nat in Hgl by lia.
           assert (gl = gp) by congruence. subst gl. now rewrite Hc.
        -- apply Hlast; [lia|].
           replace (Z.to_nat bl + S i + S n - 1)%nat
             with (Z.to_nat bl + i + S (S n) - 1)%nat by lia.
           rewrite list_lookup_insert_ne by lia. exact Hgl.
    + pose proof Hrun as Hrun0.
      apply IH in Hrun as (Hout & Hin & Hlast); [|exact Hbl | lia].
      split; [|split].
      * intros k Hk. apply Hout. lia.
      * intros k g Hk Hg. destruct (Nat.eq_dec k (Z.to_nat bl + i)%nat) as [-> | Hne].
        -- rewrite Hout by lia. assert (g = gp) by congruence. subst g.
           now rewrite Hc.
        -- apply Hin; [lia | exact Hg].
      * intros gl _ Hgl. destruct n as [|n].
        -- cbn [pblk_setup_seq_reads_loop] in Hrun0. injection Hrun0 as <- _ _ _.
           replace (Z.to_nat bl + i + 1 - 1)%nat with (Z.to_nat bl + i)%nat in Hgl by lia.
           assert (gl = gp) by congruence. subst gl. now rewrite Hc.
        -- apply Hlast; [lia|].
           replace (Z.to_nat bl + S i + S n - 1)%nat
             with (Z.to_nat bl + i + S (S n) - 1)%nat by lia.
           exact Hgl.
Qed.

(** The pins after the loop of [pblk_unlock_seq_reads]: every entry of
    the range that is in the ring has its pin cleared. *)
Lemma pblk_unlock_seq_reads_loop_pins bl : forall n i st st',
  0 <= bl -> bl + Z.of_nat (i + n) <= pblk_nr_secs st ->
  pblk_unlock_seq_reads_loop n (Z.of_nat i) st bl = Some st' ->
  (forall k, ~ (Z.to_nat bl + i <= k < Z.to_nat bl + i + n)%nat ->
     trans_map st' !! k = trans_map st !! k) /\
  (forall k gp, (Z.to_nat bl + i <= k < Z.to_nat bl + i + n)%nat ->
     trans_map st !! k = Some gp ->
     trans_map st' !! k
     = Some (if nvm_addr_in_cache (ppa gp)
             then {| ppa := nvm_addr_set_read_cache (ppa gp) false; rblk := rblk gp |}
             else gp)).
Proof.
  induction n as [|n IH]; intros i st st' Hbl Hns Hrun.
  - cbn [pblk_unlock_seq_reads_loop] in Hrun. injection Hrun as <-.
    split; [reflexivity | intros; lia].
  - cbn [pblk_unlock_seq_reads_loop] in Hrun.
    rewrite trans_map_get_in in Hrun by lia.
    replace (Z.to_nat (bl + Z.of_nat i)) with (Z.to_nat bl + i)%nat in Hrun by lia.
    destruct (trans_map st !! (Z.to_nat bl + i)%nat) as [gp|] eqn:Hgp;
      [|discriminate Hrun].
    cbn [mbind option_bind] in Hrun.
    replace (Z.of_nat i + 1) with (Z.of_nat (S i)) in Hrun by lia.
    unfold pblk_unlock_read in Hrun.
    assert (Hlt : (Z.to_nat bl + i < length (trans_map st))%nat)
      by (eapply lookup_lt_Some; exact Hgp).
    destruct (nvm_addr_in_cache (ppa gp)) eqn:Hc.
    + apply IH in Hrun as (Hout & Hin); [|exact Hbl | cbn; lia].
      unfold trans_map_set in Hout, Hin.
      cbn [trans_map with_trans_map] in Hout, Hin.
      replace (Z.to_nat (bl + Z.of_nat i)) with (Z.to_nat bl + i)%nat in Hout, Hin by lia.
      split.
      * intros k Hk. rewrite Hout by lia. apply list_lookup_insert_ne. lia.
      * intros k g Hk Hg. destruct (Nat.eq_dec k (Z.to_nat bl + i)%nat) as [-> | Hne].
        -- rewrite Hout by lia. rewrite list_lookup_insert_eq by exact Hlt.
           assert (g = gp) by congruence. subst g. now rewrite Hc.
        -- apply Hin; [lia|]. rewrite list_lookup_insert_ne by lia. exact Hg.
    + apply IH in Hrun as (Hout & Hin); [|exact Hbl | lia].
      split.
      * intros k Hk. apply Hout. lia.
      * intros k g Hk Hg. destruct (Nat.eq_dec k (Z.to_nat bl + i)%nat) as [-> | Hne].
        -- rewrite Hout by lia. assert (g = gp) by congruence. subst g.
           now rewrite Hc.
        -- apply Hin; [lia | exact Hg].
Qed.

(** X20.  Which read pins a sequential multi-sector read leaves behind.
    [pblk_setup_seq_reads] overwrites [locked] at every sector, so the
    pins are released only if the last sector of the range is in the
    ring.  After the call every sector of the range that is in the ring
    has its pin clear if the last sector is in the ring, and set --
    although the read is over -- if the last sector is unmapped or on the
    device. *)
Theorem pblk_read_ppalist_rq_pins st b rqd l N glast :
  let laddr := pblk_get_laddr (consts st) b in
  let gps := take N (drop (Z.to_nat laddr) (trans_map st)) in
  0 <= laddr -> (N <= PBLK_MAX_REQ_ADDRS)%nat ->
  laddr + Z.of_nat N < pblk_nr_secs st ->
  pblk_nr_secs st <= Z.of_nat (length (trans_map st)) ->
  rq_ppa_list rqd = Some l ->
  (forall gp line pin, gp ∈ gps -> ppa gp = PPA_CACHE line pin ->
     0 <= line < rb_capacity (rwb st)) ->
  last gps = Some glast ->
  exists st' b' rqd' bm,
    pblk_read_ppalist_rq st b rqd (Z.of_nat N) 0 = Some (st', b', rqd', bm, NVM_IO_OK) /\
    forall k gp line pin, gps !! k = Some gp -> ppa gp = PPA_CACHE line pin ->
      trans_map st' !! (Z.to_nat laddr + k)%nat
      = Some {| ppa := PPA_CACHE line (negb (nvm_addr_in_cache (ppa glast)));
                rblk := rblk gp |}.
Proof.
  intros laddr gps Hl HN Hend Hns Hrq Hline Hlast.
  assert (Hgl : length gps = N).
  { unfold gps. rewrite length_take, length_drop. lia. }
  assert (HN0 : (0 < N)%nat).
  { destruct N; [|lia]. unfold gps in Hlast. cbn in Hlast. discriminate. }
  assert (Hgk : forall k gp, gps !! k = Some gp ->
            (k < N)%nat /\ trans_map st !! (Z.to_nat laddr + k)%nat = Some gp).
  { intros k gp Hk. assert (k < N)%nat by (rewrite <- Hgl; eapply lookup_lt_Some; exact Hk).
    split; [assumption|]. unfold gps in Hk.
    rewrite lookup_take_lt in Hk by assumption. now rewrite lookup_drop in Hk. }
  assert (Hglast : trans_map st !! (Z.to_nat laddr + 0 + N - 1)%nat = Some glast).
  { rewrite last_lookup in Hlast. rewrite Hgl in Hlast.
    apply Hgk in Hlast as [_ Hlast].
    replace (Z.to_nat laddr + 0 + N - 1)%nat with (Z.to_nat laddr + Nat.pred N)%nat by lia.
    exact Hlast. }
  unfold pblk_read_ppalist_rq. fold laddr.
  destruct (Z.leb_spec 0 laddr); [|lia].
  destruct (Z.ltb_spec (laddr + Z.of_nat N) (pblk_nr_secs st)); [|lia].
  cbn [andb negb]. unfold pblk_setup_seq_reads. rewrite Nat2Z.id.
  destruct (pblk_setup_seq_reads_loop_ok (trans_map st) laddr N O st
              (replicate PBLK_MAX_REQ_ADDRS PPA_EMPTY)
              (replicate PBLK_MAX_REQ_ADDRS false) false)
    as (locked & st1 & crs & Hsetup & Hpin1 & Hst1);
    [lia | lia | lia | reflexivity | apply l2p_upto_pin_refl |].
  change (Z.of_nat 0) with 0 in Hsetup.
  pose proof Hsetup as Hpins.
  change 0 with (Z.of_nat 0) in Hpins at 1.
  apply pblk_setup_seq_reads_loop_pins in Hpins as (_ & Hin1 & Hlk); [|lia | lia].
  specialize (Hlk glast HN0 Hglast).
  rewrite Hsetup. cbn [mbind option_bind].
  rewrite Nat.add_0_r. fold gps.
  set (ppas := list_inserts 0 (ppa <$> gps) (replicate PBLK_MAX_REQ_ADDRS PPA_EMPTY)).
  assert (Hppas : ppas = (ppa <$> gps) ++ replicate (PBLK_MAX_REQ_ADDRS - N) PPA_EMPTY).
  { unfold ppas.
    replace PBLK_MAX_REQ_ADDRS with (N + (PBLK_MAX_REQ_ADDRS - N))%nat at 1 by lia.
    rewrite replicate_add. apply list_inserts_0_r.
    now rewrite length_fmap, length_replicate. }
  assert (Hcap : rb_capacity (rwb st1) = rb_capacity (rwb st)) by (rewrite Hst1; reflexivity).
  destruct (pblk_read_ppalist_rq_loop_classify st1 ppas N O
              {| rl_bio := b; rl_rqd := rqd; rl_bitmap := 0; rl_advanced_bio := false;
                 rl_j := 0; rl_valid_secs := 0 |} l O)
    as (rl & Hloop & _).
  { rewrite Hppas, length_app, length_fmap, length_replicate. lia. }
  { exact Hrq. }
  { reflexivity. }
  { intros k line pin Hk. rewrite Hcap. rewrite Hppas in Hk.
    apply lookup_app_Some in Hk as [Hk | [_ Hk]].
    - apply list_lookup_fmap_Some in Hk as (gp & Heq & Hgp).
      eapply Hline; [eapply list_elem_of_lookup_2; exact Hgp | symmetry; exact Heq].
    - apply lookup_replicate in Hk as [Hk _]. discriminate. }
  change (Z.of_nat 0) with 0 in Hloop. rewrite Hloop. cbn [mbind option_bind].
  assert (Hns1 : pblk_nr_secs st1 = pblk_nr_secs st) by (rewrite Hst1; reflexivity).
  destruct locked.
  - unfold pblk_unlock_seq_reads. rewrite Nat2Z.id.
    destruct (pblk_unlock_seq_reads_loop_ok laddr N O st1) as (st2 & Hun & _).
    { lia. }
    { destruct Hpin1 as [Hlen1 _]. rewrite Hlen1. lia. }
    { rewrite Hns1. lia. }
    change (Z.of_nat 0) with 0 in Hun. rewrite Hun. cbn [mbind option_bind].
    change 0 with (Z.of_nat 0) in Hun at 1.
    apply pblk_unlock_seq_reads_loop_pins in Hun as (_ & Hin2); [|lia | rewrite Hns1; lia].
    exists st2, (rl_bio rl), (rl_rqd rl), (rl_bitmap rl).
    split; [reflexivity|].
    intros k gp line pin Hk Hp. apply Hgk in Hk as [HkN Hk].
    rewrite <- Hlk. cbn [negb].
    specialize (Hin1 (Z.to_nat laddr + k)%nat gp ltac:(lia) Hk).
    rewrite Hp in Hin1. cbn [nvm_addr_in_cache nvm_addr_set_read_cache] in Hin1.
    rewrite (Hin2 (Z.to_nat laddr + k)%nat _ ltac:(lia) Hin1). reflexivity.
  - cbn [mbind option_bind].
    exists st1, (rl_bio rl), (rl_rqd rl), (rl_bitmap rl).
    split; [reflexivity|].
    intros k gp line pin Hk Hp. apply Hgk in Hk as [HkN Hk].
    rewrite <- Hlk. cbn [negb].
    specialize (Hin1 (Z.to_nat laddr + k)%nat gp ltac:(lia) Hk).
    rewrite Hp in Hin1. exact Hin1.
Qed.

Lemma pblk_read_ppalist_rq_pins_witness :
  let st := ex_pblk_cached in
  let b := ex_bio false 6 2 [[]; []] in
  let gps := take 2 (drop 6 (trans_map st)) in
  exists st' b' rqd' bm,
    pblk_read_ppalist_rq st b ex_read_rqd 2 0 = Some (st', b', rqd', bm, NVM_IO_OK) /\
    forall k gp line pin, gps !! k = Some gp -> ppa gp = PPA_CACHE line pin ->
      trans_map st' !! (6 + k)%nat
      = Some {| ppa := PPA_CACHE line true; rblk := rblk gp |}.
Proof.
  intros st b gps.
  apply (pblk_read_ppalist_rq_pins st b ex_read_rqd
           (replicate PBLK_MAX_REQ_ADDRS PPA_EMPTY) 2
           {| ppa := PPA_DEV {| g_blk := O; g_sec := 0 |}; rblk := Some O |});
    try reflexivity; try (vm_compute; intuition discriminate).
  - unfold PBLK_MAX_REQ_ADDRS. lia.
  - intros gp line pin Hin Hp. vm_compute in Hin.
    apply elem_of_cons in Hin as [-> | Hin].
    + injection Hp as <- _. vm_compute. intuition discriminate.
    + apply elem_of_cons in Hin as [-> | Hin]; [discriminate Hp|].
      apply elem_of_nil in Hin. contradiction.
Defined.

(** Consecutive positions fall into different slots of the ring as long
    as there are no more of them than slots. *)
Lemma wrap_pos_distinct s i j cap :
  0 <= s -> 0 <= i -> i < j -> j - i < cap ->
  Z.to_nat ((s + i) mod cap) <> Z.to_nat ((s + j) mod cap).
Proof.
  intros Hs Hi Hij Hc He.
  assert (Hcap : 0 < cap) by lia.
  pose proof (Z.mod_pos_bound (s + i) cap Hcap).
  pose proof (Z.mod_pos_bound (s + j) cap Hcap).
  assert (Hm : (s + i) mod cap = (s + j) mod cap) by lia.
  pose proof (Z.div_mod (s + i) cap ltac:(lia)) as D1.
  pose proof (Z.div_mod (s + j) cap ltac:(lia)) as D2.
  rewrite Hm in D1.
  assert (j - i = cap * ((s + j) / cap - (s + i) / cap)) by lia.
  assert (0 < (s + j) / cap - (s + i) / cap) by nia.
  nia.
Qed.

(** The loop of [pblk_map_page] over valid sectors: sector [j] of the page
    gets physical sector [cs + j] of block [b]; the address goes to the
    request, the LBA of the ring entry to the metadata and to the LBA
    list of the block, and address and block to the ring entry. *)
Lemma pblk_map_page_loop_valid b cs sentry off nv nr cap :
  0 <= cs -> 0 <= off -> 0 <= sentry -> cs + nv < 2 ^ 64 - 1 -> nv <= cap ->
  forall k i st rqd blk l m,
  0 <= i -> i + Z.of_nat k = nv ->
  rb_capacity (rwb st) = cap ->
  blocks st !! b = Some blk -> rq_ppa_list rqd = Some l -> rq_meta_list rqd = Some m ->
  off + nv <= Z.of_nat (length l) -> off + nv <= Z.of_nat (length m) ->
  cs + nv <= Z.of_nat (length (rlpg_lba_list blk)) ->
  exists st' rqd' blk' l' m',
    pblk_map_page_loop k i (cs + i) st b sentry rqd (DstList off) nr nv
    = Some (st', rqd', 0) /\
    blocks st' !! b = Some blk' /\
    rq_ppa_list rqd' = Some l' /\ rq_meta_list rqd' = Some m' /\
    trans_map st' = trans_map st /\
    rlpg_nr_lbas blk' = rlpg_nr_lbas blk + Z.of_nat k /\
    cur_sec blk' = cur_sec blk /\
    rb_capacity (rwb st') = cap /\
    (forall x, (forall j, i <= j < nv -> x <> Z.to_nat (off + j)) -> l' !! x = l !! x) /\
    (forall x, (forall j, i <= j < nv -> x <> Z.to_nat (off + j)) -> m' !! x = m !! x) /\
    (forall x, (forall j, i <= j < nv -> x <> Z.to_nat (cs + j)) ->
       rlpg_lba_list blk' !! x = rlpg_lba_list blk !! x) /\
    (forall x, (forall j, i <= j < nv -> x <> Z.to_nat ((sentry + j) mod cap)) ->
       rb_entries (rwb st') !! x = rb_entries (rwb st) !! x) /\
    (forall j, i <= j < nv ->
       exists e,
         rb_entries (rwb st) !! Z.to_nat ((sentry + j) mod cap) = Some e /\
         l' !! Z.to_nat (off + j) = Some (PPA_DEV {| g_blk := b; g_sec := cs + j |}) /\
         m' !! Z.to_nat (off + j) = Some (w_lba (e_w_ctx e)) /\
         rlpg_lba_list blk' !! Z.to_nat (cs + j) = Some (w_lba (e_w_ctx e)) /\
         rb_entries (rwb st') !! Z.to_nat ((sentry + j) mod cap)
         = Some {| e_data := e_data e;
                   e_w_ctx := w_ctx_with_ppa (e_w_ctx e) (cs + j)
                                {| ppa := PPA_DEV {| g_blk := b; g_sec := cs + j |};
                                   rblk := Some b |} |}).
Proof.
  intros Hcs Hoff Hs Hlim Hcap.
  induction k as [|k IH]; intros i st rqd blk l m Hi Hk Hrb Hb Hl Hm Hll Hlm Hlb.
  - exists st, rqd, blk, l, m. cbn [pblk_map_page_loop].
    repeat (split; [first [reflexivity | assumption | lia]|]).
    repeat (split; [intros; reflexivity|]).
    intros j Hj. lia.
  - cbn [pblk_map_page_loop].
    destruct (Z.eqb_spec (cs + i) ADDR_EMPTY) as [He | _];
      [unfold ADDR_EMPTY in He; lia|].
    unfold rq_store_ppa, rq_ppa_list_set. rewrite Hl. cbn [mbind option_bind].
    destruct (Z.ltb_spec i nv) as [_|]; [|lia].
    unfold pblk_rb_w_ctx, pblk_rb_wrap_pos. rewrite Hrb.
    set (slot := Z.to_nat ((sentry + i) mod cap)).
    assert (Hslot : (slot < length (rb_entries (rwb st)))%nat).
    { unfold slot. unfold rb_capacity in Hrb.
      pose proof (Z.mod_pos_bound (sentry + i) cap ltac:(lia)). lia. }
    destruct (lookup_lt_is_Some_2 _ _ Hslot) as [e He]. rewrite He.
    cbn [fmap option_fmap option_map mbind option_bind].
    unfold rq_store_meta. cbn [rq_meta_list rq_with_ppas]. rewrite Hm.
    cbn [mbind option_bind blocks with_rwb]. rewrite Hb. cbn [mbind option_bind].
    set (p := PPA_DEV {| g_blk := b; g_sec := cs + i |}).
    set (w := w_ctx_with_ppa (e_w_ctx e) (cs + i) {| ppa := p; rblk := Some b |}).
    set (blk2 := blk_set_rlpg blk _ _ _).
    set (st2 := with_blocks _ _).
    set (rqd2 := rq_with_meta _ _).
    rewrite to_ulong_id by lia.
    assert (Hblt : (b < length (blocks st))%nat) by (eapply lookup_lt_Some; exact Hb).
    replace (cs + i + 1) with (cs + (i + 1)) by lia.
    destruct (IH (i + 1) st2 rqd2 blk2
                (<[Z.to_nat (off + i) := p]> l)
                (<[Z.to_nat (off + i) := w_lba (e_w_ctx e)]> m))
      as (st' & rqd' & blk' & l' & m' & Hrun & Hb' & Hl' & Hm' & Ht' & Hn' & Hc' & Hrb'
          & Ol & Om & Ob & Or & In').
    { lia. }
    { lia. }
    { unfold st2, rb_capacity, rb_set_w_ctx. cbn [rwb with_blocks with_rwb rb_entries
        rb_with_entries]. rewrite length_alter. exact Hrb. }
    { unfold st2. cbn [blocks with_blocks with_rwb].
      now apply list_lookup_insert_eq. }
    { reflexivity. }
    { reflexivity. }
    { rewrite length_insert. exact Hll. }
    { rewrite length_insert. exact Hlm. }
    { unfold blk2. cbn [rlpg_lba_list blk_set_rlpg]. rewrite length_insert. exact Hlb. }
    exists st', rqd', blk', l', m'.
    split; [exact Hrun|]. split; [exact Hb'|]. split; [exact Hl'|]. split; [exact Hm'|].
    split; [rewrite Ht'; reflexivity|].
    split; [rewrite Hn'; unfold blk2; cbn [rlpg_nr_lbas blk_set_rlpg]; lia|].
    split; [rewrite Hc'; reflexivity|].
    split; [exact Hrb'|].
    assert (Hrb2 : rb_entries (rwb st2)
                   = alter (fun e0 => {| e_data := e_data e0; e_w_ctx := w |}) slot
                       (rb_entries (rwb st))).
    { unfold st2, rb_set_w_ctx, pblk_rb_wrap_pos. cbn [rwb with_blocks with_rwb rb_entries
        rb_with_entries]. rewrite Hrb. reflexivity. }
    split; [|split; [|split; [|split]]].
    + intros x Hx. rewrite Ol by (intros j Hj; apply Hx; lia).
      apply list_lookup_insert_ne. specialize (Hx i ltac:(lia)). congruence.
    + intros x Hx. rewrite Om by (intros j Hj; apply Hx; lia).
      apply list_lookup_insert_ne. specialize (Hx i ltac:(lia)). congruence.
    + intros x Hx. rewrite Ob by (intros j Hj; apply Hx; lia).
      unfold blk2. cbn [rlpg_lba_list blk_set_rlpg].
      apply list_lookup_insert_ne. specialize (Hx i ltac:(lia)). congruence.
    + intros x Hx. rewrite Or by (intros j Hj; apply Hx; lia).
      rewrite Hrb2. apply list_lookup_alter_ne. specialize (Hx i ltac:(lia)).
      unfold slot. congruence.
    + intros j Hj. destruct (Z.eq_dec j i) as [-> | Hne].
      * exists e. split; [exact He|].
        split; [|split; [|split]].
        -- rewrite Ol by (intros j Hj'; lia).
           apply list_lookup_insert_eq. lia.
        -- rewrite Om by (intros j Hj'; lia).
           apply list_lookup_insert_eq. lia.
        -- rewrite Ob by (intros j Hj'; lia).
           unfold blk2. cbn [rlpg_lba_list blk_set_rlpg].
           apply list_lookup_insert_eq. lia.
        -- rewrite Or by (intros j Hj'; apply wrap_pos_distinct; lia).
           rewrite Hrb2, list_lookup_alter_eq. fold slot. rewrite He. reflexivity.
      * destruct (In' j ltac:(lia)) as (e' & He' & I1 & I2 & I3 & I4).
        rewrite Hrb2 in He'.
        rewrite list_lookup_alter_ne in He'
          by (unfold slot; apply wrap_pos_distinct; lia).
        exists e'. split; [exact He'|]. auto.
Qed.

(** X21.  What [pblk_map_page] does with a page of valid sectors.  On a
    block that is not full the page gets the physical sectors from the
    old [cur_sec] on.  For every sector [j] of the page the address
    (block, [cur_sec + j]) is stored in the request's address list, the
    LBA of ring entry [sentry + j] is stored in the request's metadata
    and at index [cur_sec + j] of the block's LBA list, and the ring
    entry records the same physical sector, address and block.  The L2P
    table is not touched. *)
Theorem pblk_map_page_valid st b blk sentry rqd l m off n :
  blocks st !! b = Some blk -> block_is_full st blk = false ->
  0 <= cur_sec blk -> 0 <= off -> 0 <= sentry -> 0 <= n ->
  n <= rb_capacity (rwb st) ->
  cur_sec blk + n < 2 ^ 64 - 1 ->
  cur_sec blk + n <= Z.of_nat (length (rlpg_lba_list blk)) ->
  rq_ppa_list rqd = Some l -> rq_meta_list rqd = Some m ->
  off + n <= Z.of_nat (length l) -> off + n <= Z.of_nat (length m) ->
  exists st' rqd' blk' l' m',
    pblk_map_page st b sentry rqd (DstList off) n n = Some (st', rqd', 0) /\
    blocks st' !! b = Some blk' /\
    rq_ppa_list rqd' = Some l' /\ rq_meta_list rqd' = Some m' /\
    trans_map st' = trans_map st /\
    cur_sec blk' = cur_sec blk + min_write_pgs (geo st) /\
    rlpg_nr_lbas blk' = rlpg_nr_lbas blk + n /\
    forall j, 0 <= j < n ->
      exists w,
        pblk_rb_w_ctx (rwb st) (sentry + j) = Some w /\
        l' !! Z.to_nat (off + j)
        = Some (PPA_DEV {| g_blk := b; g_sec := cur_sec blk + j |}) /\
        m' !! Z.to_nat (off + j) = Some (w_lba w) /\
        rlpg_lba_list blk' !! Z.to_nat (cur_sec blk + j) = Some (w_lba w) /\
        pblk_rb_w_ctx (rwb st') (sentry + j)
        = Some (w_ctx_with_ppa w (cur_sec blk + j)
                  {| ppa := PPA_DEV {| g_blk := b; g_sec := cur_sec blk + j |};
                     rblk := Some b |}).
Proof.
  intros Hb Hfull Hcs Hoff Hs Hn Hcap Hlim Hlb Hl Hm Hll Hlm.
  unfold pblk_map_page. rewrite Hb. cbn [mbind option_bind].
  unfold pblk_alloc_page. rewrite Hfull. unfold pblk_next_base_sec.
  set (blk1 := blk_set_alloc blk _ _).
  set (st1 := with_blocks st _).
  assert (Hblt : (b < length (blocks st))%nat) by (eapply lookup_lt_Some; exact Hb).
  destruct (pblk_map_page_loop_valid b (cur_sec blk) sentry off n n (rb_capacity (rwb st))
              Hcs Hoff Hs Hlim Hcap (Z.to_nat n) 0 st1 rqd blk1 l m)
    as (st' & rqd' & blk' & l' & m' & Hrun & Hb' & Hl' & Hm' & Ht' & Hn' & Hc' & Hcap'
        & _ & _ & _ & _ & Hin); try assumption; try lia; try reflexivity.
  { unfold st1. cbn [blocks with_blocks]. now apply list_lookup_insert_eq. }
  rewrite Z.add_0_r in Hrun.
  exists st', rqd', blk', l', m'.
  split; [exact Hrun|]. split; [exact Hb'|]. split; [exact Hl'|]. split; [exact Hm'|].
  split; [rewrite Ht'; reflexivity|].
  split; [rewrite Hc'; reflexivity|].
  split; [rewrite Hn'; unfold blk1; cbn [rlpg_nr_lbas blk_set_alloc]; lia|].
  intros j Hj. destruct (Hin j Hj) as (e & He & I1 & I2 & I3 & I4).
  exists (e_w_ctx e). unfold pblk_rb_w_ctx, pblk_rb_wrap_pos.
  rewrite Hcap'. change (rwb st1) with (rwb st) in He. rewrite He, I4.
  cbn [fmap option_fmap option_map e_w_ctx]. auto.
Qed.

Lemma pblk_map_page_valid_witness :
  let st := ex_pblk_cached in
  let rqd := rq_with_meta ex_read_rqd (Some (replicate PBLK_MAX_REQ_ADDRS 0)) in
  exists st' rqd' blk' l' m',
    pblk_map_page st 0 0 rqd (DstList 0) 2 2 = Some (st', rqd', 0) /\
    blocks st' !! O = Some blk' /\
    rq_ppa_list rqd' = Some l' /\ rq_meta_list rqd' = Some m' /\
    trans_map st' = trans_map st /\
    cur_sec blk' = cur_sec ex_block + min_write_pgs (geo st) /\
    rlpg_nr_lbas blk' = rlpg_nr_lbas ex_block + 2 /\
    forall j, 0 <= j < 2 ->
      exists w,
        pblk_rb_w_ctx (rwb st) (0 + j) = Some w /\
        l' !! Z.to_nat (0 + j)
        = Some (PPA_DEV {| g_blk := O; g_sec := cur_sec ex_block + j |}) /\
        m' !! Z.to_nat (0 + j) = Some (w_lba w) /\
        rlpg_lba_list blk' !! Z.to_nat (cur_sec ex_block + j) = Some (w_lba w) /\
        pblk_rb_w_ctx (rwb st') (0 + j)
        = Some (w_ctx_with_ppa w (cur_sec ex_block + j)
                  {| ppa := PPA_DEV {| g_blk := O; g_sec := cur_sec ex_block + j |};
                     rblk := Some O |}).
Proof.
  intros st rqd.
  apply (pblk_map_page_valid st O ex_block 0 rqd
           (replicate PBLK_MAX_REQ_ADDRS PPA_EMPTY) (replicate PBLK_MAX_REQ_ADDRS 0) 0 2);
    try reflexivity; vm_compute; intuition discriminate.
Defined.

(** The loop of [pblk_map_rr_page] hands a page only to a block that is
    the current block of the LUN and is neither full nor bad. *)
Lemma pblk_map_rr_page_loop_safe rlun sentry rqd dst nr valid :
  forall fuel sched w w' rqd' ret sched',
  pblk_map_rr_page_loop fuel sched w rlun sentry rqd dst nr valid
  = Some (w', rqd', ret, sched') ->
  exists st lun b blk,
    luns st !! rlun = Some lun /\ lun_cur lun = Some b /\
    blocks st !! b = Some blk /\
    block_is_full st blk = false /\ blk_bad blk = false /\
    pblk_map_page st b sentry rqd dst nr valid = Some (wr_pblk w', rqd', ret).
Proof.
  induction fuel as [|fuel IH]; intros sched w w' rqd' ret sched' Hrun;
    [discriminate Hrun|].
  cbn [pblk_map_rr_page_loop] in Hrun.
  destruct (luns (wr_pblk w) !! rlun) as [lun|] eqn:Hlun; [|discriminate Hrun].
  cbn [mbind option_bind] in Hrun.
  destruct (lun_cur lun) as [b|] eqn:Hcur; [|discriminate Hrun].
  cbn [mbind option_bind] in Hrun.
  destruct (blocks (wr_pblk w) !! b) as [blk|] eqn:Hblk; [|discriminate Hrun].
  cbn [mbind option_bind] in Hrun.
  assert (Hrep : forall (r : option (pblk_wr * nvm_rq * Z * wr_env)),
            r = (bit ← wr_lun_id w !! rlun;
                 '(ok, pool1, st1) ← pblk_replace_blk (wr_pool w) (wr_pblk w) rlun bit;
                 if (ok : bool) then
                   pblk_map_rr_page_loop fuel sched
                     (wr_with_pool (wr_with_pblk w st1) pool1)
                     rlun sentry rqd dst nr valid
                 else
                   match sched with
                   | [] => None
                   | e :: sched1 =>
                       pblk_map_rr_page_loop fuel sched1
                         (e (wr_with_pool (wr_with_pblk w (emit st1 EvSchedule)) pool1))
                         rlun sentry rqd dst nr valid
                   end) ->
            r = Some (w', rqd', ret, sched') ->
            exists st lun b blk,
              luns st !! rlun = Some lun /\ lun_cur lun = Some b /\
              blocks st !! b = Some blk /\
              block_is_full st blk = false /\ blk_bad blk = false /\
              pblk_map_page st b sentry rqd dst nr valid = Some (wr_pblk w', rqd', ret)).
  { intros r -> Hr.
    destruct (wr_lun_id w !! rlun) as [bit|]; [|discriminate Hr].
    cbn [mbind option_bind] in Hr.
    destruct (pblk_replace_blk (wr_pool w) (wr_pblk w) rlun bit) as [[[ok pool1] st1]|];
      [|discriminate Hr].
    cbn [mbind option_bind] in Hr.
    destruct ok.
    - eapply IH; exact Hr.
    - destruct sched as [|e sched1]; [discriminate Hr|]. eapply IH; exact Hr. }
  destruct (block_is_full (wr_pblk w) blk) eqn:Hfull.
  { eapply Hrep; [reflexivity | exact Hrun]. }
  destruct (blk_bad blk) eqn:Hbad.
  { eapply Hrep; [reflexivity | exact Hrun]. }
  destruct (pblk_map_page (wr_pblk w) b sentry rqd dst nr valid)
    as [[[st1 rqd1] ret1]|] eqn:Hmap; [|discriminate Hrun].
  cbn [mbind option_bind] in Hrun. injection Hrun as <- <- <- <-.
  exists (wr_pblk w), lun, b, blk. cbn [wr_pblk wr_with_pblk]. auto 10.
Qed.

(** X22.  [pblk_map_rr_page] never maps a page in a full or bad block.
    Whatever the pool holds and whatever the other CPUs do while the
    write thread yields: when the call returns, the page was handed to
    [pblk_map_page] on the block that was then the current block of the
    LUN chosen by [pblk_get_lun_rr], and that block was neither full nor
    marked bad. *)
Theorem pblk_map_rr_page_safe fuel sched w sentry rqd dst nr valid w' rqd' ret sched' :
  pblk_map_rr_page fuel sched w sentry rqd dst nr valid = Some (w', rqd', ret, sched') ->
  exists st lun b blk,
    luns st
    !! Z.to_nat (snd (pblk_get_lun_rr (wr_next_lun w) (wr_free w)
                        (pblk_emergency_gc_mode (wr_pblk w))))
    = Some lun /\
    lun_cur lun = Some b /\ blocks st !! b = Some blk /\
    block_is_full st blk = false /\ blk_bad blk = false /\
    pblk_map_page st b sentry rqd dst nr valid = Some (wr_pblk w', rqd', ret).
Proof.
  unfold pblk_map_rr_page.
  destruct (pblk_get_lun_rr (wr_next_lun w) (wr_free w)
              (pblk_emergency_gc_mode (wr_pblk w))) as [next i].
  cbn [snd]. destruct (i <? 0); [discriminate|].
  apply pblk_map_rr_page_loop_safe.
Qed.

Lemma pblk_map_rr_page_safe_witness :
  exists w' rqd' st lun b blk,
    pblk_map_rr_page 2 [] ex_wr_full 0 ex_map_rqd (DstList 0) 2 2
    = Some (w', rqd', 0, []) /\
    luns st !! O = Some lun /\
    lun_cur lun = Some b /\ blocks st !! b = Some blk /\
    block_is_full st blk = false /\ blk_bad blk = false /\
    pblk_map_page st b 0 ex_map_rqd (DstList 0) 2 2 = Some (wr_pblk w', rqd', 0).
Proof.
  destruct (pblk_map_rr_page 2 [] ex_wr_full 0 ex_map_rqd (DstList 0) 2 2)
    as [[[[w' rqd'] ret] sched']|] eqn:Hrun; [|vm_compute in Hrun; discriminate Hrun].
  assert (Hret : ret = 0 /\ sched' = []).
  { vm_compute in Hrun. injection Hrun as _ _ <- <-. auto. }
  destruct Hret as [-> ->].
  destruct (pblk_map_rr_page_safe _ _ _ _ _ _ _ _ _ _ _ _ Hrun)
    as (st & lun & b & blk & H).
  exists w', rqd', st, lun, b, blk. split; [reflexivity | exact H].
Defined.

(** X23.  Replacing the current block.  When the current block of the
    chosen LUN is full or bad and the queue of the LUN's parent holds a
    block, [pblk_map_rr_page] takes the oldest block of the queue without
    yielding: the block becomes the LUN's current block and the last
    element of its open list, the counter of the queue drops by one, the
    LUN's bit in the pool bitmap is cleared when fewer than two blocks
    are left (so that [pblk_block_pool_should_kick] asks for
    provisioning), and the page is mapped in the new block. *)
Theorem pblk_map_rr_page_replace fuel sched w next i lun b blk bit q r rest blkr
    sentry rqd dst nr valid :
  let st := wr_pblk w in
  pblk_get_lun_rr (wr_next_lun w) (wr_free w) (pblk_emergency_gc_mode st)
  = (next, Z.of_nat i) ->
  luns st !! i = Some lun -> lun_cur lun = Some b -> blocks st !! b = Some blk ->
  block_is_full st blk || blk_bad blk = true ->
  wr_lun_id w !! i = Some bit -> 0 <= bit ->
  prov_queues (wr_pool w) !! Z.to_nat bit = Some q ->
  q_list q = r :: rest -> 0 < q_nr_elems q < 2 ^ 31 ->
  blocks st !! r = Some blkr ->
  block_is_full st blkr = false -> blk_bad blkr = false ->
  let st1 := with_luns st (<[i := {| lun_cur := Some r;
                                     open_list := open_list lun ++ [r] |}]> (luns st)) in
  let pool1 :=
    {| prov_nr_luns := prov_nr_luns (wr_pool w);
       prov_queues := <[Z.to_nat bit := {| q_list := rest;
                                           q_nr_elems := q_nr_elems q - 1 |}]>
                        (prov_queues (wr_pool w));
       prov_bitmap := if q_nr_elems q <? 3
                      then clear_bit bit (prov_bitmap (wr_pool w))
                      else prov_bitmap (wr_pool w) |} in
  pblk_map_rr_page (S (S fuel)) sched w sentry rqd dst nr valid
  = ('(st2, rqd2, ret) ← pblk_map_page st1 r sentry rqd dst nr valid;
     Some ({| wr_pblk := st2; wr_pool := pool1; wr_next_lun := next;
              wr_lun_id := wr_lun_id w; wr_free := wr_free w |}, rqd2, ret, sched)) /\
  (q_nr_elems q < 3 -> bit < prov_nr_luns (wr_pool w) ->
   pblk_block_pool_should_kick pool1 = true).
Proof.
  intros st Hrr Hlun Hcur Hblk Hfb Hid Hbit Hq Hql Hne Hr Hrf Hrb st1 pool1.
  split.
  2:{ intros Hfew Hin. unfold pblk_block_pool_should_kick, pool1, bitmap_full, clear_bit.
      cbn [prov_bitmap prov_nr_luns].
      destruct (Z.ltb_spec (q_nr_elems q) 3); [|lia].
      apply negb_true_iff, Z.eqb_neq. intros Heq.
      apply (f_equal (fun z => Z.testbit z bit)) in Heq.
      rewrite Z.land_spec, Z.clearbit_eq, Z.ones_spec_low in Heq by lia.
      discriminate Heq. }
  unfold pblk_map_rr_page. fold st. rewrite Hrr.
  destruct (Z.ltb_spec (Z.of_nat i) 0) as [|_]; [lia|]. rewrite Nat2Z.id.
  assert (Hilt : (i < length (luns st))%nat) by (eapply lookup_lt_Some; exact Hlun).
  assert (Hrep : pblk_replace_blk (wr_pool w) st i bit = Some (true, pool1, st1)).
  { unfold pblk_replace_blk, pblk_block_pool_get.
    destruct (Z.ltb_spec bit 0) as [|_]; [lia|].
    rewrite Hq. cbn [mbind option_bind].
    destruct (Z.eqb_spec (q_nr_elems q) 0) as [|_]; [lia|].
    rewrite Hql, Hlun. cbn [mbind option_bind].
    unfold pblk_set_lun_cur. cbn [luns with_luns].
    rewrite list_lookup_insert_eq by exact Hilt. cbn [mbind option_bind open_list lun_cur].
    rewrite list_insert_insert_eq.
    unfold to_int.
    replace ((q_nr_elems q - 1 + 2 ^ 31) mod 2 ^ 32 - 2 ^ 31) with (q_nr_elems q - 1)
      by (rewrite Z.mod_small; lia).
    unfold pool1, st1.
    destruct (Z.ltb_spec (q_nr_elems q - 1) 2), (Z.ltb_spec (q_nr_elems q) 3);
      try lia; reflexivity. }
  cbn [pblk_map_rr_page_loop wr_pblk wr_with_next_lun wr_lun_id wr_pool].
  fold st. rewrite Hlun. cbn [mbind option_bind]. rewrite Hcur. cbn [mbind option_bind].
  rewrite Hblk. cbn [mbind option_bind]. rewrite Hid. cbn [mbind option_bind].
  rewrite Hrep. cbn [mbind option_bind].
  cbn [wr_pblk wr_with_pool wr_with_pblk wr_pool wr_next_lun wr_lun_id wr_free].
  assert (Hl1 : luns st1 !! i
                = Some {| lun_cur := Some r; open_list := open_list lun ++ [r] |}).
  { unfold st1. cbn [luns with_luns]. now apply list_lookup_insert_eq. }
  rewrite Hl1. cbn [mbind option_bind lun_cur].
  change (blocks st1) with (blocks st). rewrite Hr. cbn [mbind option_bind].
  change (block_is_full st1 blkr) with (block_is_full st blkr). rewrite Hrf, Hrb.
  destruct (block_is_full st blk); [|cbn [orb] in Hfb; rewrite Hfb];
    destruct (pblk_map_page st1 r sentry rqd dst nr valid) as [[[st2 rqd2] ret]|];
    reflexivity.
Qed.

Lemma pblk_map_rr_page_replace_witness :
  let w := ex_wr_full in
  let st := wr_pblk w in
  let st1 := with_luns st [{| lun_cur := Some 1%nat; open_list := [O; 1%nat] |}] in
  let pool1 := {| prov_nr_luns := 1;
                  prov_queues := [{| q_list := []; q_nr_elems := 0 |}];
                  prov_bitmap := 0 |} in
  pblk_map_rr_page 2 [] w 0 ex_map_rqd (DstList 0) 2 2
  = ('(st2, rqd2, ret) ← pblk_map_page st1 1 0 ex_map_rqd (DstList 0) 2 2;
     Some ({| wr_pblk := st2; wr_pool := pool1; wr_next_lun := 1;
              wr_lun_id := [0]; wr_free := [1] |}, rqd2, ret, [])) /\
  pblk_block_pool_should_kick pool1 = true.
Proof.
  intros w st st1 pool1.
  destruct (pblk_map_rr_page_replace O [] w 1 O
              {| lun_cur := Some O; open_list := [O] |} O
              (blk_set_alloc ex_block 16 (Z.ones 16)) 0
              {| q_list := [1%nat]; q_nr_elems := 1 |} 1%nat [] ex_block
              0 ex_map_rqd (DstList 0) 2 2) as [Hrun Hkick];
    [solve [reflexivity | vm_compute; intuition discriminate] .. |].
  split; [exact Hrun|]. apply Hkick; vm_compute; reflexivity.
Defined.

(** The loop of [pblk_map_rr_page] on a starved LUN. *)
Lemma pblk_map_rr_page_loop_starved rlun sentry rqd dst nr valid :
  forall fuel sched w,
  lun_starved w rlun ->
  Forall (fun e : pblk_wr -> pblk_wr =>
            forall w0, lun_starved w0 rlun -> lun_starved (e w0) rlun) sched ->
  pblk_map_rr_page_loop fuel sched w rlun sentry rqd dst nr valid = None.
Proof.
  induction fuel as [|fuel IH]; intros sched w Hst Hsched; [reflexivity|].
  pose proof Hst as (lun & b & blk & bit & q & Hlun & Hcur & Hblk & Hfb & Hid & Hbit
                     & Hq & Hn).
  cbn [pblk_map_rr_page_loop].
  rewrite Hlun. cbn [mbind option_bind]. rewrite Hcur. cbn [mbind option_bind].
  rewrite Hblk. cbn [mbind option_bind]. rewrite Hid. cbn [mbind option_bind].
  unfold pblk_replace_blk, pblk_block_pool_get.
  destruct (Z.ltb_spec bit 0) as [|_]; [lia|].
  rewrite Hq. cbn [mbind option_bind]. rewrite Hn. cbn [Z.eqb mbind option_bind].
  assert (Hnext : match sched with
                  | [] => None
                  | e :: sched1 =>
                      pblk_map_rr_page_loop fuel sched1
                        (e (wr_with_pool
                              (wr_with_pblk w
                                 (emit (emit (wr_pblk w) (EvPrErr "NO PREALLOC BLOCK"))
                                    EvSchedule))
                              (wr_pool w)))
                        rlun sentry rqd dst nr valid
                  end = None).
  { destruct sched as [|e sched1]; [reflexivity|].
    apply Forall_cons in Hsched as [He Hsched1].
    apply IH; [|exact Hsched1]. apply He.
    exists lun, b, blk, bit, q. cbn. auto 10. }
  destruct (block_is_full (wr_pblk w) blk); [exact Hnext|].
  cbn [orb] in Hfb. rewrite Hfb. exact Hnext.
Qed.

(** X24.  No progress without provisioning, and no fallback to another
    LUN.  When the current block of the LUN chosen by [pblk_get_lun_rr]
    is full or bad and the queue of that LUN is empty,
    [pblk_map_rr_page] yields and tries the same LUN again.  As long as
    the other CPUs leave that LUN as it is -- whatever they do to the
    rest of the instance, and whatever room the other LUNs have -- the
    call does not return. *)
Theorem pblk_map_rr_page_starved fuel sched w next i sentry rqd dst nr valid :
  pblk_get_lun_rr (wr_next_lun w) (wr_free w) (pblk_emergency_gc_mode (wr_pblk w))
  = (next, Z.of_nat i) ->
  lun_starved w i ->
  Forall (fun e : pblk_wr -> pblk_wr =>
            forall w0, lun_starved w0 i -> lun_starved (e w0) i) sched ->
  pblk_map_rr_page fuel sched w sentry rqd dst nr valid = None.
Proof.
  intros Hrr Hst Hsched. unfold pblk_map_rr_page. rewrite Hrr.
  destruct (Z.ltb_spec (Z.of_nat i) 0) as [|_]; [lia|]. rewrite Nat2Z.id.
  apply pblk_map_rr_page_loop_starved; [|exact Hsched].
  destruct Hst as (lun & b & blk & bit & q & H).
  exists lun, b, blk, bit, q. exact H.
Qed.

Lemma pblk_map_rr_page_starved_witness :
  let w := wr_with_pool ex_wr_full
             {| prov_nr_luns := 1;
                prov_queues := [{| q_list := []; q_nr_elems := 0 |}];
                prov_bitmap := 0 |} in
  pblk_map_rr_page 5 [fun w0 => wr_with_next_lun w0 7] w 0 ex_map_rqd (DstList 0) 2 2
  = None.
Proof.
  intros w.
  apply (pblk_map_rr_page_starved 5 _ w 1 O).
  - reflexivity.
  - exists {| lun_cur := Some O; open_list := [O] |}, O,
      (blk_set_alloc ex_block 16 (Z.ones 16)), 0, {| q_list := []; q_nr_elems := 0 |}.
    vm_compute. intuition discriminate.
  - constructor; [|constructor].
    intros w0 (lun & b & blk & bit & q & H). exists lun, b, blk, bit, q. exact H.
Defined.

Lemma map_frame_refl b st : map_frame b st st.
Proof. unfold map_frame. auto 10. Qed.

Lemma map_frame_trans b st1 st2 st3 :
  map_frame b st1 st2 -> map_frame b st2 st3 -> map_frame b st1 st3.
Proof.
  intros (A1 & A2 & A3 & A4 & A5 & A6 & A7 & A8) (B1 & B2 & B3 & B4 & B5 & B6 & B7 & B8).
  unfold map_frame. repeat split; try congruence.
  intros b' Hb'. rewrite B8, A8 by exact Hb'. reflexivity.
Qed.

(** The loop of [pblk_map_page] over valid sectors touches the ring
    entries, block [b] and the lists of the request, which keep their
    lengths. *)
Lemma pblk_map_page_loop_frame b sentry off nr nv :
  forall k i paddr st rqd st' rqd' ret l m,
  i + Z.of_nat k <= nv ->
  rq_ppa_list rqd = Some l -> rq_meta_list rqd = Some m ->
  pblk_map_page_loop k i paddr st b sentry rqd (DstList off) nr nv
  = Some (st', rqd', ret) ->
  map_frame b st st' /\
  exists l' m', rq_ppa_list rqd' = Some l' /\ rq_meta_list rqd' = Some m' /\
                length l' = length l /\ length m' = length m.
Proof.
  induction k as [|k IH]; intros i paddr st rqd st' rqd' ret l m Hk Hl Hm Hrun.
  - cbn [pblk_map_page_loop] in Hrun. injection Hrun as <- <- <-.
    split; [apply map_frame_refl|]. exists l, m. auto.
  - cbn [pblk_map_page_loop] in Hrun.
    destruct (paddr =? ADDR_EMPTY).
    { injection Hrun as <- <- <-. split; [|exists l, m; auto].
      unfold map_frame. cbn. auto 10. }
    unfold rq_store_ppa, rq_ppa_list_set in Hrun. rewrite Hl in Hrun.
    cbn [mbind option_bind] in Hrun.
    destruct (Z.ltb_spec i nv) as [_|]; [|lia].
    destruct (pblk_rb_w_ctx (rwb st) (sentry + i)) as [wc|]; [|discriminate Hrun].
    cbn [mbind option_bind] in Hrun.
    unfold rq_store_meta in Hrun. cbn [rq_meta_list rq_with_ppas] in Hrun.
    rewrite Hm in Hrun. cbn [mbind option_bind blocks with_rwb] in Hrun.
    destruct (blocks st !! b) as [blk|] eqn:Hb; [|discriminate Hrun].
    cbn [mbind option_bind] in Hrun.
    eapply IH in Hrun as (F & l' & m' & Hl' & Hm' & Ll & Lm);
      [|lia | reflexivity | reflexivity].
    rewrite length_insert in Ll. rewrite length_insert in Lm.
    split; [|exists l', m'; auto].
    eapply map_frame_trans; [|exact F].
    unfold map_frame, rb_capacity, rb_set_w_ctx.
    cbn [luns geo emergency_gc alloc_script trans_map rwb blocks with_blocks with_rwb
         rb_entries rb_with_entries].
    rewrite length_alter, length_insert.
    repeat split. intros b' Hb'. apply list_lookup_insert_ne. congruence.
Qed.

(** [pblk_map_page] on a page of valid sectors, with what it leaves
    alone. *)
Lemma pblk_map_page_valid_run st b blk sentry rqd l m off n :
  blocks st !! b = Some blk -> block_is_full st blk = false ->
  0 <= cur_sec blk -> 0 <= off -> 0 <= sentry -> 0 <= n ->
  n <= rb_capacity (rwb st) ->
  cur_sec blk + n < 2 ^ 64 - 1 ->
  cur_sec blk + n <= Z.of_nat (length (rlpg_lba_list blk)) ->
  rq_ppa_list rqd = Some l -> rq_meta_list rqd = Some m ->
  off + n <= Z.of_nat (length l) -> off + n <= Z.of_nat (length m) ->
  exists st' rqd' l' m',
    pblk_map_page st b sentry rqd (DstList off) n n = Some (st', rqd', 0) /\
    map_frame b st st' /\
    rq_ppa_list rqd' = Some l' /\ rq_meta_list rqd' = Some m' /\
    length l' = length l /\ length m' = length m /\
    (forall x, (forall j, 0 <= j < n -> x <> Z.to_nat (off + j)) -> l' !! x = l !! x) /\
    (forall j, 0 <= j < n ->
       l' !! Z.to_nat (off + j)
       = Some (PPA_DEV {| g_blk := b; g_sec := cur_sec blk + j |})).
Proof.
  intros Hb Hfull Hcs Hoff Hs Hn Hcap Hlim Hlb Hl Hm Hll Hlm.
  unfold pblk_map_page. rewrite Hb. cbn [mbind option_bind].
  unfold pblk_alloc_page. rewrite Hfull. unfold pblk_next_base_sec.
  set (blk1 := blk_set_alloc blk _ _).
  set (st1 := with_blocks st _).
  assert (Hblt : (b < length (blocks st))%nat) by (eapply lookup_lt_Some; exact Hb).
  destruct (pblk_map_page_loop_valid b (cur_sec blk) sentry off n n (rb_capacity (rwb st))
              Hcs Hoff Hs Hlim Hcap (Z.to_nat n) 0 st1 rqd blk1 l m)
    as (st' & rqd' & blk' & l' & m' & Hrun & Hb' & Hl' & Hm' & Ht' & Hn' & Hc' & Hcap'
        & Ol & _ & _ & _ & Hin); try assumption; try lia; try reflexivity.
  { unfold st1. cbn [blocks with_blocks]. now apply list_lookup_insert_eq. }
  rewrite Z.add_0_r in Hrun.
  pose proof Hrun as Hfr.
  eapply pblk_map_page_loop_frame in Hfr as (F & l2 & m2 & Hl2 & Hm2 & Ll & Lm);
    [|lia | exact Hl | exact Hm].
  assert (l2 = l') by congruence. assert (m2 = m') by congruence. subst l2 m2.
  exists st', rqd', l', m'.
  split; [exact Hrun|].
  split.
  { eapply map_frame_trans; [|exact F].
    unfold map_frame, st1. cbn [luns geo emergency_gc alloc_script trans_map rwb blocks
                                 with_blocks].
    rewrite length_insert. repeat split.
    intros b' Hb0. apply list_lookup_insert_ne. congruence. }
  split; [exact Hl'|]. split; [exact Hm'|]. split; [exact Ll|]. split; [exact Lm|].
  split; [exact Ol|].
  intros j Hj. destruct (Hin j Hj) as (e & _ & I1 & _). exact I1.
Qed.

(** A user write takes the LUN after the counter. *)
Lemma pblk_get_lun_rr_user next_lun free :
  free <> [] -> -1 <= next_lun -> next_lun + 1 < 2 ^ 31 ->
  pblk_get_lun_rr next_lun free false
  = (next_lun + 1, (next_lun + 1) mod Z.of_nat (length free)).
Proof.
  intros Hne Hlo Hhi.
  assert (Hn : 0 < Z.of_nat (length free)) by (destruct free; [contradiction | cbn; lia]).
  unfold pblk_get_lun_rr, get_next_lun. cbn [negb]. rewrite to_int_id by lia.
  now rewrite Z.rem_mod_nonneg by lia.
Qed.

Lemma lun_cur_blk_Some st i b blk :
  lun_cur_blk st i = Some (b, blk) ->
  exists lun, luns st !! i = Some lun /\ lun_cur lun = Some b /\
              blocks st !! b = Some blk.
Proof.
  unfold lun_cur_blk. intros H.
  destruct (luns st !! i) as [lun|]; [|discriminate H]. cbn [mbind option_bind] in H.
  destruct (lun_cur lun) as [b0|] eqn:Hc; [|discriminate H].
  cbn [mbind option_bind] in H.
  destruct (blocks st !! b0) as [blk0|] eqn:Hb; [|discriminate H].
  cbn [mbind option_bind] in H. injection H as <- <-. eauto.
Qed.

(** The page loop of [pblk_setup_w_rq] on a request of [k] pages of valid
    sectors, from page [p] on: page [q] goes to the current block of the
    LUN that is [q + 1] steps after the counter. *)
Lemma pblk_setup_w_rq_loop_striped w0 c k fuel sched :
  let st0 := wr_pblk w0 in
  let min := min_write_pgs (geo st0) in
  let lun_of := fun q : nat =>
    Z.to_nat ((wr_next_lun w0 + 1 + Z.of_nat q) mod Z.of_nat (length (wr_free w0))) in
  0 < min -> wr_free w0 <> [] ->
  -1 <= wr_next_lun w0 -> wr_next_lun w0 + Z.of_nat k < 2 ^ 31 ->
  0 <= sentry c -> Z.of_nat k * min <= rb_capacity (rwb st0) ->
  nr_valid c = Z.of_nat k * min ->
  (forall q, (q < k)%nat ->
     exists b blk, lun_cur_blk st0 (lun_of q) = Some (b, blk) /\
       block_is_full st0 blk = false /\ blk_bad blk = false /\
       0 <= cur_sec blk /\ cur_sec blk + min < 2 ^ 64 - 1 /\
       cur_sec blk + min <= Z.of_nat (length (rlpg_lba_list blk))) ->
  (forall q q' b blk b' blk', (q < k)%nat -> (q' < k)%nat -> q <> q' ->
     lun_cur_blk st0 (lun_of q) = Some (b, blk) ->
     lun_cur_blk st0 (lun_of q') = Some (b', blk') -> b <> b') ->
  forall r p n w1 rqd1 l m,
  (p + r = k)%nat -> (r <= n)%nat ->
  wr_free w1 = wr_free w0 -> wr_next_lun w1 = wr_next_lun w0 + Z.of_nat p ->
  luns (wr_pblk w1) = luns st0 -> geo (wr_pblk w1) = geo st0 ->
  emergency_gc (wr_pblk w1) = false ->
  rb_capacity (rwb (wr_pblk w1)) = rb_capacity (rwb st0) ->
  (forall q b blk, (p <= q < k)%nat -> lun_cur_blk st0 (lun_of q) = Some (b, blk) ->
     blocks (wr_pblk w1) !! b = Some blk) ->
  rq_ppa_list rqd1 = Some l -> rq_meta_list rqd1 = Some m ->
  Z.of_nat k * min <= Z.of_nat (length l) -> Z.of_nat k * min <= Z.of_nat (length m) ->
  exists w' rqd' l',
    pblk_setup_w_rq_loop n (Z.of_nat p * min) (S fuel) sched w1 rqd1 c (Z.of_nat k * min)
    = Some (w', rqd', 0, sched) /\
    rq_ppa_list rqd' = Some l' /\
    wr_next_lun w' = wr_next_lun w0 + Z.of_nat k /\
    (forall x : nat, Z.of_nat x < Z.of_nat p * min -> l' !! x = l !! x) /\
    (forall q b blk j, (p <= q < k)%nat ->
       lun_cur_blk st0 (lun_of q) = Some (b, blk) -> 0 <= j < min ->
       l' !! Z.to_nat (Z.of_nat q * min + j)
       = Some (PPA_DEV {| g_blk := b; g_sec := cur_sec blk + j |})).
Proof.
  intros st0 min lun_of Hmin Hfree Hlo Hhi Hs Hcap Hval Hcur Hdist.
  induction r as [|r IH];
    intros p n w1 rqd1 l m Hp Hn I1 I2 I4 I5 I6 I7 I8 Hl Hm Hll Hlm.
  - assert (p = k) by lia. subst p.
    exists w1, rqd1, l.
    split.
    { destruct n; cbn [pblk_setup_w_rq_loop];
        destruct (Z.ltb_spec (Z.of_nat k * min) (Z.of_nat k * min)); try lia; reflexivity. }
    split; [exact Hl|]. split; [exact I2|]. split; [reflexivity|].
    intros q b blk j Hq. lia.
  - destruct n as [|n]; [lia|].
    cbn [pblk_setup_w_rq_loop].
    destruct (Z.ltb_spec (Z.of_nat p * min) (Z.of_nat k * min)) as [_|]; [|nia].
    cbn [negb]. rewrite I5. fold st0. fold min. rewrite Hval.
    destruct (Z.ltb_spec (Z.of_nat k * min) (Z.of_nat p * min + min)) as [|_]; [nia|].
    unfold pblk_setup_w_multi, pblk_map_rr_page.
    rewrite I5. fold st0. fold min.
    unfold pblk_emergency_gc_mode. rewrite I6, I1, I2.
    rewrite pblk_get_lun_rr_user by (assumption || lia).
    assert (HL : 0 < Z.of_nat (length (wr_free w0)))
      by (destruct (wr_free w0); [contradiction | cbn; lia]).
    pose proof (Z.mod_pos_bound (wr_next_lun w0 + Z.of_nat p + 1)
                  (Z.of_nat (length (wr_free w0))) HL) as Hmod.
    destruct (Z.ltb_spec ((wr_next_lun w0 + Z.of_nat p + 1)
                            mod Z.of_nat (length (wr_free w0))) 0) as [|_]; [lia|].
    replace (wr_next_lun w0 + Z.of_nat p + 1) with (wr_next_lun w0 + 1 + Z.of_nat p) by lia.
    fold (lun_of p).
    destruct (Hcur p ltac:(lia)) as (b & blk & Hcb & Hnf & Hnb & Hcs & Hlim & Hlb).
    destruct (lun_cur_blk_Some _ _ _ _ Hcb) as (lun & Hlun & Hlc & Hb0).
    cbn [pblk_map_rr_page_loop wr_pblk wr_with_next_lun].
    rewrite I4, Hlun. cbn [mbind option_bind]. rewrite Hlc. cbn [mbind option_bind].
    rewrite (I8 p b blk ltac:(lia) Hcb). cbn [mbind option_bind].
    assert (Hnf1 : block_is_full (wr_pblk w1) blk = false)
      by (unfold block_is_full in *; rewrite I5; exact Hnf).
    rewrite Hnf1, Hnb.
    destruct (pblk_map_page_valid_run (wr_pblk w1) b blk (sentry c + Z.of_nat p * min)
                rqd1 l m (Z.of_nat p * min) min)
      as (st' & rqd' & l' & m' & Hrun & F & Hl' & Hm' & Ll & Lm & Ol & Il);
      try assumption; try nia.
    { apply (I8 p b blk); [lia | exact Hcb]. }
    rewrite Hrun. cbn [mbind option_bind Z.eqb negb].
    destruct F as (F1 & F2 & F3 & F4 & F5 & F6 & F7 & F8).
    replace (Z.of_nat p * min + min) with (Z.of_nat (S p) * min) by lia.
    destruct (IH (S p) n
                (wr_with_pblk (wr_with_next_lun w1 (wr_next_lun w0 + 1 + Z.of_nat p)) st')
                rqd' l' m')
      as (w' & rqd'' & l'' & Hrun2 & Hl'' & Hnl & O2 & I2');
      try (cbn [wr_pblk wr_free wr_next_lun wr_with_pblk wr_with_next_lun]; congruence);
      try lia.
    { cbn [wr_next_lun wr_with_pblk wr_with_next_lun]. lia. }
    { intros q bq blkq Hq Hcq. cbn [wr_pblk wr_with_pblk].
      rewrite F8; [apply (I8 q bq blkq); [lia | exact Hcq]|].
      apply (Hdist q p bq blkq b blk); [lia | lia | lia | exact Hcq | exact Hcb]. }
    exists w', rqd'', l''.
    split; [exact Hrun2|]. split; [exact Hl''|]. split; [exact Hnl|].
    split.
    + intros x Hx. rewrite O2 by lia. apply Ol. intros j Hj. lia.
    + intros q bq blkq j Hq Hcq Hj.
      destruct (Nat.eq_dec q p) as [-> | Hne].
      * assert (bq = b /\ blkq = blk) as [-> ->] by (split; congruence).
        rewrite O2 by nia. apply Il. exact Hj.
      * apply I2'; [lia | exact Hcq | exact Hj].
Qed.

(** X25.  A write request is striped over the LUNs.  For a request of
    [k] pages of valid sectors (no padding, at most as many pages as
    there are LUNs), outside GC mode, with every LUN involved having a
    current block of its own with room for a page: [pblk_setup_w_rq]
    returns 0 without yielding, advances the round-robin counter by [k],
    and sector [j] of page [q] gets the address of sector [cur_sec + j]
    in the current block of the LUN [q + 1] steps after the counter. *)
Theorem pblk_setup_w_rq_striped fuel sched w rqd c k :
  let st := wr_pblk w in
  let min := min_write_pgs (geo st) in
  let lun_of := fun q : nat =>
    Z.to_nat ((wr_next_lun w + 1 + Z.of_nat q) mod Z.of_nat (length (wr_free w))) in
  compl_ctx_of (rq_w_ctx rqd) = Some c ->
  nr_valid c = Z.of_nat k * min -> nr_padded c = 0 ->
  0 < min -> 1 < Z.of_nat k * min ->
  Z.of_nat k * min <= Z.of_nat PBLK_MAX_REQ_ADDRS ->
  wr_free w <> [] ->
  -1 <= wr_next_lun w -> wr_next_lun w + Z.of_nat k < 2 ^ 31 ->
  emergency_gc st = false -> alloc_script st = [] ->
  0 <= sentry c -> Z.of_nat k * min <= rb_capacity (rwb st) ->
  (forall q, (q < k)%nat ->
     exists b blk, lun_cur_blk st (lun_of q) = Some (b, blk) /\
       block_is_full st blk = false /\ blk_bad blk = false /\
       0 <= cur_sec blk /\ cur_sec blk + min < 2 ^ 64 - 1 /\
       cur_sec blk + min <= Z.of_nat (length (rlpg_lba_list blk))) ->
  (forall q q' b blk b' blk', (q < k)%nat -> (q' < k)%nat -> q <> q' ->
     lun_cur_blk st (lun_of q) = Some (b, blk) ->
     lun_cur_blk st (lun_of q') = Some (b', blk') -> b <> b') ->
  exists w' rqd' l',
    pblk_setup_w_rq (S fuel) sched w rqd = Some (w', rqd', 0, sched) /\
    rq_ppa_list rqd' = Some l' /\
    wr_next_lun w' = wr_next_lun w + Z.of_nat k /\
    forall q b blk j, (q < k)%nat ->
      lun_cur_blk st (lun_of q) = Some (b, blk) -> 0 <= j < min ->
      l' !! Z.to_nat (Z.of_nat q * min + j)
      = Some (PPA_DEV {| g_blk := b; g_sec := cur_sec blk + j |}).
Proof.
  intros st min lun_of Hc Hval Hpad Hmin Hk1 Hmax Hfree Hlo Hhi Hgc Halloc Hs Hcap
    Hcur Hdist.
  unfold pblk_setup_w_rq. rewrite Hc. cbn [mbind option_bind].
  rewrite Hval, Hpad, Z.add_0_r. fold st.
  unfold pblk_alloc_w_rq, try_alloc. rewrite Halloc. cbn [negb].
  destruct (Z.eqb_spec (Z.of_nat k * min) 1) as [|_]; [lia|].
  change (alloc_script (emit st EvDmaAlloc)) with (alloc_script st).
  rewrite Halloc. cbn [Z.eqb negb].
  set (st1 := emit (emit st EvDmaAlloc) EvDmaAlloc).
  set (rqd1 := rq_with_ppas _ _ _).
  destruct (pblk_setup_w_rq_loop_striped w c k fuel sched Hmin Hfree Hlo Hhi Hs Hcap Hval
              Hcur Hdist k O (Z.to_nat (Z.of_nat k * min)) (wr_with_pblk w st1) rqd1
              (replicate PBLK_MAX_REQ_ADDRS PPA_EMPTY) (replicate PBLK_MAX_REQ_ADDRS 0))
    as (w' & rqd' & l' & Hrun & Hl' & Hnl & _ & Hin);
    try reflexivity; try (rewrite length_replicate; exact Hmax); try nia.
  { cbn [wr_next_lun wr_with_pblk]. lia. }
  { exact Hgc. }
  { intros q b blk _ Hcb. cbn [wr_pblk wr_with_pblk]. change (blocks st1) with (blocks st).
    apply lun_cur_blk_Some in Hcb as (lun & _ & _ & Hb0). exact Hb0. }
  change (Z.of_nat 0 * min) with 0 in Hrun.
  exists w', rqd', l'. split; [exact Hrun|]. split; [exact Hl'|]. split; [exact Hnl|].
  intros q b blk j Hq Hcb Hj. apply Hin; [lia | exact Hcb | exact Hj].
Qed.

Lemma pblk_setup_w_rq_striped_witness :
  let st := wr_pblk ex_wr_two in
  let lun_of := fun q : nat => Z.to_nat ((0 + 1 + Z.of_nat q) mod 2) in
  exists w' rqd' l',
    pblk_setup_w_rq 1 [] ex_wr_two ex_w_rqd = Some (w', rqd', 0, []) /\
    rq_ppa_list rqd' = Some l' /\
    wr_next_lun w' = 0 + Z.of_nat 2 /\
    forall q b blk j, (q < 2)%nat ->
      lun_cur_blk st (lun_of q) = Some (b, blk) -> 0 <= j < 2 ->
      l' !! Z.to_nat (Z.of_nat q * 2 + j)
      = Some (PPA_DEV {| g_blk := b; g_sec := cur_sec blk + j |}).
Proof.
  intros st lun_of.
  apply (pblk_setup_w_rq_striped O [] ex_wr_two ex_w_rqd
           {| sentry := 0; nr_valid := 4; nr_padded := 0 |} 2).
  1-13: solve [reflexivity | vm_compute; intuition discriminate].
  - intros q Hq.
    destruct q as [|[|q]]; [exists 1%nat, ex_block | exists O, ex_block | lia];
      vm_compute; intuition discriminate.
  - intros q q' b blk b' blk' Hq Hq' Hne H1 H2.
    destruct q as [|[|q]], q' as [|[|q']]; try lia;
      vm_compute in H1, H2; injection H1 as <- _; injection H2 as <- _; discriminate.
Defined.

(* ------------------------------------------------------------------ *)
(** ** Filling the holes of a partial read *)
(* ------------------------------------------------------------------ *)

(** [find_next_zero_bit]: the answer is the first clear bit at or after
    the offset, or the size. *)
Lemma find_next_zero_bit_spec bm size : forall k off,
  0 <= off <= size -> k = Z.to_nat (size - off) ->
  let h := find_next_from false bm size k off in
  off <= h <= size /\
  (forall y, off <= y < h -> Z.testbit bm y = true) /\
  (h < size -> Z.testbit bm h = false).
Proof.
  induction k as [|k IH]; intros off Hoff Hk; cbn [find_next_from].
  - assert (off = size) by lia. subst off.
    split; [lia|]. split; intros; lia.
  - destruct (Z.leb_spec size off) as [|_]; [lia|].
    destruct (Z.testbit bm off) eqn:Hb; cbn [Bool.eqb].
    + destruct (IH (off + 1) ltac:(lia) ltac:(lia)) as (H1 & H2 & H3).
      split; [lia|]. split; [|exact H3].
      intros y Hy. destruct (Z.eq_dec y off) as [-> | Hne]; [exact Hb|].
      apply H2. lia.
    + split; [lia|]. split; [intros; lia | intros _; exact Hb].
Qed.

Lemma bitmap_weight_nat_S bm n :
  bitmap_weight_nat bm (S n)
  = bitmap_weight_nat bm n + (if Z.testbit bm (Z.of_nat n) then 1 else 0).
Proof. reflexivity. Qed.

(** The set bits of a range are at most as many as its positions, and
    exactly as many when all of them are set. *)
Lemma bitmap_weight_range bm : forall d a,
  0 <= a -> 0 <= d ->
  0 <= bitmap_weight bm (a + d) - bitmap_weight bm a <= d /\
  ((forall y, a <= y < a + d -> Z.testbit bm y = true) ->
   bitmap_weight bm (a + d) = bitmap_weight bm a + d).
Proof.
  intros d a Ha Hd. revert d Hd.
  apply (natlike_ind (fun d =>
    0 <= bitmap_weight bm (a + d) - bitmap_weight bm a <= d /\
    ((forall y, a <= y < a + d -> Z.testbit bm y = true) ->
     bitmap_weight bm (a + d) = bitmap_weight bm a + d))).
  - rewrite Z.add_0_r. split; [lia | intros; lia].
  - intros d Hd (IH1 & IH2).
    assert (Hw : bitmap_weight bm (a + Z.succ d)
                 = bitmap_weight bm (a + d)
                   + (if Z.testbit bm (a + d) then 1 else 0)).
    { unfold bitmap_weight.
      replace (Z.to_nat (a + Z.succ d)) with (S (Z.to_nat (a + d))) by lia.
      rewrite bitmap_weight_nat_S, Z2Nat.id by lia. reflexivity. }
    rewrite Hw. split.
    + destruct (Z.testbit bm (a + d)); lia.
    + intros Hall. rewrite (Hall (a + d)) by lia.
      rewrite IH2 by (intros y Hy; apply Hall; lia). lia.
Qed.

(** The loop that fills the holes, from hole [hole] on, when the holes
    below it have been filled. *)
Lemma fill_holes_inv bm n new_bio b0 :
  n - bitmap_weight bm n <= Z.of_nat (length (bi_io_vec new_bio)) ->
  n <= Z.of_nat (length (bi_io_vec b0)) ->
  forall k i hole b,
  0 <= hole < n -> Z.testbit bm hole = false ->
  i = hole - bitmap_weight bm hole -> (Z.to_nat (n - hole) <= k)%nat ->
  length (bi_io_vec b) = length (bi_io_vec b0) ->
  (forall x, 0 <= x < hole ->
     bi_io_vec b !! Z.to_nat x
     = if Z.testbit bm x then bi_io_vec b0 !! Z.to_nat x
       else bi_io_vec new_bio !! Z.to_nat (x - bitmap_weight bm x)) ->
  (forall x, hole <= x -> bi_io_vec b !! Z.to_nat x = bi_io_vec b0 !! Z.to_nat x) ->
  forall x, 0 <= x < n ->
    bi_io_vec (fill_holes k i hole bm n new_bio b) !! Z.to_nat x
    = if Z.testbit bm x then bi_io_vec b0 !! Z.to_nat x
      else bi_io_vec new_bio !! Z.to_nat (x - bitmap_weight bm x).
Proof.
  intros Hpages Hlen.
  induction k as [|k IH]; intros i hole b Hh Hbit Hi Hk Hlb Hdone Hrest x Hx; [lia|].
  cbn [fill_holes].
  pose proof (find_next_zero_bit_spec bm n (Z.to_nat (n - (hole + 1))) (hole + 1)
                ltac:(lia) eq_refl) as Hf.
  cbv zeta in Hf. unfold find_next_zero_bit.
  set (h' := find_next_from false bm n (Z.to_nat (n - (hole + 1))) (hole + 1)) in *.
  destruct Hf as (Hr & Hall & Hz).
  destruct (bitmap_weight_range bm (n - hole - 1) (hole + 1) ltac:(lia) ltac:(lia))
    as [Hw1 _].
  replace (hole + 1 + (n - hole - 1)) with n in Hw1 by lia.
  destruct (bitmap_weight_range bm 1 hole ltac:(lia) ltac:(lia)) as [Hw2 _].
  assert (Hw3 : bitmap_weight bm (hole + 1) = bitmap_weight bm hole).
  { unfold bitmap_weight.
    replace (Z.to_nat (hole + 1)) with (S (Z.to_nat hole)) by lia.
    rewrite bitmap_weight_nat_S, Z2Nat.id, Hbit by lia. lia. }
  destruct (bitmap_weight_range bm hole 0 ltac:(lia) ltac:(lia)) as [Hw0 _].
  rewrite Z.add_0_l in Hw0. change (bitmap_weight bm 0) with 0 in Hw0.
  assert (Hsome : is_Some (bi_io_vec new_bio !! Z.to_nat i)).
  { apply lookup_lt_is_Some. lia. }
  destruct (bi_io_vec new_bio !! Z.to_nat i) as [src|] eqn:Hsrc;
    [|destruct Hsome as [? Hsome]; discriminate Hsome].
  cbn [default].
  set (b1 := bio_with_vec b _).
  assert (Hb1 : forall y, 0 <= y ->
            bi_io_vec b1 !! Z.to_nat y
            = if Z.eq_dec y hole then Some src else bi_io_vec b !! Z.to_nat y).
  { intros y Hy. unfold b1. cbn [bi_io_vec bio_with_vec].
    destruct (Z.eq_dec y hole) as [-> | Hne].
    - apply list_lookup_insert_eq. lia.
    - apply list_lookup_insert_ne. lia. }
  assert (Hfinal : forall y, 0 <= y < h' ->
            bi_io_vec b1 !! Z.to_nat y
            = if Z.testbit bm y then bi_io_vec b0 !! Z.to_nat y
              else bi_io_vec new_bio !! Z.to_nat (y - bitmap_weight bm y)).
  { intros y Hy. rewrite Hb1 by lia.
    destruct (Z.eq_dec y hole) as [-> | Hne].
    - rewrite Hbit, <- Hi. symmetry. exact Hsrc.
    - destruct (Z.lt_ge_cases y hole).
      + apply Hdone. lia.
      + rewrite (Hall y) by lia. apply Hrest. lia. }
  destruct (Z.ltb_spec h' n) as [Hlt | Hge].
  - apply IH; try assumption; try lia.
    + apply Hz. exact Hlt.
    + destruct (bitmap_weight_range bm (h' - hole - 1) (hole + 1) ltac:(lia) ltac:(lia))
        as [_ Hws].
      replace (hole + 1 + (h' - hole - 1)) with h' in Hws by lia.
      rewrite Hws by (intros y Hy; apply Hall; lia). lia.
    + unfold b1. cbn [bi_io_vec bio_with_vec]. now rewrite length_insert.
    + intros y Hy. rewrite Hb1 by lia.
      destruct (Z.eq_dec y hole); [lia|]. apply Hrest. lia.
  - apply Hfinal. lia.
Qed.

(** X26.  A partial read puts the device data where the holes are.
    After the copy loop of [pblk_fill_partial_read_bio], a sector whose
    bit is set in the read bitmap (served from the ring) keeps its page,
    and the sector of the [r]-th clear bit gets the [r]-th page read from
    the device. *)
Theorem fill_holes_places_device_data bm n new_bio b :
  0 < n -> bitmap_weight bm n < n ->
  n - bitmap_weight bm n <= Z.of_nat (length (bi_io_vec new_bio)) ->
  n <= Z.of_nat (length (bi_io_vec b)) ->
  forall x, 0 <= x < n ->
    bi_io_vec (fill_holes (Z.to_nat n) 0 (find_first_zero_bit bm n) bm n new_bio b)
    !! Z.to_nat x
    = if Z.testbit bm x then bi_io_vec b !! Z.to_nat x
      else bi_io_vec new_bio !! Z.to_nat (x - bitmap_weight bm x).
Proof.
  intros Hn Hholes Hpages Hlen x Hx.
  pose proof (find_next_zero_bit_spec bm n (Z.to_nat (n - 0)) 0 ltac:(lia) eq_refl) as Hf.
  cbv zeta in Hf. unfold find_first_zero_bit, find_next_zero_bit.
  set (h := find_next_from false bm n (Z.to_nat (n - 0)) 0) in *.
  destruct Hf as (Hr & Hall & Hz).
  destruct (bitmap_weight_range bm h 0 ltac:(lia) ltac:(lia)) as [_ Hws].
  rewrite Z.add_0_l in Hws. change (bitmap_weight bm 0) with 0 in Hws.
  specialize (Hws ltac:(intros y Hy; apply Hall; lia)).
  assert (Hh : h < n).
  { destruct (Z.lt_ge_cases h n); [assumption|].
    assert (E : h = n) by lia. rewrite E in Hws. lia. }
  apply (fill_holes_inv bm n new_bio b Hpages Hlen); try lia.
  - apply Hz. exact Hh.
  - intros y Hy. now rewrite (Hall y) by lia.
  - reflexivity.
Qed.

Lemma fill_holes_places_device_data_witness :
  let b := ex_bio false 4 3 [[Byte.x02]; []; [Byte.x03]] in
  let new_bio := ex_bio false 0 1 [[Byte.x0d]] in
  bi_io_vec (fill_holes (Z.to_nat 3) 0 (find_first_zero_bit 5 3) 5 3 new_bio b)
  !! Z.to_nat 1
  = if Z.testbit 5 1 then bi_io_vec b !! Z.to_nat 1
    else bi_io_vec new_bio !! Z.to_nat (1 - bitmap_weight 5 1).
Proof.
  intros b new_bio.
  apply (fill_holes_places_device_data 5 3 new_bio b); vm_compute;
    first [reflexivity | discriminate | intuition discriminate].
Defined.

(* ------------------------------------------------------------------ *)
(** ** Reading a list of LBAs *)
(* ------------------------------------------------------------------ *)

(** [read_ppalist_rq_list] on two LBAs, the first unmapped and the second
    on the device: one valid sector, whose address is put at index 0 of
    the request's list. *)
Lemma read_ppalist_rq_list_survivor st b rqd l la lb g ra rb :
  0 <= la < pblk_nr_secs st -> 0 <= lb < pblk_nr_secs st ->
  pblk_nr_secs st < ADDR_EMPTY ->
  trans_map st !! Z.to_nat la = Some {| ppa := PPA_EMPTY; rblk := ra |} ->
  trans_map st !! Z.to_nat lb = Some {| ppa := PPA_DEV g; rblk := rb |} ->
  rq_ppa_list rqd = Some l ->
  read_ppalist_rq_list st b rqd [la; lb] 2 0
  = Some (st, b, rq_with_ppas rqd (rq_ppa_addr rqd) (Some (<[O := PPA_DEV g]> l)), 0, 1).
Proof.
  intros Hla Hlb Hmax Ha Hb Hl.
  unfold read_ppalist_rq_list, pblk_setup_rand_reads.
  change (Z.to_nat 2) with 2%nat.
  cbn [pblk_setup_rand_reads_loop]. change (Z.to_nat 0) with O.
  change (Z.to_nat (0 + 1)) with 1%nat.
  cbn [lookup list_lookup mbind option_bind].
  destruct (Z.eqb_spec la ADDR_EMPTY) as [|_]; [lia|].
  destruct (Z.eqb_spec lb ADDR_EMPTY) as [|_]; [lia|].
  rewrite (trans_map_get_in st la Hla), Ha. cbn [mbind option_bind].
  unfold pblk_lock_read at 1. cbn [ppa nvm_addr_in_cache].
  rewrite (trans_map_get_in st lb Hlb), Hb. cbn [mbind option_bind].
  unfold pblk_lock_read. cbn [ppa nvm_addr_in_cache mbind option_bind].
  set (ppas := <[1%nat := PPA_DEV g]> (<[O := PPA_EMPTY]> _)).
  assert (Hp0 : ppas !! O = Some PPA_EMPTY) by reflexivity.
  assert (Hp1 : ppas !! 1%nat = Some (PPA_DEV g)) by reflexivity.
  clearbody ppas.
  cbn [read_ppalist_rq_list_loop]. change (Z.to_nat 0) with O.
  change (Z.to_nat (0 + 1)) with 1%nat.
  cbn [lookup list_lookup mbind option_bind].
  destruct (Z.eqb_spec la ADDR_EMPTY) as [|_]; [lia|].
  destruct (Z.eqb_spec lb ADDR_EMPTY) as [|_]; [lia|].
  rewrite Hp0, Hp1. cbn [mbind option_bind ppa_empty].
  destruct (Z.leb_spec 0 lb) as [_|]; [|lia].
  destruct (Z.ltb_spec lb (pblk_nr_secs st)) as [_|]; [|lia].
  cbn [andb negb]. unfold read_classify, rq_ppa_list_set.
  cbn [nvm_addr_in_cache rl_rqd rl_j rl_bio rl_bitmap rl_advanced_bio rl_valid_secs].
  rewrite Hl. cbn [mbind option_bind rl_rqd rl_j rl_bio rl_bitmap rl_advanced_bio
                   rl_valid_secs].
  reflexivity.
Qed.

(** X27.  A list read with one surviving sector.  The list path of
    [pblk_submit_read_list] sets [nr_ppas] to the number of sectors that
    [read_ppalist_rq_list] found mapped.  When the list names two LBAs
    and the first has been unmapped since, one sector is left: its
    address is in [ppa_list[0]], but the request is submitted with
    [nr_ppas = 1] while the storage of [ppa_addr] holds the DMA handle of
    the list, which [nvm_dev_dma_alloc] stored in [dma_ppa_list]: the
    call never puts the address there.  (On its own single-address paths
    the file stores the address in [ppa_addr].) *)
Theorem pblk_submit_read_list_survivor st b rqd flags la lb g ra rb :
  alloc_script st = [] -> submit_script st = [] -> bi_vcnt b = 2 ->
  0 <= la < pblk_nr_secs st -> 0 <= lb < pblk_nr_secs st ->
  pblk_nr_secs st < ADDR_EMPTY ->
  trans_map st !! Z.to_nat la = Some {| ppa := PPA_EMPTY; rblk := ra |} ->
  trans_map st !! Z.to_nat lb = Some {| ppa := PPA_DEV g; rblk := rb |} ->
  exists st' rqd' r l,
    pblk_submit_read_list st b rqd [la; lb] 2 2 flags = Some (st', b, rqd', NVM_IO_OK) /\
    log st' = log st ++ [EvDmaAlloc; EvSubmitIo r] /\
    rq_opcode r = NVM_OP_PREAD /\ rq_nr_ppas r = 1 /\
    rq_ppa_addr r = RQ_DMA_PPA_LIST /\
    rq_ppa_list r = Some l /\ l !! O = Some (PPA_DEV g) /\
    trans_map st' = trans_map st.
Proof.
  intros Halloc Hsub Hv Hla Hlb Hmax Ha Hb.
  unfold pblk_submit_read_list. rewrite Hv. cbn [Z.eqb Pos.eqb negb Z.ltb Z.compare
                                                   Pos.compare Pos.compare_cont].
  unfold try_alloc. rewrite Halloc. cbn [negb].
  rewrite (read_ppalist_rq_list_survivor (emit st EvDmaAlloc) b _
             (replicate PBLK_MAX_REQ_ADDRS PPA_EMPTY) la lb g ra rb);
    try assumption; try reflexivity.
  cbn [mbind option_bind negb].
  change (bitmap_full 0 1) with false. cbv iota.
  unfold __pblk_submit_read. change (bitmap_empty 0 1) with true. cbv iota.
  cbn [negb]. unfold pblk_submit_read_io, nvm_submit_io.
  cbn [submit_script emit with_log]. rewrite Hsub. cbn [Z.eqb negb].
  cbn [mbind option_bind].
  eexists _, _, _, _. split; [reflexivity|].
  cbn [log emit with_log trans_map].
  split; [rewrite <- app_assoc; reflexivity|].
  repeat split; reflexivity.
Qed.

Lemma pblk_submit_read_list_survivor_witness :
  let st := ex_pblk_cached in
  let b := ex_bio false 0 2 [[]; []] in
  exists st' rqd' r l,
    pblk_submit_read_list st b rqd_zero [5; 7] 2 2 io_none
    = Some (st', b, rqd', NVM_IO_OK) /\
    log st' = log st ++ [EvDmaAlloc; EvSubmitIo r] /\
    rq_opcode r = NVM_OP_PREAD /\ rq_nr_ppas r = 1 /\
    rq_ppa_addr r = RQ_DMA_PPA_LIST /\
    rq_ppa_list r = Some l /\
    l !! O = Some (PPA_DEV {| g_blk := O; g_sec := 0 |}) /\
    trans_map st' = trans_map st.
Proof.
  intros st b.
  apply (pblk_submit_read_list_survivor st b rqd_zero io_none 5 7
           {| g_blk := O; g_sec := 0 |} None (Some O));
    solve [reflexivity | vm_compute; intuition discriminate].
Defined.

(* ------------------------------------------------------------------ *)
(** ** A read served by the device, from submission to completion *)
(* ------------------------------------------------------------------ *)

(** The classification loop over addresses that are all on the device:
    they go to the request's list in order; bio and bitmap are left
    alone. *)
Lemma pblk_read_ppalist_rq_loop_device st ppas : forall n i rl l jn,
  (i + n <= length ppas)%nat ->
  rq_ppa_list (rl_rqd rl) = Some l -> rl_j rl = Z.of_nat jn ->
  rl_advanced_bio rl = false ->
  (forall k p, (i <= k < i + n)%nat -> ppas !! k = Some p -> ppa_on_dev p = true) ->
  pblk_read_ppalist_rq_loop n (Z.of_nat i) st ppas rl
  = Some {| rl_bio := rl_bio rl;
            rl_rqd := rq_with_ppas (rl_rqd rl) (rq_ppa_addr (rl_rqd rl))
                        (Some (list_inserts jn (take n (drop i ppas)) l));
            rl_bitmap := rl_bitmap rl; rl_advanced_bio := false;
            rl_j := Z.of_nat (jn + n);
            rl_valid_secs := rl_valid_secs rl + Z.of_nat n |}.
Proof.
  induction n as [|n IH]; intros i rl l jn Hlen Hl Hj Hadv Hdev.
  - cbn [pblk_read_ppalist_rq_loop take list_inserts].
    rewrite rq_with_ppas_same by exact Hl.
    rewrite Nat.add_0_r, Z.add_0_r, <- Hj, <- Hadv. destruct rl; reflexivity.
  - destruct (lookup_lt_is_Some_2 ppas i ltac:(lia)) as [p Hp].
    rewrite (drop_S _ _ _ Hp). cbn [take list_inserts].
    cbn [pblk_read_ppalist_rq_loop]. rewrite Nat2Z.id, Hp. cbn [mbind option_bind].
    pose proof (Hdev i p ltac:(lia) Hp) as Hpd.
    destruct p as [| |g]; try discriminate Hpd.
    cbn [ppa_empty]. unfold read_classify, rq_ppa_list_set.
    cbn [nvm_addr_in_cache]. rewrite Hl, Hadv, Hj, Nat2Z.id. cbn [mbind option_bind].
    replace (Z.of_nat i + 1) with (Z.of_nat (S i)) by lia.
    rewrite (IH (S i) _ (<[jn := PPA_DEV g]> l) (S jn));
      [|lia | reflexivity | cbn [rl_j]; lia | reflexivity
       |intros k p Hk; apply Hdev; lia].
    cbn [rl_bio rl_rqd rl_bitmap rl_valid_secs rq_ppa_addr rq_with_ppas].
    rewrite list_insert_inserts_lt by lia.
    replace (S jn + n)%nat with (jn + S n)%nat by lia.
    replace (rl_valid_secs rl + 1 + Z.of_nat n)
      with (rl_valid_secs rl + Z.of_nat (S n)) by lia.
    reflexivity.
Qed.

(** [pblk_read_ppalist_rq] on a range that is entirely on the device. *)
Lemma pblk_read_ppalist_rq_all_device st b rqd l N :
  let laddr := pblk_get_laddr (consts st) b in
  let gps := take N (drop (Z.to_nat laddr) (trans_map st)) in
  0 <= laddr -> (0 < N <= PBLK_MAX_REQ_ADDRS)%nat ->
  laddr + Z.of_nat N < pblk_nr_secs st ->
  pblk_nr_secs st <= Z.of_nat (length (trans_map st)) ->
  rq_ppa_list rqd = Some l ->
  (forall gp, gp ∈ gps -> ppa_on_dev (ppa gp) = true) ->
  pblk_read_ppalist_rq st b rqd (Z.of_nat N) 0
  = Some (st, b,
          rq_with_ppas rqd (rq_ppa_addr rqd) (Some (list_inserts 0 (ppa <$> gps) l)),
          0, NVM_IO_OK).
Proof.
  intros laddr gps Hl HN Hend Hns Hrq Hdev.
  assert (Hgl : length gps = N).
  { unfold gps. rewrite length_take, length_drop. lia. }
  assert (Hgk : forall k gp, gps !! k = Some gp ->
            (k < N)%nat /\ trans_map st !! (Z.to_nat laddr + k)%nat = Some gp).
  { intros k gp Hk. assert (k < N)%nat by (rewrite <- Hgl; eapply lookup_lt_Some; exact Hk).
    split; [assumption|]. unfold gps in Hk.
    rewrite lookup_take_lt in Hk by assumption. now rewrite lookup_drop in Hk. }
  assert (Hkg : forall k, (k < N)%nat ->
            exists gp, gps !! k = Some gp /\ nvm_addr_in_cache (ppa gp) = false).
  { intros k Hk. destruct (lookup_lt_is_Some_2 gps k ltac:(lia)) as [gp Hgp].
    exists gp. split; [exact Hgp|].
    specialize (Hdev gp (list_elem_of_lookup_2 _ _ _ Hgp)).
    destruct (ppa gp); [discriminate Hdev | discriminate Hdev | reflexivity]. }
  unfold pblk_read_ppalist_rq. fold laddr.
  destruct (Z.leb_spec 0 laddr); [|lia].
  destruct (Z.ltb_spec (laddr + Z.of_nat N) (pblk_nr_secs st)); [|lia].
  cbn [andb negb]. unfold pblk_setup_seq_reads. rewrite Nat2Z.id.
  destruct (pblk_setup_seq_reads_loop_ok (trans_map st) laddr N O st
              (replicate PBLK_MAX_REQ_ADDRS PPA_EMPTY)
              (replicate PBLK_MAX_REQ_ADDRS false) false)
    as (locked & st1 & crs & Hsetup & Hpin1 & Hst1);
    [lia | lia | lia | reflexivity | apply l2p_upto_pin_refl |].
  change (Z.of_nat 0) with 0 in Hsetup.
  pose proof Hsetup as Hpins.
  change 0 with (Z.of_nat 0) in Hpins at 1.
  apply pblk_setup_seq_reads_loop_pins in Hpins as (Hout & Hin1 & Hlk); [|lia | lia].
  assert (Hsame : trans_map st1 = trans_map st).
  { apply list_eq. intros k.
    destruct (decide (Z.to_nat laddr + 0 <= k < Z.to_nat laddr + 0 + N)%nat) as [Hk|Hk];
      [|apply Hout; exact Hk].
    destruct (Hkg (k - Z.to_nat laddr)%nat ltac:(lia)) as (gp & Hgp & Hnc).
    apply Hgk in Hgp as [_ Hgp].
    replace (Z.to_nat laddr + (k - Z.to_nat laddr))%nat with k in Hgp by lia.
    rewrite (Hin1 k gp Hk Hgp), Hnc. symmetry. exact Hgp. }
  assert (Hst : st1 = st).
  { rewrite Hst1, Hsame. apply with_trans_map_same. }
  assert (Hlocked : locked = false).
  { destruct (Hkg (N - 1)%nat ltac:(lia)) as (gp & Hgp & Hnc).
    apply Hgk in Hgp as [_ Hgp].
    rewrite <- Hnc. apply Hlk; [lia|].
    replace (Z.to_nat laddr + 0 + N - 1)%nat with (Z.to_nat laddr + (N - 1))%nat by lia.
    exact Hgp. }
  subst st1 locked. rewrite Hsetup. cbn [mbind option_bind].
  rewrite Nat.add_0_r. fold gps.
  set (ppas := list_inserts 0 (ppa <$> gps) (replicate PBLK_MAX_REQ_ADDRS PPA_EMPTY)).
  assert (Hppas : ppas = (ppa <$> gps) ++ replicate (PBLK_MAX_REQ_ADDRS - N) PPA_EMPTY).
  { unfold ppas.
    replace PBLK_MAX_REQ_ADDRS with (N + (PBLK_MAX_REQ_ADDRS - N))%nat at 1 by lia.
    rewrite replicate_add. apply list_inserts_0_r.
    now rewrite length_fmap, length_replicate. }
  assert (Htake : take N (drop 0 ppas) = ppa <$> gps).
  { rewrite Hppas, drop_0. apply take_app_length'. now rewrite length_fmap. }
  change 0 with (Z.of_nat 0) at 1.
  rewrite (pblk_read_ppalist_rq_loop_device st ppas N O _ l O);
    [|rewrite Hppas, length_app, length_fmap, length_replicate; lia
     |exact Hrq | reflexivity | reflexivity|].
  - cbn [mbind option_bind rl_bio rl_rqd rl_bitmap]. rewrite Htake. reflexivity.
  - intros k p Hk Hp. rewrite Hppas in Hp.
    rewrite lookup_app_l in Hp by (rewrite length_fmap; lia).
    apply list_lookup_fmap_Some in Hp as (gp & -> & Hgp).
    apply Hdev. eapply list_elem_of_lookup_2. exact Hgp.
Qed.

(** X28.  A multi-sector read that is entirely on the device, from
    submission to completion, for a bio whose [bi_rw] is exactly [READ].
    [pblk_submit_read] hands the driver one request with the L2P
    addresses of the range, in order, in its address list; it does not
    complete the bio and leaves the L2P table alone.  When the driver
    completes the request, [pblk_end_io] finds [bi_rw == READ] and takes
    the read path: it frees the address list, drops the clone, completes
    the caller's bio -- once -- and frees the request: everything
    allocated at submission is released. *)
Theorem pblk_submit_read_device_roundtrip st b flags N :
  let laddr := pblk_get_laddr (consts st) b in
  let gps := take N (drop (Z.to_nat laddr) (trans_map st)) in
  alloc_script st = [] -> submit_script st = [] ->
  (2 <= N <= PBLK_MAX_REQ_ADDRS)%nat ->
  pblk_get_secs (consts st) b = Z.of_nat N -> bi_vcnt b = Z.of_nat N ->
  bio_rw_is_read b = true -> bi_error b = 0 -> ft_sync flags = false ->
  0 <= laddr -> laddr + Z.of_nat N < pblk_nr_secs st ->
  pblk_nr_secs st <= Z.of_nat (length (trans_map st)) ->
  (forall gp, gp ∈ gps -> ppa_on_dev (ppa gp) = true) ->
  exists st1 r l,
    pblk_submit_read st b flags = Some (st1, b, NVM_IO_OK) /\
    log st1 = log st ++ [EvAllocRqd READ; EvDmaAlloc; EvBioGet b; EvSubmitIo r] /\
    rq_opcode r = NVM_OP_PREAD /\ rq_nr_ppas r = Z.of_nat N /\
    rq_ppa_list r = Some l /\ take N l = ppa <$> gps /\
    trans_map st1 = trans_map st /\
    exists st2,
      pblk_end_io st1 r = Some st2 /\
      log st2 = log st1 ++ [EvDmaFree; EvBioPut (Some b); EvBioEndio b;
                            EvBioPut (Some b); EvFreeRqd READ r].
Proof.
  intros laddr gps Ha Hsub HN Hn Hv Hw He Hsync Hl Hend Hns Hdev.
  assert (Hgl : length gps = N).
  { unfold gps. rewrite length_take, length_drop. lia. }
  unfold pblk_submit_read. rewrite Hn, Hv.
  unfold PBLK_MAX_REQ_ADDRS in HN.
  rewrite to_int_id by lia. rewrite Z.eqb_refl. cbn [negb].
  rewrite pblk_alloc_rqd_ok by exact Ha.
  destruct (Z.ltb_spec 1 (Z.of_nat N)) as [_|]; [|lia].
  rewrite try_alloc_nil by exact Ha. cbn [negb].
  rewrite (pblk_read_ppalist_rq_all_device _ b _
             (replicate PBLK_MAX_REQ_ADDRS PPA_EMPTY) N);
    try assumption; try reflexivity; try (unfold PBLK_MAX_REQ_ADDRS; lia).
  cbn [mbind option_bind negb consts emit with_log trans_map].
  fold laddr. fold gps.
  assert (Hfull : bitmap_full 0 (Z.of_nat N) = false).
  { unfold bitmap_full. rewrite Z.land_0_l. apply Z.eqb_neq. intros Heq.
    apply (f_equal (fun z => Z.testbit z 0)) in Heq.
    rewrite Z.bits_0, Z.ones_spec_low in Heq by lia. discriminate Heq. }
  rewrite Hfull.
  unfold __pblk_submit_read.
  assert (Hempty : bitmap_empty 0 (Z.of_nat N) = true)
    by (unfold bitmap_empty; rewrite Z.land_0_l; reflexivity).
  rewrite Hempty.
  rewrite try_alloc_nil by exact Ha.
  unfold pblk_submit_read_io, nvm_submit_io.
  cbn [submit_script emit with_log]. rewrite Hsub.
  change (negb (0 =? 0)) with false. cbv iota.
  eexists _, _, _. split; [reflexivity|].
  split; [cbn [log emit with_log]; rewrite <- !app_assoc; reflexivity|].
  split; [reflexivity|]. split; [reflexivity|]. split; [reflexivity|].
  split.
  { replace PBLK_MAX_REQ_ADDRS with (N + (PBLK_MAX_REQ_ADDRS - N))%nat
      by (unfold PBLK_MAX_REQ_ADDRS; lia).
    rewrite replicate_add, list_inserts_0_r
      by (now rewrite length_fmap, length_replicate).
    apply take_app_length'. now rewrite length_fmap. }
  split; [reflexivity|].
  unfold pblk_end_io, pblk_end_io_read.
  cbn [rq_bio rq_with_sngl_suspend rq_with_r_ctx rq_with_head rq_nr_ppas rq_r_ctx
       r_flags orig_bio rq_meta_list rq_with_ppas rqd_zero mbind option_bind].
  rewrite Hw, Hsync, He. cbn [negb Z.eqb].
  unfold to_u8. rewrite Z.mod_small by lia.
  destruct (Z.ltb_spec 1 (Z.of_nat N)) as [_|]; [|lia].
  eexists. split; [reflexivity|].
  unfold pblk_free_rqd. cbn [log emit with_log]. rewrite <- !app_assoc. reflexivity.
Qed.

Lemma pblk_submit_read_device_roundtrip_witness :
  let st := ex_pblk_on_dev in
  let b := ex_bio false 7 2 [[]; []] in
  exists st1 r l,
    pblk_submit_read st b io_none = Some (st1, b, NVM_IO_OK) /\
    log st1 = log st ++ [EvAllocRqd READ; EvDmaAlloc; EvBioGet b; EvSubmitIo r] /\
    rq_opcode r = NVM_OP_PREAD /\ rq_nr_ppas r = Z.of_nat 2 /\
    rq_ppa_list r = Some l /\
    take 2 l = ppa <$> take 2 (drop (Z.to_nat 7) (trans_map st)) /\
    trans_map st1 = trans_map st /\
    exists st2,
      pblk_end_io st1 r = Some st2 /\
      log st2 = log st1 ++ [EvDmaFree; EvBioPut (Some b); EvBioEndio b;
                            EvBioPut (Some b); EvFreeRqd READ r].
Proof.
  intros st b.
  apply (pblk_submit_read_device_roundtrip st b io_none 2);
    try reflexivity; try (vm_compute; intuition discriminate).
  - unfold PBLK_MAX_REQ_ADDRS. lia.
  - intros gp Hin. vm_compute in Hin.
    apply elem_of_cons in Hin as [-> | Hin]; [reflexivity|].
    apply elem_of_cons in Hin as [-> | Hin]; [reflexivity|].
    apply elem_of_nil in Hin. contradiction.
Defined.

(** X9.  When the clone of the read bio cannot be allocated,
    [pblk_submit_read] still answers [NVM_IO_OK]: [ret] keeps its initial
    value on the way to [fail_ppa_free].  The clone is made for the reads
    whose sectors are all on the device, of one sector or of several:
    nothing has been submitted, the bio is not completed and the request
    is not freed; the address list of a read of several sectors is given
    back unless the read is the garbage collector's. *)
Theorem pblk_submit_read_clone_failure st b flags N rest :
  let laddr := pblk_get_laddr (consts st) b in
  let gps := take N (drop (Z.to_nat laddr) (trans_map st)) in
  let multi := 1 <? Z.of_nat N in
  (1 <= N <= PBLK_MAX_REQ_ADDRS)%nat ->
  alloc_script st = [true] ++ (if multi then [true] else []) ++ false :: rest ->
  pblk_get_secs (consts st) b = Z.of_nat N -> bi_vcnt b = Z.of_nat N ->
  0 <= laddr -> laddr + Z.of_nat N <= pblk_nr_secs st ->
  N = 1%nat \/ laddr + Z.of_nat N < pblk_nr_secs st ->
  pblk_nr_secs st <= Z.of_nat (length (trans_map st)) ->
  pblk_nr_secs st <= ADDR_EMPTY ->
  (forall gp, gp ∈ gps -> ppa_on_dev (ppa gp) = true) ->
  exists st',
    pblk_submit_read st b flags = Some (st', b, NVM_IO_OK) /\
    log st' = log st ++ [EvAllocRqd READ]
                     ++ (if multi then [EvDmaAlloc] else [])
                     ++ [EvBioGet b; EvPrErr "pblk: could not clone read bio"]
                     ++ (if multi && negb (ft_gc flags) then [EvDmaFree] else []) /\
    submits (log st') = submits (log st) /\
    trans_map st' = trans_map st.
Proof.
  intros laddr gps multi HN Ha Hn Hv Hl Hin Hend Hlen Hmax Hdev.
  destruct (Nat.eq_dec N 1%nat) as [-> | Hmulti].
  - change (Z.of_nat 1) with 1 in *. subst multi. change (1 <? 1) with false in *.
    cbn [app] in Ha.
    destruct (lookup_lt_is_Some_2 (trans_map st) (Z.to_nat laddr) ltac:(lia)) as [gp Hgp].
    assert (Hd : ppa_on_dev (ppa gp) = true).
    { apply Hdev. unfold gps. rewrite (drop_S _ _ _ Hgp). cbn [take]. left. }
    destruct gp as [[| |g] rb]; try discriminate Hd.
    rewrite (pblk_submit_read_single st (with_alloc_script st (false :: rest)))
      by (try assumption; unfold try_alloc; now rewrite Ha).
    rewrite (pblk_read_rq_device _ _ _ _ _ g rb);
      [|unfold laddr, ADDR_EMPTY in *; lia
       |rewrite trans_map_get_in by (cbn; fold laddr; lia); exact Hgp].
    cbn [mbind option_bind nvm_io_code]. change (0 =? 0) with true. cbv iota zeta.
    change (bitmap_full 0 1) with false. cbv iota.
    unfold __pblk_submit_read. change (bitmap_empty 0 1) with true. cbv iota.
    unfold try_alloc at 1. cbn [alloc_script emit with_log with_alloc_script].
    change (1 <? 1) with false. cbn [andb negb].
    eexists. split; [reflexivity|].
    cbn [log emit with_log with_alloc_script trans_map app].
    rewrite <- !app_assoc. cbn [app].
    split; [reflexivity|]. split; [|reflexivity].
    unfold submits. rewrite omap_app. cbn. now rewrite app_nil_r.
  - destruct Hend as [-> | Hend]; [contradiction|].
    assert (Hm : multi = true) by (apply Z.ltb_lt; lia).
    rewrite Hm in *. cbn [app andb] in Ha |- *.
    unfold pblk_submit_read. rewrite Hn, Hv.
    unfold PBLK_MAX_REQ_ADDRS in HN.
    rewrite to_int_id by lia. rewrite Z.eqb_refl. cbn [negb].
    unfold pblk_alloc_rqd, try_alloc at 1. rewrite Ha.
    fold multi. rewrite Hm.
    unfold try_alloc at 1. cbn [alloc_script emit with_log with_alloc_script negb].
    rewrite (pblk_read_ppalist_rq_all_device _ b _
               (replicate PBLK_MAX_REQ_ADDRS PPA_EMPTY) N);
      try assumption; try reflexivity; try (unfold PBLK_MAX_REQ_ADDRS; lia).
    cbn [mbind option_bind negb consts emit with_log with_alloc_script trans_map].
    assert (Hfull : bitmap_full 0 (Z.of_nat N) = false).
    { unfold bitmap_full. rewrite Z.land_0_l. apply Z.eqb_neq. intros Heq.
      apply (f_equal (fun z => Z.testbit z 0)) in Heq.
      rewrite Z.bits_0, Z.ones_spec_low in Heq by lia. discriminate Heq. }
    rewrite Hfull.
    unfold __pblk_submit_read.
    assert (Hempty : bitmap_empty 0 (Z.of_nat N) = true)
      by (unfold bitmap_empty; rewrite Z.land_0_l; reflexivity).
    rewrite Hempty.
    unfold try_alloc at 1. cbn [alloc_script emit with_log with_alloc_script negb].
    fold multi. rewrite Hm. cbn [andb].
    eexists. split; [reflexivity|].
    split; [|split; [|destruct (ft_gc flags); reflexivity]].
    + destruct (ft_gc flags); cbn [negb log emit with_log with_alloc_script];
        rewrite <- !app_assoc; reflexivity.
    + unfold submits.
      destruct (ft_gc flags); cbn [negb log emit with_log with_alloc_script];
        rewrite !omap_app; cbn; now rewrite !app_nil_r.
Qed.

Lemma pblk_submit_read_clone_failure_witness :
  let st := with_alloc_script ex_pblk_on_dev [true; true; false] in
  let b := ex_bio false 7 2 [[]; []] in
  exists st',
    pblk_submit_read st b io_none = Some (st', b, NVM_IO_OK) /\
    log st' = log st ++ [EvAllocRqd READ; EvDmaAlloc; EvBioGet b;
                         EvPrErr "pblk: could not clone read bio"; EvDmaFree] /\
    submits (log st') = submits (log st) /\
    trans_map st' = trans_map st.
Proof.
  intros st b.
  apply (pblk_submit_read_clone_failure st b io_none 2 []);
    try reflexivity; try (vm_compute; intuition discriminate).
  - unfold PBLK_MAX_REQ_ADDRS. lia.
  - intros gp Hin. vm_compute in Hin.
    apply elem_of_cons in Hin as [-> | Hin]; [reflexivity|].
    apply elem_of_cons in Hin as [-> | Hin]; [reflexivity|].
    apply elem_of_nil in Hin. contradiction.
Defined.

(* ------------------------------------------------------------------ *)
(** ** Moving a sector into the ring *)
(* ------------------------------------------------------------------ *)

(** The loop of [pblk_write_list_to_cache] over entries that are all
    [ADDR_EMPTY] does nothing. *)
Lemma pblk_write_list_to_cache_loop_skip w_ctx lba_list pos :
  forall n i valid_secs sched st b kref,
  (forall j, (i <= j < i + n)%nat -> lba_list !! j = Some ADDR_EMPTY) ->
  pblk_write_list_to_cache_loop n (Z.of_nat i) valid_secs sched st b w_ctx lba_list pos kref
  = Some (st, b, sched, valid_secs, kref).
Proof.
  induction n as [|n IH]; intros i valid_secs sched st b kref Hall; [reflexivity|].
  cbn [pblk_write_list_to_cache_loop]. rewrite Nat2Z.id, (Hall i) by lia.
  cbn [mbind option_bind]. rewrite Z.eqb_refl.
  replace (Z.of_nat i + 1) with (Z.of_nat (S i)) by lia.
  apply IH. intros j Hj. apply Hall. lia.
Qed.

(** The loop of [pblk_write_list_to_cache] when the only entry that is
    not [ADDR_EMPTY] is at index [i0] and names a sector on the device:
    the page under the bio's iterator goes to the ring slot of position
    [pos], the old sector is invalidated in its block, and the L2P entry
    points to the slot. *)
Lemma pblk_write_list_to_cache_loop_one w_ctx lba_list pos i0 lba g bo blk :
  forall n i sched st b kref,
  (i <= i0 < i + n)%nat -> (i + n <= length lba_list)%nat ->
  lba_list !! i0 = Some lba ->
  (forall j, j <> i0 -> (j < length lba_list)%nat -> lba_list !! j = Some ADDR_EMPTY) ->
  lba <> ADDR_EMPTY -> 0 <= lba < pblk_nr_secs st ->
  trans_map st !! Z.to_nat lba = Some {| ppa := PPA_DEV g; rblk := Some bo |} ->
  blocks st !! bo = Some blk ->
  pblk_write_list_to_cache_loop n (Z.of_nat i) 0 sched st b w_ctx lba_list pos kref
  = Some (trans_map_set
            (with_blocks
               (with_rwb st
                  (pblk_rb_write_entry (rwb st) (bio_data b) (w_ctx_with_lba w_ctx lba)
                     (pos + 0)))
               (<[bo := blk_set_invalid blk (nr_invalid_secs blk + 1)
                          (set_bit (g_sec g) (invalid_bitmap blk))]> (blocks st)))
            lba
            {| ppa := pblk_cacheline_to_ppa
                        (pblk_rb_wrap_pos (rwb st) (pos + 0));
               rblk := None |},
          bio_advance (consts st) b 1, sched, 1, kref + 1).
Proof.
  induction n as [|n IH]; intros i sched st b kref Hi Hlen Hl Hothers Hne Hin Hgp Hblk;
    [lia|].
  cbn [pblk_write_list_to_cache_loop]. rewrite Nat2Z.id.
  replace (Z.of_nat i + 1) with (Z.of_nat (S i)) by lia.
  destruct (Nat.eq_dec i i0) as [-> | Hd].
  - rewrite Hl. cbn [mbind option_bind].
    destruct (Z.eqb_spec lba ADDR_EMPTY) as [|_]; [contradiction|].
    set (st1 := with_rwb st _).
    assert (Hup : pblk_update_map st1 lba None
                    (pblk_cacheline_to_ppa (pblk_rb_wrap_pos (rwb st1) (pos + 0)))
                  = Some (false,
                          trans_map_set
                            (with_blocks st1
                               (<[bo := blk_set_invalid blk (nr_invalid_secs blk + 1)
                                          (set_bit (g_sec g) (invalid_bitmap blk))]>
                                  (blocks st1)))
                            lba
                            {| ppa := pblk_cacheline_to_ppa
                                        (pblk_rb_wrap_pos (rwb st1) (pos + 0));
                               rblk := None |})).
    { unfold pblk_update_map. rewrite trans_map_get_in by exact Hin.
      change (trans_map st1) with (trans_map st). rewrite Hgp.
      cbn [mbind option_bind ppa rblk nvm_addr_in_cache andb].
      unfold pblk_page_invalidate. cbn [ppa rblk].
      change (blocks st1) with (blocks st). rewrite Hblk. reflexivity. }
    rewrite (pblk_update_map_retry_ok _ _ _ _ _ Hup). cbn [mbind option_bind].
    rewrite pblk_write_list_to_cache_loop_skip
      by (intros j Hj; apply Hothers; lia).
    unfold st1, pblk_rb_wrap_pos, rb_capacity, pblk_rb_write_entry.
    cbn [rwb with_rwb rb_entries rb_with_entries blocks consts].
    rewrite length_insert. reflexivity.
  - rewrite (Hothers i) by lia. cbn [mbind option_bind]. rewrite Z.eqb_refl.
    apply IH; try assumption; lia.
Qed.

(** X29.  Moving a sector into the ring and reading it back.  When the
    LBA list handed to [pblk_write_list_to_cache] names one LBA (the
    other entries being [ADDR_EMPTY]) and that LBA is on the device, the
    page is written to the ring slot of position [mem], the sector the
    LBA had on the device is counted invalid in its block, the reference
    count of the buffer, [mem] and the in-flight counter go up by one --
    the [ADDR_EMPTY] entries take neither a slot nor a page -- and a read
    of the LBA (with a bio whose [bi_rw] is exactly [READ]) then returns
    the moved page from the ring, without a device request. *)
Theorem pblk_write_list_to_cache_moves sched st bw br lba_list i0 lba g bo blk
    ref_buf kref flags rflags :
  alloc_script st = [] ->
  bio_has_data bw = true -> bi_vcnt bw = 1 ->
  lba_list !! i0 = Some lba ->
  (forall j, j <> i0 -> (j < length lba_list)%nat -> lba_list !! j = Some ADDR_EMPTY) ->
  lba <> ADDR_EMPTY -> 0 <= lba < pblk_nr_secs st ->
  trans_map st !! Z.to_nat lba = Some {| ppa := PPA_DEV g; rblk := Some bo |} ->
  blocks st !! bo = Some blk ->
  rb_sync (rwb st) <= rb_mem (rwb st) ->
  rb_mem (rwb st) + 1 - rb_sync (rwb st) <= rb_capacity (rwb st) ->
  - 2 ^ 31 <= write_inflight st < WRITE_INFLIGHT_CAP - 1 ->
  pblk_get_secs (consts st) br = 1 -> bi_vcnt br = 1 ->
  pblk_get_laddr (consts st) br = lba ->
  bio_rw_is_read br = true -> ft_sync rflags = false -> bi_error br = 0 ->
  exists st1 st2 r,
    pblk_write_list_to_cache sched st bw lba_list ref_buf kref
      (Z.of_nat (length lba_list)) 1 flags
    = Some (st1, bio_advance (consts st) bw 1, kref + 1, 0) /\
    blocks st1 !! bo
    = Some (blk_set_invalid blk (nr_invalid_secs blk + 1)
              (set_bit (g_sec g) (invalid_bitmap blk))) /\
    rb_mem (rwb st1) = rb_mem (rwb st) + 1 /\
    write_inflight st1 = write_inflight st + 1 /\
    pblk_submit_read st1 br rflags
    = Some (st2, bio_store br (bio_data bw), NVM_IO_OK) /\
    log st2 = log st ++ [EvAllocRqd READ; EvBioGet (bio_store br (bio_data bw));
                         EvBioEndio (bio_store br (bio_data bw));
                         EvBioPut (Some (bio_store br (bio_data bw)));
                         EvFreeRqd READ r].
Proof.
  intros Ha Hdata Hv Hl Hothers Hne Hin Hgp Hblk Hsm Hring Hwi Hrn Hrv Hrl Hrw Hrs Hre.
  assert (Hi0 : (i0 < length lba_list)%nat) by (eapply lookup_lt_Some; exact Hl).
  assert (Hlen : (Z.to_nat lba < length (trans_map st))%nat)
    by (eapply lookup_lt_Some; exact Hgp).
  assert (Hbo : (bo < length (blocks st))%nat) by (eapply lookup_lt_Some; exact Hblk).
  assert (Hcap : 0 < rb_capacity (rwb st)) by lia.
  pose proof (Z.mod_pos_bound (rb_mem (rwb st)) (rb_capacity (rwb st)) Hcap) as Hslot.
  unfold pblk_write_list_to_cache. rewrite Hdata, Hv. cbn [negb orb Z.eqb Pos.eqb].
  unfold pblk_setup_write_to_cache, pblk_rb_may_write.
  destruct (Z.leb_spec (rb_mem (rwb st) + 1 - rb_sync (rwb st)) (rb_capacity (rwb st)));
    [|lia].
  rewrite Nat2Z.id.
  change (pblk_write_list_to_cache_loop (length lba_list) 0)
    with (pblk_write_list_to_cache_loop (length lba_list) (Z.of_nat 0)).
  rewrite (pblk_write_list_to_cache_loop_one _ lba_list _ i0 lba g bo blk);
    try assumption; try lia.
  cbn [mbind option_bind].
  rewrite pblk_may_submit_write_st_granted by (cbn; lia).
  cbn [mbind option_bind]. rewrite Z.add_0_r.
  set (slot := pblk_rb_wrap_pos (rwb (with_rwb st _)) (rb_mem (rwb st))).
  assert (Hsl : slot = rb_mem (rwb st) mod rb_capacity (rwb st)) by reflexivity.
  set (e := {| e_data := bio_data bw;
               e_w_ctx := w_ctx_with_lba
                            {| w_bio := None; w_lba := 0; w_flags := flags;
                               w_priv := Some ref_buf; w_paddr := 0;
                               w_ppa := pblk_addr_empty |} lba |}).
  match goal with
  | |- context [Some (?s, bio_advance _ bw 1, kref + 1, 0)] => set (st1 := s)
  end.
  destruct (pblk_submit_read_cached_run st1 br rflags slot false None e)
    as (st2 & r & Hread & Hlog2 & _); try assumption.
  - change (consts st1) with (consts st). rewrite Hrl. exact Hne.
  - change (consts st1) with (consts st).
    change (pblk_nr_secs st1) with (pblk_nr_secs st). rewrite Hrl. exact Hin.
  - change (consts st1) with (consts st). rewrite Hrl. unfold st1, trans_map_set.
    cbn [trans_map with_trans_map with_write_inflight with_blocks with_rwb].
    now apply list_lookup_insert_eq.
  - rewrite Hsl. lia.
  - unfold st1, trans_map_set, pblk_rb_write_entry, pblk_rb_wrap_pos, rb_capacity.
    cbn [rwb with_trans_map with_write_inflight with_blocks with_rwb rb_entries
         rb_with_entries rb_with_mem].
    rewrite Hsl. apply list_lookup_insert_eq. unfold rb_capacity in *. lia.
  - exists st1, st2, r.
    split; [reflexivity|].
    split.
    { unfold st1, trans_map_set.
      cbn [blocks with_trans_map with_write_inflight with_blocks].
      now apply list_lookup_insert_eq. }
    split; [reflexivity|].
    split.
    { unfold st1. cbn [write_inflight with_write_inflight with_trans_map trans_map_set
                       with_blocks with_rwb].
      apply to_int_id. unfold WRITE_INFLIGHT_CAP in Hwi. lia. }
    split; [exact Hread|]. rewrite Hlog2. reflexivity.
Qed.

Lemma pblk_write_list_to_cache_moves_witness :
  let st := ex_pblk_on_dev in
  let bw := ex_bio true 0 1 [[Byte.x55]] in
  let br := ex_bio false 7 1 [[]] in
  exists st1 st2 r,
    pblk_write_list_to_cache [] st bw [ADDR_EMPTY; 7] 1 0 (Z.of_nat 2) 1 io_none
    = Some (st1, bio_advance (consts st) bw 1, 0 + 1, 0) /\
    blocks st1 !! O
    = Some (blk_set_invalid ex_block (nr_invalid_secs ex_block + 1)
              (set_bit 0 (invalid_bitmap ex_block))) /\
    rb_mem (rwb st1) = rb_mem (rwb st) + 1 /\
    write_inflight st1 = write_inflight st + 1 /\
    pblk_submit_read st1 br io_none
    = Some (st2, bio_store br (bio_data bw), NVM_IO_OK) /\
    log st2 = log st ++ [EvAllocRqd READ; EvBioGet (bio_store br (bio_data bw));
                         EvBioEndio (bio_store br (bio_data bw));
                         EvBioPut (Some (bio_store br (bio_data bw)));
                         EvFreeRqd READ r].
Proof.
  intros st bw br.
  apply (pblk_write_list_to_cache_moves [] st bw br [ADDR_EMPTY; 7] 1 7
           {| g_blk := O; g_sec := 0 |} O ex_block 1 0 io_none io_none);
    try reflexivity; try (vm_compute; intuition discriminate).
  intros j Hj Hlt. destruct j as [|[|j]]; [reflexivity | contradiction | cbn in Hlt; lia].
Defined.

(* ------------------------------------------------------------------ *)
(** ** Counting the sectors recorded as valid *)
(* ------------------------------------------------------------------ *)

Lemma foldr_nr_lbas_insert (bs : list pblk_block) b blk blk' :
  bs !! b = Some blk ->
  foldr (fun x acc => rlpg_nr_lbas x + acc) 0 (<[b := blk']> bs)
  = foldr (fun x acc => rlpg_nr_lbas x + acc) 0 bs
    - rlpg_nr_lbas blk + rlpg_nr_lbas blk'.
Proof.
  revert b. induction bs as [|x bs IH]; intros b Hb; [discriminate Hb|].
  destruct b as [|b].
  - injection Hb as ->. change (<[O := blk']> (blk :: bs)) with (blk' :: bs).
    cbn [foldr]. lia.
  - specialize (IH b Hb).
    change (<[S b := blk']> (x :: bs)) with (x :: <[b := blk']> bs).
    cbn [foldr]. rewrite IH. lia.
Qed.

Lemma total_nr_lbas_set_block st b blk blk' :
  blocks st !! b = Some blk ->
  total_nr_lbas (with_blocks st (<[b := blk']> (blocks st)))
  = total_nr_lbas st - rlpg_nr_lbas blk + rlpg_nr_lbas blk'.
Proof. intros Hb. unfold total_nr_lbas. cbn [blocks with_blocks].
       now apply foldr_nr_lbas_insert. Qed.

(** [pblk_page_pad_invalidate] records no valid sector. *)
Lemma total_nr_lbas_page_pad_invalidate st b a st' :
  pblk_page_pad_invalidate st b a = Some st' ->
  total_nr_lbas st' = total_nr_lbas st /\ geo st' = geo st.
Proof.
  unfold pblk_page_pad_invalidate. intros H.
  destruct (blocks st !! b) as [blk|] eqn:Hb; [|discriminate H].
  cbn [mbind option_bind] in H.
  assert (Ht : forall X, total_nr_lbas
                 (with_blocks st
                    (<[b := blk_set_sync
                              (blk_set_invalid blk (nr_invalid_secs blk + 1)
                                 (set_bit a (invalid_bitmap blk))) X]> (blocks st)))
               = total_nr_lbas st).
  { intros X. rewrite (total_nr_lbas_set_block st b blk) by exact Hb.
    cbn [rlpg_nr_lbas blk_set_sync blk_set_invalid]. lia. }
  destruct (bitmap_full _ _); injection H as <-.
  - unfold pblk_run_blk_ws, try_alloc.
    match goal with
    | |- context [alloc_script ?s] => destruct (alloc_script s) as [|[|] rest]
    end; cbn; (split; [apply Ht | reflexivity]).
  - split; [apply Ht | reflexivity].
Qed.

(** The loop of [pblk_map_page]: when it answers 0, every sector below
    [valid_secs] it has gone through is recorded as valid in the block,
    and no other. *)
Lemma pblk_map_page_loop_nr_lbas b sentry dst nr nv :
  forall k i paddr st rqd st' rqd',
  0 <= i ->
  pblk_map_page_loop k i paddr st b sentry rqd dst nr nv = Some (st', rqd', 0) ->
  total_nr_lbas st' = total_nr_lbas st + Z.max 0 (Z.min (i + Z.of_nat k) nv - i) /\
  geo st' = geo st.
Proof.
  induction k as [|k IH]; intros i paddr st rqd st' rqd' Hi Hrun.
  - cbn [pblk_map_page_loop] in Hrun. injection Hrun as <- <-. split; [lia | reflexivity].
  - cbn [pblk_map_page_loop] in Hrun.
    destruct (paddr =? ADDR_EMPTY); [discriminate Hrun|].
    destruct (rq_store_ppa rqd dst i _) as [rqd1|]; [|discriminate Hrun].
    cbn [mbind option_bind] in Hrun.
    destruct (Z.ltb_spec i nv) as [Hlt|Hge].
    + destruct (pblk_rb_w_ctx (rwb st) (sentry + i)) as [wc|]; [|discriminate Hrun].
      cbn [mbind option_bind] in Hrun.
      destruct (rq_store_meta rqd1 dst i (w_lba wc)) as [rqd2|]; [|discriminate Hrun].
      cbn [mbind option_bind blocks with_rwb] in Hrun.
      destruct (blocks st !! b) as [blk|] eqn:Hb; [|discriminate Hrun].
      cbn [mbind option_bind] in Hrun.
      apply IH in Hrun as [Ht Hg]; [|lia].
      rewrite Ht, Hg. split; [|reflexivity].
      unfold total_nr_lbas. cbn [blocks with_blocks with_rwb].
      rewrite (foldr_nr_lbas_insert _ b blk _ Hb).
      cbn [rlpg_nr_lbas blk_set_rlpg]. lia.
    + destruct (rq_store_meta rqd1 dst i ADDR_EMPTY) as [rqd2|]; [|discriminate Hrun].
      cbn [mbind option_bind] in Hrun.
      destruct (blocks st !! b) as [blk|] eqn:Hb; [|discriminate Hrun].
      cbn [mbind option_bind] in Hrun.
      match type of Hrun with
      | context [pblk_page_pad_invalidate ?s b paddr] =>
          destruct (pblk_page_pad_invalidate s b paddr) as [st1|] eqn:Hpad;
            [|discriminate Hrun];
          assert (Hs : total_nr_lbas s = total_nr_lbas st)
            by (rewrite (total_nr_lbas_set_block st b blk) by exact Hb;
                cbn [rlpg_nr_lbas blk_set_rlpg]; lia)
      end.
      apply total_nr_lbas_page_pad_invalidate in Hpad as [Ht1 Hg1].
      cbn [mbind option_bind] in Hrun.
      destruct (blocks st1 !! b) as [blk1|] eqn:Hb1; [|discriminate Hrun].
      cbn [mbind option_bind] in Hrun.
      apply IH in Hrun as [Ht Hg]; [|lia].
      rewrite Ht, Hg.
      rewrite (total_nr_lbas_set_block st1 b blk1) by exact Hb1.
      cbn [rlpg_nr_lbas blk_set_rlpg geo with_blocks].
      split; [lia | exact Hg1].
Qed.

(** [pblk_map_page]: when it answers 0, [valid_secs] more sectors are
    recorded as valid. *)
Lemma pblk_map_page_nr_lbas st b sentry rqd dst nr nv st' rqd' :
  0 <= nv <= nr ->
  pblk_map_page st b sentry rqd dst nr nv = Some (st', rqd', 0) ->
  total_nr_lbas st' = total_nr_lbas st + nv /\ geo st' = geo st.
Proof.
  intros Hnv Hrun. unfold pblk_map_page in Hrun.
  destruct (blocks st !! b) as [blk|] eqn:Hb; [|discriminate Hrun].
  cbn [mbind option_bind] in Hrun.
  destruct (pblk_alloc_page st blk) as [paddr blk1] eqn:Hal.
  apply pblk_map_page_loop_nr_lbas in Hrun as [Ht Hg]; [|lia].
  rewrite Ht, Hg. rewrite (total_nr_lbas_set_block st b blk) by exact Hb.
  assert (Hsame : rlpg_nr_lbas blk1 = rlpg_nr_lbas blk).
  { unfold pblk_alloc_page, pblk_next_base_sec in Hal.
    destruct (block_is_full st blk); injection Hal as _ <-; reflexivity. }
  split; [lia | reflexivity].
Qed.

(** Replacing the current block of a LUN maps no sector. *)
Lemma pblk_replace_blk_nr_lbas pool st rlun bit ok pool1 st1 :
  pblk_replace_blk pool st rlun bit = Some (ok, pool1, st1) ->
  total_nr_lbas st1 = total_nr_lbas st /\ geo st1 = geo st.
Proof.
  unfold pblk_replace_blk, pblk_block_pool_get, pblk_set_lun_cur. intros H.
  destruct (bit <? 0); [discriminate H|].
  destruct (prov_queues pool !! Z.to_nat bit) as [q|]; [|discriminate H].
  cbn [mbind option_bind] in H.
  destruct (q_nr_elems q =? 0).
  { cbn [mbind option_bind] in H. injection H as _ _ <-. split; reflexivity. }
  destruct (q_list q) as [|r rest]; [discriminate H|].
  destruct (luns st !! rlun) as [lun|]; [|discriminate H].
  cbn [mbind option_bind luns with_luns] in H.
  destruct (_ !! rlun) as [lun1|]; [|discriminate H].
  cbn [mbind option_bind] in H. injection H as _ _ <-. split; reflexivity.
Qed.

(** The loop of [pblk_map_rr_page]: when it answers 0, [valid_secs] more
    sectors are recorded as valid, whichever block took the page. *)
Lemma pblk_map_rr_page_loop_nr_lbas rlun sentry rqd dst nr nv :
  0 <= nv <= nr ->
  forall fuel sched w w' rqd' sched',
  Forall keeps_nr_lbas sched ->
  pblk_map_rr_page_loop fuel sched w rlun sentry rqd dst nr nv
  = Some (w', rqd', 0, sched') ->
  total_nr_lbas (wr_pblk w') = total_nr_lbas (wr_pblk w) + nv /\
  geo (wr_pblk w') = geo (wr_pblk w) /\ Forall keeps_nr_lbas sched'.
Proof.
  intros Hnv.
  induction fuel as [|fuel IH]; intros sched w w' rqd' sched' Hs Hrun;
    [discriminate Hrun|].
  cbn [pblk_map_rr_page_loop] in Hrun.
  destruct (luns (wr_pblk w) !! rlun) as [lun|]; [|discriminate Hrun].
  cbn [mbind option_bind] in Hrun.
  destruct (lun_cur lun) as [b|]; [|discriminate Hrun].
  cbn [mbind option_bind] in Hrun.
  destruct (blocks (wr_pblk w) !! b) as [blk|]; [|discriminate Hrun].
  cbn [mbind option_bind] in Hrun.
  assert (Hrep : forall (r : option (pblk_wr * nvm_rq * Z * wr_env)),
            r = (bit ← wr_lun_id w !! rlun;
                 '(ok, pool1, st1) ← pblk_replace_blk (wr_pool w) (wr_pblk w) rlun bit;
                 if (ok : bool) then
                   pblk_map_rr_page_loop fuel sched
                     (wr_with_pool (wr_with_pblk w st1) pool1)
                     rlun sentry rqd dst nr nv
                 else
                   match sched with
                   | [] => None
                   | e :: sched1 =>
                       pblk_map_rr_page_loop fuel sched1
                         (e (wr_with_pool (wr_with_pblk w (emit st1 EvSchedule)) pool1))
                         rlun sentry rqd dst nr nv
                   end) ->
            r = Some (w', rqd', 0, sched') ->
            total_nr_lbas (wr_pblk w') = total_nr_lbas (wr_pblk w) + nv /\
            geo (wr_pblk w') = geo (wr_pblk w) /\ Forall keeps_nr_lbas sched').
  { intros r -> Hr.
    destruct (wr_lun_id w !! rlun) as [bit|]; [|discriminate Hr].
    cbn [mbind option_bind] in Hr.
    destruct (pblk_replace_blk (wr_pool w) (wr_pblk w) rlun bit)
      as [[[ok pool1] st1]|] eqn:Hrp; [|discriminate Hr].
    apply pblk_replace_blk_nr_lbas in Hrp as [Ht Hg].
    cbn [mbind option_bind] in Hr.
    destruct ok.
    - apply IH in Hr as (T & G & F); [|exact Hs].
      cbn [wr_pblk wr_with_pool wr_with_pblk] in T, G.
      rewrite T, G, Ht, Hg. auto.
    - destruct sched as [|e sched1]; [discriminate Hr|].
      apply Forall_cons in Hs as [He Hs1].
      apply IH in Hr as (T & G & F); [|exact Hs1].
      destruct (He (wr_with_pool (wr_with_pblk w (emit st1 EvSchedule)) pool1))
        as [Te Ge].
      cbn [wr_pblk wr_with_pool wr_with_pblk] in Te, Ge.
      rewrite T, G, Te, Ge.
      change (total_nr_lbas (emit st1 EvSchedule)) with (total_nr_lbas st1).
      change (geo (emit st1 EvSchedule)) with (geo st1).
      rewrite Ht, Hg. auto. }
  destruct (block_is_full (wr_pblk w) blk).
  { eapply Hrep; [reflexivity | exact Hrun]. }
  destruct (blk_bad blk).
  { eapply Hrep; [reflexivity | exact Hrun]. }
  destruct (pblk_map_page (wr_pblk w) b sentry rqd dst nr nv)
    as [[[st1 rqd1] ret1]|] eqn:Hmap; [|discriminate Hrun].
  cbn [mbind option_bind] in Hrun. injection Hrun as <- <- -> <-.
  apply pblk_map_page_nr_lbas in Hmap as [Ht Hg]; [|exact Hnv].
  cbn [wr_pblk wr_with_pblk]. auto.
Qed.

(** The page loop of [pblk_setup_w_rq]: when it answers 0, the sectors
    recorded as valid are those passed as valid to [pblk_setup_w_multi]. *)
Lemma pblk_setup_w_rq_loop_nr_lbas c min0 nr_secs fuel :
  0 < min0 ->
  forall n i sched w rqd w' rqd' sched',
  min_write_pgs (geo (wr_pblk w)) = min0 ->
  Forall keeps_nr_lbas sched ->
  pblk_setup_w_rq_loop n i fuel sched w rqd c nr_secs = Some (w', rqd', 0, sched') ->
  total_nr_lbas (wr_pblk w')
  = total_nr_lbas (wr_pblk w) + setup_secs_total n i min0 (nr_valid c) nr_secs.
Proof.
  intros Hmin.
  induction n as [|n IH]; intros i sched w rqd w' rqd' sched' Hg Hs Hrun.
  - cbn [pblk_setup_w_rq_loop setup_secs_total] in *.
    destruct (i <? nr_secs); [discriminate Hrun|]. injection Hrun as <- _ _. lia.
  - cbn [pblk_setup_w_rq_loop setup_secs_total] in *.
    destruct (i <? nr_secs); cbn [negb] in *;
      [|injection Hrun as <- _ _; lia].
    rewrite Hg in Hrun.
    set (nv := if nr_valid c <? i + min0 then nr_valid c mod min0 else min0) in *.
    assert (Hnv : 0 <= nv <= min0).
    { unfold nv. destruct (nr_valid c <? i + min0); [|lia].
      pose proof (Z.mod_pos_bound (nr_valid c) min0 Hmin). lia. }
    unfold pblk_setup_w_multi, pblk_map_rr_page in Hrun. rewrite Hg in Hrun.
    destruct (pblk_get_lun_rr _ _ _) as [next li].
    destruct (li <? 0); [discriminate Hrun|].
    destruct (pblk_map_rr_page_loop _ _ _ _ _ _ _ _ _)
      as [[[[w1 rqd1] ret] sched1]|] eqn:Hpage; [|discriminate Hrun].
    cbn [mbind option_bind] in Hrun.
    destruct (Z.eqb_spec ret 0) as [-> | Hne]; cbn [negb] in Hrun;
      [|injection Hrun as _ _ Hret _; contradiction].
    apply pblk_map_rr_page_loop_nr_lbas in Hpage as (T & G & F); [|exact Hnv | exact Hs].
    cbn [wr_pblk wr_with_next_lun] in T, G.
    apply IH in Hrun; [|rewrite G; exact Hg | exact F].
    rewrite Hrun, T. lia.
Qed.

(** The count is never negative. *)
Lemma setup_secs_total_nonneg min v nr : 0 < min ->
  forall n i, 0 <= setup_secs_total n i min v nr.
Proof.
  intros Hmin. induction n as [|n IH]; intros i; cbn [setup_secs_total]; [lia|].
  destruct (i <? nr); cbn [negb]; [|lia].
  specialize (IH (i + min)).
  destruct (v <? i + min); [|lia].
  pose proof (Z.mod_pos_bound v min Hmin). lia.
Qed.

(** On a page boundary at or below [v], less than a page away from it,
    [v mod min] is the distance to [v]. *)
Lemma mod_page_boundary min v i :
  0 < min -> (min | i) -> i <= v < i + min -> v mod min = v - i.
Proof.
  intros Hmin [k ->] Hv.
  replace v with ((v - k * min) + k * min) at 1 by lia.
  rewrite Z.mod_add by lia. apply Z.mod_small. lia.
Qed.

(** With less than a page of padding, or a whole number of valid pages,
    the count from a page boundary is what is left of the valid
    sectors. *)
Lemma setup_secs_total_exact min v nr :
  0 < min -> 0 <= v <= nr -> (min | nr) ->
  v mod min = 0 \/ nr - v < min ->
  forall n i, 0 <= i -> (min | i) -> nr - i <= Z.of_nat n * min ->
  setup_secs_total n i min v nr = Z.max 0 (v - i).
Proof.
  intros Hmin Hv Hnr Hreg.
  induction n as [|n IH]; intros i Hi Hdiv Hfuel; cbn [setup_secs_total]; [lia|].
  destruct (Z.ltb_spec i nr) as [Hlt|Hge]; cbn [negb]; [|lia].
  rewrite IH; [|lia | apply Z.divide_add_r; [exact Hdiv | apply Z.divide_refl] | lia].
  destruct (Z.ltb_spec v (i + min)) as [Hpart|Hfullpage]; [|lia].
  destruct (Z.le_gt_cases i v) as [Hiv|Hvi].
  - rewrite (mod_page_boundary min v i) by (assumption || lia). lia.
  - assert (Hr : v mod min = 0).
    { destruct Hreg as [Hr | Hp]; [exact Hr|]. exfalso.
      destruct Hdiv as [k Hk]. destruct Hnr as [m Hm].
      assert (k < m) by nia. assert (k + 1 <= m) by lia. nia. }
    rewrite Hr. lia.
Qed.

(** With a page or more of padding after a partly valid page, the count
    exceeds the valid sectors. *)
Lemma setup_secs_total_excess min v nr :
  0 < min -> 0 <= v -> (min | nr) -> v mod min <> 0 -> v + min <= nr ->
  forall n i, 0 <= i -> (min | i) -> nr - i <= Z.of_nat n * min ->
  (i <= v -> v - i + v mod min <= setup_secs_total n i min v nr) /\
  (v < i < nr -> v mod min <= setup_secs_total n i min v nr).
Proof.
  intros Hmin Hv Hnr Hr Hpad.
  pose proof (Z.mod_pos_bound v min Hmin) as Hrb.
  induction n as [|n IH]; intros i Hi Hdiv Hfuel; cbn [setup_secs_total]; [lia|].
  destruct (Z.ltb_spec i nr) as [Hlt|Hge]; cbn [negb]; [|lia].
  destruct (IH (i + min) ltac:(lia)
              ltac:(apply Z.divide_add_r; [exact Hdiv | apply Z.divide_refl])
              ltac:(lia)) as [IH1 IH2].
  pose proof (setup_secs_total_nonneg min v nr Hmin n (i + min)) as Hnn.
  destruct (Z.ltb_spec v (i + min)) as [Hpart|Hfullpage].
  - split; [|lia].
    intros Hiv. rewrite (mod_page_boundary min v i) by (assumption || lia).
    assert (i <> v).
    { intros ->. apply Hr. destruct Hdiv as [k ->]. apply Z.mod_mul. lia. }
    assert (v - i = v mod min)
      by (symmetry; apply mod_page_boundary; assumption || lia).
    lia.
  - split; [|lia]. intros _. specialize (IH1 ltac:(lia)). lia.
Qed.

(** [pblk_alloc_w_rq] touches neither the blocks nor the geometry. *)
Lemma pblk_alloc_w_rq_blocks st rqd n st1 rqd1 ret :
  pblk_alloc_w_rq st rqd n = (st1, rqd1, ret) ->
  blocks st1 = blocks st /\ geo st1 = geo st.
Proof.
  unfold pblk_alloc_w_rq, try_alloc. intros H.
  destruct (alloc_script st) as [|[|] rest]; cbn [negb] in H.
  - cbn [alloc_script emit with_log] in H.
    destruct (n =? 1); [injection H as <- _ _; split; reflexivity|].
    destruct (alloc_script st) as [|[|] rest]; cbn [negb] in H;
      injection H as <- _ _; split; reflexivity.
  - destruct (n =? 1); [injection H as <- _ _; split; reflexivity|].
    cbn [alloc_script emit with_log with_alloc_script] in H.
    destruct rest as [|[|] rest2]; cbn [negb] in H;
      injection H as <- _ _; split; reflexivity.
  - injection H as <- _ _. split; reflexivity.
Qed.

(** X30.  How many sectors [pblk_setup_w_rq] records as valid.  The page
    loop passes [valid_secs % min] valid sectors to every page that
    reaches beyond [nr_valid].  When the call answers 0 for a request
    of [nr_valid] valid and [nr_padded] padded sectors (a whole number of
    pages, more than one sector): if the padding is less than a page, or
    the valid sectors fill whole pages, the recovery pages of the blocks
    record exactly [nr_valid] more valid sectors; if a partly valid page
    is followed by a page or more of padding, they record more than
    [nr_valid]. *)
Theorem pblk_setup_w_rq_nr_lbas fuel sched w rqd c w' rqd' sched' :
  let min := min_write_pgs (geo (wr_pblk w)) in
  compl_ctx_of (rq_w_ctx rqd) = Some c ->
  0 < min -> 0 <= nr_valid c -> 0 <= nr_padded c ->
  1 < nr_valid c + nr_padded c -> (min | nr_valid c + nr_padded c) ->
  Forall keeps_nr_lbas sched ->
  pblk_setup_w_rq fuel sched w rqd = Some (w', rqd', 0, sched') ->
  (nr_valid c mod min = 0 \/ nr_padded c < min ->
   total_nr_lbas (wr_pblk w') = total_nr_lbas (wr_pblk w) + nr_valid c) /\
  (nr_valid c mod min <> 0 -> min <= nr_padded c ->
   total_nr_lbas (wr_pblk w) + nr_valid c < total_nr_lbas (wr_pblk w')).
Proof.
  intros min Hc Hmin Hv Hp Hn Hdiv Hs Hrun.
  unfold pblk_setup_w_rq in Hrun. rewrite Hc in Hrun. cbn [mbind option_bind] in Hrun.
  destruct (pblk_alloc_w_rq (wr_pblk w) rqd (nr_valid c + nr_padded c))
    as [[st1 rqd1] ret] eqn:Hal.
  apply pblk_alloc_w_rq_blocks in Hal as [Hb Hg].
  destruct (Z.eqb_spec ret 0) as [-> | Hne]; cbn [negb] in Hrun;
    [|injection Hrun as _ _ Hret _; contradiction].
  destruct (Z.eqb_spec (nr_valid c + nr_padded c) 1) as [|_]; [lia|].
  apply (pblk_setup_w_rq_loop_nr_lbas c min _ fuel Hmin) in Hrun;
    [|cbn [wr_pblk wr_with_pblk]; rewrite Hg; reflexivity | exact Hs].
  assert (Ht : total_nr_lbas (wr_pblk (wr_with_pblk w st1)) = total_nr_lbas (wr_pblk w))
    by (unfold total_nr_lbas; cbn [wr_pblk wr_with_pblk]; now rewrite Hb).
  rewrite Ht in Hrun. rewrite Hrun.
  assert (Hfuel : nr_valid c + nr_padded c - 0
                  <= Z.of_nat (Z.to_nat (nr_valid c + nr_padded c)) * min) by nia.
  split.
  - intros Hreg.
    rewrite (setup_secs_total_exact min (nr_valid c) (nr_valid c + nr_padded c));
      try assumption; try lia.
    apply Z.divide_0_r.
  - intros Hr Hpad.
    destruct (setup_secs_total_excess min (nr_valid c) (nr_valid c + nr_padded c)
                Hmin Hv Hdiv Hr ltac:(lia)
                (Z.to_nat (nr_valid c + nr_padded c)) 0 ltac:(lia)
                (Z.divide_0_r min) Hfuel) as [Hex _].
    specialize (Hex Hv).
    pose proof (Z.mod_pos_bound (nr_valid c) min Hmin). lia.
Qed.

Lemma pblk_setup_w_rq_nr_lbas_witness :
  exists w' rqd',
    pblk_setup_w_rq 1 [] ex_wr_two ex_w_rqd_padded = Some (w', rqd', 0, []) /\
    total_nr_lbas (wr_pblk ex_wr_two) + 1 < total_nr_lbas (wr_pblk w').
Proof.
  destruct (pblk_setup_w_rq 1 [] ex_wr_two ex_w_rqd_padded)
    as [[[[w' rqd'] ret] sched']|] eqn:Hrun; [|vm_compute in Hrun; discriminate Hrun].
  assert (Hret : ret = 0 /\ sched' = []).
  { vm_compute in Hrun. injection Hrun as _ _ <- <-. auto. }
  destruct Hret as [-> ->].
  exists w', rqd'. split; [reflexivity|].
  apply (pblk_setup_w_rq_nr_lbas 1 [] ex_wr_two ex_w_rqd_padded
           {| sentry := 0; nr_valid := 1; nr_padded := 3 |} w' rqd' []);
    try reflexivity; try (vm_compute; intuition discriminate).
  - exists 2. reflexivity.
  - constructor.
Defined.

(* ------------------------------------------------------------------ *)
(** ** Discard, then read *)
(* ------------------------------------------------------------------ *)

(** [pblk_invalidate_range] touches the L2P table and the blocks only. *)
Lemma pblk_invalidate_range_loop_quiet n : forall i st st1,
  pblk_invalidate_range_loop n i st = Some st1 ->
  alloc_script st1 = alloc_script st /\ log st1 = log st /\ rwb st1 = rwb st.
Proof.
  induction n as [|n IH]; intros i st st1 Hrun.
  - injection Hrun as <-. auto.
  - cbn [pblk_invalidate_range_loop] in Hrun.
    destruct (trans_map_get st i) as [gp|]; [|discriminate Hrun].
    cbn [mbind option_bind] in Hrun.
    destruct (rblk gp) as [rb|] eqn:Hrb.
    + destruct (pblk_page_invalidate st gp) as [st0|] eqn:Hinv; [|discriminate Hrun].
      cbn [mbind option_bind] in Hrun. apply IH in Hrun as (A & B & C).
      unfold pblk_page_invalidate in Hinv. rewrite Hrb in Hinv.
      destruct (ppa gp); try discriminate Hinv.
      destruct (blocks st !! rb); [|discriminate Hinv].
      injection Hinv as <-. auto.
    + cbn [mbind option_bind] in Hrun. apply IH in Hrun as (A & B & C). auto.
Qed.

(** The loop of [pblk_setup_seq_reads] over unmapped entries pins
    nothing and collects empty addresses. *)
Lemma pblk_setup_seq_reads_loop_unmapped bl : forall n i st ppas crs locked,
  (forall k, bl + Z.of_nat i <= k < bl + Z.of_nat (i + n) ->
     trans_map_get st k = Some pblk_addr_empty) ->
  (i + n <= length ppas)%nat ->
  exists ppas',
    pblk_setup_seq_reads_loop n (Z.of_nat i) st ppas crs locked bl
    = Some (match n with O => locked | _ => false end, st, ppas', crs) /\
    length ppas' = length ppas /\
    (forall k, (i <= k < i + n)%nat -> ppas' !! k = Some PPA_EMPTY).
Proof.
  induction n as [|n IH]; intros i st ppas crs locked Hemp Hlen.
  - exists ppas. split; [reflexivity|]. split; [reflexivity|]. intros k Hk. lia.
  - cbn [pblk_setup_seq_reads_loop]. rewrite Hemp by lia.
    cbn [mbind option_bind]. unfold pblk_lock_read.
    cbn [pblk_addr_empty ppa nvm_addr_in_cache]. rewrite Nat2Z.id.
    replace (Z.of_nat i + 1) with (Z.of_nat (S i)) by lia.
    destruct (IH (S i) st (<[i := PPA_EMPTY]> ppas) crs false) as (ppas' & Hrun & Hl & Hk).
    { intros k Hk. apply Hemp. lia. }
    { rewrite length_insert. lia. }
    exists ppas'. split.
    { rewrite Hrun. destruct n; reflexivity. }
    split; [now rewrite Hl, length_insert|].
    intros k Hk'. destruct (Nat.eq_dec k i) as [-> | Hne]; [|apply Hk; lia].
    clear Hk. revert Hrun. clear -Hlen.
    (* the later rounds do not touch index i *)
    intros Hrun.
    assert (Hkeep : forall m j st0 pp crs0 lk r,
              pblk_setup_seq_reads_loop m (Z.of_nat j) st0 pp crs0 lk bl = Some r ->
              (i < j)%nat -> r.1.2 !! i = pp !! i).
    { induction m as [|m IHm]; intros j st0 pp crs0 lk r Hr Hij.
      - injection Hr as <-. reflexivity.
      - cbn [pblk_setup_seq_reads_loop] in Hr.
        destruct (trans_map_get st0 (bl + Z.of_nat j)) as [gp|]; [|discriminate Hr].
        cbn [mbind option_bind] in Hr.
        destruct (pblk_lock_read st0 (bl + Z.of_nat j) gp crs0 (Z.of_nat j))
          as [[lk' st'] crs'].
        replace (Z.of_nat j + 1) with (Z.of_nat (S j)) in Hr by lia.
        apply IHm in Hr; [|lia]. rewrite Hr, Nat2Z.id.
        apply list_lookup_insert_ne. lia. }
    apply Hkeep in Hrun; [|lia]. cbn in Hrun. rewrite Hrun.
    apply list_lookup_insert_eq. lia.
Qed.

Lemma setbit_ones i : 0 <= i -> Z.setbit (Z.ones i) i = Z.ones (i + 1).
Proof.
  intros Hi. apply Z.bits_inj'. intros k Hk.
  rewrite Z.setbit_eqb by lia. rewrite !testbit_ones by lia.
  destruct (Z.eqb_spec i k) as [-> | Hne]; cbn [orb].
  - destruct (Z.leb_spec 0 k); destruct (Z.ltb_spec k (k + 1));
      try lia; try reflexivity.
  - destruct (Z.leb_spec 0 k); destruct (Z.ltb_spec k i); destruct (Z.ltb_spec k (i + 1));
      try lia; try reflexivity.
Qed.

(** The classification loop of [pblk_read_ppalist_rq] over empty
    addresses marks the sectors served and does nothing else. *)
Lemma pblk_read_ppalist_rq_loop_unmapped st ppas : forall n i rl,
  (forall k, (i <= k < i + n)%nat -> ppas !! k = Some PPA_EMPTY) ->
  rl_bitmap rl = Z.ones (Z.of_nat i) ->
  pblk_read_ppalist_rq_loop n (Z.of_nat i) st ppas rl
  = Some {| rl_bio := rl_bio rl; rl_rqd := rl_rqd rl;
            rl_bitmap := Z.ones (Z.of_nat (i + n));
            rl_advanced_bio := rl_advanced_bio rl; rl_j := rl_j rl;
            rl_valid_secs := rl_valid_secs rl |}.
Proof.
  induction n as [|n IH]; intros i rl Hemp Hbm.
  - cbn [pblk_read_ppalist_rq_loop]. rewrite Nat.add_0_r, <- Hbm.
    destruct rl; reflexivity.
  - cbn [pblk_read_ppalist_rq_loop]. rewrite Nat2Z.id, (Hemp i) by lia.
    cbn [mbind option_bind ppa_empty].
    replace (Z.of_nat i + 1) with (Z.of_nat (S i)) by lia.
    rewrite IH.
    + cbn [rl_bio rl_rqd rl_advanced_bio rl_j rl_valid_secs].
      replace (S i + n)%nat with (i + S n)%nat by lia. reflexivity.
    + intros k Hk. apply Hemp. lia.
    + cbn [rl_bitmap]. rewrite Hbm. unfold set_bit.
      rewrite setbit_ones by lia. f_equal. lia.
Qed.

(** [pblk_read_ppalist_rq] on a range of unmapped LBAs: every sector is
    marked served; the bio, the request and the instance are as
    before. *)
Lemma pblk_read_ppalist_rq_unmapped st b rqd N :
  let laddr := pblk_get_laddr (consts st) b in
  0 <= laddr -> (N <= PBLK_MAX_REQ_ADDRS)%nat ->
  laddr + Z.of_nat N < pblk_nr_secs st ->
  (forall k, laddr <= k < laddr + Z.of_nat N ->
     trans_map_get st k = Some pblk_addr_empty) ->
  pblk_read_ppalist_rq st b rqd (Z.of_nat N) 0
  = Some (st, b, rqd, Z.ones (Z.of_nat N), NVM_IO_OK).
Proof.
  intros laddr Hl HN Hend Hemp.
  unfold pblk_read_ppalist_rq. fold laddr.
  destruct (Z.leb_spec 0 laddr); [|lia].
  destruct (Z.ltb_spec (laddr + Z.of_nat N) (pblk_nr_secs st)); [|lia].
  cbn [andb negb]. unfold pblk_setup_seq_reads. rewrite Nat2Z.id.
  destruct (pblk_setup_seq_reads_loop_unmapped laddr N O st
              (replicate PBLK_MAX_REQ_ADDRS PPA_EMPTY)
              (replicate PBLK_MAX_REQ_ADDRS false) false)
    as (ppas & Hrun & _ & Hk).
  { intros k Hk. apply Hemp. lia. }
  { rewrite length_replicate. lia. }
  change (Z.of_nat 0) with 0 in Hrun. rewrite Hrun.
  cbn [mbind option_bind].
  change 0 with (Z.of_nat 0) at 1.
  rewrite pblk_read_ppalist_rq_loop_unmapped; [|exact Hk | reflexivity].
  cbn [mbind option_bind rl_bio rl_rqd rl_bitmap].
  destruct N; reflexivity.
Qed.

Lemma bitmap_full_ones n : 0 <= n -> bitmap_full (Z.ones n) n = true.
Proof.
  intros Hn. unfold bitmap_full. rewrite Z.land_diag. apply Z.eqb_refl.
Qed.

(** A read of LBAs that are all unmapped, of one sector or of several
    that end before the last LBA. *)
Lemma pblk_submit_read_unmapped_range st b flags N :
  let laddr := pblk_get_laddr (consts st) b in
  alloc_script st = [] ->
  (1 <= N <= PBLK_MAX_REQ_ADDRS)%nat ->
  pblk_get_secs (consts st) b = Z.of_nat N -> bi_vcnt b = Z.of_nat N ->
  0 <= laddr -> laddr + Z.of_nat N <= pblk_nr_secs st ->
  pblk_nr_secs st <= ADDR_EMPTY ->
  (N = 1%nat \/ laddr + Z.of_nat N < pblk_nr_secs st) ->
  (forall k, laddr <= k < laddr + Z.of_nat N ->
     trans_map_get st k = Some pblk_addr_empty) ->
  bio_rw_is_read b = true -> ft_sync flags = false -> bi_error b = 0 ->
  exists st' r,
    pblk_submit_read st b flags = Some (st', b, NVM_IO_OK) /\
    log st' = log st ++ [EvAllocRqd READ]
                     ++ (if 1 <? Z.of_nat N then [EvDmaAlloc] else [])
                     ++ [EvBioGet b; EvBioEndio b]
                     ++ (if 1 <? Z.of_nat N then [EvDmaFree] else [])
                     ++ [EvBioPut (Some b); EvFreeRqd READ r] /\
    trans_map st' = trans_map st /\ blocks st' = blocks st /\ rwb st' = rwb st.
Proof.
  intros laddr Ha HN Hn Hv Hl Hin Hmax Hend Hemp Hw Hs He.
  destruct (Nat.eq_dec N 1%nat) as [-> | Hmulti].
  - change (Z.of_nat 1) with 1 in *.
    rewrite (pblk_submit_read_single st st) by (try apply try_alloc_nil; assumption).
    fold laddr.
    rewrite (pblk_read_rq_empty (emit st (EvAllocRqd READ)));
      [|unfold ADDR_EMPTY in *; lia | apply (Hemp laddr); lia].
    cbn [mbind option_bind nvm_io_code]. change (0 =? 0) with true. cbv iota zeta.
    change (bitmap_full (set_bit 0 0) 1) with true. cbv iota.
    change (orig_bio (rq_r_ctx rqd_zero)) with (@None bio).
    rewrite pblk_end_io_read_one by assumption.
    cbn [mbind option_bind].
    eexists _, _. split; [reflexivity|].
    cbn. rewrite <- !app_assoc. cbn. repeat split.
  - destruct Hend as [-> | Hend]; [contradiction|].
    unfold pblk_submit_read. rewrite Hn, Hv.
    unfold PBLK_MAX_REQ_ADDRS in HN.
    rewrite to_int_id by lia. rewrite Z.eqb_refl. cbn [negb].
    rewrite pblk_alloc_rqd_ok by exact Ha.
    destruct (Z.ltb_spec 1 (Z.of_nat N)) as [_|]; [|lia].
    rewrite try_alloc_nil by exact Ha. cbn [negb].
    rewrite (pblk_read_ppalist_rq_unmapped _ b _ N);
      try assumption; try (unfold PBLK_MAX_REQ_ADDRS; lia).
    cbn [mbind option_bind negb].
    rewrite bitmap_full_ones by lia.
    unfold pblk_end_io, pblk_end_io_read.
    cbn [rq_bio rq_with_r_ctx rq_with_head rq_nr_ppas rq_r_ctx
         r_flags orig_bio rq_meta_list rq_with_ppas rqd_zero mbind option_bind].
    rewrite Hw, Hs, He. cbn [negb Z.eqb].
    unfold to_u8. rewrite Z.mod_small by lia.
    destruct (Z.ltb_spec 1 (Z.of_nat N)) as [_|]; [|lia].
    eexists _, _. split; [reflexivity|].
    unfold pblk_free_rqd. cbn [log emit with_log trans_map blocks rwb].
    rewrite <- !app_assoc. cbn [app]. repeat split.
Qed.

(** What holds of discard and the reads that follow it.  On a range that
    lies inside the L2P table, [pblk_discard] returns, and running it a
    second time changes nothing: the L2P table and the blocks (their
    [nr_invalid_secs] and [invalid_bitmap]) are as after the first run.
    Afterwards every LBA of the range is unmapped, and a read that stays
    inside the range -- of one sector, or of several sectors that end
    before the last LBA of the instance -- returns no data:
    [pblk_submit_read] answers [NVM_IO_OK], copies nothing into the bio,
    sends nothing to the device, completes the bio once and leaves the
    L2P table, the blocks and the ring as they are. *)
Theorem pblk_discard_idempotent st b :
  let slba := bi_sector b / NR_PHY_IN_LOG (consts st) in
  let n := bi_size b / PBLK_EXPOSED_PAGE_SIZE (consts st) in
  discard_range_ok st slba n = true ->
  exists st1,
    pblk_discard st b = Some st1 /\
    pblk_discard st1 b = Some st1 /\
    (forall lba, slba <= lba < slba + n ->
       trans_map_get st1 lba = Some pblk_addr_empty /\
       forall rb rqd bm,
         pblk_read_rq st1 rb rqd lba bm = Some (st1, rb, rqd, set_bit 0 bm, NVM_IO_OK)) /\
    forall rb flags N,
      let laddr := pblk_get_laddr (consts st) rb in
      alloc_script st = [] ->
      (1 <= N <= PBLK_MAX_REQ_ADDRS)%nat ->
      pblk_get_secs (consts st) rb = Z.of_nat N -> bi_vcnt rb = Z.of_nat N ->
      slba <= laddr -> laddr + Z.of_nat N <= slba + n ->
      N = 1%nat \/ laddr + Z.of_nat N < pblk_nr_secs st ->
      bio_rw_is_read rb = true -> ft_sync flags = false -> bi_error rb = 0 ->
      exists st2 r,
        pblk_submit_read st1 rb flags = Some (st2, rb, NVM_IO_OK) /\
        log st2 = log st1 ++ [EvAllocRqd READ]
                          ++ (if 1 <? Z.of_nat N then [EvDmaAlloc] else [])
                          ++ [EvBioGet rb; EvBioEndio rb]
                          ++ (if 1 <? Z.of_nat N then [EvDmaFree] else [])
                          ++ [EvBioPut (Some rb); EvFreeRqd READ r] /\
        trans_map st2 = trans_map st1 /\ blocks st2 = blocks st1 /\
        rwb st2 = rwb st1.
Proof.
  intros slba n. unfold pblk_discard, pblk_invalidate_range. fold slba n.
  unfold discard_range_ok. intros Hok.
  repeat (apply andb_true_iff in Hok as [Hok ?]).
  apply Z.leb_le in Hok.
  repeat match goal with H : (_ <=? _) = true |- _ => apply Z.leb_le in H end.
  match goal with H : forallb _ _ = true |- _ => rename H into Hall end.
  rewrite forallb_forall in Hall.
  assert (Hent : forall k, slba <= k < slba + Z.of_nat (Z.to_nat n) ->
            exists gp, trans_map st !! Z.to_nat k = Some gp /\ l2p_entry_ok st gp = true).
  { intros k Hk.
    specialize (Hall (Z.to_nat k)).
    destruct (trans_map st !! Z.to_nat k) as [gp|].
    - exists gp. split; [reflexivity|]. apply Hall. apply in_seq. lia.
    - exfalso. assert (false = true); [|discriminate]. apply Hall. apply in_seq. lia. }
  destruct (pblk_invalidate_range_loop_ok (Z.to_nat n) slba st)
    as (st1 & Hrun & Hns & Hc & Hlen & Hemp & _); [lia | lia | lia | exact Hent |].
  destruct (pblk_invalidate_range_loop_quiet _ _ _ _ Hrun) as (Hal & _ & _).
  exists st1. split; [exact Hrun|].
  rewrite Hc. fold slba n.
  assert (Hget : forall lba, slba <= lba < slba + n ->
            trans_map_get st1 lba = Some pblk_addr_empty).
  { intros lba Hlba. rewrite trans_map_get_in by lia. apply Hemp. lia. }
  split; [|split].
  - apply pblk_invalidate_range_loop_empty; [lia | lia |]. exact Hemp.
  - intros lba Hlba. split; [now apply Hget|].
    intros rb rqd bm. apply pblk_read_rq_empty; [|now apply Hget].
    unfold ADDR_EMPTY in *. lia.
  - intros rb flags N Ha HN Hn Hv Hlo Hhi Hend Hw Hs He.
    apply (pblk_submit_read_unmapped_range st1 rb flags N);
      rewrite ?Hc, ?Hns, ?Hal; try assumption; try lia.
    intros k Hk. apply Hget. lia.
Qed.

Lemma pblk_discard_idempotent_witness :
  let st := ex_pblk_cached in
  let b := ex_bio true 2 7 [] in
  let rb := ex_bio false 3 2 [[Byte.x0a]; [Byte.x0b]] in
  exists st1 st2 r,
    pblk_discard st b = Some st1 /\
    pblk_discard st1 b = Some st1 /\
    trans_map_get st1 3 = Some pblk_addr_empty /\
    trans_map_get st1 4 = Some pblk_addr_empty /\
    pblk_submit_read st1 rb io_none = Some (st2, rb, NVM_IO_OK) /\
    log st2 = log st1 ++ [EvAllocRqd READ; EvDmaAlloc; EvBioGet rb; EvBioEndio rb;
                          EvDmaFree; EvBioPut (Some rb); EvFreeRqd READ r] /\
    trans_map st2 = trans_map st1 /\ blocks st2 = blocks st1 /\ rwb st2 = rwb st1.
Proof.
  intros st b rb.
  destruct (pblk_discard_idempotent st b) as (st1 & H1 & H2 & H3 & H4);
    [vm_compute; reflexivity|].
  destruct (H4 rb io_none 2%nat) as (st2 & r & Hread & Hlog & Hframe);
    [reflexivity | unfold PBLK_MAX_REQ_ADDRS; lia | reflexivity | reflexivity
    |vm_compute; discriminate | vm_compute; discriminate
    |right; vm_compute; reflexivity | reflexivity | reflexivity | reflexivity |].
  assert (H34 : forall lba, 3 <= lba <= 4 -> trans_map_get st1 lba = Some pblk_addr_empty).
  { intros lba Hlba. apply H3. change (2 <= lba < 9). lia. }
  exists st1, st2, r. split; [exact H1|]. split; [exact H2|].
  split; [apply H34; lia|]. split; [apply H34; lia|].
  split; [exact Hread|]. split; [exact Hlog | exact Hframe].
Defined.

(** C9, the failing case.  A read of several sectors does not return
    empty for a discarded LBA.  After LBA 5 has been discarded (its L2P
    entry is empty), a read of LBA 5 alone leaves the page of the bio as
    it was, but a read of LBAs 4 to 6, of which 4 and 6 are in the ring,
    copies the data of LBA 6 into the page of LBA 5 and leaves the third
    page as it was: the [continue] that [pblk_read_ppalist_rq]
    takes for the unmapped sector skips the [bio_advance] at the end of
    the loop body, which the function's own comment says is there "to
    copy data to the right place".  And after LBAs 14 and 15, the last
    two of the instance, have been discarded, the read of the two does
    not return: the range check of [pblk_read_ppalist_rq] is strict
    ([laddr + nr_secs < nr_secs] of the instance), where [pblk_read_rq]
    accepts the last LBA. *)
Theorem pblk_discard_read_shifted :
  let b := ex_bio false 4 3 [[Byte.x0a]; [Byte.x0b]; [Byte.x0c]] in
  match pblk_discard ex_pblk_discard (ex_bio true 5 1 []) with
  | Some st1 =>
      trans_map_get st1 5 = Some pblk_addr_empty /\
      e_data <$> rb_entries (rwb st1) !! 2%nat = Some [Byte.x03] /\
      match pblk_submit_read st1 (ex_bio false 5 1 [[Byte.x0b]]) io_none with
      | Some (_, b1, NVM_IO_OK) => bi_io_vec b1 = [[Byte.x0b]]
      | _ => False
      end /\
      match pblk_submit_read st1 b io_none with
      | Some (_, b', NVM_IO_OK) =>
          bi_io_vec b' = [[Byte.x02]; [Byte.x03]; [Byte.x0c]] /\
          bi_io_vec b' !! 1%nat <> bi_io_vec b !! 1%nat
      | _ => False
      end
  | None => False
  end /\
  match pblk_discard ex_pblk_discard (ex_bio true 14 2 []) with
  | Some st1 =>
      trans_map_get st1 14 = Some pblk_addr_empty /\
      trans_map_get st1 15 = Some pblk_addr_empty /\
      pblk_submit_read st1 (ex_bio false 14 2 [[]; []]) io_none = None
  | None => False
  end.
Proof.
  vm_compute. repeat split; discriminate.
Qed.
